(** * bigint.c: sign-magnitude big integers

    A shallow embedding of [bigint.c] / [bigint.h].  The C code works on
    heap-allocated [struct bigint_st] objects through pointers, and several
    entry points are called with the same object as operand and as
    destination, so the embedding keeps an explicit store of objects and
    passes pointers around, in a state monad whose outcomes distinguish a
    completed call from undefined behaviour of the C program.

    Configuration: [bigint.h] defaults [DIGIT_WIDTH] to 8, so [digit_tt] is
    [uint8_t] and [digit_super_tt] is [uint16_t]; [intmax_t] has 64 bits.
    Operands of type [uint8_t] and [uint16_t] are promoted to [int] before
    any arithmetic, so expressions on digits are exact integer expressions
    and wrap only when they are stored back into a [digit_tt].
    [magnitude_sum_at] is [magnitude_sum] for each of the four widths that
    [bigint.h] offers.

    Values of type [size_t] are natural numbers; a subtraction that would
    wrap around is written out where the code can reach it.  [malloc] and
    [realloc] always succeed: the operations are taken on operands whose
    lengths are far from [SIZE_MAX], with an allocator that has the memory
    they ask for.  [resize_checked] is [resize] without the two
    conventions, with sizes of 64 bits and an allocator that can refuse. *)

From Stdlib Require Import ZArith Lia Ascii String.
From stdpp Require Import base option list gmap strings.

(** ** Configuration constants *)

Definition DIGIT_WIDTH : Z := 8.

(** [sizeof(digit_tt) * CHAR_BIT] *)
Definition DIGIT_BITS : Z := DIGIT_WIDTH.

(** [(digit_tt) -1] *)
Definition DIGIT_MAX : Z := (2 ^ DIGIT_BITS - 1)%Z.

(** [CEIL_DIV(sizeof(intmax_t), sizeof(digit_tt))] with an 8-byte [intmax_t]. *)
Definition DIGITS_FOR_INTMAX : nat := 8.

Definition SMALL_NUMBER_CACHE_MAX : nat := 16.

Definition UINTMAX_BITS : Z := 64.
Definition INTMAX_MAX : Z := (2 ^ 63 - 1)%Z.
Definition INTMAX_MIN : Z := (- 2 ^ 63)%Z.
Definition INTMAX_MIN_MAGNITUDE : Z := (2 ^ 63)%Z.

(** Conversion of an [int] expression to [digit_tt]. *)
Definition to_digit (z : Z) : Z := (z mod 2 ^ DIGIT_BITS)%Z.

(** Conversion to [digit_super_tt]. *)
Definition to_super (z : Z) : Z := (z mod 2 ^ (2 * DIGIT_BITS))%Z.

(** Conversion to [uintmax_t]. *)
Definition to_uintmax (z : Z) : Z := (z mod 2 ^ UINTMAX_BITS)%Z.

(** [POWER_OF_2(x)] *)
Definition POWER_OF_2 (x : Z) : bool := (Z.land (x - 1) x =? 0)%Z.

(** [CEIL_DIV(n, d)] *)
Definition CEIL_DIV (n d : nat) : nat :=
  n / d + (if decide (n mod d = 0) then 0 else 1).

(** ** The store *)

(** [struct bigint_st].  The [digits] member is a pointer into a block
    obtained from [malloc]; it is kept as the contents of that block
    together with the offset of the pointer from the start of the block
    ([bigint_div] moves the pointer). *)
Record bigint_st : Type := mk_bigint {
  bi_block : list Z;
  bi_off : nat;
  bi_allocated : nat;
  bi_length : nat;
  bi_negative : bool
}.

Definition ptr : Type := nat.

Inductive errno_t : Type :=
| ENONE | EDOM | ERANGE | EINVAL | EOVERFLOW | ENOTRECOVERABLE | ENOMEM.

Record state : Type := mk_state {
  st_heap : gmap nat bigint_st;
  st_next : ptr;                       (* next address handed out by malloc *)
  st_errno : errno_t;
  st_cache : list ptr;                 (* small_number_cache *)
  st_init_done : bool;
  st_junk : Z                          (* contents of uninitialised memory *)
}.

Inductive outcome (A : Type) : Type :=
| Done (a : A)
| Undefined     (* undefined behaviour: access outside a block, dead pointer *)
| OutOfFuel.      (* a loop ran out of fuel *)
Arguments Done {A} a.
Arguments Undefined {A}.
Arguments OutOfFuel {A}.

Definition M (A : Type) : Type := state -> outcome (A * state).

Definition ret {A} (a : A) : M A := fun s => Done (a, s).

Definition bind {A B} (m : M A) (k : A -> M B) : M B :=
  fun s => match m s with
           | Done (a, s') => k a s'
           | Undefined => Undefined
           | OutOfFuel => OutOfFuel
           end.

Notation "'let*' x ':=' m 'in' k" := (bind m (fun x => k))
  (at level 10, x pattern, m at level 100, k at level 200).
Notation "m ';;' k" := (bind m (fun _ => k))
  (at level 100, k at level 200, right associativity).

Definition undefined {A} : M A := fun _ => Undefined.
Definition out_of_fuel {A} : M A := fun _ => OutOfFuel.

Definition set_heap (h : gmap nat bigint_st) (s : state) : state :=
  mk_state h (st_next s) (st_errno s) (st_cache s) (st_init_done s) (st_junk s).

Definition set_errno (e : errno_t) : M unit :=
  fun s => Done (tt, mk_state (st_heap s) (st_next s) e (st_cache s)
                              (st_init_done s) (st_junk s)).

Definition get_errno : M errno_t := fun s => Done (st_errno s, s).

Definition junk : M Z := fun s => Done (st_junk s, s).

(** Dereference of a [bigint_st *]. *)
Definition load (p : ptr) : M bigint_st :=
  fun s => match st_heap s !! p with
           | Some x => Done (x, s)
           | None => Undefined
           end.

Definition store (p : ptr) (x : bigint_st) : M unit :=
  fun s => match st_heap s !! p with
           | Some _ => Done (tt, set_heap (<[p := x]> (st_heap s)) s)
           | None => Undefined
           end.

(** [malloc(sizeof(bigint_st))] followed by the initialisation of the
    members. *)
Definition alloc (x : bigint_st) : M ptr :=
  fun s => Done (st_next s,
                 mk_state (<[st_next s := x]> (st_heap s)) (S (st_next s))
                          (st_errno s) (st_cache s) (st_init_done s)
                          (st_junk s)).

(** [bigint_free]: both the digit block and the structure are released. *)
Definition bigint_free (p : ptr) : M unit :=
  fun s => match st_heap s !! p with
           | Some x =>
               match bi_off x with
               | O => Done (tt, set_heap (delete p (st_heap s)) s)
               | S _ => Undefined
               end
           | None => Undefined
           end.

(** Member updates. *)
Definition with_block (b : list Z) (x : bigint_st) : bigint_st :=
  mk_bigint b (bi_off x) (bi_allocated x) (bi_length x) (bi_negative x).
Definition with_off (o : nat) (x : bigint_st) : bigint_st :=
  mk_bigint (bi_block x) o (bi_allocated x) (bi_length x) (bi_negative x).
Definition with_allocated (a : nat) (x : bigint_st) : bigint_st :=
  mk_bigint (bi_block x) (bi_off x) a (bi_length x) (bi_negative x).
Definition with_length (n : nat) (x : bigint_st) : bigint_st :=
  mk_bigint (bi_block x) (bi_off x) (bi_allocated x) n (bi_negative x).
Definition with_negative (b : bool) (x : bigint_st) : bigint_st :=
  mk_bigint (bi_block x) (bi_off x) (bi_allocated x) (bi_length x) b.

Definition get_length (p : ptr) : M nat :=
  let* x := load p in ret (bi_length x).
Definition get_allocated (p : ptr) : M nat :=
  let* x := load p in ret (bi_allocated x).
Definition get_negative (p : ptr) : M bool :=
  let* x := load p in ret (bi_negative x).
Definition set_length (p : ptr) (n : nat) : M unit :=
  let* x := load p in store p (with_length n x).
Definition set_negative (p : ptr) (b : bool) : M unit :=
  let* x := load p in store p (with_negative b x).

(** [p->digits[i]] as an rvalue. *)
Definition rd (p : ptr) (i : nat) : M Z :=
  let* x := load p in
  match bi_block x !! (bi_off x + i) with
  | Some v => ret v
  | None => undefined
  end.

(** [p->digits[i] = v]. *)
Definition wr (p : ptr) (i : nat) (v : Z) : M unit :=
  let* x := load p in
  if decide (bi_off x + i < length (bi_block x))
  then store p (with_block (<[bi_off x + i := v]> (bi_block x)) x)
  else undefined.

(** ** Loops *)

(** [for (i = lo; i < lo + n; i++) body], without [break]. *)
Fixpoint for_range {St} (n : nat) (lo : nat) (body : nat -> St -> M St)
  (s : St) : M St :=
  match n with
  | O => ret s
  | S n' => let* s' := body lo s in for_range n' (S lo) body s'
  end.

(** The same with [break]: the body returns [inr] to leave the loop. *)
Fixpoint for_break {St} (n : nat) (lo : nat)
  (body : nat -> St -> M (St + St)) (s : St) : M St :=
  match n with
  | O => ret s
  | S n' =>
      let* r := body lo s in
      match r with
      | inl s' => for_break n' (S lo) body s'
      | inr s' => ret s'
      end
  end.

(** A loop whose exit depends on the data: [inl] continues with a new loop
    state, [inr] leaves the loop with a result. *)
Fixpoint loop {St R} (fuel : nat) (body : St -> M (St + R)) (s : St)
  : M R :=
  match fuel with
  | O => out_of_fuel
  | S fuel' =>
      let* r := body s in
      match r with
      | inl s' => loop fuel' body s'
      | inr v => ret v
      end
  end.

(** ** Allocation helpers *)

(** [memset(x->digits + from, 0, n * sizeof(digit_tt))] on a block, in
    bounds. *)
Fixpoint zero_fill (n : nat) (from : nat) (b : list Z) : list Z :=
  match n with
  | O => b
  | S n' => zero_fill n' (S from) (<[from := 0%Z]> b)
  end.

(** The [while] loop of [resize] that doubles [x->allocated]; when doubling
    does not increase it, the exact length is taken. *)
Fixpoint resize_grow (fuel : nat) (length original_allocated allocated : nat)
  : nat :=
  match fuel with
  | O => allocated
  | S fuel' =>
      if decide (allocated <= length) then
        let allocated' := 2 * allocated in
        if decide (allocated' <= original_allocated) then length
        else resize_grow fuel' length original_allocated allocated'
      else allocated
  end.

(** [realloc] of a block to [n] digits: the old contents are kept, the new
    tail is uninitialised.  [resize] then clears the digits from the old
    capacity on; a [digits] pointer that was moved off the start of its
    block cannot be passed to [realloc]. *)
Definition realloc_block (j : Z) (b : list Z) (n : nat) : list Z :=
  take n (b ++ replicate (n - length b) j).

Definition resize (p : ptr) (length : nat) : M Z :=
  let* x := load p in
  let original_allocated := bi_allocated x in
  let allocated := resize_grow (S length) length original_allocated
                     original_allocated in
  (if decide (original_allocated < allocated) then
     match bi_off x with
     | O =>
         let* j := junk in
         let b := realloc_block j (bi_block x) allocated in
         store p (with_allocated allocated
                    (with_block
                       (zero_fill (allocated - original_allocated)
                          original_allocated b) x))
     | S _ => undefined
     end
   else ret tt) ;;
  set_length p length ;;
  ret 0%Z.

(** [resize_sum]: with natural numbers the sum does not wrap around, and
    the test [sum < a] that answers a wrap-around with [EOVERFLOW] never
    holds. *)
Definition resize_sum (p : ptr) (a b : nat) : M Z :=
  resize p (a + b).

(** *** An allocator that can refuse

    [resize] above takes the values of type [size_t] as natural numbers and
    an allocator that grants every request.  [resize_checked] is the same
    function with the two made explicit: [x->allocated *= 2] is reduced
    modulo [2 ^ 64], and [grants n] tells whether [realloc] grants a block
    of [n] digits. *)

Definition SIZE_MAX : Z := (2 ^ 64 - 1)%Z.

(** [sizeof(digit_tt)] *)
Definition DIGIT_SIZE : Z := (DIGIT_BITS / 8)%Z.

(** Conversion to [size_t], which has 64 bits. *)
Definition to_size (z : Z) : Z := (z mod 2 ^ 64)%Z.

(** The [while] loop of [resize] on [size_t] values.  After 64 doublings
    [x->allocated] is 0, so the loop is left within 65 rounds. *)
Fixpoint resize_grow_size (fuel : nat) (length original_allocated allocated : Z)
  : Z :=
  match fuel with
  | O => allocated
  | S fuel' =>
      if decide (allocated <= length)%Z then
        let allocated' := to_size (2 * allocated) in
        if decide (allocated' <= original_allocated)%Z then length
        else resize_grow_size fuel' length original_allocated allocated'
      else allocated
  end.

(** [resize].  [safe_reallocarray] refuses a request of more than
    [SIZE_MAX] bytes with [EOVERFLOW] and passes any other to [realloc],
    which leaves [ENOMEM] in [errno] when it fails (POSIX).  After a
    failure [x->allocated] is set back, so the structure is as it was. *)
Definition resize_checked (grants : nat -> bool) (p : ptr) (length : nat)
  : M Z :=
  let* x := load p in
  let original_allocated := bi_allocated x in
  let allocated :=
    Z.to_nat (resize_grow_size 65 (Z.of_nat length)
                (Z.of_nat original_allocated)
                (Z.of_nat original_allocated)) in
  if decide (original_allocated < allocated) then
    if decide (SIZE_MAX / DIGIT_SIZE < Z.of_nat allocated)%Z then
      set_errno EOVERFLOW ;; ret (-1)%Z
    else
      match bi_off x with
      | O =>
          if grants allocated then
            let* j := junk in
            let b := realloc_block j (bi_block x) allocated in
            store p (with_allocated allocated
                       (with_block
                          (zero_fill (allocated - original_allocated)
                             original_allocated b) x)) ;;
            set_length p length ;;
            ret 0%Z
          else set_errno ENOMEM ;; ret (-1)%Z
      | S _ => undefined
      end
  else
    set_length p length ;;
    ret 0%Z.

(** [memcpy(dst + doff, src + soff, n * sizeof(digit_tt))]; [None] when a
    range leaves its block. *)
Definition memcpy (dst : list Z) (doff : nat) (src : list Z) (soff n : nat)
  : option (list Z) :=
  if decide (soff + n <= length src /\ doff + n <= length dst)
  then Some (take doff dst ++ take n (drop soff src) ++ drop (doff + n) dst)
  else None.

(** ** Tests against zero *)

Definition bigint_eqz (x : ptr) : M bool :=
  let* n := get_length x in ret (bool_decide (n = 0)).

Definition bigint_nez (x : ptr) : M bool :=
  let* n := get_length x in ret (bool_decide (n <> 0)).

Definition bigint_ltz (x : ptr) : M bool := get_negative x.

Definition bigint_lez (x : ptr) : M bool :=
  let* v := load x in ret (bool_decide (bi_length v = 0) || bi_negative v).

Definition bigint_gtz (x : ptr) : M bool :=
  let* v := load x in
  ret (negb (bi_negative v) && bool_decide (bi_length v <> 0)).

Definition bigint_gez (x : ptr) : M bool :=
  let* v := load x in ret (negb (bi_negative v)).

Definition bigint_is_power_of_2 (x : ptr) : M bool :=
  let* z := bigint_eqz x in
  if z then ret false else
  let* len := get_length x in
  let* nonzero :=
    for_break (len - 1) 0
      (fun n _ =>
         let* d := rd x n in
         if decide (d <> 0%Z) then ret (inr true) else ret (inl false))
      false in
  if nonzero then ret false else
  let* top := rd x (len - 1) in
  ret (POWER_OF_2 top).

(** ** Duplication and assignment *)

Definition bigint_dup (x : ptr) : M ptr :=
  let* vx := load x in
  let zeroed := replicate (bi_allocated vx) 0%Z in
  if decide (bi_length vx <> 0) then
    match memcpy zeroed 0 (bi_block vx) (bi_off vx) (bi_length vx) with
    | Some b =>
        alloc (mk_bigint b 0 (bi_allocated vx) (bi_length vx) (bi_negative vx))
    | None => undefined
    end
  else
    alloc (mk_bigint zeroed 0 (bi_allocated vx) (bi_length vx)
                     (bi_negative vx)).

Definition bigint_mov (dest src : ptr) : M Z :=
  if decide (dest = src) then ret 0%Z else
  let* vs := load src in
  let* vd := load dest in
  (if decide (bi_allocated vd < bi_length vs)
   then resize dest (bi_length vs) ;; ret tt
   else ret tt) ;;
  let* vs := load src in
  let* vd := load dest in
  match memcpy (bi_block vd) (bi_off vd) (bi_block vs) (bi_off vs)
               (bi_length vs) with
  | Some b =>
      store dest (with_block b vd) ;;
      set_length dest (bi_length vs) ;;
      ret 0%Z
  | None => undefined
  end.

(** The loop shared by [bigint_movi] and [bigint_movui]:
    [while (magnitude != 0) { dest->digits[offset++] = magnitude & DIGIT_MAX;
    magnitude >>= DIGIT_BITS; }].  A [uintmax_t] is exhausted after
    [DIGITS_FOR_INTMAX] rounds. *)
Definition mov_magnitude (dest : ptr) (magnitude : Z) : M nat :=
  loop (S DIGITS_FOR_INTMAX)
    (fun '(offset, magnitude) =>
       if decide (magnitude <> 0%Z) then
         wr dest offset (Z.land magnitude DIGIT_MAX) ;;
         ret (inl (S offset, Z.shiftr magnitude DIGIT_BITS))
       else ret (inr offset))
    (0, magnitude).

Definition bigint_movi (dest : ptr) (src : Z) : M unit :=
  set_negative dest (bool_decide (src < 0)%Z) ;;
  if decide (src = 0%Z) then set_length dest 0 else
  let magnitude :=
    if decide (0 < src)%Z then to_uintmax src
    else if decide (src = INTMAX_MIN) then INTMAX_MIN_MAGNITUDE
    else to_uintmax (- src) in
  if decide (UINTMAX_BITS <= DIGIT_BITS)%Z then
    set_length dest 1 ;; wr dest 0 (to_digit magnitude)
  else
    let* offset := mov_magnitude dest magnitude in
    set_length dest offset.

Definition bigint_movui (dest : ptr) (src : Z) : M unit :=
  set_negative dest false ;;
  if decide (src = 0%Z) then set_length dest 0
  else if decide (UINTMAX_BITS <= DIGIT_BITS)%Z then
    set_length dest 1 ;; wr dest 0 (to_digit src)
  else
    let* offset := mov_magnitude dest src in
    set_length dest offset.

(** [bigint_from_uint]/[bigint_from_int]: the digit block comes from
    [safe_calloc], which calls [malloc] and does not clear it. *)
Definition bigint_from_uint (value : Z) : M ptr :=
  let* j := junk in
  let allocated := 2 * DIGITS_FOR_INTMAX in
  let* x := alloc (mk_bigint (replicate allocated j) 0 allocated 0 false) in
  bigint_movui x value ;;
  ret x.

Definition bigint_from_int (value : Z) : M ptr :=
  let* j := junk in
  let allocated := 2 * DIGITS_FOR_INTMAX in
  let* x := alloc (mk_bigint (replicate allocated j) 0 allocated 0 false) in
  bigint_movi x value ;;
  ret x.

(** ** Magnitude core *)

(** [clz]: leading zero bits of the most significant digit.  The mask
    becomes 0 after [DIGIT_BITS] shifts and the loop would not end. *)
Definition clz (x : ptr) : M nat :=
  let* len := get_length x in
  if decide (len = 0) then undefined else
  let* msd := rd x (len - 1) in
  loop (S (Z.to_nat DIGIT_BITS))
    (fun '(result, mask) =>
       if decide (Z.land mask msd = 0%Z)
       then ret (inl (S result, Z.shiftr mask 1))
       else ret (inr result))
    (0, to_digit (Z.shiftl 1 (DIGIT_BITS - 1))).

(** The inner [while] of [ctz] on a non-zero digit. *)
Definition ctz_digit (digit : Z) : M nat :=
  loop (S (Z.to_nat DIGIT_BITS))
    (fun '(result, digit) =>
       if decide (Z.land digit 1 = 0%Z)
       then ret (inl (S result, Z.shiftr digit 1))
       else ret (inr result))
    (0, digit).

Definition ctz (x : ptr) : M nat :=
  let* len := get_length x in
  for_break len 0
    (fun n result =>
       let* digit := rd x n in
       if decide (digit = 0%Z) then ret (inl (result + Z.to_nat DIGIT_BITS))
       else
         let* k := ctz_digit digit in
         ret (inr (result + k)))
    0.

(** The [while] loop of [normalize], by recursion on [x->length]. *)
Fixpoint normalize_loop (n : nat) (x : ptr) : M unit :=
  match n with
  | O => ret tt
  | S n' =>
      let* d := rd x n' in
      if decide (d = 0%Z) then set_length x n' ;; normalize_loop n' x
      else ret tt
  end.

Definition normalize (x : ptr) : M unit :=
  let* n := get_length x in
  normalize_loop n x ;;
  let* n := get_length x in
  if decide (n = 0) then set_negative x false else ret tt.

Definition magnitude_dec (x : ptr) : M Z :=
  let* d0 := rd x 0 in
  wr x 0 (to_digit (d0 - 1)) ;;
  let* d0 := rd x 0 in
  (if decide (d0 = DIGIT_MAX) then
     let* len := get_length x in
     for_break (len - 1) 1
       (fun i _ =>
          let* di := rd x i in
          if decide (di <> 0%Z) then
            wr x i (to_digit (di - 1)) ;; ret (inr tt)
          else
            wr x i DIGIT_MAX ;; ret (inl tt))
       tt
   else ret tt) ;;
  normalize x ;;
  ret 0%Z.

Definition magnitude_inc (x : ptr) : M Z :=
  let* len := get_length x in
  let* carry :=
    for_range len 0
      (fun i carry =>
         let* xi := rd x i in
         let sum := to_digit (xi + carry) in
         let carry := if decide (sum < xi)%Z then 1%Z else 0%Z in
         wr x i (Z.land sum DIGIT_MAX) ;;
         ret carry)
      1%Z in
  (if decide (carry <> 0%Z) then
     let* len := get_length x in
     resize_sum x len 1 ;;
     let* len := get_length x in
     wr x (len - 1) carry
   else ret tt) ;;
  normalize x ;;
  ret 0%Z.

(** [(a > b) - (a < b)] *)
Definition cmp3 {A} (lt : A -> A -> bool) (a b : A) : Z :=
  ((if lt b a then 1 else 0) - (if lt a b then 1 else 0))%Z.

(** The [while (1)] loop of [magnitude_cmp], by recursion on [index]: the
    loop is left when the two digits are equal, or after index 0. *)
Fixpoint magnitude_cmp_loop (index : nat) (a b : ptr) : M Z :=
  let* a_digit := rd a index in
  let* b_digit := rd b index in
  let cmp := cmp3 Z.ltb a_digit b_digit in
  if decide (cmp = 0%Z) then ret cmp else
  match index with
  | O => ret cmp
  | S index' => magnitude_cmp_loop index' a b
  end.

Definition magnitude_cmp (a b : ptr) : M Z :=
  let* la := get_length a in
  let* lb := get_length b in
  if decide (la <> 0 /\ la = lb) then magnitude_cmp_loop (la - 1) a b
  else ret (cmp3 Nat.ltb la lb).

(** The borrow loop of [magnitude_delta]:
    [for (j = i + 1; j < m_length; j++)]. *)
Definition borrow_loop (m : ptr) (i m_length : nat) : M unit :=
  for_break (m_length - (i + 1)) (i + 1)
    (fun j _ =>
       let* mj := rd m j in
       if decide (mj <> 0%Z) then
         wr m j (to_digit (mj - 1)) ;; ret (inr tt)
       else
         wr m j DIGIT_MAX ;; ret (inl tt))
    tt.

Definition magnitude_delta (dest m s : ptr) : M (option ptr) :=
  let* m_length := get_length m in
  let* s_length := get_length s in
  resize dest m_length ;;
  let* (m, copied_minuend) :=
    for_range m_length 0
      (fun i '(m, copied_minuend) =>
         if decide (i < s_length) then
           let* mi := rd m i in
           let* si := rd s i in
           let* (m, copied_minuend) :=
             (if decide (mi < si)%Z then
                let* (m, copied_minuend) :=
                  (if decide (m <> dest /\ copied_minuend = false) then
                     let* m' := bigint_dup m in ret (m', true)
                   else ret (m, copied_minuend)) in
                borrow_loop m i m_length ;;
                ret (m, copied_minuend)
              else ret (m, copied_minuend)) in
           let* mi := rd m i in
           let* si := rd s i in
           wr dest i (to_digit (mi - si)) ;;
           ret (m, copied_minuend)
         else
           let* mi := rd m i in
           wr dest i mi ;;
           ret (m, copied_minuend))
      (m, false) in
  (if copied_minuend then bigint_free m else ret tt) ;;
  normalize dest ;;
  ret (Some dest).

(** [MAGNITUDE_RDELTA(a, b)] *)
Definition MAGNITUDE_RDELTA (a b : ptr) : M (option ptr) :=
  magnitude_delta a a b.

(** [magnitude_sum].  In a column [sum] is a [digit_tt] and [carry] a
    [bool].  In the carry test [(sum - carry) < a->digits[offset]] both
    sides are promoted to [int]: the difference is not reduced modulo 256
    and is -1 when [sum] is 0 and [carry] is set. *)
Definition magnitude_sum (dest a b : ptr) : M (option ptr) :=
  let* a_length := get_length a in
  let* b_length := get_length b in
  let max_length := if decide (b_length < a_length) then a_length
                    else b_length in
  let* za := bigint_eqz a in
  let* zb := bigint_eqz b in
  (if za && zb then bigint_movui dest 0
   else
     resize dest max_length ;;
     let* carry :=
       for_range max_length 0
         (fun offset (carry : Z) =>
            let* (sum, carry) :=
              (if decide (a_length <= offset) then
                 let* bo := rd b offset in
                 let sum := to_digit (bo + carry) in
                 ret (sum, if decide (sum < bo)%Z then 1%Z else 0%Z)
               else if decide (b_length <= offset) then
                 let* ao := rd a offset in
                 let sum := to_digit (ao + carry) in
                 ret (sum, if decide (sum < ao)%Z then 1%Z else 0%Z)
               else
                 let* ao := rd a offset in
                 let* bo := rd b offset in
                 let sum := to_digit (ao + bo + carry) in
                 ret (sum, if decide (sum - carry < ao)%Z then 1%Z else 0%Z))
            in
            wr dest offset sum ;;
            ret carry)
         0%Z in
     if decide (carry <> 0%Z) then
       let* len := get_length dest in
       resize_sum dest len 1 ;;
       wr dest max_length carry
     else ret tt) ;;
  normalize dest ;;
  ret (Some dest).

(** *** The other digit widths

    [bigint.h] takes [DIGIT_WIDTH] from the command line of the compiler: 8,
    16, 32 or 64, with [uint8_t], [uint16_t], [uint32_t] or [uint64_t] as
    [digit_tt].  [magnitude_sum] depends on the width in the arithmetic of
    its columns only.  A [digit_tt] narrower than [int] is promoted to
    [int], so with 8 and 16 bits [sum - carry] is the exact difference.
    [uint32_t] and [uint64_t] are not promoted: [carry] is converted to the
    type of [sum], and the difference is reduced modulo [2 ^ w]. *)

(** Conversion to a [digit_tt] of [w] bits. *)
Definition to_digit_at (w : Z) (z : Z) : Z := (z mod 2 ^ w)%Z.

(** [sum - carry] for a [sum] of [w] bits. *)
Definition sum_minus_carry (w : Z) (sum carry : Z) : Z :=
  if decide (w < 32)%Z then (sum - carry)%Z else to_digit_at w (sum - carry).

(** [magnitude_sum] in the build with [DIGIT_WIDTH = w]. *)
Definition magnitude_sum_at (w : Z) (dest a b : ptr) : M (option ptr) :=
  let* a_length := get_length a in
  let* b_length := get_length b in
  let max_length := if decide (b_length < a_length) then a_length
                    else b_length in
  let* za := bigint_eqz a in
  let* zb := bigint_eqz b in
  (if za && zb then bigint_movui dest 0
   else
     resize dest max_length ;;
     let* carry :=
       for_range max_length 0
         (fun offset (carry : Z) =>
            let* (sum, carry) :=
              (if decide (a_length <= offset) then
                 let* bo := rd b offset in
                 let sum := to_digit_at w (bo + carry) in
                 ret (sum, if decide (sum < bo)%Z then 1%Z else 0%Z)
               else if decide (b_length <= offset) then
                 let* ao := rd a offset in
                 let sum := to_digit_at w (ao + carry) in
                 ret (sum, if decide (sum < ao)%Z then 1%Z else 0%Z)
               else
                 let* ao := rd a offset in
                 let* bo := rd b offset in
                 let sum := to_digit_at w (ao + bo + carry) in
                 ret (sum,
                      if decide (sum_minus_carry w sum carry < ao)%Z
                      then 1%Z else 0%Z))
            in
            wr dest offset sum ;;
            ret carry)
         0%Z in
     if decide (carry <> 0%Z) then
       let* len := get_length dest in
       resize_sum dest len 1 ;;
       wr dest max_length carry
     else ret tt) ;;
  normalize dest ;;
  ret (Some dest).

(** ** Comparison, increment, decrement *)

Definition bigint_cmp (a b : ptr) : M Z :=
  let* na := get_negative a in
  let* nb := get_negative b in
  if decide (na = nb) then
    let* cmp := magnitude_cmp a b in
    ret (if na then (- cmp)%Z else cmp)
  else ret (if na then (-1)%Z else 1%Z).

Definition bigint_min (a b : ptr) : M ptr :=
  let* c := bigint_cmp a b in ret (if decide (c <= 0)%Z then a else b).

Definition bigint_max (a b : ptr) : M ptr :=
  let* c := bigint_cmp a b in ret (if decide (0 <= c)%Z then a else b).

Definition bigint_inc (x : ptr) : M Z :=
  let* neg := bigint_ltz x in
  if neg then magnitude_dec x else magnitude_inc x.

Definition bigint_dec (x : ptr) : M Z :=
  let* z := bigint_eqz x in
  if z then
    set_length x 1 ;;
    wr x 0 1%Z ;;
    set_negative x true ;;
    ret 0%Z
  else
    let* neg := bigint_ltz x in
    if neg then magnitude_inc x else magnitude_dec x.

(** ** Addition and subtraction *)

(** A destination argument that may be [NULL]: allocate with
    [bigint_from_int(v)] when it is. *)
Definition dest_or_new (dest : option ptr) (v : Z) : M (ptr * bool) :=
  match dest with
  | Some d => ret (d, false)
  | None => let* d := bigint_from_int v in ret (d, true)
  end.

Definition free_if (c : bool) (p : ptr) : M unit :=
  if c then bigint_free p else ret tt.

Definition bigint_add (dest : option ptr) (a b : ptr) : M (option ptr) :=
  let* (dest, free_dest_on_error) := dest_or_new dest 0 in
  let* cmp := magnitude_cmp a b in
  let* na := get_negative a in
  let* nb := get_negative b in
  let* result :=
    (if decide (na = nb) then
       set_negative dest na ;; magnitude_sum dest a b
     else if decide (0 < cmp)%Z then
       set_negative dest na ;; magnitude_delta dest a b
     else if decide (cmp < 0)%Z then
       set_negative dest nb ;; magnitude_delta dest b a
     else
       bigint_movui dest 0 ;; ret (Some dest)) in
  free_if (bool_decide (result = None) && free_dest_on_error) dest ;;
  ret result.

Definition bigint_sub (dest : option ptr) (a b : ptr) : M (option ptr) :=
  let* (dest, free_dest_on_error) :=
    match dest with
    | Some d =>
        (if decide (d <> a /\ d <> b) then bigint_movui d 0 else ret tt) ;;
        ret (d, false)
    | None => let* d := bigint_from_int 0 in ret (d, true)
    end in
  let* cmp := magnitude_cmp a b in
  let* na := get_negative a in
  let* nb := get_negative b in
  let* result :=
    (if negb na && negb nb then
       if decide (0 <= cmp)%Z then
         let* r := magnitude_delta dest a b in
         set_negative dest false ;; ret r
       else
         let* r := magnitude_delta dest b a in
         set_negative dest true ;; ret r
     else if negb na && nb then
       let* r := magnitude_sum dest a b in
       set_negative dest false ;; ret r
     else if na && negb nb then
       let* r := magnitude_sum dest a b in
       let* len := get_length dest in
       set_negative dest (bool_decide (len <> 0)) ;; ret r
     else if decide (0 <= cmp)%Z then
       let* r := magnitude_delta dest a b in
       let* len := get_length dest in
       set_negative dest (bool_decide (len <> 0)) ;; ret r
     else
       let* r := magnitude_delta dest b a in
       set_negative dest false ;; ret r) in
  free_if (bool_decide (result = None) && free_dest_on_error) dest ;;
  ret result.

(** ** Shifts *)

(** [memset(p->digits, 0, n * sizeof(digit_tt))] *)
Definition memset0 (p : ptr) (n : nat) : M unit :=
  for_range n 0 (fun i _ => wr p i 0%Z) tt.

(** The [done:] label shared by both shifts. *)
Definition shift_done (dest x : ptr) : M (option ptr) :=
  let* neg := get_negative x in
  set_negative dest neg ;;
  normalize dest ;;
  ret (Some dest).

(** [INT_MAX] of a 32-bit [int]. *)
Definition INT_MAX : Z := (2 ^ 31 - 1)%Z.

(** Conversion of a [size_t] to [int].  A value that [int] represents is
    kept; for any other the result is implementation-defined, and is the
    value reduced modulo [2^32] into the range of [int], which is what GCC
    and Clang do. *)
Definition to_int (z : Z) : Z := ((z + 2 ^ 31) mod 2 ^ 32 - 2 ^ 31)%Z.

(** [p->digits[i]] as an rvalue, for an index of type [int]: a negative
    index leaves the block. *)
Definition rd_at (p : ptr) (i : Z) : M Z :=
  if decide (i < 0)%Z then undefined else rd p (Z.to_nat i).

(** [bigint_shli].  In the loop of the shift that is not aligned with the
    digits, [from] is an [int]: it is [(int) (original_length - i)], it is
    compared with [(int) original_length], and it is converted back to
    [size_t] in the index of the digit that is written. *)
Definition bigint_shli (dest : option ptr) (x : ptr) (n : nat)
  : M (option ptr) :=
  let* dest := match dest with
               | Some d => ret d
               | None => bigint_dup x
               end in
  let* zx := bigint_eqz x in
  if bool_decide (n = 0) || zx then
    bigint_mov dest x ;;
    shift_done dest x
  else
    let offset := n mod Z.to_nat DIGIT_BITS in
    let* original_length := get_length x in
    let new_digits := n / Z.to_nat DIGIT_BITS
                      + (if decide (offset <> 0) then 1 else 0) in
    resize_sum dest original_length new_digits ;;
    (if decide (offset = 0) then
       for_range original_length 0
         (fun i _ =>
            let* v := rd x (original_length - 1 - i) in
            wr dest (original_length - 1 - i + new_digits) v)
         tt
     else
       let msb_shift := (DIGIT_BITS - Z.of_nat offset)%Z in
       for_range (S original_length) 0
         (fun i _ =>
            let from := to_int (Z.of_nat (original_length - i)) in
            let* msb := (if decide (from < 1)%Z then ret 0%Z
                         else rd_at x (from - 1)) in
            let* lsb := (if decide (to_int (Z.of_nat original_length)
                                    <= from)%Z
                         then ret 0%Z
                         else rd_at x from) in
            wr dest
               (Z.to_nat (to_size (to_size from + Z.of_nat new_digits - 1)))
               (Z.land (Z.lor (Z.shiftl lsb (Z.of_nat offset))
                              (Z.shiftr msb msb_shift))
                       DIGIT_MAX))
         tt) ;;
    memset0 dest (new_digits - (if decide (offset <> 0) then 1 else 0)) ;;
    shift_done dest x.

Definition bigint_shri (dest : option ptr) (x : ptr) (n : nat)
  : M (option ptr) :=
  let* dest := match dest with
               | Some d => ret d
               | None => bigint_dup x
               end in
  let* zx := bigint_eqz x in
  if bool_decide (n = 0) || zx then
    bigint_mov dest x ;;
    shift_done dest x
  else
    let* len := get_length x in
    if decide (Z.to_nat DIGIT_BITS * len <= n) then
      bigint_movui dest 0 ;;
      shift_done dest x
    else
      let offset := n mod Z.to_nat DIGIT_BITS in
      let shifted_digits := n / Z.to_nat DIGIT_BITS
                            + (if decide (offset <> 0) then 1 else 0) in
      (if decide (offset = 0) then
         for_range len 0
           (fun i _ =>
              let* v := rd x (i + shifted_digits) in
              wr dest i v)
           tt
       else
         for_range len 0
           (fun i _ =>
              let from := shifted_digits + i in
              let* lsb := rd x (from - 1) in
              let* xlen := get_length x in
              let* msb := (if decide (from < xlen) then rd x from
                           else ret 0%Z) in
              wr dest i
                 (Z.land DIGIT_MAX
                    (Z.lor (Z.shiftl msb (DIGIT_BITS - Z.of_nat offset))
                           (Z.shiftr lsb (Z.of_nat offset)))))
           tt) ;;
      let* xlen := get_length x in
      resize dest (xlen - shifted_digits
                   + (if decide (offset <> 0) then 1 else 0)) ;;
      shift_done dest x.

(** ** Multiplication *)

(** The [done:] label of [bigint_mul]: when the product was accumulated in a
    duplicate, the duplicate's members are copied over the destination
    ([*original_dest = *dest]) and the duplicate structure is released. *)
Definition mul_done (original_dest : option ptr) (dest a b : ptr)
  : M (option ptr) :=
  let* dest :=
    match original_dest with
    | Some od =>
        if decide (dest <> od) then
          let* v := load dest in
          store od v ;;
          (fun s => Done (tt, set_heap (delete dest (st_heap s)) s)) ;;
          ret od
        else ret dest
    | None => ret dest
    end in
  let* na := get_negative a in
  let* nb := get_negative b in
  set_negative dest (negb (bool_decide (na = nb))) ;;
  normalize dest ;;
  ret (Some dest).

Definition bigint_mul (dest : option ptr) (a b : ptr) : M (option ptr) :=
  let original_dest := dest in
  let* dest :=
    match dest with
    | None => bigint_from_int 0
    | Some d => if decide (d = a \/ d = b) then bigint_dup d else ret d
    end in
  let* za := bigint_eqz a in
  let* zb := bigint_eqz b in
  if za || zb then
    set_length dest 0 ;;
    set_negative dest false ;;
    ret (Some dest)
  else
  let* la := get_length a in
  let* pa := (if decide (1 < la) then bigint_is_power_of_2 a
              else ret false) in
  if pa then
    let* k := ctz a in
    bigint_shli (Some dest) b k ;;
    mul_done original_dest dest a b
  else
  let* lb := get_length b in
  let* pb := (if decide (1 < lb) then bigint_is_power_of_2 b
              else ret false) in
  if pb then
    let* k := ctz b in
    bigint_shli (Some dest) a k ;;
    mul_done original_dest dest a b
  else
  let* za := bigint_eqz a in
  let* zb := bigint_eqz b in
  if za || zb then
    bigint_movui dest 0 ;;
    ret (Some dest)
  else
  resize_sum dest la lb ;;
  let* allocated := get_allocated dest in
  memset0 dest allocated ;;
  let max_factor_length := if decide (lb < la) then la else lb in
  for_range max_factor_length 0
    (fun i _ =>
       let* carry :=
         for_range max_factor_length 0
           (fun j (carry : Z) =>
              let* la := get_length a in
              let* a_i := (if decide (i < la) then rd a i else ret 0%Z) in
              let* lb := get_length b in
              let* b_j := (if decide (j < lb) then rd b j else ret 0%Z) in
              let* dij := rd dest (i + j) in
              let product := to_super (dij + carry + a_i * b_j) in
              let carry := Z.land DIGIT_MAX (Z.shiftr product DIGIT_BITS) in
              let product := Z.land DIGIT_MAX product in
              wr dest (i + j) (to_digit product) ;;
              let* len := get_length dest in
              (if decide (product <> 0%Z /\ len < i + j + 1)
               then set_length dest (i + j + 1) else ret tt) ;;
              ret carry)
           0%Z in
       if decide (carry <> 0%Z) then
         let* len := get_length dest in
         (if decide (len < i + max_factor_length + 1)
          then set_length dest (i + max_factor_length + 1) else ret tt) ;;
         wr dest (i + max_factor_length) (to_digit carry)
       else ret tt)
    tt ;;
  mul_done original_dest dest a b.

(** ** Division *)

(** The remainder argument [bigint_st **r]: [None] when [r] is [NULL],
    [Some None] when [*r] is [NULL], [Some (Some p)] when [*r] is [p]. *)
Definition remainder_arg : Type := option (option ptr).

(** The remainder of the exact fast paths: an existing [*r] is set to 0 with
    [bigint_movui], a missing one is created by [bigint_from_int(0)]. *)
Definition zero_remainder (r : remainder_arg) : M remainder_arg :=
  match r with
  | None => ret None
  | Some (Some p) => bigint_movui p 0 ;; ret (Some (Some p))
  | Some None => let* p := bigint_from_int 0 in ret (Some (Some p))
  end.

(** The [set_signs:] label. *)
Definition set_signs (q : ptr) (r : remainder_arg) (n d : ptr)
  : M (option ptr * remainder_arg) :=
  let r_nez : M bool :=
    match r with
    | None => ret false
    | Some (Some p) => bigint_nez p
    | Some None => undefined
    end in
  let set_r (b : bool) : M unit :=
    match r with
    | Some (Some p) => set_negative p b
    | _ => undefined
    end in
  let* nn := get_negative n in
  let* nd := get_negative d in
  (if nn && nd then
     set_negative q false ;;
     let* c := r_nez in
     if c then set_r true else ret tt
   else if nn && negb nd then
     let* cq := bigint_nez q in
     (if cq then set_negative q true else ret tt) ;;
     let* c := r_nez in
     if c then set_r true else ret tt
   else if negb nn && nd then
     let* cq := bigint_nez q in
     (if cq then set_negative q true else ret tt) ;;
     match r with
     | None => ret tt
     | Some _ => set_r false
     end
   else ret tt) ;;
  ret (Some q, r).

(** [q->digits[q->length - quotient_digits++ - 1] = v]; the index is a
    [size_t] and wraps around when [quotient_digits >= q->length]. *)
Definition put_quotient_digit (q : ptr) (quotient_digits : nat) (v : Z)
  : M nat :=
  let* qlen := get_length q in
  if decide (quotient_digits < qlen) then
    wr q (qlen - quotient_digits - 1) v ;;
    ret (S quotient_digits)
  else undefined.

(** The [while (cmp < 0)] loop of the long division, by recursion on
    [hidden_digits].  The result is [inr] for [goto quotient_complete]. *)
Fixpoint unveil_loop (hidden_digits : nat) (cmp : Z) (quotient_digits : nat)
  (q intermediate d : ptr) : M (Z * nat * nat + nat) :=
  if decide (cmp < 0)%Z then
    match hidden_digits with
    | O => ret (inr quotient_digits)
    | S hidden_digits' =>
        let* v := load intermediate in
        match bi_off v with
        | O => undefined
        | S off' =>
            store intermediate
              (with_off off' (with_length (S (bi_length v)) v)) ;;
            let* cmp := magnitude_cmp intermediate d in
            let* quotient_digits :=
              (if decide (cmp < 0)%Z
               then put_quotient_digit q quotient_digits 0%Z
               else ret quotient_digits) in
            unveil_loop hidden_digits' cmp quotient_digits q intermediate d
        end
    end
  else ret (inl (cmp, hidden_digits, quotient_digits)).

(** The [for (factor = 1; factor <= DIGIT_MAX; factor++)] loop; the loop
    state is [quotient_digits]. *)
Definition factor_loop (q accumulator intermediate d : ptr)
  (quotient_digits : nat) : M nat :=
  for_break (Z.to_nat DIGIT_MAX) 1
    (fun factor quotient_digits =>
       magnitude_sum accumulator accumulator d ;;
       let* cmp := magnitude_cmp accumulator intermediate in
       if decide (0 <= cmp \/ Z.of_nat factor = DIGIT_MAX)%Z then
         let* factor :=
           (if decide (0 < cmp)%Z then
              MAGNITUDE_RDELTA accumulator d ;;
              ret (factor - 1)
            else ret factor) in
         MAGNITUDE_RDELTA intermediate accumulator ;;
         let* quotient_digits :=
           put_quotient_digit q quotient_digits (Z.of_nat factor) in
         ret (inr quotient_digits)
       else ret (inl quotient_digits))
    quotient_digits.

Definition bigint_div (q : option ptr) (r : remainder_arg) (n d : ptr)
  : M (option ptr * remainder_arg) :=
  let* zd := bigint_eqz d in
  if zd then set_errno EDOM ;; ret (None, r) else
  let* (q, free_q_on_failure) := dest_or_new q 0 in
  let* dl := get_length d in
  let* d_is_one := (if decide (dl = 1) then
                      let* d0 := rd d 0 in ret (bool_decide (d0 = 1%Z))
                    else ret false) in
  if d_is_one then
    let* r := zero_remainder r in
    bigint_mov q n ;;
    set_signs q r n d
  else
  let* cmp := magnitude_cmp n d in
  if decide (cmp = 0%Z) then
    let* r := zero_remainder r in
    bigint_movui q 1 ;;
    set_signs q r n d
  else if decide (cmp < 0)%Z then
    let* r :=
      match r with
      | None => ret None
      | Some (Some p) => bigint_mov p n ;; ret (Some (Some p))
      | Some None => let* p := bigint_dup n in ret (Some (Some p))
      end in
    bigint_movui q 0 ;;
    set_signs q r n d
  else
  let* pow2 := bigint_is_power_of_2 d in
  if pow2 then
    let* k := ctz d in
    bigint_shri (Some q) n k ;;
    let* r :=
      match r with
      | None => ret None
      | Some (Some p) => bigint_movui p 0 ;; ret (Some (Some p))
      | Some None =>
          let* p := bigint_dup n in
          bigint_movui p 0 ;; ret (Some (Some p))
      end in
    set_signs q r n d
  else
  let* accumulator := bigint_from_int 0 in
  let* intermediate :=
    match r with
    | Some (Some p) => bigint_mov p n ;; ret p
    | _ => bigint_dup n
    end in
  let* nl := get_length n in
  resize q nl ;;
  let* nl := get_length n in
  let* dl := get_length d in
  if decide (nl < dl) then undefined else
  let hidden_digits := nl - dl in
  let* v := load intermediate in
  store intermediate (with_length dl (with_off (bi_off v + hidden_digits) v)) ;;
  let* quotient_digits :=
    loop (S (S nl))
      (fun '(hidden_digits, quotient_digits) =>
         let* cmp := magnitude_cmp intermediate d in
         let* u := unveil_loop hidden_digits cmp quotient_digits
                     q intermediate d in
         match u with
         | inr quotient_digits => ret (inr quotient_digits)
         | inl (_, hidden_digits, quotient_digits) =>
             bigint_movui accumulator 0 ;;
             let* quotient_digits :=
               factor_loop q accumulator intermediate d quotient_digits in
             if decide (hidden_digits <> 0)
             then ret (inl (hidden_digits, quotient_digits))
             else ret (inr quotient_digits)
         end)
      (hidden_digits, 0) in
  bigint_free accumulator ;;
  let* r :=
    match r with
    | Some _ => ret (Some (Some intermediate))
    | None => bigint_free intermediate ;; ret None
    end in
  let* ql := get_length q in
  if decide (ql < quotient_digits) then undefined else
  bigint_shri (Some q) q (Z.to_nat DIGIT_BITS * (ql - quotient_digits)) ;;
  set_length q quotient_digits ;;
  set_signs q r n d.

(** ** Exponentiation *)

Definition bigint_pow (dest : option ptr) (base exp : ptr) : M (option ptr) :=
  let* ne := bigint_nez exp in
  let* negative :=
    (if ne then
       let* nb := bigint_ltz base in
       if nb then
         let* e0 := rd exp 0 in ret (bool_decide (Z.land e0 1 <> 0%Z))
       else ret false
     else ret false) in
  let* le := bigint_ltz exp in
  if le then set_errno EDOM ;; ret None else
  let* exp := bigint_dup exp in
  let* base := bigint_dup base in
  let* dest :=
    match dest with
    | Some d => bigint_movui d 1 ;; ret d
    | None => bigint_from_int 1
    end in
  let pow_done : M (option ptr) :=
    set_negative dest negative ;;
    bigint_free base ;;
    bigint_free exp ;;
    ret (Some dest) in
  let* ze := bigint_eqz exp in
  if ze then bigint_movui dest 1 ;; pow_done else
  let* zb := bigint_eqz base in
  if zb then bigint_movui dest 0 ;; pow_done else
  let* el := get_length exp in
  loop (S (Z.to_nat DIGIT_BITS * el))
    (fun _ : unit =>
       let* e0 := rd exp 0 in
       (if decide (Z.land e0 1 <> 0%Z)
        then bigint_mul (Some dest) dest base ;; ret tt
        else ret tt) ;;
       bigint_shri (Some exp) exp 1 ;;
       let* ze := bigint_eqz exp in
       if ze then ret (inr tt)
       else bigint_mul (Some base) base base ;; ret (inl tt))
    tt ;;
  pow_done.

(** ** The small number cache *)

Definition bigint_init : M Z :=
  fun s =>
    if st_init_done s then Done (0%Z, s) else
    (let* cache :=
       for_range (S SMALL_NUMBER_CACHE_MAX) 0
         (fun n cache =>
            let* value := bigint_from_uint (Z.of_nat n) in
            ret (cache ++ [value]))
         [] in
     fun s' => Done (0%Z, mk_state (st_heap s') (st_next s') (st_errno s')
                                   cache true (st_junk s'))) s.

(** [small_number_cache[n]] *)
Definition small_number_cache (n : nat) : M ptr :=
  fun s => match st_cache s !! n with
           | Some p => Done (p, s)
           | None => Undefined
           end.

Definition TEN : M ptr := small_number_cache 10.

(** ** Parser *)

(** A C string is the list of its characters; the terminating NUL is read
    at the index equal to its length.  A [const char *] into the string is
    an index. *)
Definition chr (c : ascii) : Z := Z.of_nat (nat_of_ascii c).
Arguments chr c%_char.

Definition c_string (s : string) : list Z := chr <$> list_ascii_of_string s.

Definition char_at (str : list Z) (i : nat) : M Z :=
  match str !! i with
  | Some c => ret c
  | None => if decide (i = length str) then ret 0%Z else undefined
  end.

(** [strchr(str + from, c) != NULL] *)
Definition strchr_from (str : list Z) (from : nat) (c : Z) : bool :=
  bool_decide (c ∈ drop from str).

(** The local variables of [bigint_strtobif] that change in its main
    loop. *)
Record parse_vars : Type := mk_parse_vars {
  pv_dest : ptr;
  pv_decimal : option nat;
  pv_eom : option nat;
  pv_exponent : option ptr
}.

(** The [error:] label of [bigint_strtobif]. *)
Definition strtobif_error {A} (exponent : option ptr) (dest : ptr)
  (fraction : A) : M (option ptr * A) :=
  match exponent with
  | Some e => bigint_free e
  | None => ret tt
  end ;;
  bigint_free dest ;;
  ret (None, fraction).

(** One round of [for (; *str; str++)] on the character [c] at index [str];
    [inr] is [goto error]. *)
Definition strtobif_char (base : Z) (str : nat) (c : Z) (v : parse_vars)
  : M (parse_vars + parse_vars) :=
  let digit (v : parse_vars) : M (parse_vars + parse_vars) :=
    let* value :=
      (if decide (chr "0" <= c /\ c <= chr "9")%Z
       then ret (Some (c - chr "0")%Z)
       else if decide (chr "a" <= Z.lor c 32 /\ Z.lor c 32 <= chr "z")%Z
       then ret (Some (Z.lor c 32 - chr "a" + 10)%Z)
       else ret None) in
    match value with
    | None => set_errno EINVAL ;; ret (inr v)
    | Some value =>
        if decide (base <= value)%Z then set_errno EINVAL ;; ret (inr v)
        else if bool_decide (pv_decimal v = None)
                || bool_decide (pv_exponent v <> None) then
          let* pbase := small_number_cache (Z.to_nat base) in
          bigint_mul (Some (pv_dest v)) (pv_dest v) pbase ;;
          let* pvalue := small_number_cache (Z.to_nat value) in
          magnitude_sum (pv_dest v) (pv_dest v) pvalue ;;
          ret (inl v)
        else ret (inl v)
    end in
  if decide (base = 10%Z) then
    if decide (Z.lor c 32 = chr "e") then
      match pv_exponent v with
      | Some _ => set_errno EINVAL ;; ret (inr v)
      | None =>
          let* exponent := bigint_from_int 0 in
          let eom := match pv_decimal v with
                     | Some _ => Some (str - 1)
                     | None => pv_eom v
                     end in
          ret (inl (mk_parse_vars exponent (pv_decimal v) eom
                                  (Some exponent)))
      end
    else if decide (c = chr ".") then
      if bool_decide (pv_exponent v <> None)
         || bool_decide (pv_decimal v <> None)
      then set_errno EINVAL ;; ret (inr v)
      else ret (inl (mk_parse_vars (pv_dest v) (Some str) (pv_eom v)
                                   (pv_exponent v)))
    else digit v
  else digit v.

(** The main loop, by recursion on the characters left; it stops at the
    terminating NUL and yields the final value of [str]. *)
Fixpoint strtobif_loop (rest : list Z) (base : Z) (str : nat) (v : parse_vars)
  : M (parse_vars * nat + parse_vars) :=
  match rest with
  | [] => ret (inl (v, str))
  | c :: rest' =>
      if decide (c = 0%Z) then ret (inl (v, str)) else
      let* r := strtobif_char base str c v in
      match r with
      | inl v' => strtobif_loop rest' base (S str) v'
      | inr v' => ret (inr v')
      end
  end.

(** [while ( *eom == '0') eom--;] *)
Fixpoint skip_trailing_zeroes (str : list Z) (eom : nat) : M nat :=
  let* c := char_at str eom in
  if decide (c = chr "0") then
    match eom with
    | O => undefined
    | S eom' => skip_trailing_zeroes str eom'
    end
  else ret eom.

(** [while (bigint_nez(exponent) && decimal <= eom)]: at most
    [eom - decimal + 1] rounds. *)
Fixpoint fraction_loop (n : nat) (str : list Z) (result exponent : ptr)
  (decimal eom : nat) : M nat :=
  match n with
  | O => ret decimal
  | S n' =>
      let* ne := bigint_nez exponent in
      if ne && bool_decide (decimal <= eom) then
        bigint_dec exponent ;;
        let* ten := TEN in
        bigint_mul (Some result) result ten ;;
        let* c := char_at str decimal in
        let value := to_digit (c - chr "0") in
        let* pvalue := small_number_cache (Z.to_nat value) in
        magnitude_sum result result pvalue ;;
        fraction_loop n' str result exponent (S decimal) eom
      else ret decimal
  end.

(** The [fraction] argument follows [remainder_arg]: [None] for a [NULL]
    argument, otherwise the current content of the caller's variable. *)
Definition bigint_strtobif (str : list Z) (fraction : option (option nat))
  : M (option ptr * option (option nat)) :=
  let* result := bigint_from_int 0 in
  let* c0 := char_at str 0 in
  let '(pos, negative) :=
    if decide (c0 = chr "+") then (1, false)
    else if decide (c0 = chr "-") then (1, true)
    else (0, false) in
  let* c := char_at str pos in
  let* (pos, base) :=
    (if decide (c = chr "0") then
       let pos := S pos in
       let* c := char_at str pos in
       if decide (c = chr "b" \/ c = chr "B") then ret (S pos, 2%Z)
       else if decide (c = chr "o" \/ c = chr "O") then ret (S pos, 8%Z)
       else if decide (c = chr "x" \/ c = chr "X") then ret (S pos, 16%Z)
       else ret (pos, if strchr_from str pos (chr ".") then 10%Z else 8%Z)
     else ret (pos, 10%Z)) in
  let* r := strtobif_loop (drop pos str) base pos
              (mk_parse_vars result None None None) in
  match r with
  | inr v => strtobif_error (pv_exponent v) (pv_dest v) fraction
  | inl (v, str_end) =>
      let dest := pv_dest v in
      let* last := (match pv_exponent v with
                    | Some _ =>
                        if decide (str_end = 0) then undefined
                        else char_at str (str_end - 1)
                    | None => ret 0%Z
                    end) in
      if bool_decide (pv_exponent v <> None)
         && bool_decide (Z.lor last 32 = chr "e")
      then set_errno EINVAL ;; strtobif_error (pv_exponent v) dest fraction
      else
      let* fraction :=
        match pv_exponent v, pv_decimal v with
        | Some exponent, Some decimal =>
            let eom := match pv_eom v with
                       | Some e => e
                       | None => str_end - 1
                       end in
            let* eom := skip_trailing_zeroes str eom in
            if decide (eom <> decimal) then
              let decimal := S decimal in
              let* decimal :=
                fraction_loop (S eom - decimal) str result exponent
                              decimal eom in
              match fraction with
              | Some _ =>
                  if decide (decimal <> eom) then ret (Some (Some decimal))
                  else ret fraction
              | None => ret fraction
              end
            else ret fraction
        | _, _ => ret fraction
        end in
      normalize result ;;
      match pv_exponent v with
      | Some exponent =>
          let* ten := TEN in
          bigint_pow (Some exponent) ten exponent ;;
          bigint_mul (Some result) result exponent ;;
          bigint_free exponent
      | None => ret tt
      end ;;
      let* nz := bigint_nez result in
      (if nz then set_negative result negative else ret tt) ;;
      ret (Some result, fraction)
  end.

Definition bigint_strtobi (str : list Z) : M (option ptr) :=
  let* (r, _) := bigint_strtobif str None in ret r.

(** ** Formatter *)

(** A [char] buffer of [buflen] bytes is a list of that length; writes
    outside of it are undefined. *)
Definition buf_put (buf : list Z) (i : nat) (c : Z) : M (list Z) :=
  if decide (i < length buf) then ret (<[i := c]> buf) else undefined.

Definition buf_get (buf : list Z) (i : nat) : M Z :=
  match buf !! i with
  | Some c => ret c
  | None => undefined
  end.

(** [strcpy(buf + i, s)], the terminating NUL included. *)
Fixpoint strcpy_at (buf : list Z) (i : nat) (s : list Z) : M (list Z) :=
  match s with
  | [] => buf_put buf i 0%Z
  | c :: s' => let* buf := buf_put buf i c in strcpy_at buf (S i) s'
  end.

(** [strlen(buf + i)], by recursion on the bytes left in the buffer. *)
Fixpoint strlen_from (rest : list Z) : M nat :=
  match rest with
  | [] => undefined
  | c :: rest' =>
      if decide (c = 0%Z) then ret 0
      else let* n := strlen_from rest' in ret (S n)
  end.

(** [strcat(buf, s)] *)
Definition strcat (buf : list Z) (s : list Z) : M (list Z) :=
  let* n := strlen_from buf in strcpy_at buf n s.

(** The bytes of the C string that starts the buffer. *)
Fixpoint c_str (buf : list Z) : list Z :=
  match buf with
  | [] => []
  | c :: buf' => if decide (c = 0%Z) then [] else c :: c_str buf'
  end.

(** Conversion of an [int] expression to [char], as a byte. *)
Definition to_char (z : Z) : Z := (z mod 256)%Z.

(** [(numeral > 9 ? 'a' - 10 : '0') + numeral] *)
Definition numeral_char (numeral : Z) : Z :=
  ((if decide (9 < numeral)%Z then chr "a" - 10 else chr "0") + numeral)%Z.

(** [sprintf(hexoctbuf, "%02x", d)] and [sprintf(hexoctbuf, "%03o", d)] for
    a [uint8_t] argument. *)
Definition sprintf_hex (d : Z) : list Z :=
  [numeral_char (d / 16); numeral_char (d mod 16)]%Z.

Definition sprintf_oct (d : Z) : list Z :=
  [numeral_char (d / 64); numeral_char (d / 8 mod 8); numeral_char (d mod 8)]%Z.

(** [while ( *++cursor == '0');] *)
Fixpoint skip_zero_chars (fuel : nat) (buf : list Z) (cursor : nat) : M nat :=
  match fuel with
  | O => out_of_fuel
  | S fuel' =>
      let cursor := S cursor in
      let* c := buf_get buf cursor in
      if decide (c = chr "0") then skip_zero_chars fuel' buf cursor
      else ret cursor
  end.

(** [while (( *number_start++ = *cursor++));] *)
Fixpoint move_down (fuel : nat) (buf : list Z) (number_start cursor : nat)
  : M (list Z) :=
  match fuel with
  | O => out_of_fuel
  | S fuel' =>
      let* c := buf_get buf cursor in
      let* buf := buf_put buf number_start c in
      if decide (c = 0%Z) then ret buf
      else move_down fuel' buf (S number_start) (S cursor)
  end.

(** The reversal loop
    [for (a = number_start, b = cursor - 1; a < b; a++, b--)]. *)
Fixpoint reverse_loop (fuel : nat) (buf : list Z) (a b : nat) : M (list Z) :=
  match fuel with
  | O => ret buf
  | S fuel' =>
      if decide (a < b) then
        let* ca := buf_get buf a in
        let* cb := buf_get buf b in
        let* buf := buf_put buf a cb in
        let* buf := buf_put buf b ca in
        reverse_loop fuel' buf (S a) (b - 1)
      else ret buf
  end.

Definition bigint_snbprint (buf : list Z) (x : ptr) (base : Z)
  : M (Z * list Z) :=
  let buflen := length buf in
  let* neg := get_negative x in
  let negn := if neg then 1 else 0 in
  let fail (e : errno_t) (buf : list Z) : M (Z * list Z) :=
    set_errno e ;; ret ((-1)%Z, buf) in
  if decide (base <> 2 /\ base <> 8 /\ base <> 10 /\ base <> 16)%Z
  then fail EINVAL buf else
  let* start :=
    (if decide (base <> 10%Z) then
       if decide (buflen < 4 + negn) then ret None else
       let prefix :=
         (if neg then [chr "-"] else [])
         ++ [chr "0";
             if decide (base = 2%Z) then chr "b"
             else if decide (base = 8%Z) then chr "o" else chr "x"] in
       let* buf := strcpy_at buf 0 prefix in
       ret (Some (buf, 2 + negn))
     else if decide (buflen < 2 + negn) then ret None
     else if neg then
       let* buf := buf_put buf 0 (chr "-") in ret (Some (buf, 1))
     else ret (Some (buf, 0))) in
  match start with
  | None => fail ERANGE buf
  | Some (buf, written) =>
  let cursor := written in
  let* zx := bigint_eqz x in
  if zx then
    let* buf := strcpy_at buf cursor [chr "0"] in
    ret (Z.of_nat (S written), buf)
  else
  let number_start := cursor in
  if decide (base = 8 \/ base = 16)%Z then
    let* len := get_length x in
    let* r :=
      for_break len 0
        (fun n '(buf, written, _) =>
           let* d := rd x (len - n - 1) in
           let hexoctbuf := if decide (base = 8%Z) then sprintf_oct d
                            else sprintf_hex d in
           let written := written + length hexoctbuf in
           if decide (buflen < written + 1) then
             set_errno ERANGE ;; ret (inr (buf, written, true))
           else
             let* buf := strcat buf hexoctbuf in
             ret (inl (buf, written, false)))
        (buf, written, false) in
    let '(buf, written, failed) := r in
    if failed then ret ((-1)%Z, buf) else
    let* c := buf_get buf number_start in
    let* buf :=
      (if decide (c = chr "0") then
         let* cursor := skip_zero_chars buflen buf cursor in
         move_down (S buflen) buf number_start cursor
       else ret buf) in
    ret (Z.of_nat written, buf)
  else
    let* accumulator := bigint_dup x in
    let* remainder := (if decide (base = 10%Z) then
                         let* p := bigint_from_int 0 in ret (Some p)
                       else ret None) in
    let cleanup (remainder : option ptr) : M unit :=
      match remainder with
      | Some p => bigint_free p
      | None => ret tt
      end ;;
      bigint_free accumulator in
    let* r :=
      loop (S buflen)
        (fun '(buf, cursor, written, remainder) =>
           let* nz := bigint_nez accumulator in
           if negb nz then ret (inr (buf, Some (cursor, written), remainder))
           else
           let* (numeral, remainder) :=
             (if decide (base = 10%Z) then
                let* ten := TEN in
                let* (q, r') :=
                  bigint_div (Some accumulator) (Some remainder)
                             accumulator ten in
                match q, r' with
                | Some _, Some (Some p) =>
                    let* numeral := rd p 0 in ret (Some numeral, Some p)
                | _, _ => ret (None, remainder)
                end
              else
                let* a0 := rd accumulator 0 in
                bigint_shri (Some accumulator) accumulator 1 ;;
                ret (Some (Z.land a0 1), remainder)) in
           match numeral with
           | None => ret (inr (buf, None, remainder))
           | Some numeral =>
               if decide (buflen < written + 2) then
                 set_errno ERANGE ;; ret (inr (buf, None, remainder))
               else
                 let* buf :=
                   buf_put buf cursor (to_char (numeral_char numeral)) in
                 ret (inl (buf, S cursor, S written, remainder))
           end)
        (buf, cursor, written, remainder) in
    match r with
    | (buf, None, remainder) => cleanup remainder ;; ret ((-1)%Z, buf)
    | (buf, Some (cursor, written), remainder) =>
        let* buf := buf_put buf cursor 0%Z in
        cleanup remainder ;;
        let* buf := reverse_loop buflen buf number_start (cursor - 1) in
        ret (Z.of_nat written, buf)
    end
  end.

Definition bigint_snprint (buf : list Z) (x : ptr) : M (Z * list Z) :=
  bigint_snbprint buf x 10.

(** [bigint_tostrb]: the result is the C string in the allocated buffer, or
    [None] for [NULL]. *)
Definition bigint_tostrb (x : ptr) (base : Z) : M (option (list Z)) :=
  let* vx := load x in
  let bits_in_value :=
    Z.to_nat DIGIT_BITS * (if decide (bi_length vx <> 0) then bi_length vx
                           else 1) in
  let bits_per_numeral : option nat :=
    if decide (base = 2%Z) then Some 1
    else if decide (base = 8 \/ base = 10)%Z then Some 3
    else if decide (base = 16%Z) then Some 4
    else None in
  match bits_per_numeral with
  | None => set_errno EINVAL ;; ret None
  | Some bits_per_numeral =>
      let max_length :=
        (if bi_negative vx then 1 else 0)
        + (if decide (base = 10%Z) then 0 else 2)
        + CEIL_DIV bits_in_value bits_per_numeral
        + 1 in
      let* j := junk in
      let* (n, buffer) := bigint_snbprint (replicate max_length j) x base in
      if decide (n < 0)%Z then ret None else ret (Some (c_str buffer))
  end.

Definition bigint_tostr (x : ptr) : M (option (list Z)) :=
  bigint_tostrb x 10.

(** [bigint_abs] *)
Definition bigint_abs (dest : option ptr) (x : ptr) : M (option ptr) :=
  let* dest :=
    (if decide (dest <> Some x) then
       match dest with
       | None => let* p := bigint_dup x in ret (Some p)
       | Some d => bigint_mov d x ;; ret (Some d)
       end
     else ret dest) in
  match dest with
  | Some d => set_negative d false ;; ret (Some d)
  | None => ret None
  end.

(** ** Conversion to standard integers *)

Definition UINTMAX_MAX : Z := (2 ^ UINTMAX_BITS - 1)%Z.

(** [(uintmax_t) d << k]: the result is reduced modulo [2^64]; a shift by
    the width of [uintmax_t] or more is undefined. *)
Definition shl_uintmax (d : Z) (k : Z) : M Z :=
  if decide (k < UINTMAX_BITS)%Z then ret (to_uintmax (Z.shiftl d k))
  else undefined.

(** A counted loop that can be left by [return]: the body yields [inl]
    with the new loop state to go on and [inr] with the function's result to
    return it. *)
Fixpoint for_return {St R} (n : nat) (lo : nat)
  (body : nat -> St -> M (St + R)) (s : St) : M (St + R) :=
  match n with
  | O => ret (inl s)
  | S n' =>
      let* r := body lo s in
      match r with
      | inl s' => for_return n' (S lo) body s'
      | inr v => ret (inr v)
      end
  end.

(** [bigint_toui]; the loop state is [(accumulator, previous_accumulator)]. *)
Definition bigint_toui (x : ptr) : M Z :=
  let* neg := get_negative x in
  if neg then set_errno ERANGE ;; ret 0%Z else
  let* len := get_length x in
  if decide (DIGITS_FOR_INTMAX < len) then
    set_errno ERANGE ;; ret UINTMAX_MAX
  else
  let* r :=
    for_return len 0
      (fun n '(accumulator, previous_accumulator) =>
         let* d := rd x n in
         if decide (d = 0%Z) then
           ret (inl (accumulator, previous_accumulator))
         else
           let* v := shl_uintmax d (Z.of_nat n * DIGIT_BITS) in
           let accumulator := Z.lor accumulator v in
           if decide (accumulator <= previous_accumulator)%Z then
             set_errno ERANGE ;; ret (inr UINTMAX_MAX)
           else ret (inl (accumulator, accumulator)))
      (0%Z, 0%Z) in
  match r with
  | inl (accumulator, _) => ret accumulator
  | inr v => ret v
  end.

(** [bigint_toi].  [INTMAX_MIN + INTMAX_MAX] is negative, so a magnitude
    above [INTMAX_MAX] is negated in two steps. *)
Definition bigint_toi (x : ptr) : M Z :=
  let* len := get_length x in
  let* neg := get_negative x in
  let* r :=
    for_return len 0
      (fun n accumulator =>
         let* d := rd x n in
         let* value := shl_uintmax d (Z.of_nat n * DIGIT_BITS) in
         if decide (d <> 0%Z /\ value = 0%Z) then
           set_errno ERANGE ;;
           ret (inr (if neg then INTMAX_MIN else INTMAX_MAX))
         else ret (inl (Z.lor accumulator value)))
      0%Z in
  match r with
  | inr v => ret v
  | inl accumulator =>
      if negb neg then
        if decide (INTMAX_MAX < accumulator)%Z then
          set_errno ERANGE ;; ret INTMAX_MAX
        else ret accumulator
      else if decide (INTMAX_MIN_MAGNITUDE < accumulator)%Z then
        set_errno ERANGE ;; ret INTMAX_MIN
      else if decide (accumulator <= INTMAX_MAX)%Z then ret (- accumulator)%Z
      else ret (- INTMAX_MAX - (accumulator - INTMAX_MAX))%Z
  end.

#[global] Instance errno_eq_dec : EqDecision errno_t.
Proof. solve_decision. Defined.

(** ** Shifts by a big integer *)

Definition bigint_shl (dest : option ptr) (x n : ptr) : M (option ptr) :=
  let* neg := bigint_ltz n in
  if neg then set_errno EDOM ;; ret None else
  set_errno ENONE ;;
  let* bits := bigint_toui n in
  let* e := get_errno in
  if decide (e = ENONE) then bigint_shli dest x (Z.to_nat bits)
  else ret None.

Definition bigint_shr (dest : option ptr) (x n : ptr) : M (option ptr) :=
  let* neg := bigint_ltz n in
  if neg then set_errno EDOM ;; ret None else
  set_errno ENONE ;;
  let* bits := bigint_toui n in
  let* e := get_errno in
  if decide (e = ENONE) then bigint_shri dest x (Z.to_nat bits)
  else ret None.

(** ** Modulus *)

(** [bigint_free(p)] for a pointer that may be [NULL]: [x->digits] is read
    through it. *)
Definition bigint_free_or_null (p : option ptr) : M unit :=
  match p with
  | Some p => bigint_free p
  | None => undefined
  end.

(** [bigint_mod].  The local [q] is [NULL]; it is passed to [bigint_div] by
    value and handed to [bigint_free] afterwards. *)
Definition bigint_mod (r : option ptr) (n d : ptr) : M (option ptr) :=
  let q : option ptr := None in
  let* (r, free_r_on_error) := dest_or_new r 0 in
  let* (quotient, r') := bigint_div q (Some (Some r)) n d in
  let* r :=
    match quotient with
    | None => free_if free_r_on_error r ;; ret None
    | Some _ => ret (default None r')
    end in
  bigint_free_or_null q ;;
  ret r.

(** ** Release of the small number cache *)

(** [bigint_cleanup]: every cached structure is released and its entry set
    to [NULL]; [init_done] is left as it is.  An entry beyond the end of
    [st_cache] is a [NULL] one.  Each entry is read once, before it is
    cleared, so the entries are cleared together after the loop. *)
Definition bigint_cleanup : M unit :=
  fun s =>
    if st_init_done s then
      (for_range (S SMALL_NUMBER_CACHE_MAX) 0
         (fun n (_ : unit) =>
            fun s' => match st_cache s' !! n with
                      | Some value => bigint_free value s'
                      | None => Done (tt, s')
                      end)
         tt ;;
       fun s' => Done (tt, mk_state (st_heap s') (st_next s') (st_errno s')
                                    [] (st_init_done s') (st_junk s'))) s
    else Done (tt, s).

(** ** What a structure denotes *)

(** Little-endian value of a list of digits. *)
Fixpoint digits_value (ds : list Z) : Z :=
  match ds with
  | [] => 0
  | d :: ds' => d + 2 ^ DIGIT_BITS * digits_value ds'
  end%Z.

(** The digits [x->digits[0 .. x->length - 1]]. *)
Definition live_digits (x : bigint_st) : list Z :=
  take (bi_length x) (drop (bi_off x) (bi_block x)).

Definition magnitude (x : bigint_st) : Z := digits_value (live_digits x).

Definition value (x : bigint_st) : Z :=
  if bi_negative x then (- magnitude x)%Z else magnitude x.

(** The value behind a pointer in a state. *)
Definition value_at (s : state) (p : ptr) : option Z :=
  value <$> st_heap s !! p.

(** The state before [bigint_init]; [j] fills uninitialised memory. *)
Definition empty_state (j : Z) : state :=
  mk_state ∅ 0 ENONE [] false j.

(** ** Representation invariants *)

(** The digit block is the one [malloc]/[realloc] returned, it has
    [allocated] digits and at least one (N3). *)
Definition wf_buffer (x : bigint_st) : Prop :=
  bi_off x = 0 /\ length (bi_block x) = bi_allocated x /\ 1 <= bi_allocated x.

(** N1: no leading zero digit. *)
Definition N1 (x : bigint_st) : Prop := last (live_digits x) <> Some 0%Z.

(** N2: zero is not negative. *)
Definition N2 (x : bigint_st) : Prop :=
  bi_length x = 0 -> bi_negative x = false.

Definition digit_range (d : Z) : Prop := (0 <= d <= DIGIT_MAX)%Z.

Definition wf_bigint (x : bigint_st) : Prop :=
  wf_buffer x /\ bi_length x <= bi_allocated x /\
  Forall digit_range (live_digits x) /\ N1 x /\ N2 x.

#[global] Instance digit_range_dec d : Decision (digit_range d).
Proof. unfold digit_range. apply _. Defined.

#[global] Instance N1_dec x : Decision (N1 x).
Proof. unfold N1. apply _. Defined.

#[global] Instance N2_dec x : Decision (N2 x).
Proof. unfold N2. apply _. Defined.

#[global] Instance wf_buffer_dec x : Decision (wf_buffer x).
Proof. unfold wf_buffer. apply _. Defined.

#[global] Instance wf_bigint_dec x : Decision (wf_bigint x).
Proof. unfold wf_bigint. apply _. Defined.

(** A pointer to a structure that satisfies the invariants. *)
Definition valid_at (s : state) (p : ptr) : Prop :=
  match st_heap s !! p with
  | Some x => wf_bigint x
  | None => False
  end.

#[global] Instance valid_at_dec s p : Decision (valid_at s p).
Proof. unfold valid_at. destruct (st_heap s !! p); apply _. Defined.

(** ** States and outcomes *)

(** The state in which the structure behind [p] is replaced by [x]. *)
Definition upd (p : ptr) (x : bigint_st) (s : state) : state :=
  set_heap (<[p := x]> (st_heap s)) s.

(** [m] started in [s] completes, and its result and final state satisfy
    [Q]. *)
Definition wp {A} (m : M A) (Q : A -> state -> Prop) (s : state) : Prop :=
  match m s with
  | Done (a, s') => Q a s'
  | Undefined => False
  | OutOfFuel => False
  end.

(** The state after a successful [bigint_init]. *)
Definition after_init (j : Z) : state :=
  match bigint_init (empty_state j) with
  | Done (_, s) => s
  | _ => empty_state j
  end.

(** Observations of an outcome: the values behind the returned pointers. *)
Definition outcome_map {A B} (f : A -> state -> B) (o : outcome (A * state))
  : outcome B :=
  match o with
  | Done (a, s) => Done (f a s)
  | Undefined => Undefined
  | OutOfFuel => OutOfFuel
  end.

Definition ptr_value (p : option ptr) (s : state) : option Z :=
  p ≫= value_at s.

Definition div_values (qr : option ptr * remainder_arg) (s : state)
  : option Z * option Z :=
  (ptr_value (fst qr) s, snd qr ≫= (fun r => ptr_value r s)).

(** [length] and [negative] of the structure behind a pointer. *)
Definition length_negative_at (p : ptr) (s : state) : option (nat * bool) :=
  (fun x => (bi_length x, bi_negative x)) <$> st_heap s !! p.

(** ** Structures of the builds with another digit width *)

(** The value of digits of [w] bits, least significant first. *)
Fixpoint digits_value_at (w : Z) (ds : list Z) : Z :=
  match ds with
  | [] => 0
  | d :: ds' => d + 2 ^ w * digits_value_at w ds'
  end%Z.

Definition magnitude_at (w : Z) (x : bigint_st) : Z :=
  digits_value_at w (live_digits x).

(** The representation invariants for digits of [w] bits. *)
Definition wf_bigint_at (w : Z) (x : bigint_st) : Prop :=
  wf_buffer x /\ bi_length x <= bi_allocated x /\
  Forall (fun d => 0 <= d < 2 ^ w)%Z (live_digits x) /\ N1 x /\ N2 x.

(** A non-negative number as [bigint_from_uint] makes it with 32-bit
    digits: [DIGITS_FOR_INTMAX] is 2 there, four digits are allocated, and
    [j] is what [malloc] left in the digits that are not written. *)
Definition wide (j : Z) (ds : list Z) : bigint_st :=
  mk_bigint (ds ++ replicate (4 - length ds) j) 0 4 (length ds) false.

(** [a], [b] and a destination that holds 0, at the addresses 0, 1 and 2. *)
Definition wide_state (j : Z) (a b : list Z) : state :=
  mk_state {[0 := wide j a; 1 := wide j b; 2 := wide j []]} 3 ENONE []
           false j.

(** The magnitude and the length behind a pointer, for digits of [w]
    bits. *)
Definition magnitude_length_at (w : Z) (p : option ptr) (s : state)
  : option (Z * nat) :=
  p ≫= fun q => (fun x => (magnitude_at w x, bi_length x)) <$> st_heap s !! q.

(** ** Calls on concrete operands *)

(** [bigint_div(NULL, &r, n, d)] with [r] initially [NULL], the operands
    made by [bigint_from_int]. *)
Definition div_of_ints (n d : Z) : M (option ptr * remainder_arg) :=
  let* n := bigint_from_int n in
  let* d := bigint_from_int d in
  bigint_div None (Some None) n d.

(** [bigint_div(n, NULL, n, d)]: the quotient overwrites the numerator. *)
Definition div_into_numerator (n d : Z) : M (option ptr) :=
  let* n := bigint_from_int n in
  let* d := bigint_from_int d in
  let* (q, _) := bigint_div (Some n) None n d in
  ret q.

(** The same division with the destination a disjoint copy of the
    numerator. *)
Definition div_into_copy (n d : Z) : M (option ptr) :=
  let* n := bigint_from_int n in
  let* d := bigint_from_int d in
  let* q := bigint_dup n in
  let* (q, _) := bigint_div (Some q) None n d in
  ret q.

(** [bigint_mul(a, a, b)], and the same product into a disjoint copy of
    [a]. *)
Definition mul_into_multiplicand (a b : Z) : M (option ptr) :=
  let* a := bigint_from_int a in
  let* b := bigint_from_int b in
  bigint_mul (Some a) a b.

Definition mul_into_copy (a b : Z) : M (option ptr) :=
  let* a := bigint_from_int a in
  let* b := bigint_from_int b in
  let* dest := bigint_dup a in
  bigint_mul (Some dest) a b.

(** [magnitude_sum(dest, a, b)] into a fresh destination, the operands
    made by [bigint_from_int]. *)
Definition sum_of_ints (a b : Z) : M (option ptr) :=
  let* a := bigint_from_int a in
  let* b := bigint_from_int b in
  let* dest := bigint_from_int 0 in
  magnitude_sum dest a b.

(** Two operands made by [bigint_from_int]. *)
Definition two_ints (x y : Z) : M (ptr * ptr) :=
  let* x := bigint_from_int x in
  let* y := bigint_from_int y in
  ret (x, y).

(** [bigint_mov(dest, src)] on two such operands; the result is the return
    code with the two pointers. *)
Definition mov_of_ints (dest src : Z) : M (Z * ptr * ptr) :=
  let* (dest, src) := two_ints dest src in
  let* rc := bigint_mov dest src in
  ret (rc, dest, src).

(** [bigint_pow(NULL, base, exp)]. *)
Definition pow_of_ints (base exp : Z) : M (option ptr) :=
  let* base := bigint_from_int base in
  let* exp := bigint_from_int exp in
  bigint_pow None base exp.

(** [bigint_tostrb(x, base)] followed by [bigint_strtobif] on the string:
    the string and the parsed value. *)
Definition format_then_parse (x : Z) (base : Z)
  : M (option (list Z) * option ptr) :=
  let* x := bigint_from_int x in
  let* str := bigint_tostrb x base in
  match str with
  | Some str =>
      let* (r, _) := bigint_strtobif str None in
      ret (Some str, r)
  | None => ret (None, None)
  end.

(** The same through [bigint_snbprint] into a caller's buffer of [buflen]
    bytes. *)
Definition print_then_parse (x : Z) (base : Z) (buflen : nat)
  : M (Z * list Z * option ptr) :=
  let* x := bigint_from_int x in
  let* j := junk in
  let* (n, buf) := bigint_snbprint (replicate buflen j) x base in
  let* (r, _) := bigint_strtobif (c_str buf) None in
  ret (n, c_str buf, r).

(** [bigint_strtobif(str, &fraction)] with [fraction] initially [NULL]: the
    parsed value and the final [fraction]. *)
Definition parse_with_fraction (str : string)
  : M (option ptr * option (option nat)) :=
  bigint_strtobif (c_string str) (Some None).

(** ** Loop invariants and sample states *)

(** The carry loop of [magnitude_inc] after [i] rounds: the digits written
    so far followed by the untouched part of the block. *)
Definition inc_invariant (p : ptr) (b : list Z) (a l : nat) (ng : bool)
  (s : state) (i : nat) (carry : Z) (s' : state) : Prop :=
  exists ds,
    length ds = i
    /\ s' = upd p (mk_bigint (ds ++ drop i b) 0 a l ng) s
    /\ Forall digit_range ds
    /\ (carry = 0%Z \/ carry = 1%Z)
    /\ (digits_value ds + carry * 256 ^ Z.of_nat i
        = digits_value (take i b) + 1)%Z.

(** The block after a borrow that ended at digit [i]: the [i] zero digits
    below became [DIGIT_MAX] and digit [i] lost one. *)
Definition borrowed (b : list Z) (i : nat) (v : Z) : list Z :=
  (replicate i DIGIT_MAX ++ [(v - 1)%Z]) ++ drop (S i) b.

(** The borrow loop of [magnitude_dec] before round [i]: every digit below
    [i] was 0 and is now [DIGIT_MAX]. *)
Definition dec_invariant (p : ptr) (b : list Z) (a l : nat) (ng : bool)
  (s : state) (i : nat) (_ : unit) (s' : state) : Prop :=
  1 <= i /\ take i b = replicate i 0%Z
  /\ s' = upd p (mk_bigint (replicate i DIGIT_MAX ++ drop i b) 0 a l ng) s.

(** The state in which the borrow loop is left by [break]. *)
Definition dec_result (p : ptr) (b : list Z) (a l : nat) (ng : bool)
  (s : state) (_ : unit) (s' : state) : Prop :=
  exists i v,
    i < l /\ take i b = replicate i 0%Z /\ b !! i = Some v /\ v <> 0%Z
    /\ s' = upd p (mk_bigint (borrowed b i v) 0 a l ng) s.

(** The column loop of [magnitude_sum] before column [k]. *)
Definition sum_invariant (dest : ptr) (blk : list Z) (ad max : nat)
  (nd : bool) (A B : list Z) (s : state) (k : nat) (carry : Z) (s' : state)
  : Prop :=
  exists ds,
    length ds = k
    /\ s' = upd dest (mk_bigint (ds ++ drop k blk) 0 ad max nd) s
    /\ Forall digit_range ds
    /\ (carry = 0%Z \/ carry = 1%Z)
    /\ (digits_value ds + carry * 256 ^ Z.of_nat k
        = digits_value (take k A) + digits_value (take k B))%Z.

(** A structure of capacity 16 that holds the digits [ds]. *)
Definition sample (ds : list Z) (negative : bool) : bigint_st :=
  mk_bigint (ds ++ replicate (16 - length ds) 0%Z) 0 16 (length ds) negative.

(** A store with the single structure [x] at address 0. *)
Definition sample_state (x : bigint_st) : state :=
  mk_state {[0 := x]} 1 ENONE [] false 0.

(** ** States after an allocation or an error *)

Definition with_errno (e : errno_t) (s : state) : state :=
  mk_state (st_heap s) (st_next s) e (st_cache s) (st_init_done s) (st_junk s).

(** The state after [malloc] returned the address [st_next s] for [x]. *)
Definition with_new (x : bigint_st) (s : state) : state :=
  mk_state (<[st_next s := x]> (st_heap s)) (S (st_next s)) (st_errno s)
           (st_cache s) (st_init_done s) (st_junk s).

(** Every address in use is below the next one [malloc] hands out. *)
Definition heap_ok (s : state) : Prop :=
  map_Forall (fun p _ => p < st_next s) (st_heap s).

#[global] Instance heap_ok_dec s : Decision (heap_ok s).
Proof. unfold heap_ok. apply _. Defined.

(** ** Round trips through a big integer *)

(** [bigint_toi(bigint_from_int(v))] and [bigint_toui(bigint_from_uint(u))]. *)
Definition toi_of_int (v : Z) : M Z :=
  let* x := bigint_from_int v in bigint_toi x.

Definition toui_of_uint (u : Z) : M Z :=
  let* x := bigint_from_uint u in bigint_toui x.

(** A destination argument: [NULL], or a pointer to a structure whose digit
    block is the allocated one. *)
Definition dest_ok (s : state) (dest : option ptr) : Prop :=
  match dest with
  | None => True
  | Some d => exists xd, st_heap s !! d = Some xd /\ wf_buffer xd
  end.

(** The state after [bigint_free(p)]. *)
Definition without (p : ptr) (s : state) : state :=
  set_heap (delete p (st_heap s)) s.

(** The structure made by [bigint_dup]: the live digits followed by the
    zeroes of the cleared block. *)
Definition dup_of (x : bigint_st) : bigint_st :=
  mk_bigint (live_digits x ++ replicate (bi_allocated x - bi_length x) 0%Z)
            0 (bi_allocated x) (bi_length x) (bi_negative x).

(** A power of two. *)
Definition is_pow2 (m : Z) : Prop := exists k, (0 <= k)%Z /\ m = (2 ^ k)%Z.

(** ** Loop invariants and digit-level functions of the later proofs *)

(** The invariant of the loop of [bigint_init] started in [s0] with the
    counter at [lo0]. *)
Definition init_invariant (s0 : state) (lo0 : nat) (i : nat)
  (cache : list ptr) (s : state) : Prop :=
  cache = (fun k => st_next s0 + k) <$> seq 0 (i - lo0)
  /\ st_next s = st_next s0 + (i - lo0)
  /\ heap_ok s
  /\ (forall p, p < st_next s0 -> st_heap s !! p = st_heap s0 !! p)
  /\ (forall k, k < i - lo0 ->
        exists x, st_heap s !! (st_next s0 + k) = Some x
                  /\ wf_bigint x /\ value x = Z.of_nat (lo0 + k))
  /\ st_errno s = st_errno s0 /\ st_cache s = st_cache s0
  /\ st_init_done s = st_init_done s0 /\ st_junk s = st_junk s0.

(** The invariant of the loop of [bigint_cleanup]: the structures cached
    below [i] are released. *)
Definition cleanup_invariant (s0 : state) (base : nat) (i : nat)
  (_ : unit) (s : state) : Prop :=
  (forall p, st_heap s !! p
             = if decide (base <= p < base + i) then None
               else st_heap s0 !! p)
  /\ st_next s = st_next s0
  /\ st_errno s = st_errno s0 /\ st_cache s = st_cache s0
  /\ st_init_done s = st_init_done s0 /\ st_junk s = st_junk s0.

(** The digit stored by the unaligned loop of [bigint_shli]. *)
Definition shl_digit (offset : nat) (lsb msb : Z) : Z :=
  Z.land (Z.lor (Z.shiftl lsb (Z.of_nat offset))
                (Z.shiftr msb (DIGIT_BITS - Z.of_nat offset)))
         DIGIT_MAX.

(** The digits stored by that loop for the digits [ds], [prev] being the
    digit below them. *)
Fixpoint shl_digits (offset : nat) (prev : Z) (ds : list Z) : list Z :=
  match ds with
  | [] => [shl_digit offset 0 prev]
  | d :: ds' => shl_digit offset d prev :: shl_digits offset d ds'
  end.

(** The digit stored by the unaligned loop of [bigint_shri]. *)
Definition shr_digit (offset : nat) (lsb msb : Z) : Z :=
  Z.land DIGIT_MAX
         (Z.lor (Z.shiftl msb (DIGIT_BITS - Z.of_nat offset))
                (Z.shiftr lsb (Z.of_nat offset))).

(** The digits stored by that loop for the digits [ds]; above them is 0. *)
Fixpoint shr_digits (offset : nat) (ds : list Z) : list Z :=
  match ds with
  | [] => []
  | d :: ds' => shr_digit offset d (default 0%Z (head ds'))
                :: shr_digits offset ds'
  end.

(** The digit stored at [k] by the unaligned loop of [bigint_shri] for the
    block [b] of a source of [len] digits, [q] whole digits being dropped. *)
Definition shr_at (o q len : nat) (b : list Z) (k : nat) : Z :=
  shr_digit o (default 0%Z (b !! (q + k)))
    (if decide (q + 1 + k < len) then default 0%Z (b !! (q + 1 + k))
     else 0%Z).

(** The radix prefix written by [bigint_snbprint]. *)
Definition radix_prefix (base : Z) : list Z :=
  if decide (base = 10%Z) then []
  else [chr "0";
        if decide (base = 2%Z) then chr "b"
        else if decide (base = 8%Z) then chr "o" else chr "x"].

Definition valid_base (base : Z) : Prop :=
  (base = 2 \/ base = 8 \/ base = 10 \/ base = 16)%Z.

(** The digits above a column after the borrow loop of [magnitude_delta]. *)
Fixpoint borrow (ds : list Z) : list Z :=
  match ds with
  | [] => []
  | d :: ds' =>
      if decide (d <> 0%Z) then to_digit (d - 1) :: ds'
      else DIGIT_MAX :: borrow ds'
  end.

(** The invariant of the column loop: [R] holds the [i] digits of the
    difference stored so far and [H] the digits of the minuend from column
    [i] on, after the borrows. *)
Definition delta_invariant (M Sd R H : list Z) (i : nat) : Prop :=
  length R = i /\ length H = length M - i
  /\ Forall digit_range R /\ Forall digit_range H
  /\ (digits_value R + 256 ^ Z.of_nat i * digits_value H
      = digits_value M - digits_value (take i Sd))%Z
  /\ (digits_value (drop i Sd) <= digits_value H)%Z.

(** The store in the column loop when the destination is not the minuend:
    [y] is the destination, and once the minuend has been copied [zc] is
    the copy, at the address [malloc] returned. *)
Definition delta_state (cp : bool) (zc : bigint_st) (dest : ptr)
  (y : bigint_st) (s0 : state) : state :=
  if cp then with_new zc (upd dest y s0) else upd dest y s0.

(** The operands for which [magnitude_cmp] orders the magnitudes. *)
Definition cmp_exact (xa xb : bigint_st) : Prop :=
  bi_length xa <> bi_length xb \/ bi_length xa <= 1
  \/ magnitude xa = magnitude xb.

(** A factor that [bigint_mul] replaces by a shift: a power of two of more
    than one digit. *)
Definition mul_shortcut (x : bigint_st) : Prop :=
  1 < bi_length x /\ is_pow2 (magnitude x).

(** The calls of [bigint_mul] in which the shift is made from the other
    factor into a duplicate of the destination, which is then copied over
    the destination before the signs of the factors are compared. *)
Definition mul_sign_lost (dest : option ptr) (a b : ptr)
  (xa xb : bigint_st) : Prop :=
  (dest = Some a /\ mul_shortcut xa)
  \/ (dest = Some b /\ ~ mul_shortcut xa /\ mul_shortcut xb).

(** The allocation of the accumulator of [bigint_mul] before
    [resize_sum]: the one of [bigint_from_int(0)] when [dest] is [NULL],
    and the one of [dest], or of its duplicate, otherwise. *)
Definition accumulator_allocated (s : state) (dest : option ptr) : nat :=
  match dest with
  | None => 2 * DIGITS_FOR_INTMAX
  | Some d => from_option bi_allocated 0 (st_heap s !! d)
  end.

(** The invariant of the inner loop of [bigint_mul] in row [i], with the
    accumulator at [w]: [A] and [B] are the digits of the factors and [mx]
    is [max_factor_length]. *)
Definition mul_column_invariant (w : ptr) (s1 : state) (a' : nat) (ng : bool)
  (A B : list Z) (mx i : nat) (j : nat) (carry : Z) (s : state) : Prop :=
  exists D len,
    s = upd w (mk_bigint D 0 a' len ng) s1
    /\ length D = a' /\ Forall digit_range D
    /\ (forall k, i + mx <= k -> k < a' -> D !! k = Some 0%Z)
    /\ length A + length B <= len <= a'
    /\ (0 <= carry <= 255)%Z
    /\ (digits_value D + carry * 256 ^ Z.of_nat (i + j)
        = digits_value (take i A) * digits_value B
          + default 0 (A !! i) * digits_value (take j B)
            * 256 ^ Z.of_nat i)%Z.

(** The invariant of the outer loop. *)
Definition mul_row_invariant (w : ptr) (s1 : state) (a' : nat) (ng : bool)
  (A B : list Z) (mx : nat) (i : nat) (_ : unit) (s : state) : Prop :=
  exists D len,
    s = upd w (mk_bigint D 0 a' len ng) s1
    /\ length D = a' /\ Forall digit_range D
    /\ (forall k, i + mx <= k -> k < a' -> D !! k = Some 0%Z)
    /\ length A + length B <= len <= a'
    /\ digits_value D = (digits_value (take i A) * digits_value B)%Z.

(** The part of [bigint_mul] that follows the choice of the accumulator
    [dest]. *)
Definition mul_from_accumulator (original_dest : option ptr)
  (dest a b : ptr) : M (option ptr) :=
  let* za := bigint_eqz a in
  let* zb := bigint_eqz b in
  if za || zb then
    set_length dest 0 ;;
    set_negative dest false ;;
    ret (Some dest)
  else
  let* la := get_length a in
  let* pa := (if decide (1 < la) then bigint_is_power_of_2 a
              else ret false) in
  if pa then
    let* k := ctz a in
    bigint_shli (Some dest) b k ;;
    mul_done original_dest dest a b
  else
  let* lb := get_length b in
  let* pb := (if decide (1 < lb) then bigint_is_power_of_2 b
              else ret false) in
  if pb then
    let* k := ctz b in
    bigint_shli (Some dest) a k ;;
    mul_done original_dest dest a b
  else
  let* za := bigint_eqz a in
  let* zb := bigint_eqz b in
  if za || zb then
    bigint_movui dest 0 ;;
    ret (Some dest)
  else
  resize_sum dest la lb ;;
  let* allocated := get_allocated dest in
  memset0 dest allocated ;;
  let max_factor_length := if decide (lb < la) then la else lb in
  for_range max_factor_length 0
    (fun i _ =>
       let* carry :=
         for_range max_factor_length 0
           (fun j (carry : Z) =>
              let* la := get_length a in
              let* a_i := (if decide (i < la) then rd a i else ret 0%Z) in
              let* lb := get_length b in
              let* b_j := (if decide (j < lb) then rd b j else ret 0%Z) in
              let* dij := rd dest (i + j) in
              let product := to_super (dij + carry + a_i * b_j) in
              let carry := Z.land DIGIT_MAX (Z.shiftr product DIGIT_BITS) in
              let product := Z.land DIGIT_MAX product in
              wr dest (i + j) (to_digit product) ;;
              let* len := get_length dest in
              (if decide (product <> 0%Z /\ len < i + j + 1)
               then set_length dest (i + j + 1) else ret tt) ;;
              ret carry)
           0%Z in
       if decide (carry <> 0%Z) then
         let* len := get_length dest in
         (if decide (len < i + max_factor_length + 1)
          then set_length dest (i + max_factor_length + 1) else ret tt) ;;
         wr dest (i + max_factor_length) (to_digit carry)
       else ret tt)
    tt ;;
  mul_done original_dest dest a b.

(** A state with two structures, at the addresses 0 and 1. *)
Definition sample_pair (x y : bigint_st) : state :=
  mk_state {[0 := x; 1 := y]} 2 ENONE [] false 0.

(** * Properties *)

(** ** Reasoning about calls *)

Lemma wp_ret {A} (a : A) (Q : A -> state -> Prop) s : Q a s -> wp (ret a) Q s.
Proof. intros H. exact H. Qed.

Lemma wp_bind {A B} (m : M A) (k : A -> M B) (Q : B -> state -> Prop) s :
  wp m (fun a s' => wp (k a) Q s') s -> wp (bind m k) Q s.
Proof.
  unfold wp, bind. destruct (m s) as [[a s']| |]; intros H; exact H.
Qed.

Lemma wp_mono {A} (m : M A) (Q Q' : A -> state -> Prop) s :
  wp m Q s -> (forall a s', Q a s' -> Q' a s') -> wp m Q' s.
Proof.
  unfold wp. destruct (m s) as [[a s']| |]; intros H HQ; auto.
Qed.

Lemma wp_done {A} (m : M A) (Q : A -> state -> Prop) s :
  wp m Q s -> exists a s', m s = Done (a, s') /\ Q a s'.
Proof.
  unfold wp. destruct (m s) as [[a s']| |]; intros H; try contradiction.
  exists a, s'. split; [reflexivity | exact H].
Qed.

Lemma wp_of_done {A} (m : M A) (Q : A -> state -> Prop) s a s' :
  m s = Done (a, s') -> Q a s' -> wp m Q s.
Proof. unfold wp. intros -> H. exact H. Qed.

(** *** The store *)

Lemma heap_upd_eq p x s : st_heap (upd p x s) !! p = Some x.
Proof. unfold upd, set_heap. simpl. apply lookup_insert_eq. Qed.

Lemma heap_upd_ne p q x s : p <> q -> st_heap (upd p x s) !! q = st_heap s !! q.
Proof. intros H. unfold upd, set_heap. simpl. by apply lookup_insert_ne. Qed.

Lemma upd_upd p x y s : upd p y (upd p x s) = upd p y s.
Proof. unfold upd, set_heap. simpl. by rewrite insert_insert_eq. Qed.

Lemma upd_same p x s : st_heap s !! p = Some x -> upd p x s = s.
Proof.
  intros H. destruct s. unfold upd, set_heap. simpl in *.
  by rewrite insert_id.
Qed.

Lemma st_junk_upd p x s : st_junk (upd p x s) = st_junk s.
Proof. reflexivity. Qed.

Lemma wp_load p x (Q : bigint_st -> state -> Prop) s :
  st_heap s !! p = Some x -> Q x s -> wp (load p) Q s.
Proof. intros H HQ. unfold wp, load. rewrite H. exact HQ. Qed.

Lemma wp_store p x y (Q : unit -> state -> Prop) s :
  st_heap s !! p = Some x -> Q tt (upd p y s) -> wp (store p y) Q s.
Proof. intros H HQ. unfold wp, store. rewrite H. exact HQ. Qed.

Lemma wp_get_length p b o a l ng (Q : nat -> state -> Prop) s :
  st_heap s !! p = Some (mk_bigint b o a l ng) -> Q l s ->
  wp (get_length p) Q s.
Proof.
  intros H HQ. unfold get_length. apply wp_bind.
  eapply wp_load; [exact H |]. exact HQ.
Qed.

Lemma wp_get_negative p b o a l ng (Q : bool -> state -> Prop) s :
  st_heap s !! p = Some (mk_bigint b o a l ng) -> Q ng s ->
  wp (get_negative p) Q s.
Proof.
  intros H HQ. unfold get_negative. apply wp_bind.
  eapply wp_load; [exact H |]. exact HQ.
Qed.

Lemma wp_set_length p b o a l ng n (Q : unit -> state -> Prop) s :
  st_heap s !! p = Some (mk_bigint b o a l ng) ->
  Q tt (upd p (mk_bigint b o a n ng) s) ->
  wp (set_length p n) Q s.
Proof.
  intros H HQ. unfold set_length. apply wp_bind.
  eapply wp_load; [exact H |]. eapply wp_store; [exact H |]. exact HQ.
Qed.

Lemma wp_set_negative p b o a l ng ng' (Q : unit -> state -> Prop) s :
  st_heap s !! p = Some (mk_bigint b o a l ng) ->
  Q tt (upd p (mk_bigint b o a l ng') s) ->
  wp (set_negative p ng') Q s.
Proof.
  intros H HQ. unfold set_negative. apply wp_bind.
  eapply wp_load; [exact H |]. eapply wp_store; [exact H |]. exact HQ.
Qed.

Lemma wp_rd p i b o a l ng v (Q : Z -> state -> Prop) s :
  st_heap s !! p = Some (mk_bigint b o a l ng) -> b !! (o + i) = Some v ->
  Q v s -> wp (rd p i) Q s.
Proof.
  intros H Hv HQ. unfold rd. apply wp_bind.
  eapply wp_load; [exact H |]. simpl. rewrite Hv. exact HQ.
Qed.

Lemma wp_wr p i v b o a l ng (Q : unit -> state -> Prop) s :
  st_heap s !! p = Some (mk_bigint b o a l ng) -> o + i < length b ->
  Q tt (upd p (mk_bigint (<[o + i := v]> b) o a l ng) s) ->
  wp (wr p i v) Q s.
Proof.
  intros H Hi HQ. unfold wr. apply wp_bind.
  eapply wp_load; [exact H |]. simpl.
  destruct (decide (o + i < length b)) as [_|Hn]; [| contradiction].
  eapply wp_store; [exact H |]. exact HQ.
Qed.

(** *** Loops *)

(** The rules for the counted loops, for an invariant [I] indexed by the
    loop counter. *)
Section LoopRules.
Context {St : Type}.
Variable I : nat -> St -> state -> Prop.

Lemma wp_for_range n :
  forall lo (body : nat -> St -> M St) st s,
    I lo st s ->
    (forall i st s, lo <= i < lo + n -> I i st s ->
                    wp (body i st) (I (S i)) s) ->
    wp (for_range n lo body st) (I (lo + n)) s.
Proof.
  induction n as [|n IH]; intros lo body st s H0 Hstep; simpl.
  - rewrite Nat.add_0_r. exact H0.
  - apply wp_bind. eapply wp_mono; [apply (Hstep lo); [lia | exact H0] |].
    intros st' s' H1. simpl in H1.
    replace (lo + S n) with (S lo + n) by lia.
    apply IH; [exact H1 |].
    intros i st2 s2 Hi. apply Hstep. lia.
Qed.

(** [R] holds when the loop is left by [break]. *)
Variable R : St -> state -> Prop.

Lemma wp_for_break n :
  forall lo (body : nat -> St -> M (St + St)) st s,
    I lo st s ->
    (forall i st s, lo <= i < lo + n -> I i st s ->
       wp (body i st)
          (fun r s' => match r with
                       | inl st' => I (S i) st' s'
                       | inr st' => R st' s'
                       end) s) ->
    wp (for_break n lo body st)
       (fun st' s' => I (lo + n) st' s' \/ R st' s') s.
Proof.
  induction n as [|n IH]; intros lo body st s H0 Hstep; simpl.
  - rewrite Nat.add_0_r. left. exact H0.
  - apply wp_bind. eapply wp_mono; [apply (Hstep lo); [lia | exact H0] |].
    intros [st'|st'] s' H1; simpl in H1.
    + replace (lo + S n) with (S lo + n) by lia.
      apply IH; [exact H1 |].
      intros i st2 s2 Hi. apply Hstep. lia.
    + right. exact H1.
Qed.
End LoopRules.

(** ** Digit arithmetic *)

Lemma digit_base : (2 ^ DIGIT_BITS = 256)%Z.
Proof. reflexivity. Qed.

Lemma digit_max : DIGIT_MAX = 255%Z.
Proof. reflexivity. Qed.

Lemma digit_range_bounds d : digit_range d <-> (0 <= d < 256)%Z.
Proof. unfold digit_range. rewrite digit_max. lia. Qed.

Lemma to_digit_range z : digit_range (to_digit z).
Proof.
  apply digit_range_bounds. unfold to_digit. rewrite digit_base.
  apply Z.mod_pos_bound. lia.
Qed.

Lemma to_digit_small z : (0 <= z < 256)%Z -> to_digit z = z.
Proof. intros H. unfold to_digit. rewrite digit_base. by apply Z.mod_small. Qed.

Lemma land_digit_max z : (0 <= z < 256)%Z -> Z.land z DIGIT_MAX = z.
Proof.
  intros H. change DIGIT_MAX with (Z.ones 8).
  rewrite Z.land_ones by lia. by apply Z.mod_small.
Qed.

Lemma digits_value_app l1 l2 :
  (digits_value (l1 ++ l2)
   = digits_value l1 + 256 ^ Z.of_nat (length l1) * digits_value l2)%Z.
Proof.
  induction l1 as [|d l1 IH]; simpl digits_value; simpl length.
  - change (Z.of_nat 0) with 0%Z. lia.
  - rewrite IH, digit_base, Nat2Z.inj_succ, Z.pow_succ_r by lia. lia.
Qed.

Lemma digits_value_snoc l d :
  (digits_value (l ++ [d])
   = digits_value l + 256 ^ Z.of_nat (length l) * d)%Z.
Proof. rewrite digits_value_app. simpl. rewrite digit_base. lia. Qed.

Lemma digits_value_bound l :
  Forall digit_range l ->
  (0 <= digits_value l < 256 ^ Z.of_nat (length l))%Z.
Proof.
  induction 1 as [|d l Hd _ IH]; simpl digits_value; simpl length.
  - change (Z.of_nat 0) with 0%Z. lia.
  - apply digit_range_bounds in Hd.
    rewrite digit_base, Nat2Z.inj_succ, Z.pow_succ_r by lia. lia.
Qed.

Lemma digits_value_replicate_0 n : digits_value (replicate n 0%Z) = 0%Z.
Proof. induction n as [|n IH]; simpl; [reflexivity | rewrite IH; lia]. Qed.

Lemma pow256_pos n : (0 < 256 ^ Z.of_nat n)%Z.
Proof. apply Z.pow_pos_nonneg; lia. Qed.

(** The value of a non-empty list of digits whose last digit is not 0 is
    at least the weight of that digit. *)
Lemma digits_value_top l :
  Forall digit_range l -> l <> [] -> last l <> Some 0%Z ->
  (256 ^ Z.of_nat (length l - 1) <= digits_value l)%Z.
Proof.
  intros Hr Hne Hlast.
  destruct (decide (l = [])) as [->|_]; [done |].
  assert (Hl : exists l' d, l = l' ++ [d]).
  { destruct l as [|a l0] using rev_ind; [done | eauto]. }
  destruct Hl as (l' & d & ->).
  rewrite last_snoc in Hlast.
  apply Forall_app in Hr as [Hr' Hd].
  apply Forall_singleton, digit_range_bounds in Hd.
  rewrite digits_value_snoc, length_app. simpl.
  replace (length l' + 1 - 1) with (length l') by lia.
  pose proof (digits_value_bound l' Hr').
  pose proof (pow256_pos (length l')).
  assert (d <> 0%Z) by congruence.
  nia.
Qed.

(** *** Prefix updates of a digit block *)

Lemma lookup_prefix (ds b : list Z) i :
  length ds = i -> (ds ++ drop i b) !! i = b !! i.
Proof.
  intros <-. rewrite lookup_app_r by lia.
  rewrite Nat.sub_diag, lookup_drop. f_equal. lia.
Qed.

Lemma lookup_prefix_ge (ds b : list Z) i k :
  length ds = i -> i <= k -> (ds ++ drop i b) !! k = b !! k.
Proof.
  intros <- Hk. rewrite lookup_app_r by lia.
  rewrite lookup_drop. f_equal. lia.
Qed.

Lemma insert_prefix (ds b : list Z) i v :
  length ds = i -> i < length b ->
  <[i := v]> (ds ++ drop i b) = (ds ++ [v]) ++ drop (S i) b.
Proof.
  intros <- Hi.
  destruct (lookup_lt_is_Some_2 b (length ds) Hi) as [x Hx].
  rewrite (drop_S _ _ _ Hx).
  replace (length ds) with (length ds + 0) at 1 by lia.
  rewrite insert_app_r. simpl. by rewrite <- app_assoc.
Qed.

Lemma length_prefix (ds b : list Z) i :
  length ds = i -> i <= length b -> length (ds ++ drop i b) = length b.
Proof. intros <- Hi. rewrite length_app, length_drop. lia. Qed.

Lemma take_prefix (ds b : list Z) i :
  length ds = i -> take i (ds ++ drop i b) = ds.
Proof. intros <-. by rewrite take_app_length. Qed.

(** ** Allocation and normalisation *)

Lemma resize_grow_spec n orig fuel :
  forall cur,
    1 <= orig -> orig <= cur -> n < cur * 2 ^ fuel ->
    n < resize_grow fuel n orig cur /\ cur <= resize_grow fuel n orig cur.
Proof.
  induction fuel as [|fuel IH]; intros cur H1 H2 H3; simpl in *.
  - lia.
  - destruct (decide (cur <= n)) as [Hle|Hgt]; [| lia].
    destruct (decide (cur + (cur + 0) <= orig)) as [Hbad|_]; [lia |].
    destruct (IH (cur + (cur + 0))) as [Ha Hb]; lia.
Qed.

Lemma resize_grow_initial n a :
  1 <= a ->
  n < resize_grow (S n) n a a /\ a <= resize_grow (S n) n a a.
Proof.
  intros Ha. apply resize_grow_spec; [lia | lia |].
  pose proof (Nat.pow_gt_lin_r 2 (S n) ltac:(lia)). nia.
Qed.

Lemma zero_fill_spec n :
  forall from (b : list Z),
    from + n <= length b ->
    zero_fill n from b = take from b ++ replicate n 0%Z ++ drop (from + n) b.
Proof.
  induction n as [|n IH]; intros from b Hb; simpl.
  - rewrite Nat.add_0_r. by rewrite take_drop.
  - rewrite IH by (rewrite length_insert; lia).
    rewrite take_insert_lt by lia.
    rewrite drop_insert_lt by lia.
    replace (S from + n) with (from + S n) by lia.
    assert (Hfrom : from < length b) by lia.
    destruct (lookup_lt_is_Some_2 b from Hfrom) as [x Hx].
    rewrite (take_S_r _ _ _ Hx).
    replace from with (length (take from b) + 0) at 1
      by (rewrite length_take; lia).
    rewrite insert_app_r. simpl. by rewrite <- app_assoc.
Qed.

(** [resize] on a structure whose block is the allocated one: the block is
    extended with zeroes up to the new capacity, which exceeds the new
    length. *)
Lemma wp_resize p b a l ng n (Q : Z -> state -> Prop) s :
  st_heap s !! p = Some (mk_bigint b 0 a l ng) -> length b = a -> 1 <= a ->
  (forall a', n < a' -> a <= a' ->
     Q 0%Z (upd p (mk_bigint (b ++ replicate (a' - a) 0%Z) 0 a' n ng) s)) ->
  wp (resize p n) Q s.
Proof.
  intros Hp Hlen Hone HQ.
  unfold resize. apply wp_bind. eapply wp_load; [exact Hp |].
  cbn [bi_allocated bi_off bi_block bi_length bi_negative].
  destruct (resize_grow_initial n a Hone) as [Hn Ha].
  set (a' := resize_grow (S n) n a a) in *.
  specialize (HQ a' Hn Ha).
  destruct (decide (a < a')) as [Hgrow|Hsame].
  - apply wp_bind. apply wp_bind. unfold junk at 1. unfold wp at 1.
    unfold realloc_block.
    rewrite take_ge by (rewrite length_app, length_replicate; lia).
    rewrite Hlen.
    eapply wp_store; [exact Hp |].
    unfold with_allocated, with_block; simpl.
    apply wp_bind. eapply wp_set_length; [apply heap_upd_eq |].
    rewrite upd_upd. apply wp_ret.
    rewrite zero_fill_spec
      by (rewrite length_app, length_replicate; lia).
    rewrite take_app_length' by lia.
    rewrite drop_ge by (rewrite length_app, length_replicate; lia).
    rewrite app_nil_r. exact HQ.
  - assert (a' = a) as Heq by lia. rewrite Heq in *.
    apply wp_bind. apply wp_ret.
    apply wp_bind. eapply wp_set_length; [exact Hp |].
    apply wp_ret.
    rewrite Nat.sub_diag in HQ. simpl in HQ. rewrite app_nil_r in HQ.
    exact HQ.
Qed.

Lemma wp_normalize_loop n :
  forall p b a ng (Q : unit -> state -> Prop) s,
    st_heap s !! p = Some (mk_bigint b 0 a n ng) -> n <= length b ->
    (forall n', n' <= n ->
       digits_value (take n' b) = digits_value (take n b) ->
       last (take n' b) <> Some 0%Z ->
       Q tt (upd p (mk_bigint b 0 a n' ng) s)) ->
    wp (normalize_loop n p) Q s.
Proof.
  induction n as [|n IH]; intros p b a ng Q s Hp Hn HQ.
  - simpl. apply wp_ret. rewrite <- (upd_same _ _ _ Hp). by apply HQ.
  - simpl. assert (Hlt : n < length b) by lia.
    destruct (lookup_lt_is_Some_2 b n Hlt) as [d Hd].
    apply wp_bind. eapply wp_rd; [exact Hp | exact Hd |].
    destruct (decide (d = 0%Z)) as [->|Hnz].
    + apply wp_bind. eapply wp_set_length; [exact Hp |].
      eapply IH; [apply heap_upd_eq | lia |].
      intros n' Hle Hval Hlast. rewrite upd_upd. apply HQ; [lia | | done].
      rewrite Hval, (take_S_r _ _ _ Hd), digits_value_snoc. lia.
    + apply wp_ret. rewrite <- (upd_same _ _ _ Hp). apply HQ; [lia | done |].
      rewrite (take_S_r _ _ _ Hd), last_snoc. congruence.
Qed.

Lemma wp_normalize p b a n ng (Q : unit -> state -> Prop) s :
  st_heap s !! p = Some (mk_bigint b 0 a n ng) -> n <= length b ->
  (forall n', n' <= n ->
     digits_value (take n' b) = digits_value (take n b) ->
     last (take n' b) <> Some 0%Z ->
     Q tt (upd p (mk_bigint b 0 a n'
                    (if decide (n' = 0) then false else ng)) s)) ->
  wp (normalize p) Q s.
Proof.
  intros Hp Hn HQ.
  unfold normalize. apply wp_bind. eapply wp_get_length; [exact Hp |].
  simpl. apply wp_bind.
  eapply wp_normalize_loop; [exact Hp | exact Hn |].
  intros n' Hle Hval Hlast. specialize (HQ n' Hle Hval Hlast).
  apply wp_bind. eapply wp_get_length; [apply heap_upd_eq |]. simpl.
  destruct (decide (n' = 0)) as [Hz|Hnz].
  - eapply wp_set_negative; [apply heap_upd_eq |].
    rewrite upd_upd. exact HQ.
  - apply wp_ret. exact HQ.
Qed.

(** ** Increment and decrement of a magnitude *)

Lemma wf_bigint_unfold b a l ng :
  wf_bigint (mk_bigint b 0 a l ng) <->
  length b = a /\ 1 <= a /\ l <= a /\ Forall digit_range (take l b)
  /\ last (take l b) <> Some 0%Z /\ (l = 0 -> ng = false).
Proof.
  unfold wf_bigint, wf_buffer, N1, N2, live_digits; simpl.
  rewrite drop_0. tauto.
Qed.

Lemma magnitude_unfold b a l ng :
  magnitude (mk_bigint b 0 a l ng) = digits_value (take l b).
Proof. unfold magnitude, live_digits; simpl. by rewrite drop_0. Qed.

Lemma inc_column v c :
  digit_range v -> c = 0%Z \/ c = 1%Z ->
  digit_range (to_digit (v + c))
  /\ Z.land (to_digit (v + c)) DIGIT_MAX = to_digit (v + c)
  /\ (to_digit (v + c)
      + 256 * (if decide (to_digit (v + c) < v)%Z then 1 else 0)
      = v + c)%Z.
Proof.
  intros Hv Hc. apply digit_range_bounds in Hv.
  pose proof (to_digit_range (v + c)) as Hs.
  apply digit_range_bounds in Hs.
  split; [by apply digit_range_bounds |].
  split; [by apply land_digit_max |].
  destruct (decide (v + c < 256)%Z) as [Hlt|Hge].
  - rewrite to_digit_small by lia.
    destruct (decide (v + c < v)%Z); lia.
  - assert (v + c = 256)%Z as -> by lia.
    change (to_digit 256) with 0%Z.
    destruct (decide (0 < v)%Z); lia.
Qed.

Lemma magnitude_inc_spec p x s :
  st_heap s !! p = Some x -> wf_bigint x ->
  wp (magnitude_inc p)
     (fun rc s' =>
        rc = 0%Z /\
        exists x', s' = upd p x' s /\ wf_bigint x'
                   /\ magnitude x' = (magnitude x + 1)%Z
                   /\ bi_negative x' = bi_negative x) s.
Proof.
  intros Hp Hwf. destruct x as [b o a l ng].
  assert (o = 0) as -> by (destruct Hwf as [[? _] _]; done).
  apply wf_bigint_unfold in Hwf as (Hlen & Hone & Hla & Hrange & Hlast & Hneg).
  unfold magnitude_inc. apply wp_bind. eapply wp_get_length; [exact Hp |].
  cbn [bi_length]. apply wp_bind.
  eapply wp_mono.
  { apply (wp_for_range (inc_invariant p b a l ng s)).
    - exists []. rewrite drop_0. simpl.
      rewrite (upd_same _ _ _ Hp). repeat split; auto.
    - intros i carry s1 Hi (ds & Hds & -> & Hdsr & Hc & Hval).
      assert (Hib : i < length b) by lia.
      destruct (lookup_lt_is_Some_2 b i Hib) as [v Hv].
      assert (Hvr : digit_range v).
      { eapply (Forall_lookup_1 _ (take l b) i); [exact Hrange |].
        rewrite lookup_take_lt by lia. exact Hv. }
      destruct (inc_column v carry Hvr Hc) as (Hsr & Hland & Hsum).
      apply wp_bind. eapply wp_rd; [apply heap_upd_eq | |].
      { simpl. rewrite lookup_prefix by done. exact Hv. }
      apply wp_bind. eapply wp_wr; [apply heap_upd_eq | |].
      { simpl. rewrite length_prefix by (done || lia). exact Hib. }
      apply wp_ret. simpl. rewrite upd_upd, Hland.
      rewrite insert_prefix by (done || lia).
      exists (ds ++ [to_digit (v + carry)]).
      rewrite length_app. simpl.
      split; [lia |]. split; [reflexivity |].
      split; [apply Forall_app; split; [done | by apply Forall_singleton] |].
      split; [destruct (decide (to_digit (v + carry) < v)%Z); auto |].
      rewrite digits_value_snoc, (take_S_r _ _ _ Hv), digits_value_snoc.
      rewrite length_take_le by lia. rewrite Hds.
      rewrite Nat2Z.inj_succ, Z.pow_succ_r by lia.
      apply (f_equal (Z.mul (256 ^ Z.of_nat i))) in Hsum.
      revert Hsum Hval.
      generalize (to_digit (v + carry)) (256 ^ Z.of_nat i)%Z
        (if decide (to_digit (v + carry) < v)%Z then 1%Z else 0%Z).
      intros z z0 z1 Hsum Hval. clear - Hsum Hval. lia. }
  intros carry s1 Hinv. change (0 + l) with l in Hinv.
  destruct Hinv as (ds & Hds & -> & Hdsr & Hc & Hval).
  assert (Hmag : magnitude (mk_bigint b 0 a l ng) = digits_value (take l b))
    by apply magnitude_unfold.
  pose proof (digits_value_bound _ Hrange) as Hbound.
  pose proof (digits_value_bound _ Hdsr) as Hdsbound.
  destruct (decide (carry <> 0%Z)) as [Hcarry|Hnocarry].
  - assert (carry = 1%Z) as -> by (destruct Hc; congruence).
    apply wp_bind. apply wp_bind.
    eapply wp_get_length; [apply heap_upd_eq |]. cbn [bi_length].
    apply wp_bind. unfold resize_sum.
    eapply wp_resize; [apply heap_upd_eq | | exact Hone |].
    { rewrite length_prefix by (done || lia). lia. }
    intros a' Ha' Haa'. rewrite upd_upd.
    apply wp_bind. eapply wp_get_length; [apply heap_upd_eq |].
    cbn [bi_length]. replace (l + 1 - 1) with l by lia.
    assert (Hblk : length ((ds ++ drop l b) ++ replicate (a' - a) 0%Z) = a').
    { rewrite length_app, length_replicate, length_prefix by (done || lia).
      lia. }
    eapply wp_wr; [apply heap_upd_eq | |].
    { simpl. rewrite Hblk. lia. }
    rewrite upd_upd. simpl.
    apply wp_bind. eapply wp_normalize; [apply heap_upd_eq | |].
    { rewrite length_insert, Hblk. lia. }
    intros n' Hn' Hnval Hnlast. rewrite upd_upd. apply wp_ret.
    split; [reflexivity |].
    set (b2 := <[l:=1%Z]> ((ds ++ drop l b) ++ replicate (a' - a) 0%Z)) in *.
    assert (Htake : take (l + 1) b2 = ds ++ [1%Z]).
    { unfold b2. replace (l + 1) with (S l) by lia.
      erewrite take_S_r;
        [| apply list_lookup_insert_eq; rewrite Hblk; lia].
      rewrite take_insert_ge by lia.
      rewrite <- app_assoc, take_app_length' by done. reflexivity. }
    rewrite Htake, digits_value_snoc, Hds in Hnval.
    assert (Hn'0 : n' <> 0).
    { intros ->. rewrite take_0 in Hnval. simpl in Hnval.
      pose proof (pow256_pos l). lia. }
    eexists. split; [reflexivity |].
    destruct (decide (n' = 0)) as [|_]; [done |].
    split.
    + apply wf_bigint_unfold. unfold b2 at 1. rewrite length_insert, Hblk.
      repeat split; try lia; try done.
      assert (Hsub : take n' b2 = take n' (take (l + 1) b2))
        by (rewrite take_take; f_equal; lia).
      rewrite Hsub, Htake. apply Forall_take, Forall_app.
      split; [done | by apply Forall_singleton].
    + rewrite !magnitude_unfold. simpl. split; [| reflexivity]. lia.
  - assert (carry = 0%Z) as -> by lia.
    apply wp_bind. apply wp_ret.
    apply wp_bind. eapply wp_normalize; [apply heap_upd_eq | |].
    { rewrite length_prefix by (done || lia). lia. }
    intros n' Hn' Hnval Hnlast. rewrite upd_upd. apply wp_ret.
    split; [reflexivity |].
    rewrite take_prefix in Hnval by done.
    assert (Hn'0 : n' <> 0).
    { intros ->. rewrite take_0 in Hnval. simpl in Hnval. lia. }
    eexists. split; [reflexivity |].
    destruct (decide (n' = 0)) as [|_]; [done |].
    split.
    + apply wf_bigint_unfold. rewrite length_prefix by (done || lia).
      repeat split; try lia; try done.
      assert (Hsub : take n' (ds ++ drop l b)
                     = take n' (take l (ds ++ drop l b)))
        by (rewrite take_take; f_equal; lia).
      rewrite Hsub, take_prefix by done. by apply Forall_take.
    + rewrite !magnitude_unfold. simpl. split; [| reflexivity]. lia.
Qed.

Lemma digits_value_replicate_max n :
  (digits_value (replicate n DIGIT_MAX) = 256 ^ Z.of_nat n - 1)%Z.
Proof.
  induction n as [|n IH]; [reflexivity |].
  simpl replicate. simpl digits_value.
  rewrite IH, digit_base, digit_max, Nat2Z.inj_succ, Z.pow_succ_r by lia. lia.
Qed.

Lemma Forall_replicate_max n : Forall digit_range (replicate n DIGIT_MAX).
Proof.
  apply Forall_replicate. apply digit_range_bounds. rewrite digit_max. lia.
Qed.

Lemma borrowed_length b i v :
  i < length b -> length (borrowed b i v) = length b.
Proof.
  intros Hi. unfold borrowed.
  rewrite !length_app, length_replicate, length_drop. simpl. lia.
Qed.

Lemma borrowed_take b i v l :
  i < l -> l <= length b ->
  take l (borrowed b i v)
  = (replicate i DIGIT_MAX ++ [(v - 1)%Z]) ++ take (l - S i) (drop (S i) b).
Proof.
  intros Hi Hl. unfold borrowed. rewrite take_app. f_equal.
  - apply take_ge. rewrite length_app, length_replicate. simpl. lia.
  - f_equal. rewrite length_app, length_replicate. simpl. lia.
Qed.

Lemma original_take b i v l :
  take i b = replicate i 0%Z -> b !! i = Some v -> i < l -> l <= length b ->
  take l b = (replicate i 0%Z ++ [v]) ++ take (l - S i) (drop (S i) b).
Proof.
  intros Hz Hv Hi Hl.
  rewrite <- (take_drop (S i) b) at 1.
  rewrite take_app, (take_S_r _ _ _ Hv), Hz. f_equal.
  - apply take_ge. rewrite length_app, length_replicate. simpl. lia.
  - f_equal. rewrite length_app, length_replicate. simpl. lia.
Qed.

Lemma borrowed_value b i v l :
  take i b = replicate i 0%Z -> b !! i = Some v -> i < l -> l <= length b ->
  (digits_value (take l (borrowed b i v)) = digits_value (take l b) - 1)%Z.
Proof.
  intros Hz Hv Hi Hl.
  rewrite (borrowed_take b i v l Hi Hl), (original_take b i v l Hz Hv Hi Hl).
  rewrite !digits_value_app. simpl digits_value.
  rewrite digits_value_replicate_max, digits_value_replicate_0.
  rewrite !length_app, !length_replicate, digit_base. simpl length. lia.
Qed.

Lemma borrowed_range b i v l :
  b !! i = Some v -> v <> 0%Z -> i < l -> l <= length b ->
  Forall digit_range (take l b) ->
  Forall digit_range (take l (borrowed b i v)).
Proof.
  intros Hv Hnz Hi Hl Hr.
  assert (Hvr : digit_range v).
  { eapply (Forall_lookup_1 _ (take l b) i); [exact Hr |].
    rewrite lookup_take_lt by lia. exact Hv. }
  apply digit_range_bounds in Hvr.
  rewrite (borrowed_take b i v l Hi Hl).
  apply Forall_app. split.
  - apply Forall_app. split; [apply Forall_replicate_max |].
    apply Forall_singleton, digit_range_bounds. lia.
  - rewrite take_drop_commute. apply Forall_drop.
    replace (S i + (l - S i)) with l by lia. exact Hr.
Qed.

Lemma magnitude_dec_spec p x s :
  st_heap s !! p = Some x -> wf_bigint x -> bi_length x <> 0 ->
  wp (magnitude_dec p)
     (fun rc s' =>
        rc = 0%Z /\
        exists x', s' = upd p x' s /\ wf_bigint x'
                   /\ magnitude x' = (magnitude x - 1)%Z
                   /\ (magnitude x' <> 0%Z ->
                       bi_negative x' = bi_negative x)) s.
Proof.
  intros Hp Hwf Hnz. destruct x as [b o a l ng].
  assert (o = 0) as -> by (destruct Hwf as [[? _] _]; done).
  apply wf_bigint_unfold in Hwf as (Hlen & Hone & Hla & Hrange & Hlast & Hneg).
  simpl in Hnz.
  assert (H0b : 0 < length b) by lia.
  destruct (lookup_lt_is_Some_2 b 0 H0b) as [d0 Hd0].
  assert (Hd0r : digit_range d0).
  { eapply (Forall_lookup_1 _ (take l b) 0); [exact Hrange |].
    rewrite lookup_take_lt by lia. exact Hd0. }
  apply digit_range_bounds in Hd0r.
  (* what remains after the digits have been updated *)
  assert (Hfinish :
    forall s1, dec_result p b a l ng s tt s1 ->
      wp (normalize p;; ret 0%Z)
        (fun rc s' =>
           rc = 0%Z /\
           exists x', s' = upd p x' s /\ wf_bigint x'
                      /\ magnitude x' = (magnitude (mk_bigint b 0 a l ng) - 1)%Z
                      /\ (magnitude x' <> 0%Z -> bi_negative x' = ng)) s1).
  { intros s1 (i & v & Hi & Hz & Hv & Hvnz & ->).
    apply wp_bind. eapply wp_normalize; [apply heap_upd_eq | |].
    { rewrite borrowed_length by lia. lia. }
    intros n' Hn' Hnval Hnlast. rewrite upd_upd. apply wp_ret.
    split; [reflexivity |]. eexists. split; [reflexivity |].
    rewrite (borrowed_value b i v l Hz Hv Hi) in Hnval by lia.
    split; [| split].
    - apply wf_bigint_unfold. rewrite borrowed_length by lia.
      repeat split; try lia; try done.
      + assert (Hsub : take n' (borrowed b i v)
                       = take n' (take l (borrowed b i v)))
          by (rewrite take_take; f_equal; lia).
        rewrite Hsub. apply Forall_take.
        apply borrowed_range; (done || lia).
      + intros ->. by destruct (decide (0 = 0)).
    - rewrite !magnitude_unfold. exact Hnval.
    - rewrite magnitude_unfold. simpl. intros Hm.
      destruct (decide (n' = 0)) as [->|_]; [| reflexivity].
      rewrite take_0 in Hm. done. }
  unfold magnitude_dec.
  apply wp_bind. eapply wp_rd; [exact Hp | exact Hd0 |].
  apply wp_bind. eapply wp_wr; [exact Hp | simpl; lia |].
  apply wp_bind. eapply wp_rd; [apply heap_upd_eq | |].
  { simpl. apply list_lookup_insert_eq. lia. }
  simpl.
  destruct (decide (d0 = 0%Z)) as [->|Hd0nz].
  - (* the low digit wrapped around *)
    change (to_digit (0 - 1)) with DIGIT_MAX.
    destruct (decide (DIGIT_MAX = DIGIT_MAX)) as [_|]; [| done].
    apply wp_bind. apply wp_bind.
    eapply wp_get_length; [apply heap_upd_eq |].
    eapply wp_mono.
    { apply (wp_for_break (dec_invariant p b a l ng s)
                          (dec_result p b a l ng s)).
      - split; [lia |]. split.
        + by rewrite (take_S_r _ _ _ Hd0).
        + f_equal. f_equal. destruct b as [|d b']; [done |]. reflexivity.
      - intros i [] s1 Hi (Hi1 & Hz & ->).
        assert (Hib : i < length b) by lia.
        destruct (lookup_lt_is_Some_2 b i Hib) as [v Hv].
        apply wp_bind. eapply wp_rd; [apply heap_upd_eq | |].
        { simpl. rewrite lookup_prefix by apply length_replicate. exact Hv. }
        assert (Hlp : length (replicate i DIGIT_MAX ++ drop i b) = length b).
        { apply length_prefix; [apply length_replicate | lia]. }
        destruct (decide (v <> 0%Z)) as [Hvnz|Hvz].
        + apply wp_bind. eapply wp_wr; [apply heap_upd_eq | |].
          { simpl. rewrite Hlp. exact Hib. }
          apply wp_ret. rewrite upd_upd. simpl.
          exists i, v. repeat split; try done; try lia.
          f_equal. f_equal. unfold borrowed.
          rewrite insert_prefix by (apply length_replicate || lia).
          assert (Hvr : digit_range v).
          { eapply (Forall_lookup_1 _ (take l b) i); [exact Hrange |].
            rewrite lookup_take_lt by lia. exact Hv. }
          apply digit_range_bounds in Hvr.
          rewrite to_digit_small by lia. reflexivity.
        + assert (v = 0%Z) as -> by lia.
          apply wp_bind. eapply wp_wr; [apply heap_upd_eq | |].
          { simpl. rewrite Hlp. exact Hib. }
          apply wp_ret. rewrite upd_upd. simpl.
          split; [lia |]. split.
          * rewrite (take_S_r _ _ _ Hv), Hz.
            change [0%Z] with (replicate 1 0%Z).
            rewrite <- replicate_add. f_equal. lia.
          * f_equal. f_equal.
            rewrite insert_prefix by (apply length_replicate || lia).
            f_equal. change [DIGIT_MAX] with (replicate 1 DIGIT_MAX).
            rewrite <- replicate_add. f_equal. lia. }
    intros [] s1 [(_ & Hz & _)|Hres].
    + (* every digit is 0: excluded by N1 *)
      exfalso. replace (1 + (l - 1)) with l in Hz by lia.
      apply Hlast. rewrite Hz.
      destruct l as [|l']; [done |].
      replace (S l') with (l' + 1) by lia.
      rewrite replicate_add. simpl. apply last_snoc.
    + apply Hfinish. exact Hres.
  - rewrite to_digit_small by lia.
    destruct (decide ((d0 - 1)%Z = DIGIT_MAX)) as [Hbad|_];
      [rewrite digit_max in Hbad; lia |].
    apply wp_bind. apply wp_ret. apply Hfinish.
    exists 0, d0. repeat split; try done; try lia.
    f_equal. f_equal. unfold borrowed. simpl.
    rewrite <- (take_drop 1 b) at 1.
    rewrite (take_S_r _ _ _ Hd0), take_0. reflexivity.
Qed.

(** ** Increment and decrement *)

Lemma value_unfold x :
  value x = if bi_negative x then (- magnitude x)%Z else magnitude x.
Proof. reflexivity. Qed.

Lemma wf_negative_nonzero x :
  wf_bigint x -> bi_negative x = true -> bi_length x <> 0.
Proof.
  intros (_ & _ & _ & _ & H2) Hn Hl. rewrite (H2 Hl) in Hn. discriminate.
Qed.

Lemma bigint_inc_spec p x s :
  st_heap s !! p = Some x -> wf_bigint x ->
  wp (bigint_inc p)
     (fun rc s' =>
        rc = 0%Z /\
        exists x', s' = upd p x' s /\ wf_bigint x'
                   /\ value x' = (value x + 1)%Z) s.
Proof.
  intros Hp Hwf. unfold bigint_inc, bigint_ltz.
  apply wp_bind. destruct x as [b o a l ng].
  eapply wp_get_negative; [exact Hp |].
  destruct ng.
  - eapply wp_mono;
      [apply (magnitude_dec_spec p _ s Hp Hwf);
       by apply wf_negative_nonzero |].
    intros rc s' (-> & x' & -> & Hwf' & Hmag & Hsign).
    split; [reflexivity |]. exists x'.
    split; [reflexivity |]. split; [exact Hwf' |].
    rewrite !value_unfold. simpl bi_negative in *. cbv iota.
    destruct (decide (magnitude x' = 0%Z)) as [Hz|Hnz].
    + rewrite Hz in *. destruct (bi_negative x'); lia.
    + rewrite (Hsign Hnz). lia.
  - eapply wp_mono; [apply (magnitude_inc_spec p _ s Hp Hwf) |].
    intros rc s' (-> & x' & -> & Hwf' & Hmag & Hsign).
    split; [reflexivity |]. exists x'.
    split; [reflexivity |]. split; [exact Hwf' |].
    rewrite !value_unfold, Hsign. simpl bi_negative. cbv iota. lia.
Qed.

Lemma bigint_dec_spec p x s :
  st_heap s !! p = Some x -> wf_bigint x ->
  wp (bigint_dec p)
     (fun rc s' =>
        rc = 0%Z /\
        exists x', s' = upd p x' s /\ wf_bigint x'
                   /\ value x' = (value x - 1)%Z) s.
Proof.
  intros Hp Hwf. unfold bigint_dec, bigint_eqz, bigint_ltz.
  apply wp_bind. apply wp_bind.
  destruct x as [b o a l ng].
  eapply wp_get_length; [exact Hp |]. apply wp_ret.
  destruct (decide (l = 0)) as [->|Hl].
  - (* zero becomes -1 *)
    rewrite bool_decide_eq_true_2 by done.
    assert (o = 0) as -> by (destruct Hwf as [[? _] _]; done).
    apply wf_bigint_unfold in Hwf
      as (Hlen & Hone & Hla & Hrange & Hlast & Hneg).
    apply wp_bind. eapply wp_set_length; [exact Hp |].
    apply wp_bind. eapply wp_wr; [apply heap_upd_eq | simpl; lia |].
    rewrite upd_upd.
    apply wp_bind. eapply wp_set_negative; [apply heap_upd_eq |].
    rewrite upd_upd. apply wp_ret. simpl.
    split; [reflexivity |]. eexists. split; [reflexivity |].
    assert (Htake : take 1 (<[0:=1%Z]> b) = [1%Z]).
    { destruct b as [|d b']; [simpl in Hlen; lia | reflexivity]. }
    split.
    + apply wf_bigint_unfold. rewrite length_insert, Htake.
      repeat split; try lia; try done.
      apply Forall_singleton, digit_range_bounds. lia.
    + rewrite !value_unfold, !magnitude_unfold. simpl bi_negative.
      rewrite Htake, take_0, (Hneg eq_refl). reflexivity.
  - rewrite bool_decide_eq_false_2 by done.
    apply wp_bind. eapply wp_get_negative; [exact Hp |].
    destruct ng.
    + eapply wp_mono; [apply (magnitude_inc_spec p _ s Hp Hwf) |].
      intros rc s' (-> & x' & -> & Hwf' & Hmag & Hsign).
      split; [reflexivity |]. exists x'.
    split; [reflexivity |]. split; [exact Hwf' |].
      rewrite !value_unfold, Hsign. simpl bi_negative. cbv iota. lia.
    + eapply wp_mono; [apply (magnitude_dec_spec p _ s Hp Hwf Hl) |].
      intros rc s' (-> & x' & -> & Hwf' & Hmag & Hsign).
      split; [reflexivity |]. exists x'.
    split; [reflexivity |]. split; [exact Hwf' |].
      rewrite !value_unfold. simpl bi_negative in *. cbv iota.
      destruct (decide (magnitude x' = 0%Z)) as [Hz|Hnz].
      * rewrite Hz in *. destruct (bi_negative x'); lia.
      * rewrite (Hsign Hnz). lia.
Qed.

(** C10.  For a structure [v] that satisfies the representation invariants,
    [bigint_inc] returns 0 and replaces the value by [value v + 1], and
    [bigint_dec] returns 0 and replaces it by [value v - 1]; the result
    satisfies the invariants again (so a zero result is not negative), and
    nothing else in the store changes.  [bigint_inc] runs [magnitude_dec]
    on a negative value and [magnitude_inc] otherwise; [bigint_dec] on a
    non-zero value runs [magnitude_inc] when it is negative and
    [magnitude_dec] when it is positive. *)
Theorem bigint_inc_dec_value s x v :
  st_heap s !! x = Some v -> wf_bigint v ->
  (exists v', bigint_inc x s = Done (0%Z, upd x v' s)
              /\ wf_bigint v' /\ value v' = (value v + 1)%Z)
  /\ (exists v', bigint_dec x s = Done (0%Z, upd x v' s)
                 /\ wf_bigint v' /\ value v' = (value v - 1)%Z)
  /\ bigint_inc x s
     = (if bi_negative v then magnitude_dec x s else magnitude_inc x s)
  /\ (bi_length v <> 0 ->
      bigint_dec x s
      = (if bi_negative v then magnitude_inc x s else magnitude_dec x s)).
Proof.
  intros Hp Hwf. repeat split.
  - destruct (wp_done _ _ _ (bigint_inc_spec x v s Hp Hwf))
      as (rc & s' & Hrun & -> & v' & -> & Hwf' & Hval).
    exists v'. done.
  - destruct (wp_done _ _ _ (bigint_dec_spec x v s Hp Hwf))
      as (rc & s' & Hrun & -> & v' & -> & Hwf' & Hval).
    exists v'. done.
  - unfold bigint_inc, bigint_ltz, get_negative, bind, load, ret.
    rewrite Hp. by destruct (bi_negative v).
  - intros Hl.
    unfold bigint_dec, bigint_eqz, bigint_ltz, get_length, get_negative,
      bind, load, ret.
    rewrite Hp. rewrite bool_decide_eq_false_2 by done. rewrite Hp.
    by destruct (bi_negative v).
Qed.

(** A zero and a minus one, for the two steps across zero. *)
Lemma bigint_inc_dec_value_witness :
  (exists v', bigint_inc 0 (sample_state (sample [] false))
              = Done (0%Z, upd 0 v' (sample_state (sample [] false)))
              /\ wf_bigint v'
              /\ value v' = (value (sample [] false) + 1)%Z)
  /\ (exists v', bigint_dec 0 (sample_state (sample [] false))
                 = Done (0%Z, upd 0 v' (sample_state (sample [] false)))
                 /\ wf_bigint v'
                 /\ value v' = (value (sample [] false) - 1)%Z)
  /\ bigint_inc 0 (sample_state (sample [] false))
     = (if bi_negative (sample [] false)
        then magnitude_dec 0 (sample_state (sample [] false))
        else magnitude_inc 0 (sample_state (sample [] false)))
  /\ (bi_length (sample [] false) <> 0 ->
      bigint_dec 0 (sample_state (sample [] false))
      = (if bi_negative (sample [] false)
         then magnitude_inc 0 (sample_state (sample [] false))
         else magnitude_dec 0 (sample_state (sample [] false)))).
Proof.
  apply (bigint_inc_dec_value (sample_state (sample [] false)) 0
           (sample [] false)).
  - reflexivity.
  - apply (@bool_decide_unpack _ (wf_bigint_dec _)). vm_compute. exact I.
Defined.

(** Decrementing 0 yields -1 and incrementing -1 yields 0. *)
Example dec_zero_inc_minus_one :
  outcome_map (fun _ s => value_at s 0)
    (bigint_dec 0 (sample_state (sample [] false))) = Done (Some (-1)%Z)
  /\ outcome_map (fun _ s => (value_at s 0, length_negative_at 0 s))
       (bigint_inc 0 (sample_state (sample [1%Z] true)))
     = Done (Some 0%Z, Some (0, false)).
Proof. split; vm_compute; reflexivity. Qed.

(** ** Sum of two magnitudes *)

Lemma sum_column a b c :
  digit_range a -> digit_range b -> c = 0%Z \/ c = 1%Z ->
  digit_range (to_digit (a + b + c))
  /\ (to_digit (a + b + c)
      + 256 * (if decide (to_digit (a + b + c) - c < a)%Z then 1 else 0)
      = a + b + c)%Z.
Proof.
  intros Ha Hb Hc. apply digit_range_bounds in Ha, Hb.
  split; [apply to_digit_range |].
  destruct (decide (a + b + c < 256)%Z) as [Hlt|Hge].
  - rewrite to_digit_small by lia.
    destruct (decide (a + b + c - c < a)%Z); lia.
  - assert (Hs : to_digit (a + b + c) = (a + b + c - 256)%Z).
    { unfold to_digit. rewrite digit_base.
      replace (a + b + c)%Z with (a + b + c - 256 + 1 * 256)%Z at 1 by lia.
      rewrite Z_mod_plus_full. apply Z.mod_small. lia. }
    rewrite Hs. destruct (decide (a + b + c - 256 - c < a)%Z); lia.
Qed.

(** A digit of an operand of [magnitude_sum] while the destination is being
    written: the operand may be the destination itself, whose digits from
    [k] on still are the original ones. *)
Lemma wp_rd_operand dest q k bq aq lq nq bd ad ld nd ds zs ad' max v
  (Q : Z -> state -> Prop) s :
  st_heap s !! dest = Some (mk_bigint bd 0 ad ld nd) ->
  st_heap s !! q = Some (mk_bigint bq 0 aq lq nq) ->
  length ds = k -> bq !! k = Some v ->
  Q v (upd dest (mk_bigint (ds ++ drop k (bd ++ zs)) 0 ad' max nd) s) ->
  wp (rd q k) Q
     (upd dest (mk_bigint (ds ++ drop k (bd ++ zs)) 0 ad' max nd) s).
Proof.
  intros Hd Hq Hds Hv HQ.
  destruct (decide (q = dest)) as [->|Hne].
  - rewrite Hd in Hq. injection Hq as <- <- <- <-.
    eapply wp_rd; [apply heap_upd_eq | | exact HQ].
    simpl. rewrite lookup_prefix by done.
    apply lookup_app_l_Some. exact Hv.
  - eapply wp_rd; [| | exact HQ].
    + rewrite heap_upd_ne by done. exact Hq.
    + exact Hv.
Qed.

Lemma take_take_S_ge (l : list Z) n k :
  n <= k -> take (S k) (take n l) = take k (take n l).
Proof. intros H. rewrite !take_take. f_equal. lia. Qed.

Lemma take_take_S_lt (l : list Z) n k v :
  k < n -> l !! k = Some v ->
  take (S k) (take n l) = take k (take n l) ++ [v].
Proof.
  intros H Hv. apply take_S_r. rewrite lookup_take_lt by lia. exact Hv.
Qed.

Lemma live_lookup_range (l : list Z) n k :
  Forall digit_range (take n l) -> k < n -> n <= length l ->
  exists v, l !! k = Some v /\ digit_range v.
Proof.
  intros Hr Hk Hn.
  assert (Hkl : k < length l) by lia.
  destruct (lookup_lt_is_Some_2 l k Hkl) as [v Hv].
  exists v. split; [exact Hv |].
  eapply (Forall_lookup_1 _ (take n l) k); [exact Hr |].
  rewrite lookup_take_lt by lia. exact Hv.
Qed.

Lemma sum_invariant_step dest blk ad max nd A B s k carry ds v sum carry' :
  length ds = k -> k < length blk ->
  Forall digit_range ds -> digit_range sum ->
  (carry' = 0%Z \/ carry' = 1%Z) ->
  (digits_value ds + carry * 256 ^ Z.of_nat k
   = digits_value (take k A) + digits_value (take k B))%Z ->
  (digits_value (take (S k) A) + digits_value (take (S k) B)
   = digits_value (take k A) + digits_value (take k B)
     + 256 ^ Z.of_nat k * v)%Z ->
  (sum + 256 * carry' = v + carry)%Z ->
  sum_invariant dest blk ad max nd A B s (S k) carry'
    (upd dest (mk_bigint (<[0 + k := sum]> (ds ++ drop k blk)) 0 ad max nd) s).
Proof.
  intros Hds Hk Hdsr Hsr Hc' Hval Htake Hsum.
  exists (ds ++ [sum]). rewrite length_app. simpl.
  split; [lia |]. split.
  { rewrite insert_prefix by done. reflexivity. }
  split; [apply Forall_app; split; [done | by apply Forall_singleton] |].
  split; [exact Hc' |].
  rewrite digits_value_snoc, Htake, Hds.
  rewrite Nat2Z.inj_succ, Z.pow_succ_r by lia.
  apply (f_equal (Z.mul (256 ^ Z.of_nat k))) in Hsum.
  revert Hsum Hval. generalize (256 ^ Z.of_nat k)%Z.
  intros P Hsum Hval. lia.
Qed.

(** A prefix that carries the whole value of a list whose value reaches the
    weight of its last digit is the list itself. *)
Lemma full_length_of_value (l : list Z) n :
  Forall digit_range l -> n <= length l -> 1 <= length l ->
  digits_value (take n l) = digits_value l ->
  (256 ^ Z.of_nat (length l - 1) <= digits_value l)%Z ->
  n = length l.
Proof.
  intros Hr Hn H1 Hval Htop.
  destruct (decide (n = length l)) as [|Hne]; [done | exfalso].
  assert (Hlt : n <= length l - 1) by lia.
  pose proof (digits_value_bound (take n l) (Forall_take _ _ _ Hr)) as Hb.
  rewrite length_take_le in Hb by lia.
  assert (256 ^ Z.of_nat n <= 256 ^ Z.of_nat (length l - 1))%Z
    by (apply Z.pow_le_mono_r; lia).
  lia.
Qed.

Lemma magnitude_sum_spec dest a b xd xa xb s :
  st_heap s !! dest = Some xd -> st_heap s !! a = Some xa ->
  st_heap s !! b = Some xb ->
  wf_buffer xd -> wf_bigint xa -> wf_bigint xb ->
  wp (magnitude_sum dest a b)
     (fun r s' =>
        r = Some dest /\
        exists xd',
          s' = upd dest xd' s /\ wf_bigint xd'
          /\ magnitude xd' = (magnitude xa + magnitude xb)%Z
          /\ bi_length xd'
             = Nat.max (bi_length xa) (bi_length xb)
               + (if decide (256 ^ Z.of_nat (Nat.max (bi_length xa)
                                                     (bi_length xb))
                             <= magnitude xa + magnitude xb)%Z
                  then 1 else 0)) s.
Proof.
  intros Hd Ha Hb Hwd Hwa Hwb.
  destruct xd as [bd od ad ld nd], xa as [ba oa aa la na],
    xb as [bb ob ab lb nb].
  destruct Hwd as (Hod & Hdlen & Hdone). simpl in Hod, Hdlen, Hdone.
  subst od.
  assert (oa = 0) as -> by (destruct Hwa as [[? _] _]; done).
  assert (ob = 0) as -> by (destruct Hwb as [[? _] _]; done).
  apply wf_bigint_unfold in Hwa
    as (Halen & Haone & Hala & Harange & Halast & Haneg).
  apply wf_bigint_unfold in Hwb
    as (Hblen & Hbone & Hblb & Hbrange & Hblast & Hbneg).
  rewrite !magnitude_unfold. cbn [bi_length].
  set (A := take la ba) in *. set (B := take lb bb) in *.
  assert (HAlen : length A = la) by (unfold A; rewrite length_take; lia).
  assert (HBlen : length B = lb) by (unfold B; rewrite length_take; lia).
  pose proof (digits_value_bound A Harange) as HAb.
  pose proof (digits_value_bound B Hbrange) as HBb.
  unfold magnitude_sum.
  apply wp_bind. eapply wp_get_length; [exact Ha |].
  apply wp_bind. eapply wp_get_length; [exact Hb |].
  cbv zeta.
  set (mx := if decide (lb < la) then la else lb).
  assert (Hmx : mx = Nat.max la lb) by (unfold mx; destruct (decide _); lia).
  clearbody mx. rewrite <- Hmx.
  unfold bigint_eqz.
  apply wp_bind. apply wp_bind. eapply wp_get_length; [exact Ha |].
  apply wp_ret.
  apply wp_bind. apply wp_bind. eapply wp_get_length; [exact Hb |].
  apply wp_ret.
  destruct (decide (mx = 0)) as [Hz|Hnz].
  - (* both operands are zero *)
    assert (la = 0) as Hla0 by lia. assert (lb = 0) as Hlb0 by lia.
    rewrite !bool_decide_eq_true_2 by done. simpl andb. cbv iota.
    apply wp_bind. unfold bigint_movui.
    apply wp_bind. eapply wp_set_negative; [exact Hd |].
    destruct (decide (0%Z = 0%Z)) as [_|]; [| done].
    eapply wp_set_length; [apply heap_upd_eq |]. rewrite upd_upd.
    apply wp_bind. eapply wp_normalize; [apply heap_upd_eq | lia |].
    intros n' Hn' _ _. rewrite upd_upd. apply wp_ret.
    split; [reflexivity |]. eexists. split; [reflexivity |].
    assert (n' = 0) as -> by lia.
    assert (HA0 : digits_value A = 0%Z).
    { unfold A. rewrite Hla0, take_0. reflexivity. }
    assert (HB0 : digits_value B = 0%Z).
    { unfold B. rewrite Hlb0, take_0. reflexivity. }
    split; [| split].
    + apply wf_bigint_unfold. rewrite take_0.
      repeat split; try lia; try done.
    + rewrite magnitude_unfold, take_0, HA0, HB0. reflexivity.
    + cbn [bi_length]. rewrite Hz, HA0, HB0. simpl.
      destruct (decide (1 <= 0 + 0)%Z); [lia | reflexivity].
  - assert (Hand : bool_decide (la = 0) && bool_decide (lb = 0) = false).
    { destruct (decide (la = 0)) as [Hla0|Hla0].
      - rewrite (bool_decide_eq_false_2 (lb = 0)) by lia.
        apply andb_false_r.
      - rewrite (bool_decide_eq_false_2 (la = 0)) by done. reflexivity. }
    rewrite Hand. cbv iota. clear Hand.
    assert (HVtop : (256 ^ Z.of_nat (mx - 1)
                     <= digits_value A + digits_value B)%Z).
    { destruct (decide (lb < la)) as [Hlt|Hge].
      - assert (HAne : A <> []) by (intros HA; rewrite HA in HAlen; simpl in HAlen; lia).
        pose proof (digits_value_top A Harange HAne Halast) as Ht.
        rewrite HAlen in Ht. replace mx with la by lia. lia.
      - assert (HBne : B <> []) by (intros HB; rewrite HB in HBlen; simpl in HBlen; lia).
        pose proof (digits_value_top B Hbrange HBne Hblast) as Ht.
        rewrite HBlen in Ht. replace mx with lb by lia. lia. }
    apply wp_bind. apply wp_bind.
    eapply wp_resize; [exact Hd | exact Hdlen | exact Hdone |].
    intros ad' Had' Hadad'.
    set (zs := replicate (ad' - ad) 0%Z).
    assert (Hblk : length (bd ++ zs) = ad').
    { unfold zs. rewrite length_app, length_replicate. lia. }
    apply wp_bind. eapply wp_mono.
    { apply (wp_for_range
               (sum_invariant dest (bd ++ zs) ad' mx nd A B s)).
      - exists []. rewrite drop_0. simpl. repeat split; auto.
      - intros k carry s1 Hk (ds & Hds & -> & Hdsr & Hc & Hval).
        assert (Hkb : k < length (bd ++ zs)) by lia.
        assert (Hwrite : 0 + k < length (ds ++ drop k (bd ++ zs))).
        { rewrite length_prefix by (done || lia). lia. }
        apply wp_bind.
        destruct (decide (la <= k)) as [Hak|Hak].
        + (* only [b] has a digit in this column *)
          destruct (live_lookup_range bb lb k Hbrange ltac:(lia) ltac:(lia))
            as (bo & Hbo & Hbor).
          destruct (inc_column bo carry Hbor Hc) as (Hsr & _ & Hsum).
          apply wp_bind.
          eapply wp_rd_operand; [exact Hd | exact Hb | exact Hds | exact Hbo |].
          apply wp_ret. cbv beta iota.
          apply wp_bind. eapply wp_wr; [apply heap_upd_eq | exact Hwrite |].
          rewrite upd_upd. apply wp_ret.
          eapply (sum_invariant_step _ _ _ _ _ _ _ _ _ carry ds bo);
            try done.
          * destruct (decide (to_digit (bo + carry) < bo)%Z); auto.
          * unfold A, B. rewrite take_take_S_ge by lia.
            rewrite (take_take_S_lt bb lb k bo) by (lia || done).
            rewrite digits_value_snoc, !length_take. 
            replace (k `min` (lb `min` length bb)) with k by lia. lia.
        + destruct (live_lookup_range ba la k Harange ltac:(lia) ltac:(lia))
            as (ao & Hao & Haor).
          destruct (decide (lb <= k)) as [Hbk|Hbk].
          * (* only [a] has a digit in this column *)
            destruct (inc_column ao carry Haor Hc) as (Hsr & _ & Hsum).
            apply wp_bind.
            eapply wp_rd_operand;
              [exact Hd | exact Ha | exact Hds | exact Hao |].
            apply wp_ret. cbv beta iota.
            apply wp_bind. eapply wp_wr; [apply heap_upd_eq | exact Hwrite |].
            rewrite upd_upd. apply wp_ret.
            eapply (sum_invariant_step _ _ _ _ _ _ _ _ _ carry ds ao);
              try done.
            -- destruct (decide (to_digit (ao + carry) < ao)%Z); auto.
            -- unfold A, B. rewrite (take_take_S_ge bb) by lia.
               rewrite (take_take_S_lt ba la k ao) by (lia || done).
               rewrite digits_value_snoc, !length_take.
               replace (k `min` (la `min` length ba)) with k by lia. lia.
          * (* both operands have a digit *)
            destruct (live_lookup_range bb lb k Hbrange ltac:(lia) ltac:(lia))
              as (bo & Hbo & Hbor).
            destruct (sum_column ao bo carry Haor Hbor Hc) as (Hsr & Hsum).
            apply wp_bind.
            eapply wp_rd_operand;
              [exact Hd | exact Ha | exact Hds | exact Hao |].
            apply wp_bind.
            eapply wp_rd_operand;
              [exact Hd | exact Hb | exact Hds | exact Hbo |].
            apply wp_ret. cbv beta iota.
            apply wp_bind. eapply wp_wr; [apply heap_upd_eq | exact Hwrite |].
            rewrite upd_upd. apply wp_ret.
            eapply (sum_invariant_step _ _ _ _ _ _ _ _ _ carry ds
                      (ao + bo)%Z); try done.
            -- destruct (decide (to_digit (ao + bo + carry) - carry < ao)%Z);
                 auto.
            -- unfold A, B.
               rewrite (take_take_S_lt ba la k ao) by (lia || done).
               rewrite (take_take_S_lt bb lb k bo) by (lia || done).
               rewrite !digits_value_snoc, !length_take.
               replace (k `min` (la `min` length ba)) with k by lia.
               replace (k `min` (lb `min` length bb)) with k by lia. lia. }
    intros carry s1 Hinv. change (0 + mx) with mx in Hinv.
    destruct Hinv as (ds & Hds & -> & Hdsr & Hc & Hval).
    rewrite (take_ge A), (take_ge B) in Hval by lia.
    pose proof (digits_value_bound ds Hdsr) as Hdsb. rewrite Hds in Hdsb.
    assert (Hlp : length (ds ++ drop mx (bd ++ zs)) = ad').
    { rewrite length_prefix by (done || lia). exact Hblk. }
    destruct (decide (carry <> 0%Z)) as [Hcarry|Hnocarry].
    + assert (carry = 1%Z) as -> by (destruct Hc; congruence).
      apply wp_bind. eapply wp_get_length; [apply heap_upd_eq |].
      apply wp_bind. unfold resize_sum.
      eapply wp_resize; [apply heap_upd_eq | exact Hlp | lia |].
      intros ad2 Had2 Hadad2. rewrite upd_upd.
      set (zs2 := replicate (ad2 - ad') 0%Z).
      assert (Hblk2 : length ((ds ++ drop mx (bd ++ zs)) ++ zs2) = ad2).
      { unfold zs2. rewrite length_app, length_replicate, Hlp. lia. }
      eapply wp_wr; [apply heap_upd_eq | simpl; rewrite Hblk2; lia |].
      rewrite upd_upd. simpl Nat.add.
      apply wp_bind. eapply wp_normalize; [apply heap_upd_eq | |].
      { rewrite length_insert, Hblk2. lia. }
      intros n' Hn' Hnval Hnlast. rewrite upd_upd. apply wp_ret.
      split; [reflexivity |]. eexists. split; [reflexivity |].
      set (b2 := <[mx:=1%Z]> ((ds ++ drop mx (bd ++ zs)) ++ zs2)) in *.
      assert (Htake : take (mx + 1) b2 = ds ++ [1%Z]).
      { unfold b2. replace (mx + 1) with (S mx) by lia.
        erewrite take_S_r;
          [| apply list_lookup_insert_eq; rewrite Hblk2; lia].
        rewrite take_insert_ge by lia.
        rewrite <- app_assoc, take_app_length' by done. reflexivity. }
      assert (Hr2 : Forall digit_range (ds ++ [1%Z])).
      { apply Forall_app. split; [done |].
        apply Forall_singleton, digit_range_bounds. lia. }
      assert (Hsub : take n' b2 = take n' (ds ++ [1%Z])).
      { rewrite <- Htake, take_take. f_equal. lia. }
      rewrite Hsub, Htake in Hnval.
      assert (Hn'eq : n' = length (ds ++ [1%Z])).
      { apply full_length_of_value; try done.
        - rewrite length_app. simpl. lia.
        - rewrite length_app. simpl. lia.
        - apply digits_value_top; [done | | by rewrite last_snoc].
          by destruct ds. }
      rewrite length_app in Hn'eq. simpl in Hn'eq.
      rewrite digits_value_snoc, Hds in Hnval.
      split; [| split].
      * apply wf_bigint_unfold. unfold b2 at 1.
        rewrite length_insert, Hblk2.
        repeat split; try lia; try done.
        rewrite Hsub. by apply Forall_take.
      * rewrite magnitude_unfold, Hsub, take_ge
          by (rewrite length_app; simpl; lia).
        rewrite digits_value_snoc, Hds. lia.
      * cbn [bi_length].
        destruct (decide (256 ^ Z.of_nat mx
                          <= digits_value A + digits_value B)%Z); lia.
    + assert (carry = 0%Z) as -> by lia.
      apply wp_ret.
      apply wp_bind. eapply wp_normalize; [apply heap_upd_eq | |].
      { rewrite Hlp. lia. }
      intros n' Hn' Hnval Hnlast. rewrite upd_upd. apply wp_ret.
      split; [reflexivity |]. eexists. split; [reflexivity |].
      assert (Hsub : take n' (ds ++ drop mx (bd ++ zs)) = take n' ds).
      { rewrite <- (take_prefix ds (bd ++ zs) mx Hds) at 2.
        rewrite take_take. f_equal. lia. }
      rewrite Hsub, take_prefix in Hnval by done.
      assert (Hn'eq : n' = length ds).
      { apply full_length_of_value; try done; try lia.
        rewrite Hds. lia. }
      rewrite Hds in Hn'eq.
      split; [| split].
      * apply wf_bigint_unfold. rewrite Hlp.
        repeat split; try lia; try done.
        rewrite Hsub. by apply Forall_take.
      * rewrite magnitude_unfold, Hsub, take_ge by lia. lia.
      * cbn [bi_length].
        destruct (decide (256 ^ Z.of_nat mx
                          <= digits_value A + digits_value B)%Z); lia.
Qed.

(** The default build, with 8-bit digits.  [magnitude_sum(dest, a, b)] on
    operands that satisfy the representation invariants returns [dest],
    whose magnitude is then [|a| + |b|] and whose length is the larger of
    the two lengths, plus one exactly when the sum reaches [256 ^ max], that
    is when a carry leaves the most significant column.  [dest], [a] and
    [b] are arbitrary pointers: [dest] may be [a], [b] or both (the
    hypotheses then make the structures coincide), and only the structure
    behind [dest] changes. *)
Theorem magnitude_sum_value s dest a b xd xa xb :
  st_heap s !! dest = Some xd -> st_heap s !! a = Some xa ->
  st_heap s !! b = Some xb ->
  wf_buffer xd -> wf_bigint xa -> wf_bigint xb ->
  exists xd',
    magnitude_sum dest a b s = Done (Some dest, upd dest xd' s)
    /\ wf_bigint xd'
    /\ magnitude xd' = (magnitude xa + magnitude xb)%Z
    /\ bi_length xd'
       = Nat.max (bi_length xa) (bi_length xb)
         + (if decide (256 ^ Z.of_nat (Nat.max (bi_length xa) (bi_length xb))
                       <= magnitude xa + magnitude xb)%Z
            then 1 else 0).
Proof.
  intros Hd Ha Hb Hwd Hwa Hwb.
  destruct (wp_done _ _ _
              (magnitude_sum_spec dest a b xd xa xb s Hd Ha Hb Hwd Hwa Hwb))
    as (r & s' & Hrun & -> & xd' & -> & Hwf' & Hmag & Hlen).
  exists xd'. done.
Qed.

(** The sum of 200 with itself, written over the operand. *)
Lemma magnitude_sum_value_witness :
  exists xd',
    magnitude_sum 0 0 0 (sample_state (sample [200%Z] false))
    = Done (Some 0, upd 0 xd' (sample_state (sample [200%Z] false)))
    /\ wf_bigint xd'
    /\ magnitude xd'
       = (magnitude (sample [200%Z] false)
          + magnitude (sample [200%Z] false))%Z
    /\ bi_length xd'
       = Nat.max (bi_length (sample [200%Z] false))
                 (bi_length (sample [200%Z] false))
         + (if decide (256 ^ Z.of_nat
                               (Nat.max (bi_length (sample [200%Z] false))
                                        (bi_length (sample [200%Z] false)))
                       <= magnitude (sample [200%Z] false)
                          + magnitude (sample [200%Z] false))%Z
            then 1 else 0).
Proof.
  apply (magnitude_sum_value (sample_state (sample [200%Z] false)) 0 0 0
           (sample [200%Z] false) (sample [200%Z] false)
           (sample [200%Z] false)).
  - reflexivity.
  - reflexivity.
  - reflexivity.
  - apply (@bool_decide_unpack _ (wf_buffer_dec _)). vm_compute. exact I.
  - apply (@bool_decide_unpack _ (wf_bigint_dec _)). vm_compute. exact I.
  - apply (@bool_decide_unpack _ (wf_bigint_dec _)). vm_compute. exact I.
Defined.

(** In place on a sample: 200 + 200 = 400 = [144; 1], one digit longer. *)
Example magnitude_sum_in_place :
  outcome_map (fun r s => (r, value_at s 0, length_negative_at 0 s))
    (magnitude_sum 0 0 0 (sample_state (sample [200%Z] false)))
  = Done (Some 0, Some 400%Z, Some (2, false)).
Proof. vm_compute. reflexivity. Qed.

(** A carry chain: 511 + 65025 = 65536.  In the second column the digits 1
    and 254 meet a carry, [sum] wraps to 0 and the carry test compares -1
    with 1. *)
Example magnitude_sum_carry_chain :
  forall j,
    outcome_map
      (fun r s => (ptr_value r s, r ≫= fun p => length_negative_at p s))
      (sum_of_ints 511 65025 (after_init j))
    = Done (Some 65536%Z, Some (3, false)).
Proof. intros j. vm_compute. reflexivity. Qed.

(** *** The builds with 32-bit and 64-bit digits *)

(** The default build is the instance of 8 bits. *)
Lemma magnitude_sum_at_8 dest a b :
  magnitude_sum_at 8 dest a b = magnitude_sum dest a b.
Proof. reflexivity. Qed.

(** With 8 and 16 bits the carry test sees the exact difference, with 32
    and 64 bits the difference reduced to the width of a digit: when [sum]
    is 0 and a carry came in, it is the largest digit, which is below no
    digit of [a]. *)
Lemma sum_minus_carry_wraps :
  sum_minus_carry 8 0 1 = (-1)%Z /\ sum_minus_carry 16 0 1 = (-1)%Z
  /\ sum_minus_carry 32 0 1 = (2 ^ 32 - 1)%Z
  /\ sum_minus_carry 64 0 1 = (2 ^ 64 - 1)%Z.
Proof. by vm_compute. Qed.

(** C2.  With 32-bit digits [magnitude_sum] loses a carry.  The operands
    are [2 ^ 64 - 2 ^ 32 - 1], with the digits [2 ^ 32 - 1] and
    [2 ^ 32 - 2], and [2 ^ 32 + 1], with the digits 1 and 1; both satisfy
    the representation invariants and their magnitudes add up to
    [2 ^ 64].  The first column gives 0 and a carry.  In the second column
    [sum] is 0 again, [sum - carry] is [2 ^ 32 - 1] in [uint32_t], which
    is not below the digit [2 ^ 32 - 2] of [a], and no carry is recorded:
    the destination is left with the magnitude 0 and the length 0, where
    the magnitude is to be [2 ^ 64] and the length 3. *)
Theorem magnitude_sum_32_drops_carry :
  forall j,
    wf_bigint_at 32 (wide j [4294967295; 4294967294]%Z)
    /\ wf_bigint_at 32 (wide j [1; 1]%Z)
    /\ (magnitude_at 32 (wide j [4294967295; 4294967294]%Z)
        + magnitude_at 32 (wide j [1; 1]%Z) = 2 ^ 64)%Z
    /\ outcome_map (magnitude_length_at 32)
         (magnitude_sum_at 32 2 0 1
            (wide_state j [4294967295; 4294967294]%Z [1; 1]%Z))
       = Done (Some (0%Z, 0)).
Proof.
  intros j.
  assert (Hwf : forall d1 d2 : Z,
            (0 <= d1 < 2 ^ 32)%Z -> (0 < d2 < 2 ^ 32)%Z ->
            wf_bigint_at 32 (wide j [d1; d2])).
  { intros d1 d2 H1 H2. unfold wf_bigint_at, wf_buffer, N1, N2, wide.
    cbn. split_and!; try done; try lia.
    - repeat constructor; lia.
    - intros E. injection E as ->. lia. }
  split; [apply Hwf; lia |]. split; [apply Hwf; lia |].
  split; [reflexivity |]. vm_compute. reflexivity.
Qed.

(** With 64-bit digits the same happens for [2 ^ 128 - 2 ^ 64 - 1] and
    [2 ^ 64 + 1]. *)
Example magnitude_sum_64_drops_carry :
  forall j,
    outcome_map (magnitude_length_at 64)
      (magnitude_sum_at 64 2 0 1
         (wide_state j [18446744073709551615; 18446744073709551614]%Z
            [1; 1]%Z))
    = Done (Some (0%Z, 0)).
Proof. intros j. vm_compute. reflexivity. Qed.

(** The same digits pattern in the default build: [65279 + 257 = 65536],
    with the digits 255, 254 and 1, 1. *)
Example magnitude_sum_8_keeps_carry :
  forall j,
    outcome_map (magnitude_length_at 8)
      (magnitude_sum_at 8 2 0 1 (wide_state j [255; 254]%Z [1; 1]%Z))
    = Done (Some (65536%Z, 3)).
Proof. intros j. vm_compute. reflexivity. Qed.

(** ** Calls on concrete operands *)

(** C1.  [bigint_div] applied to -7 and 2 returns the quotient -3 with the
    remainder 0, not -1: the denominator is a power of two, and on that path
    the remainder is set to 0 whatever the numerator is.  The division
    identity [n = q * d + r] fails for the pair returned. *)
Theorem div_minus7_by_2_remainder :
  forall j,
    outcome_map div_values (div_of_ints (-7) 2 (after_init j))
    = Done (Some (-3)%Z, Some 0%Z)
    /\ (-7 <> -3 * 2 + 0)%Z.
Proof. intros j. split; [vm_compute; reflexivity | lia]. Qed.

(** The long division path relies on [magnitude_cmp], which stops at the
    first pair of equal digits: 1000 / 10 yields 48 and 520. *)
Example div_1000_by_10 :
  forall j,
    outcome_map div_values (div_of_ints 1000 10 (after_init j))
    = Done (Some 48%Z, Some 520%Z).
Proof. intros j. vm_compute. reflexivity. Qed.

(** C3.  [bigint_mov] with the destination -5 and the source 0: both
    operands satisfy the representation invariants before the call, the
    call returns 0, and the destination is left with [length = 0] and
    [negative = true], so it no longer satisfies them (N2). *)
Theorem mov_zero_into_negative :
  forall j,
    outcome_map
      (fun '(dest, src) s =>
         (bool_decide (valid_at s dest), bool_decide (valid_at s src)))
      (two_ints (-5) 0 (after_init j))
    = Done (true, true)
    /\ outcome_map
         (fun '(rc, dest, src) s =>
            (rc, length_negative_at dest s, bool_decide (valid_at s dest)))
         (mov_of_ints (-5) 0 (after_init j))
       = Done (0%Z, Some (0, true), false).
Proof. intros j. split; vm_compute; reflexivity. Qed.

(** C7.  [bigint_mov] with the destination -5 and the source 3 returns 0
    and leaves the destination with the value -3: the digits and the length
    are copied, the sign flag is not. *)
Theorem mov_keeps_destination_sign :
  forall j,
    outcome_map
      (fun '(rc, dest, src) s =>
         (rc, value_at s dest, value_at s src,
          length_negative_at dest s, length_negative_at src s))
      (mov_of_ints (-5) 3 (after_init j))
    = Done (0%Z, Some (-3)%Z, Some 3%Z, Some (1, true), Some (1, false)).
Proof. intros j. vm_compute. reflexivity. Qed.

(** C9.  [bigint_div(n, NULL, n, d)] for n = -5 and d = 5 returns +1, while
    the same division into a disjoint copy of the numerator returns -1: the
    equal-magnitude path overwrites the numerator's sign with
    [bigint_movui(q, 1)] before [set_signs] reads it. *)
Theorem div_into_numerator_differs :
  forall j,
    outcome_map ptr_value (div_into_numerator (-5) 5 (after_init j))
    = Done (Some 1%Z)
    /\ outcome_map ptr_value (div_into_copy (-5) 5 (after_init j))
       = Done (Some (-1)%Z).
Proof. intros j. split; vm_compute; reflexivity. Qed.

(** The multiplication has a similar case: for a = -256, a power of two
    with two digits, [bigint_mul(a, a, 3)] returns +768 and the product
    into a disjoint copy returns -768.  [bigint_shli] gives the duplicate
    the sign of [b], the duplicate is copied over [a], and the final sign
    is computed from [a->negative] after that. *)
Example mul_into_multiplicand_differs :
  forall j,
    outcome_map ptr_value (mul_into_multiplicand (-256) 3 (after_init j))
    = Done (Some 768%Z)
    /\ outcome_map ptr_value (mul_into_copy (-256) 3 (after_init j))
       = Done (Some (-768)%Z).
Proof. intros j. split; vm_compute; reflexivity. Qed.

(** C5.  For n = 768 and d = 256 none of the first three fast paths applies
    ([|d| <> 1], [|n| <> |d|], [|n| > |d|]) and d is a power of two with 8
    trailing zero bits, so the quotient should be [768 >> 8 = 3]; the call
    returns the quotient 1.  [magnitude_cmp] leaves its loop on the first
    pair of equal digits, here the low digits 0 and 0, and reports the
    magnitudes as equal. *)
Theorem div_768_by_256_quotient :
  forall j,
    outcome_map div_values (div_of_ints 768 256 (after_init j))
    = Done (Some 1%Z, Some 0%Z)
    /\ outcome_map (fun c _ => c)
         ((let* n := bigint_from_int 768 in
           let* d := bigint_from_int 256 in
           let* c := magnitude_cmp n d in
           let* p := bigint_is_power_of_2 d in
           let* k := ctz d in
           ret (c, p, k)) (after_init j))
       = Done (0%Z, true, 8)
    /\ Z.shiftr 768 8 = 3%Z.
Proof. intros j. repeat split; vm_compute; reflexivity. Qed.

(** C6.  [bigint_pow(NULL, 10, 32)] has no defined result.  After five
    squarings the base is [10 ^ 32], which has 14 digits, and the last step
    is [bigint_mul(dest, dest, base)] with [dest = 1].  The product is
    accumulated in a duplicate of [dest], whose block has 16 digits and is
    not enlarged for a length of 15; both loops of the multiplication run
    up to the longer length 14, so [dest->digits[i + j]] is read and
    written for [i + j] up to 26. *)
Theorem pow_10_32_undefined :
  forall j, pow_of_ints 10 32 (after_init j) = Undefined.
Proof. intros j. vm_compute. reflexivity. Qed.

(** The same happens for [3 ^ 64], while [10 ^ 31] is computed. *)
Example pow_3_64_undefined :
  forall j,
    pow_of_ints 3 64 (after_init j) = Undefined
    /\ outcome_map ptr_value (pow_of_ints 10 31 (after_init j))
       = Done (Some (10 ^ 31)%Z).
Proof. intros j. split; vm_compute; reflexivity. Qed.

(** The scenarios of the exponentiation on small operands. *)
Example pow_small :
  forall j,
    outcome_map ptr_value (pow_of_ints (-2) 10 (after_init j))
    = Done (Some 1024%Z)
    /\ outcome_map ptr_value (pow_of_ints (-2) 11 (after_init j))
       = Done (Some (-2048)%Z)
    /\ outcome_map (fun p s => (p, st_errno s))
         (pow_of_ints 5 (-1) (after_init j))
       = Done (None, EDOM).
Proof. intros j. repeat split; vm_compute; reflexivity. Qed.

(** C4.  256 formatted in base 8 is ["0o1000"], which parses to 512: each
    8-bit digit is printed as three octal numerals and the groups are
    concatenated.  This is so through [bigint_tostrb] and through
    [bigint_snbprint] into a buffer of 32 bytes. *)
Theorem format_256_octal_round_trip :
  forall j,
    outcome_map (fun '(str, r) s => (str, ptr_value r s))
      (format_then_parse 256 8 (after_init j))
    = Done (Some (c_string "0o1000"), Some 512%Z)
    /\ outcome_map (fun '(n, str, r) s => (n, str, ptr_value r s))
         (print_then_parse 256 8 32 (after_init j))
       = Done (8%Z, c_string "0o1000", Some 512%Z).
Proof. intros j. split; vm_compute; reflexivity. Qed.

(** In base 10 the digits come from [bigint_div]: 256 is formatted as
    ["26S"], which the parser rejects. *)
Example format_256_decimal_round_trip :
  forall j,
    outcome_map (fun '(str, r) s => (str, ptr_value r s, st_errno s))
      (format_then_parse 256 10 (after_init j))
    = Done (Some (c_string "26S"), None, EINVAL).
Proof. intros j. vm_compute. reflexivity. Qed.

(** C8.  ["3.141e2"] parses to 314 and the caller's [fraction] is left
    untouched: after two fractional digits are consumed [decimal] points to
    the last digit, which is also [eom], and the pointer is only stored
    when [decimal != eom]. *)
Theorem parse_3_141e2_fraction :
  forall j,
    outcome_map (fun '(r, fraction) s => (ptr_value r s, fraction))
      (parse_with_fraction "3.141e2" (after_init j))
    = Done (Some 314%Z, Some None).
Proof. intros j. vm_compute. reflexivity. Qed.

(** With two unused digits the pointer is stored (index 4 is the second
    ['1'] of ["3.1415e2"]); with none it is stored too, at the ['e']. *)
Example parse_fraction_other :
  forall j,
    outcome_map (fun '(r, fraction) s => (ptr_value r s, fraction))
      (parse_with_fraction "3.1415e2" (after_init j))
    = Done (Some 314%Z, Some (Some 4))
    /\ outcome_map (fun '(r, fraction) s => (ptr_value r s, fraction))
         (parse_with_fraction "3.14e2" (after_init j))
       = Done (Some 314%Z, Some (Some 4)).
Proof. intros j. split; vm_compute; reflexivity. Qed.

(** * Further properties of the code *)

Lemma wp_alloc x (Q : ptr -> state -> Prop) s :
  Q (st_next s) (with_new x s) -> wp (alloc x) Q s.
Proof. intros H. exact H. Qed.

Lemma wp_set_errno e (Q : unit -> state -> Prop) s :
  Q tt (with_errno e s) -> wp (set_errno e) Q s.
Proof. intros H. exact H. Qed.

Lemma heap_ok_fresh s : heap_ok s -> st_heap s !! st_next s = None.
Proof.
  intros H. destruct (st_heap s !! st_next s) as [x|] eqn:E; [| done].
  apply H in E. simpl in E. lia.
Qed.

Lemma heap_ok_ne s p x : heap_ok s -> st_heap s !! p = Some x -> p <> st_next s.
Proof. intros H E ->. rewrite (heap_ok_fresh s H) in E. done. Qed.

Lemma heap_ok_upd s p x y :
  heap_ok s -> st_heap s !! p = Some x -> heap_ok (upd p y s).
Proof.
  intros H E. unfold heap_ok, upd, set_heap; simpl.
  apply map_Forall_insert_2; [by apply (H p x) | exact H].
Qed.

Lemma heap_ok_with_new s x : heap_ok s -> heap_ok (with_new x s).
Proof.
  intros H. unfold heap_ok, with_new; simpl.
  apply map_Forall_insert_2; [lia |].
  intros p y E. apply H in E. simpl in *. lia.
Qed.

Lemma heap_with_new_eq x s : st_heap (with_new x s) !! st_next s = Some x.
Proof. unfold with_new; simpl. apply lookup_insert_eq. Qed.

Lemma heap_with_new_ne x s p :
  p <> st_next s -> st_heap (with_new x s) !! p = st_heap s !! p.
Proof. intros H. unfold with_new; simpl. by apply lookup_insert_ne. Qed.

(** ** resize *)

Lemma resize_grow_double n orig fuel :
  forall cur,
    1 <= orig -> orig <= cur ->
    exists k, resize_grow fuel n orig cur = cur * 2 ^ k
              /\ (forall k', k' < k -> cur * 2 ^ k' <= n).
Proof.
  induction fuel as [|fuel IH]; intros cur H1 H2; simpl.
  - exists 0. split; [simpl; lia | intros; lia].
  - destruct (decide (cur <= n)) as [Hle|Hgt].
    + destruct (decide (cur + (cur + 0) <= orig)) as [Hbad|_]; [lia |].
      destruct (IH (cur + (cur + 0))) as (k & Hk & Hmin); [lia | lia |].
      exists (S k). split.
      * rewrite Hk. simpl. lia.
      * intros k' Hk'. destruct k' as [|k']; [simpl; lia |].
        specialize (Hmin k' ltac:(lia)). simpl. lia.
    + exists 0. split; [simpl; lia | intros; lia].
Qed.

(** [resize] with natural numbers for sizes and an allocator that grants
    every block: the allocation is doubled the least number of times [k]
    that makes it larger than [n]. *)
Lemma resize_run s p x n :
  st_heap s !! p = Some x -> wf_buffer x ->
  exists k,
    resize p n s
    = Done (0%Z,
            upd p (mk_bigint
                     (bi_block x
                      ++ replicate (bi_allocated x * 2 ^ k - bi_allocated x)
                           0%Z)
                     0 (bi_allocated x * 2 ^ k) n (bi_negative x)) s)
    /\ n < bi_allocated x * 2 ^ k
    /\ (forall k', k' < k -> bi_allocated x * 2 ^ k' <= n).
Proof.
  intros Hp (Hoff & Hlen & Hone).
  destruct x as [b o a l ng]. simpl in *. subst o.
  destruct (resize_grow_double n a (S n) a Hone ltac:(lia)) as (k & Hk & Hmin).
  exists k.
  assert (Hwp : wp (resize p n)
            (fun rc s' =>
               rc = 0%Z /\
               s' = upd p (mk_bigint (b ++ replicate (a * 2 ^ k - a) 0%Z) 0
                             (a * 2 ^ k) n ng) s /\ n < a * 2 ^ k) s).
  { unfold resize. apply wp_bind. eapply wp_load; [exact Hp |].
    cbn [bi_allocated bi_off bi_block bi_length bi_negative].
    destruct (resize_grow_initial n a Hone) as [Hn Ha].
    rewrite Hk in *.
    destruct (decide (a < a * 2 ^ k)) as [Hgrow|Hsame].
    - apply wp_bind. apply wp_bind. unfold junk at 1. unfold wp at 1.
      unfold realloc_block.
      rewrite take_ge by (rewrite length_app, length_replicate; lia).
      rewrite Hlen.
      eapply wp_store; [exact Hp |].
      unfold with_allocated, with_block; simpl.
      apply wp_bind. eapply wp_set_length; [apply heap_upd_eq |].
      rewrite upd_upd. apply wp_ret.
      rewrite zero_fill_spec
        by (rewrite length_app, length_replicate; lia).
      rewrite take_app_length' by lia.
      rewrite drop_ge by (rewrite length_app, length_replicate; lia).
      rewrite app_nil_r. done.
    - assert (a * 2 ^ k = a) as Heq by lia. rewrite Heq in *.
      apply wp_bind. apply wp_ret.
      apply wp_bind. eapply wp_set_length; [exact Hp |].
      apply wp_ret.
      rewrite Nat.sub_diag. simpl. rewrite app_nil_r. done. }
  destruct (wp_done _ _ _ Hwp) as (rc & s' & Hrun & -> & -> & Hlt).
  done.
Qed.

(** The doubling on [size_t] values, for a length up to [SIZE_MAX / 2]:
    nothing wraps around. *)
Lemma resize_grow_size_spec n orig fuel :
  forall cur,
    1 <= orig -> orig <= cur -> (2 * Z.of_nat n <= SIZE_MAX)%Z ->
    (Z.of_nat n < Z.of_nat cur * 2 ^ Z.of_nat fuel)%Z ->
    exists k,
      resize_grow_size fuel (Z.of_nat n) (Z.of_nat orig) (Z.of_nat cur)
      = Z.of_nat (cur * 2 ^ k)
      /\ n < cur * 2 ^ k
      /\ (forall k', k' < k -> cur * 2 ^ k' <= n).
Proof.
  unfold SIZE_MAX.
  induction fuel as [|fuel IH]; intros cur H1 H2 Hn Hf.
  - exists 0. simpl in *. split_and!; [f_equal; lia | lia | intros; lia].
  - cbn [resize_grow_size].
    destruct (decide (Z.of_nat cur <= Z.of_nat n)%Z) as [Hle|Hgt].
    + assert (Hd : to_size (2 * Z.of_nat cur) = Z.of_nat (2 * cur)).
      { unfold to_size. rewrite Z.mod_small by lia. lia. }
      cbv zeta. rewrite Hd. rewrite decide_False by lia.
      destruct (IH (2 * cur)) as (k & Hk & Hlt & Hmin); [lia | lia | lia | |].
      { rewrite Nat2Z.inj_succ, Z.pow_succ_r in Hf by lia. lia. }
      exists (S k). rewrite Hk. split_and!.
      * f_equal. simpl. lia.
      * simpl. lia.
      * intros [|k'] Hk'; [simpl; lia |].
        specialize (Hmin k' ltac:(lia)). simpl. lia.
    + exists 0. rewrite Nat.pow_0_r, Nat.mul_1_r.
      split_and!; [done | lia | intros; lia].
Qed.

(** The least number of doublings is determined by its two properties. *)
Lemma least_doubling_unique a n k1 k2 :
  1 <= a ->
  n < a * 2 ^ k1 -> (forall k', k' < k1 -> a * 2 ^ k' <= n) ->
  n < a * 2 ^ k2 -> (forall k', k' < k2 -> a * 2 ^ k' <= n) ->
  k1 = k2.
Proof.
  intros Ha H1 M1 H2 M2.
  destruct (Nat.lt_trichotomy k1 k2) as [Hlt|[Heq|Hgt]]; [| done |].
  - specialize (M2 k1 Hlt). lia.
  - specialize (M1 k2 Hgt). lia.
Qed.

(** [resize_checked] for a length up to [SIZE_MAX / 2], by the answer of
    the allocator, and [resize] on the same structure. *)
Lemma resize_checked_run s p x n (grants : nat -> bool) :
  st_heap s !! p = Some x -> wf_buffer x ->
  (2 * Z.of_nat n <= SIZE_MAX)%Z ->
  exists k,
    n < bi_allocated x * 2 ^ k
    /\ (forall k', k' < k -> bi_allocated x * 2 ^ k' <= n)
    /\ resize_checked grants p n s
       = (if bool_decide (k = 0) || grants (bi_allocated x * 2 ^ k)
          then
            Done (0%Z,
                  upd p (mk_bigint
                           (bi_block x
                            ++ replicate
                                 (bi_allocated x * 2 ^ k - bi_allocated x)
                                 0%Z)
                           0 (bi_allocated x * 2 ^ k) n (bi_negative x)) s)
          else Done ((-1)%Z, with_errno ENOMEM s))
    /\ resize p n s
       = Done (0%Z,
               upd p (mk_bigint
                        (bi_block x
                         ++ replicate
                              (bi_allocated x * 2 ^ k - bi_allocated x) 0%Z)
                        0 (bi_allocated x * 2 ^ k) n (bi_negative x)) s).
Proof.
  intros Hp Hbuf Hn.
  destruct (resize_run s p x n Hp Hbuf) as (k0 & Hrun0 & Hlt0 & Hmin0).
  pose proof Hbuf as (Hoff & Hlen & Hone).
  destruct x as [b o a l ng]. simpl in *. subst o.
  destruct (resize_grow_size_spec n a 65 a Hone ltac:(lia) Hn)
    as (k & Hk & Hlt & Hmin).
  { unfold SIZE_MAX in Hn. change (Z.of_nat 65) with 65%Z. lia. }
  assert (k0 = k) as -> by (by eapply (least_doubling_unique a n)).
  exists k. split; [exact Hlt |]. split; [exact Hmin |].
  split; [| exact Hrun0].
  assert (Hrun : forall rc s',
            wp (resize_checked grants p n)
               (fun r t => r = rc /\ t = s') s ->
            resize_checked grants p n s = Done (rc, s')).
  { intros rc s' H.
    by destruct (wp_done _ _ _ H) as (r & t & -> & -> & ->). }
  destruct (decide (k = 0)) as [->|Hk0].
  - (* no growth *)
    rewrite bool_decide_eq_true_2 by done. cbn [orb].
    apply Hrun. unfold resize_checked.
    apply wp_bind. eapply wp_load; [exact Hp |].
    cbn [bi_allocated bi_off bi_block bi_length bi_negative].
    rewrite Hk, Nat2Z.id.
    rewrite Nat.pow_0_r, Nat.mul_1_r.
    rewrite decide_False by lia.
    apply wp_bind. eapply wp_set_length; [exact Hp |]. apply wp_ret.
    rewrite Nat.sub_diag. simpl replicate. by rewrite app_nil_r.
  - assert (Hgrow : a < a * 2 ^ k).
    { destruct k as [|k]; [done |]. simpl.
      pose proof (Nat.pow_nonzero 2 k ltac:(lia)). nia. }
    assert (Hfit : (Z.of_nat (a * 2 ^ k) <= SIZE_MAX)%Z).
    { destruct k as [|k]; [done |].
      specialize (Hmin k ltac:(lia)). simpl. lia. }
    rewrite bool_decide_eq_false_2 by done. cbn [orb].
    destruct (grants (a * 2 ^ k)) eqn:Hg.
    + (* the block is granted *)
      apply Hrun. unfold resize_checked.
      apply wp_bind. eapply wp_load; [exact Hp |].
      cbn [bi_allocated bi_off bi_block bi_length bi_negative].
      rewrite Hk, Nat2Z.id.
      rewrite decide_True by exact Hgrow.
      change (SIZE_MAX / DIGIT_SIZE)%Z with SIZE_MAX.
      rewrite decide_False by lia. rewrite Hg.
      apply wp_bind. unfold junk at 1. unfold wp at 1.
      unfold realloc_block.
      rewrite take_ge by (rewrite length_app, length_replicate; lia).
      rewrite Hlen.
      apply wp_bind. eapply wp_store; [exact Hp |].
      unfold with_allocated, with_block; simpl.
      apply wp_bind. eapply wp_set_length; [apply heap_upd_eq |].
      rewrite upd_upd. apply wp_ret.
      rewrite zero_fill_spec
        by (rewrite length_app, length_replicate; lia).
      rewrite take_app_length' by lia.
      rewrite drop_ge by (rewrite length_app, length_replicate; lia).
      rewrite app_nil_r. done.
    + (* the block is refused *)
      apply Hrun. unfold resize_checked.
      apply wp_bind. eapply wp_load; [exact Hp |].
      cbn [bi_allocated bi_off bi_block bi_length bi_negative].
      rewrite Hk, Nat2Z.id.
      rewrite decide_True by exact Hgrow.
      change (SIZE_MAX / DIGIT_SIZE)%Z with SIZE_MAX.
      rewrite decide_False by lia. rewrite Hg.
      apply wp_bind. apply wp_set_errno. apply wp_ret. done.
Qed.

(** X1.  [resize(x, n)] on a structure whose digit block is the allocated
    one, for a length [n] up to [SIZE_MAX / 2], so that the doubling of
    [x->allocated] does not wrap around.  Let [k] be the least number of
    doublings that make the allocation larger than [n].  When [k] is 0
    nothing is allocated: the call returns 0 and sets the length.  When
    [realloc] grants the block of [allocated * 2 ^ k] digits, the call
    returns 0 and sets the length; the digits of the old block stay where
    they are, the added ones are zero, and the sign is kept.  When
    [realloc] refuses the block, the call returns -1 with [ENOMEM] and the
    structure is as it was.  [resize], the function as the other
    operations use it, is [resize_checked] for an allocator that grants
    every block. *)
Theorem resize_spec s p x n (grants : nat -> bool) :
  st_heap s !! p = Some x -> wf_buffer x ->
  (2 * Z.of_nat n <= SIZE_MAX)%Z ->
  exists k,
    n < bi_allocated x * 2 ^ k
    /\ (forall k', k' < k -> bi_allocated x * 2 ^ k' <= n)
    /\ resize_checked grants p n s
       = (if bool_decide (k = 0) || grants (bi_allocated x * 2 ^ k)
          then
            Done (0%Z,
                  upd p (mk_bigint
                           (bi_block x
                            ++ replicate
                                 (bi_allocated x * 2 ^ k - bi_allocated x)
                                 0%Z)
                           0 (bi_allocated x * 2 ^ k) n (bi_negative x)) s)
          else Done ((-1)%Z, with_errno ENOMEM s))
    /\ resize p n s = resize_checked (fun _ => true) p n s.
Proof.
  intros Hp Hbuf Hn.
  destruct (resize_checked_run s p x n grants Hp Hbuf Hn)
    as (k & Hlt & Hmin & Hrun & Hideal).
  destruct (resize_checked_run s p x n (fun _ => true) Hp Hbuf Hn)
    as (k1 & Hlt1 & Hmin1 & Hrun1 & _).
  assert (k1 = k) as ->.
  { apply (least_doubling_unique (bi_allocated x) n); try done.
    by destruct Hbuf as (_ & _ & ?). }
  exists k. split_and!; try done.
  rewrite Hideal, Hrun1. by rewrite orb_true_r.
Qed.

(** A block of 16 digits resized for 20 digits, with an allocator that
    grants up to 24 digits and so refuses the 32 that are asked for. *)
Lemma resize_spec_witness :
  let s := sample_state (sample [1%Z] false) in
  let p := 0 in
  let x := sample [1%Z] false in
  let n := 20 in
  let grants := fun m : nat => bool_decide (m <= 24) in
  exists k,
    n < bi_allocated x * 2 ^ k
    /\ (forall k', k' < k -> bi_allocated x * 2 ^ k' <= n)
    /\ resize_checked grants p n s
       = (if bool_decide (k = 0) || grants (bi_allocated x * 2 ^ k)
          then
            Done (0%Z,
                  upd p (mk_bigint
                           (bi_block x
                            ++ replicate
                                 (bi_allocated x * 2 ^ k - bi_allocated x)
                                 0%Z)
                           0 (bi_allocated x * 2 ^ k) n (bi_negative x)) s)
          else Done ((-1)%Z, with_errno ENOMEM s))
    /\ resize p n s = resize_checked (fun _ => true) p n s.
Proof.
  intros s p x n grants.
  apply (resize_spec s p x n grants).
  - reflexivity.
  - apply (@bool_decide_unpack _ (wf_buffer_dec _)). vm_compute. exact I.
  - by vm_compute.
Defined.

(** Beyond [SIZE_MAX / 2] the doubling wraps around.  From 16 digits and
    for the length [2 ^ 63] the allocation is doubled up to [2 ^ 63], the
    next doubling gives 0, and the exact length is taken: the block that
    is asked for has no digit to spare.  For the length [2 ^ 62] the
    doubling stops at [2 ^ 63]. *)
Example resize_grow_size_wraps :
  resize_grow_size 65 (2 ^ 63) 16 16 = (2 ^ 63)%Z
  /\ resize_grow_size 65 (2 ^ 62) 16 16 = (2 ^ 63)%Z.
Proof. by vm_compute. Qed.

(** The refusal on the sample: -1 is returned, [errno] is [ENOMEM], and
    the structure has its 16 digits and its length 1. *)
Example resize_refused :
  outcome_map (fun rc s => (rc, st_errno s, length_negative_at 0 s,
                            bi_allocated <$> st_heap s !! 0))
    (resize_checked (fun m => bool_decide (m <= 24)) 0 20
       (sample_state (sample [1%Z] false)))
  = Done ((-1)%Z, ENOMEM, Some (1, false), Some 16).
Proof. vm_compute. reflexivity. Qed.

(** ** normalize *)

Lemma wp_normalize_loop_zeros n :
  forall p b a ng (Q : unit -> state -> Prop) s,
    st_heap s !! p = Some (mk_bigint b 0 a n ng) -> n <= length b ->
    (forall n', n' <= n ->
       (forall i, n' <= i < n -> b !! i = Some 0%Z) ->
       last (take n' b) <> Some 0%Z ->
       Q tt (upd p (mk_bigint b 0 a n' ng) s)) ->
    wp (normalize_loop n p) Q s.
Proof.
  induction n as [|n IH]; intros p b a ng Q s Hp Hn HQ.
  - simpl. apply wp_ret. rewrite <- (upd_same _ _ _ Hp).
    apply HQ; [lia | intros; lia | done].
  - simpl. assert (Hlt : n < length b) by lia.
    destruct (lookup_lt_is_Some_2 b n Hlt) as [d Hd].
    apply wp_bind. eapply wp_rd; [exact Hp | exact Hd |].
    destruct (decide (d = 0%Z)) as [->|Hnz].
    + apply wp_bind. eapply wp_set_length; [exact Hp |].
      eapply IH; [apply heap_upd_eq | lia |].
      intros n' Hle Hz Hlast. rewrite upd_upd. apply HQ; [lia | | done].
      intros i Hi. destruct (decide (i = n)) as [->|]; [done |].
      apply Hz. lia.
    + apply wp_ret. rewrite <- (upd_same _ _ _ Hp).
      apply HQ; [lia | intros; lia |].
      rewrite (take_S_r _ _ _ Hd), last_snoc. congruence.
Qed.

Lemma digits_value_take_zeros (b : list Z) n' n :
  n' <= n -> n <= length b ->
  (forall i, n' <= i < n -> b !! i = Some 0%Z) ->
  digits_value (take n b) = digits_value (take n' b).
Proof.
  intros Hle Hn Hz. induction n as [|n IH].
  - by replace n' with 0 by lia.
  - destruct (decide (n' = S n)) as [->|Hne]; [done |].
    assert (Hd : b !! n = Some 0%Z) by (apply Hz; lia).
    rewrite (take_S_r _ _ _ Hd), digits_value_snoc.
    rewrite IH; [lia | lia | lia |]. intros i Hi. apply Hz. lia.
Qed.

(** X2.  [normalize(x)] changes the length and the sign of [x] only.  The
    length does not grow, the magnitude is the same, and afterwards the
    most significant digit is not zero (N1) and zero is not negative (N2).
    The sign is kept unless the result is zero, and a structure without a
    leading zero keeps its length. *)
Theorem normalize_spec s p x :
  st_heap s !! p = Some x -> bi_off x = 0 ->
  bi_length x <= length (bi_block x) ->
  exists x',
    normalize p s = Done (tt, upd p x' s)
    /\ bi_block x' = bi_block x /\ bi_off x' = 0
    /\ bi_allocated x' = bi_allocated x
    /\ bi_length x' <= bi_length x
    /\ magnitude x' = magnitude x
    /\ N1 x' /\ N2 x'
    /\ (bi_length x' <> 0 -> bi_negative x' = bi_negative x)
    /\ (N1 x -> bi_length x' = bi_length x).
Proof.
  intros Hp Hoff Hlen. destruct x as [b o a l ng]. simpl in *. subst o.
  assert (Hwp : wp (normalize p)
            (fun _ s' =>
               exists n', s' = upd p (mk_bigint b 0 a n'
                                        (if decide (n' = 0) then false else ng)) s
                 /\ n' <= l
                 /\ (forall i, n' <= i < l -> b !! i = Some 0%Z)
                 /\ last (take n' b) <> Some 0%Z) s).
  { unfold normalize. apply wp_bind. eapply wp_get_length; [exact Hp |].
    simpl. apply wp_bind.
    eapply wp_normalize_loop_zeros; [exact Hp | exact Hlen |].
    intros n' Hle Hz Hlast.
    apply wp_bind. eapply wp_get_length; [apply heap_upd_eq |]. simpl.
    destruct (decide (n' = 0)) as [Hz0|Hnz].
    - eapply wp_set_negative; [apply heap_upd_eq |].
      rewrite upd_upd. exists n'. rewrite decide_True by done. done.
    - apply wp_ret. exists n'. rewrite decide_False by done. done. }
  destruct (wp_done _ _ _ Hwp)
    as ([] & s' & Hrun & n' & -> & Hle & Hz & Hlast).
  eexists. split; [exact Hrun |]. cbn [bi_block bi_off bi_allocated bi_length
                                       bi_negative].
  split_and!; try done.
  - rewrite !magnitude_unfold. symmetry.
    by apply digits_value_take_zeros.
  - unfold N2; simpl. intros ->. by rewrite decide_True.
  - intros Hn. by rewrite decide_False.
  - unfold N1, live_digits; simpl. rewrite drop_0. intros HN1.
    destruct (decide (n' = l)) as [|Hne]; [done | exfalso].
    apply HN1. assert (Hl : l <> 0) by lia.
    rewrite last_lookup, length_take, Nat.min_l by lia.
    rewrite lookup_take_lt by lia. apply Hz. lia.
Qed.

(** Three digits of which the upper two are zero. *)
Lemma normalize_spec_witness :
  let s := sample_state (mk_bigint (5%Z :: replicate 15 0%Z) 0 16 3 true) in
  let p := 0 in
  let x := mk_bigint (5%Z :: replicate 15 0%Z) 0 16 3 true in
  exists x',
    normalize p s = Done (tt, upd p x' s)
    /\ bi_block x' = bi_block x /\ bi_off x' = 0
    /\ bi_allocated x' = bi_allocated x
    /\ bi_length x' <= bi_length x
    /\ magnitude x' = magnitude x
    /\ N1 x' /\ N2 x'
    /\ (bi_length x' <> 0 -> bi_negative x' = bi_negative x)
    /\ (N1 x -> bi_length x' = bi_length x).
Proof.
  intros s p x.
  apply (normalize_spec s p x).
  - reflexivity.
  - reflexivity.
  - simpl. lia.
Defined.

(** ** Tests against zero *)

Lemma wf_magnitude_nonneg x : wf_bigint x -> (0 <= magnitude x)%Z.
Proof.
  intros (_ & _ & Hr & _). pose proof (digits_value_bound _ Hr).
  unfold magnitude. lia.
Qed.

Lemma wf_length_zero x : wf_bigint x -> bi_length x = 0 <-> magnitude x = 0%Z.
Proof.
  intros ((Hoff & Hlen & Hone) & Hla & Hr & HN1 & _). unfold magnitude.
  split.
  - intros Hl. unfold live_digits. by rewrite Hl, take_0.
  - intros Hz. destruct (decide (bi_length x = 0)) as [|Hne]; [done | exfalso].
    assert (Hll : length (live_digits x) = bi_length x).
    { unfold live_digits. rewrite length_take, length_drop. lia. }
    assert (Hnil : live_digits x <> []).
    { intros E. rewrite E in Hll. simpl in Hll. lia. }
    pose proof (digits_value_top _ Hr Hnil HN1) as Ht.
    pose proof (pow256_pos (length (live_digits x) - 1)). lia.
Qed.

Lemma wf_negative_magnitude x :
  wf_bigint x -> bi_negative x = true -> (0 < magnitude x)%Z.
Proof.
  intros Hwf Hn. pose proof (wf_magnitude_nonneg x Hwf).
  pose proof (wf_negative_nonzero x Hwf Hn) as Hl.
  rewrite (wf_length_zero x Hwf) in Hl. lia.
Qed.

(** X3.  On a structure that satisfies the representation invariants,
    [bigint_eqz], [bigint_nez], [bigint_ltz], [bigint_lez], [bigint_gtz]
    and [bigint_gez] return the comparison of the denoted value with zero,
    and leave the state as it is. *)
Theorem sign_tests_value s p x :
  st_heap s !! p = Some x -> wf_bigint x ->
  bigint_eqz p s = Done (bool_decide (value x = 0)%Z, s)
  /\ bigint_nez p s = Done (bool_decide (value x <> 0)%Z, s)
  /\ bigint_ltz p s = Done (bool_decide (value x < 0)%Z, s)
  /\ bigint_lez p s = Done (bool_decide (value x <= 0)%Z, s)
  /\ bigint_gtz p s = Done (bool_decide (0 < value x)%Z, s)
  /\ bigint_gez p s = Done (bool_decide (0 <= value x)%Z, s).
Proof.
  intros Hp Hwf.
  pose proof (wf_magnitude_nonneg x Hwf) as Hnn.
  pose proof (wf_length_zero x Hwf) as Hz.
  pose proof (wf_negative_magnitude x Hwf) as Hneg.
  unfold bigint_eqz, bigint_nez, bigint_ltz, bigint_lez, bigint_gtz,
    bigint_gez, get_length, get_negative, bind, load, ret.
  rewrite Hp. rewrite value_unfold.
  destruct (bi_negative x) eqn:En.
  - specialize (Hneg eq_refl).
    assert (Hl : bi_length x <> 0) by (rewrite Hz; lia).
    repeat split; do 2 f_equal; simpl;
      repeat (first [rewrite bool_decide_eq_true_2 by (first [done | lia])
                    | rewrite bool_decide_eq_false_2 by (first [done | lia])]);
      reflexivity.
  - clear Hneg.
    destruct (decide (bi_length x = 0)) as [Hl|Hl].
    + assert (magnitude x = 0%Z) as Hm by (by apply Hz).
      repeat split; do 2 f_equal; simpl;
      repeat (first [rewrite bool_decide_eq_true_2 by (first [done | lia])
                    | rewrite bool_decide_eq_false_2 by (first [done | lia])]);
      reflexivity.
    + assert (magnitude x <> 0%Z) as Hm by (by rewrite <- Hz).
      repeat split; do 2 f_equal; simpl;
      repeat (first [rewrite bool_decide_eq_true_2 by (first [done | lia])
                    | rewrite bool_decide_eq_false_2 by (first [done | lia])]);
      reflexivity.
Qed.

(** The tests on -5. *)
Lemma sign_tests_value_witness :
  let s := sample_state (sample [5%Z] true) in
  let p := 0 in
  let x := sample [5%Z] true in
  bigint_eqz p s = Done (bool_decide (value x = 0)%Z, s)
  /\ bigint_nez p s = Done (bool_decide (value x <> 0)%Z, s)
  /\ bigint_ltz p s = Done (bool_decide (value x < 0)%Z, s)
  /\ bigint_lez p s = Done (bool_decide (value x <= 0)%Z, s)
  /\ bigint_gtz p s = Done (bool_decide (0 < value x)%Z, s)
  /\ bigint_gez p s = Done (bool_decide (0 <= value x)%Z, s).
Proof.
  intros s p x.
  apply (sign_tests_value s p x).
  - reflexivity.
  - apply (@bool_decide_unpack _ (wf_bigint_dec _)). vm_compute. exact I.
Defined.

(** ** Conversion from and to standard integers *)

Lemma lor_disjoint a d k :
  (0 <= k)%Z -> (0 <= a < 2 ^ k)%Z -> Z.lor a (d * 2 ^ k) = (a + d * 2 ^ k)%Z.
Proof.
  intros Hk Ha.
  assert (Hland : Z.land a (d * 2 ^ k) = 0%Z).
  { apply Z.bits_inj'. intros n Hn. rewrite Z.land_spec, Z.bits_0.
    destruct (decide (n < k)%Z) as [Hlt|Hge].
    - rewrite Z.mul_pow2_bits_low by lia. apply andb_false_r.
    - rewrite <- (Z.mod_small a (2 ^ k)) by lia.
      rewrite Z.mod_pow2_bits_high by lia. reflexivity. }
  pose proof (Z.add_lor_land a (d * 2 ^ k)) as H. lia.
Qed.

Lemma pow256_pow2 n : (256 ^ Z.of_nat n = 2 ^ (Z.of_nat n * 8))%Z.
Proof.
  rewrite Z.mul_comm, Z.pow_mul_r by lia. reflexivity.
Qed.

Lemma pow256_mono n m : n <= m -> (256 ^ Z.of_nat n <= 256 ^ Z.of_nat m)%Z.
Proof. intros H. apply Z.pow_le_mono_r; lia. Qed.

(** The loop of [bigint_movi]/[bigint_movui] writes the base-256 digits of
    the magnitude from [offset] on. *)
Lemma wp_mov_magnitude_loop fuel :
  forall p b a l ng offset m k (Q : nat -> state -> Prop) s,
    st_heap s !! p = Some (mk_bigint b 0 a l ng) ->
    (0 <= m < 256 ^ Z.of_nat k)%Z -> k < fuel -> offset + k <= length b ->
    (forall ds,
       Forall digit_range ds -> digits_value ds = m ->
       last ds <> Some 0%Z -> length ds <= k ->
       Q (offset + length ds)
         (upd p (mk_bigint (take offset b ++ ds
                            ++ drop (offset + length ds) b) 0 a l ng) s)) ->
    wp (loop fuel
          (fun '(offset, magnitude) =>
             if decide (magnitude <> 0%Z) then
               wr p offset (Z.land magnitude DIGIT_MAX) ;;
               ret (inl (S offset, Z.shiftr magnitude DIGIT_BITS))
             else ret (inr offset))
          (offset, m)) Q s.
Proof.
  induction fuel as [|fuel IH]; intros p b a l ng offset m k Q s Hp Hm Hk Hb HQ;
    [lia |].
  cbn [loop]. apply wp_bind.
  destruct (decide (m <> 0%Z)) as [Hnz|Hz].
  - assert (Hk1 : 1 <= k).
    { destruct k; [| lia]. simpl in Hm. lia. }
    apply wp_bind. eapply wp_wr; [exact Hp | simpl; lia |].
    apply wp_ret. simpl Nat.add.
    change DIGIT_MAX with (Z.ones 8). rewrite Z.land_ones by lia.
    change DIGIT_BITS with 8%Z. rewrite Z.shiftr_div_pow2 by lia.
    change (2 ^ 8)%Z with 256%Z.
    assert (Hm' : (0 <= m / 256 < 256 ^ Z.of_nat (k - 1))%Z).
    { split; [apply Z.div_pos; lia |].
      apply Z.div_lt_upper_bound; [lia |].
      replace (256 * 256 ^ Z.of_nat (k - 1))%Z with (256 ^ Z.of_nat k)%Z; [lia |].
      replace (Z.of_nat k) with (Z.succ (Z.of_nat (k - 1))) by lia.
      rewrite Z.pow_succ_r by lia. reflexivity. }
    eapply (IH p _ a l ng (S offset) (m / 256)%Z (k - 1));
      [apply heap_upd_eq | exact Hm' | lia | rewrite length_insert; lia |].
    intros ds Hr Hv Hlast Hlen. rewrite upd_upd.
    specialize (HQ ((m mod 256)%Z :: ds)).
    replace (offset + length ((m mod 256)%Z :: ds)) with (S offset + length ds)
      in HQ by (simpl; lia).
    assert (Hblock :
      take (S offset) (<[offset:=(m mod 256)%Z]> b) ++ ds
        ++ drop (S offset + length ds) (<[offset:=(m mod 256)%Z]> b)
      = take offset b ++ ((m mod 256)%Z :: ds)
        ++ drop (S offset + length ds) b).
    { rewrite drop_insert_lt by lia.
      erewrite take_S_r by (apply list_lookup_insert_eq; lia).
      rewrite take_insert_ge by lia. rewrite <- app_assoc. reflexivity. }
    rewrite Hblock. apply HQ.
    + constructor; [| exact Hr]. apply digit_range_bounds.
      apply Z.mod_pos_bound. lia.
    + simpl digits_value. rewrite digit_base, Hv.
      pose proof (Z.div_mod m 256 ltac:(lia)). lia.
    + destruct ds as [|d ds'].
      * simpl in Hv. simpl. intros [= E].
        pose proof (Z.div_mod m 256 ltac:(lia)). lia.
      * exact Hlast.
    + simpl. lia.
  - apply wp_ret. apply dec_stable in Hz. subst m.
    specialize (HQ [] ltac:(constructor) eq_refl ltac:(done) ltac:(simpl; lia)).
    simpl in HQ. rewrite Nat.add_0_r in HQ. rewrite take_drop in HQ.
    rewrite <- (upd_same _ _ _ Hp). exact HQ.
Qed.

Lemma wp_mov_magnitude p b a l ng m (Q : nat -> state -> Prop) s :
  st_heap s !! p = Some (mk_bigint b 0 a l ng) ->
  (0 <= m < 2 ^ 64)%Z -> DIGITS_FOR_INTMAX <= length b ->
  (forall ds,
     Forall digit_range ds -> digits_value ds = m ->
     last ds <> Some 0%Z -> length ds <= DIGITS_FOR_INTMAX ->
     Q (length ds)
       (upd p (mk_bigint (ds ++ drop (length ds) b) 0 a l ng) s)) ->
  wp (mov_magnitude p m) Q s.
Proof.
  intros Hp Hm Hb HQ. unfold mov_magnitude.
  eapply (wp_mov_magnitude_loop _ p b a l ng 0 m DIGITS_FOR_INTMAX);
    [exact Hp | | lia | simpl; lia |].
  - change (256 ^ Z.of_nat DIGITS_FOR_INTMAX)%Z with (2 ^ 64)%Z. exact Hm.
  - intros ds Hr Hv Hlast Hlen. simpl. by apply HQ.
Qed.

(** The structure left by [bigint_movi] and [bigint_movui]. *)
Lemma stored_magnitude_wf b a ds ng :
  length b = a -> 1 <= a -> length ds <= a ->
  Forall digit_range ds -> last ds <> Some 0%Z ->
  (ds = [] -> ng = false) ->
  wf_bigint (mk_bigint (ds ++ drop (length ds) b) 0 a (length ds) ng)
  /\ magnitude (mk_bigint (ds ++ drop (length ds) b) 0 a (length ds) ng)
     = digits_value ds.
Proof.
  intros Hb Ha Hds Hr Hlast Hng.
  rewrite magnitude_unfold, take_app_length. split; [| reflexivity].
  apply wf_bigint_unfold. rewrite take_app_length.
  rewrite length_prefix by (done || lia).
  split_and!; try done.
  intros Hl. apply Hng. by apply nil_length_inv.
Qed.

Lemma bigint_movui_spec p x u s :
  st_heap s !! p = Some x -> wf_buffer x ->
  DIGITS_FOR_INTMAX <= bi_allocated x -> (0 <= u < 2 ^ 64)%Z ->
  wp (bigint_movui p u)
     (fun _ s' =>
        exists x', s' = upd p x' s /\ wf_bigint x' /\ value x' = u
                   /\ bi_allocated x' = bi_allocated x) s.
Proof.
  intros Hp (Hoff & Hlen & Hone) Hcap Hu.
  destruct x as [b o a l ng]. simpl in *. subst o.
  unfold bigint_movui. apply wp_bind.
  eapply wp_set_negative; [exact Hp |].
  destruct (decide (u = 0%Z)) as [->|Hnz].
  - eapply wp_set_length; [apply heap_upd_eq |]. rewrite upd_upd.
    eexists. split; [reflexivity |].
    destruct (stored_magnitude_wf b a [] false Hlen Hone ltac:(simpl; lia)
                ltac:(constructor) ltac:(done) ltac:(done)) as [Hwf Hmag].
    simpl in Hwf, Hmag. rewrite drop_0 in Hwf, Hmag.
    split; [exact Hwf |]. split; [| reflexivity].
    rewrite value_unfold. simpl bi_negative. cbv iota. exact Hmag.
  - destruct (decide (UINTMAX_BITS <= DIGIT_BITS)%Z) as [Hbad|_];
      [vm_compute in Hbad; done |].
    apply wp_bind.
    eapply wp_mov_magnitude; [apply heap_upd_eq | exact Hu | lia |].
    intros ds Hr Hv Hlast Hdl. rewrite upd_upd.
    eapply wp_set_length; [apply heap_upd_eq |]. rewrite upd_upd.
    eexists. split; [reflexivity |].
    destruct (stored_magnitude_wf b a ds false Hlen Hone ltac:(lia)
                Hr Hlast ltac:(done)) as [Hwf Hmag].
    split; [exact Hwf |]. split; [| reflexivity].
    rewrite value_unfold. simpl bi_negative. cbv iota. by rewrite Hmag.
Qed.

Lemma bigint_movi_spec p x v s :
  st_heap s !! p = Some x -> wf_buffer x ->
  DIGITS_FOR_INTMAX <= bi_allocated x -> (INTMAX_MIN <= v <= INTMAX_MAX)%Z ->
  wp (bigint_movi p v)
     (fun _ s' =>
        exists x', s' = upd p x' s /\ wf_bigint x' /\ value x' = v
                   /\ bi_allocated x' = bi_allocated x) s.
Proof.
  intros Hp (Hoff & Hlen & Hone) Hcap Hv.
  destruct x as [b o a l ng]. simpl in *. subst o.
  unfold INTMAX_MIN, INTMAX_MAX in Hv.
  unfold bigint_movi. apply wp_bind.
  eapply wp_set_negative; [exact Hp |].
  destruct (decide (v = 0%Z)) as [->|Hnz].
  - eapply wp_set_length; [apply heap_upd_eq |]. rewrite upd_upd.
    eexists. split; [reflexivity |].
    rewrite bool_decide_eq_false_2 by lia.
    destruct (stored_magnitude_wf b a [] false Hlen Hone ltac:(simpl; lia)
                ltac:(constructor) ltac:(done) ltac:(done)) as [Hwf Hmag].
    simpl in Hwf, Hmag. rewrite drop_0 in Hwf, Hmag.
    split; [exact Hwf |]. split; [| reflexivity].
    rewrite value_unfold. simpl bi_negative. cbv iota. exact Hmag.
  - cbv zeta.
    set (m := if decide (0 < v)%Z then to_uintmax v
              else if decide (v = INTMAX_MIN) then INTMAX_MIN_MAGNITUDE
                   else to_uintmax (- v)).
    assert (Hm : m = Z.abs v).
    { unfold m, to_uintmax, INTMAX_MIN, INTMAX_MIN_MAGNITUDE.
      change (2 ^ UINTMAX_BITS)%Z with (2 ^ 64)%Z.
      destruct (decide (0 < v)%Z); [rewrite Z.mod_small; lia |].
      destruct (decide (v = - 2 ^ 63)%Z); [lia |].
      rewrite Z.mod_small; lia. }
    clearbody m.
    destruct (decide (UINTMAX_BITS <= DIGIT_BITS)%Z) as [Hbad|_];
      [vm_compute in Hbad; done |].
    apply wp_bind.
    eapply wp_mov_magnitude; [apply heap_upd_eq | lia | lia |].
    intros ds Hr Hdv Hlast Hdl. rewrite upd_upd.
    eapply wp_set_length; [apply heap_upd_eq |]. rewrite upd_upd.
    eexists. split; [reflexivity |].
    assert (Hne : ds = [] -> bool_decide (v < 0)%Z = false).
    { intros ->. simpl in Hdv. lia. }
    destruct (stored_magnitude_wf b a ds (bool_decide (v < 0)%Z) Hlen Hone
                ltac:(lia) Hr Hlast Hne) as [Hwf Hmag].
    split; [exact Hwf |]. split; [| reflexivity].
    rewrite value_unfold, Hmag, Hdv. simpl bi_negative.
    destruct (decide (v < 0)%Z).
    + rewrite bool_decide_eq_true_2 by done. lia.
    + rewrite bool_decide_eq_false_2 by done. lia.
Qed.

(** X4.  [bigint_movi(dest, v)] and [bigint_movui(dest, u)] store every
    [intmax_t], [INTMAX_MIN] included, and every [uintmax_t] in a structure
    with room for [DIGITS_FOR_INTMAX] digits: afterwards [dest] satisfies
    the representation invariants, denotes the argument and has the
    allocation it had; nothing else changes. *)
Theorem bigint_movi_movui_value s p x v u :
  st_heap s !! p = Some x -> wf_buffer x ->
  DIGITS_FOR_INTMAX <= bi_allocated x ->
  (INTMAX_MIN <= v <= INTMAX_MAX)%Z -> (0 <= u <= UINTMAX_MAX)%Z ->
  (exists x', bigint_movi p v s = Done (tt, upd p x' s)
              /\ wf_bigint x' /\ value x' = v
              /\ bi_allocated x' = bi_allocated x)
  /\ (exists x', bigint_movui p u s = Done (tt, upd p x' s)
                 /\ wf_bigint x' /\ value x' = u
                 /\ bi_allocated x' = bi_allocated x).
Proof.
  intros Hp Hwf Hcap Hv Hu. split.
  - destruct (wp_done _ _ _ (bigint_movi_spec p x v s Hp Hwf Hcap Hv))
      as ([] & s' & Hrun & x' & -> & H). by exists x'.
  - assert (Hu' : (0 <= u < 2 ^ 64)%Z) by (change UINTMAX_MAX with (2 ^ 64 - 1)%Z in Hu; lia).
    destruct (wp_done _ _ _ (bigint_movui_spec p x u s Hp Hwf Hcap Hu'))
      as ([] & s' & Hrun & x' & -> & H). by exists x'.
Qed.

(** -300 and 70000 stored in a structure of 16 digits. *)
Lemma bigint_movi_movui_value_witness :
  let s := sample_state (sample [] false) in
  let p := 0 in
  let x := sample [] false in
  let v := (-300)%Z in
  let u := 70000%Z in
  (exists x', bigint_movi p v s = Done (tt, upd p x' s)
              /\ wf_bigint x' /\ value x' = v
              /\ bi_allocated x' = bi_allocated x)
  /\ (exists x', bigint_movui p u s = Done (tt, upd p x' s)
                 /\ wf_bigint x' /\ value x' = u
                 /\ bi_allocated x' = bi_allocated x).
Proof.
  intros s p x v u.
  apply (bigint_movi_movui_value s p x v u).
  - reflexivity.
  - apply (@bool_decide_unpack _ (wf_buffer_dec _)). vm_compute. exact I.
  - simpl. unfold DIGITS_FOR_INTMAX. lia.
  - unfold INTMAX_MIN, INTMAX_MAX. lia.
  - by vm_compute.
Defined.

(** The fresh block of [bigint_from_int] and [bigint_from_uint]. *)
Lemma fresh_block_wf j :
  wf_buffer (mk_bigint (replicate (2 * DIGITS_FOR_INTMAX) j) 0
               (2 * DIGITS_FOR_INTMAX) 0 false).
Proof. unfold wf_buffer; simpl. lia. Qed.

Lemma upd_with_new x y s : upd (st_next s) y (with_new x s) = with_new y s.
Proof.
  unfold upd, with_new, set_heap; simpl. by rewrite insert_insert_eq.
Qed.

Lemma bigint_from_int_spec v s :
  (INTMAX_MIN <= v <= INTMAX_MAX)%Z ->
  wp (bigint_from_int v)
     (fun p s' =>
        p = st_next s /\
        exists x, s' = with_new x s /\ wf_bigint x /\ value x = v
                  /\ bi_allocated x = 2 * DIGITS_FOR_INTMAX) s.
Proof.
  intros Hv. unfold bigint_from_int.
  apply wp_bind. unfold junk at 1. unfold wp at 1. cbv zeta.
  apply wp_bind. apply wp_alloc.
  apply wp_bind. eapply wp_mono.
  { eapply (bigint_movi_spec (st_next s) _ v);
      [apply heap_with_new_eq | apply fresh_block_wf
      | cbn [bi_allocated]; unfold DIGITS_FOR_INTMAX; lia | exact Hv]. }
  intros [] s' (x' & -> & Hwf & Hval & Ha). apply wp_ret.
  split; [reflexivity |]. exists x'. rewrite upd_with_new. done.
Qed.

Lemma bigint_from_uint_spec u s :
  (0 <= u < 2 ^ 64)%Z ->
  wp (bigint_from_uint u)
     (fun p s' =>
        p = st_next s /\
        exists x, s' = with_new x s /\ wf_bigint x /\ value x = u
                  /\ bi_allocated x = 2 * DIGITS_FOR_INTMAX) s.
Proof.
  intros Hu. unfold bigint_from_uint.
  apply wp_bind. unfold junk at 1. unfold wp at 1. cbv zeta.
  apply wp_bind. apply wp_alloc.
  apply wp_bind. eapply wp_mono.
  { eapply (bigint_movui_spec (st_next s) _ u);
      [apply heap_with_new_eq | apply fresh_block_wf
      | cbn [bi_allocated]; unfold DIGITS_FOR_INTMAX; lia | exact Hu]. }
  intros [] s' (x' & -> & Hwf & Hval & Ha). apply wp_ret.
  split; [reflexivity |]. exists x'. rewrite upd_with_new. done.
Qed.

(** X5.  [bigint_from_int(v)] and [bigint_from_uint(u)] return a new structure
    for every [intmax_t] and every [uintmax_t]: it satisfies the
    representation invariants, denotes the argument and has room for twice
    [DIGITS_FOR_INTMAX] digits, and the rest of the state is untouched. *)
Theorem bigint_from_int_uint_value s v u :
  (INTMAX_MIN <= v <= INTMAX_MAX)%Z -> (0 <= u <= UINTMAX_MAX)%Z ->
  (exists x, bigint_from_int v s = Done (st_next s, with_new x s)
             /\ wf_bigint x /\ value x = v
             /\ bi_allocated x = 2 * DIGITS_FOR_INTMAX)
  /\ (exists x, bigint_from_uint u s = Done (st_next s, with_new x s)
                /\ wf_bigint x /\ value x = u
                /\ bi_allocated x = 2 * DIGITS_FOR_INTMAX).
Proof.
  intros Hv Hu. split.
  - destruct (wp_done _ _ _ (bigint_from_int_spec v s Hv))
      as (p & s' & Hrun & -> & x & -> & H). by exists x.
  - assert (Hu' : (0 <= u < 2 ^ 64)%Z) by (change UINTMAX_MAX with (2 ^ 64 - 1)%Z in Hu; lia).
    destruct (wp_done _ _ _ (bigint_from_uint_spec u s Hu'))
      as (p & s' & Hrun & -> & x & -> & H). by exists x.
Qed.

(** -5 and the largest uintmax_t. *)
Lemma bigint_from_int_uint_value_witness :
  let s := empty_state 0 in
  let v := (-5)%Z in
  let u := UINTMAX_MAX in
  (exists x, bigint_from_int v s = Done (st_next s, with_new x s)
             /\ wf_bigint x /\ value x = v
             /\ bi_allocated x = 2 * DIGITS_FOR_INTMAX)
  /\ (exists x, bigint_from_uint u s = Done (st_next s, with_new x s)
                /\ wf_bigint x /\ value x = u
                /\ bi_allocated x = 2 * DIGITS_FOR_INTMAX).
Proof.
  intros s v u.
  apply (bigint_from_int_uint_value s v u).
  - unfold INTMAX_MIN, INTMAX_MAX. lia.
  - by vm_compute.
Defined.

Section ReturnRule.
Context {St R : Type}.
Variable I : nat -> St -> state -> Prop.
Variable Q : R -> state -> Prop.

Lemma wp_for_return n :
  forall lo (body : nat -> St -> M (St + R)) st s,
    I lo st s ->
    (forall i st s, lo <= i < lo + n -> I i st s ->
       wp (body i st)
          (fun r s' => match r with
                       | inl st' => I (S i) st' s'
                       | inr v => Q v s'
                       end) s) ->
    wp (for_return n lo body st)
       (fun r s' => match r with
                    | inl st' => I (lo + n) st' s'
                    | inr v => Q v s'
                    end) s.
Proof.
  induction n as [|n IH]; intros lo body st s H0 Hstep; simpl.
  - rewrite Nat.add_0_r. exact H0.
  - apply wp_bind. eapply wp_mono; [apply (Hstep lo); [lia | exact H0] |].
    intros [st'|v] s' H1; simpl in H1.
    + replace (lo + S n) with (S lo + n) by lia.
      apply IH; [exact H1 |].
      intros i st2 s2 Hi. apply Hstep. lia.
    + exact H1.
Qed.
End ReturnRule.

(** The part of a digit that [(uintmax_t) d << (n * DIGIT_BITS)] keeps. *)
Lemma shl_uintmax_digit d n (Q : Z -> state -> Prop) s :
  digit_range d -> n < DIGITS_FOR_INTMAX ->
  Q (d * 256 ^ Z.of_nat n)%Z s ->
  wp (shl_uintmax d (Z.of_nat n * DIGIT_BITS)) Q s.
Proof.
  intros Hd Hn HQ. apply digit_range_bounds in Hd.
  unfold shl_uintmax, DIGITS_FOR_INTMAX in *.
  change UINTMAX_BITS with 64%Z. change DIGIT_BITS with 8%Z.
  rewrite decide_True by lia. apply wp_ret.
  unfold to_uintmax. change UINTMAX_BITS with 64%Z.
  rewrite Z.shiftl_mul_pow2 by lia. rewrite <- pow256_pow2.
  rewrite Z.mod_small; [exact HQ |].
  assert (256 ^ Z.of_nat n <= 256 ^ Z.of_nat 7)%Z by (apply pow256_mono; lia).
  pose proof (pow256_pos n).
  change (256 ^ Z.of_nat 7)%Z with (2 ^ 56)%Z in *.
  change (2 ^ 64)%Z with (256 * 2 ^ 56)%Z. nia.
Qed.

Lemma lor_digit acc d n :
  digit_range d -> (0 <= acc < 256 ^ Z.of_nat n)%Z ->
  Z.lor acc (d * 256 ^ Z.of_nat n) = (acc + d * 256 ^ Z.of_nat n)%Z.
Proof.
  intros Hd Hacc. rewrite pow256_pow2 in *. apply lor_disjoint; lia.
Qed.

Lemma wf_long_magnitude x :
  wf_bigint x ->
  bi_length x <= DIGITS_FOR_INTMAX <-> (magnitude x <= UINTMAX_MAX)%Z.
Proof.
  intros ((Hoff & Hlen & Hone) & Hla & Hr & HN1 & _).
  assert (Hll : length (live_digits x) = bi_length x).
  { unfold live_digits. rewrite length_take, length_drop. lia. }
  pose proof (digits_value_bound _ Hr) as Hb. rewrite Hll in Hb.
  unfold magnitude. change UINTMAX_MAX with (256 ^ Z.of_nat 8 - 1)%Z.
  unfold DIGITS_FOR_INTMAX. split.
  - intros Hl. pose proof (pow256_mono _ _ Hl). lia.
  - intros Hm. destruct (decide (bi_length x <= 8)) as [|Hgt]; [done | exfalso].
    assert (Hnil : live_digits x <> []).
    { intros E. rewrite E in Hll. simpl in Hll. lia. }
    pose proof (digits_value_top _ Hr Hnil HN1) as Ht. rewrite Hll in Ht.
    pose proof (pow256_mono 8 (bi_length x - 1) ltac:(lia)). lia.
Qed.

Lemma bigint_toui_spec p x s :
  st_heap s !! p = Some x -> wf_bigint x ->
  wp (bigint_toui p)
     (fun r s' =>
        if bi_negative x then r = 0%Z /\ s' = with_errno ERANGE s
        else if decide (magnitude x <= UINTMAX_MAX)%Z
             then r = magnitude x /\ s' = s
             else r = UINTMAX_MAX /\ s' = with_errno ERANGE s) s.
Proof.
  intros Hp Hwf. pose proof (wf_long_magnitude x Hwf) as Hlong.
  destruct x as [b o a l ng].
  assert (o = 0) as -> by (destruct Hwf as [[? _] _]; done).
  apply wf_bigint_unfold in Hwf as (Hlen & Hone & Hla & Hrange & Hlast & Hneg).
  rewrite magnitude_unfold in *. cbn [bi_length bi_negative] in *.
  unfold bigint_toui. apply wp_bind. eapply wp_get_negative; [exact Hp |].
  destruct ng.
  { apply wp_bind. by apply wp_set_errno. }
  apply wp_bind. eapply wp_get_length; [exact Hp |].
  destruct (decide (digits_value (take l b) <= UINTMAX_MAX)%Z) as [Hm|Hm].
  2:{ assert (Hgt : DIGITS_FOR_INTMAX < l).
      { destruct (decide (l <= DIGITS_FOR_INTMAX)) as [Hle|]; [| lia].
        apply Hlong in Hle. done. }
      rewrite decide_True by done.
      apply wp_bind. apply wp_set_errno. by apply wp_ret. }
  assert (Hle : l <= DIGITS_FOR_INTMAX) by (by apply Hlong).
  rewrite decide_False by lia.
  apply wp_bind. eapply wp_mono.
  { apply (wp_for_return
             (fun n '(acc, prev) s' =>
                s' = s /\ acc = digits_value (take n b) /\ prev = acc)
             (fun _ _ => False)).
    - done.
    - intros i [acc prev] s1 Hi (-> & -> & ->).
      destruct (live_lookup_range b l i Hrange ltac:(lia) ltac:(lia))
        as (d & Hd & Hdr).
      apply wp_bind. eapply wp_rd; [exact Hp | exact Hd |].
      rewrite (take_S_r _ _ _ Hd), digits_value_snoc.
      rewrite length_take, Nat.min_l by lia.
      destruct (decide (d = 0%Z)) as [->|Hnz].
      + apply wp_ret. split_and!; try done. lia.
      + apply wp_bind. apply shl_uintmax_digit; [done | lia |].
        pose proof (digits_value_bound _ (Forall_take _ i _ Hrange)) as Hb.
        rewrite take_take in Hb. rewrite Nat.min_l in Hb by lia.
        rewrite length_take, Nat.min_l in Hb by lia.
        rewrite lor_digit by done.
        apply digit_range_bounds in Hdr. pose proof (pow256_pos i).
        rewrite decide_False by nia.
        apply wp_ret. split_and!; try done; lia. }
  intros [[acc prev]|v] s1; [| done].
  intros (-> & -> & ->). apply wp_ret. done.
Qed.

Lemma bigint_toui_run s p x :
  st_heap s !! p = Some x -> wf_bigint x ->
  bigint_toui p s
  = if bi_negative x then Done (0%Z, with_errno ERANGE s)
    else if decide (magnitude x <= UINTMAX_MAX)%Z then Done (magnitude x, s)
         else Done (UINTMAX_MAX, with_errno ERANGE s).
Proof.
  intros Hp Hwf.
  destruct (wp_done _ _ _ (bigint_toui_spec p x s Hp Hwf))
    as (r & s' & Hrun & H). rewrite Hrun.
  destruct (bi_negative x); [by destruct H as [-> ->] |].
  destruct (decide (magnitude x <= UINTMAX_MAX)%Z); by destruct H as [-> ->].
Qed.

(** X6.  [bigint_toui(x)] on a structure that satisfies the representation
    invariants: a negative [x] gives 0 with [errno = ERANGE], a magnitude
    up to [UINTMAX_MAX] gives the magnitude and leaves [errno] alone, and a
    larger one gives [UINTMAX_MAX] with [errno = ERANGE].  The structures
    are never changed. *)
Theorem bigint_toui_value s p x :
  st_heap s !! p = Some x -> wf_bigint x ->
  bigint_toui p s
  = if bi_negative x then Done (0%Z, with_errno ERANGE s)
    else if decide (magnitude x <= UINTMAX_MAX)%Z then Done (magnitude x, s)
         else Done (UINTMAX_MAX, with_errno ERANGE s).
Proof. exact (bigint_toui_run s p x). Qed.

(** 513 as an uintmax_t. *)
Lemma bigint_toui_value_witness :
  let s := sample_state (sample [1%Z; 2%Z] false) in
  let p := 0 in
  let x := sample [1%Z; 2%Z] false in
  bigint_toui p s
  = if bi_negative x then Done (0%Z, with_errno ERANGE s)
    else if decide (magnitude x <= UINTMAX_MAX)%Z then Done (magnitude x, s)
         else Done (UINTMAX_MAX, with_errno ERANGE s).
Proof.
  intros s p x.
  apply (bigint_toui_value s p x).
  - reflexivity.
  - apply (@bool_decide_unpack _ (wf_bigint_dec _)). vm_compute. exact I.
Defined.

Lemma bigint_toi_spec p x s :
  st_heap s !! p = Some x -> wf_bigint x ->
  bi_length x <= DIGITS_FOR_INTMAX ->
  wp (bigint_toi p)
     (fun r s' =>
        if decide (INTMAX_MIN <= value x <= INTMAX_MAX)%Z
        then r = value x /\ s' = s
        else r = (if bi_negative x then INTMAX_MIN else INTMAX_MAX)
             /\ s' = with_errno ERANGE s) s.
Proof.
  intros Hp Hwf Hl8. rewrite value_unfold.
  pose proof (wf_magnitude_nonneg x Hwf) as Hnn.
  destruct x as [b o a l ng].
  assert (o = 0) as -> by (destruct Hwf as [[? _] _]; done).
  apply wf_bigint_unfold in Hwf as (Hlen & Hone & Hla & Hrange & Hlast & Hneg).
  rewrite magnitude_unfold in *. cbn [bi_length bi_negative] in *.
  unfold bigint_toi. apply wp_bind. eapply wp_get_length; [exact Hp |].
  apply wp_bind. eapply wp_get_negative; [exact Hp |].
  apply wp_bind. eapply wp_mono.
  { apply (wp_for_return
             (fun n acc s' => s' = s /\ acc = digits_value (take n b))
             (fun _ _ => False)).
    - done.
    - intros i acc s1 Hi (-> & ->).
      destruct (live_lookup_range b l i Hrange ltac:(lia) ltac:(lia))
        as (d & Hd & Hdr).
      apply wp_bind. eapply wp_rd; [exact Hp | exact Hd |].
      rewrite (take_S_r _ _ _ Hd), digits_value_snoc.
      rewrite length_take, Nat.min_l by lia.
      apply wp_bind. apply shl_uintmax_digit; [done | lia |].
      pose proof (digits_value_bound _ (Forall_take _ i _ Hrange)) as Hb.
      rewrite take_take in Hb. rewrite Nat.min_l in Hb by lia.
      rewrite length_take, Nat.min_l in Hb by lia.
      rewrite lor_digit by done.
      pose proof (pow256_pos i).
      rewrite decide_False by nia.
      apply wp_ret. split; [done | lia]. }
  intros [acc|v] s1; [| done]. change (0 + l) with l.
  intros (-> & ->). set (m := digits_value (take l b)) in *.
  unfold INTMAX_MIN, INTMAX_MAX, INTMAX_MIN_MAGNITUDE.
  destruct ng; simpl negb; cbv iota.
  - destruct (decide (- 2 ^ 63 <= - m <= 2 ^ 63 - 1)%Z) as [Hin|Hout].
    + rewrite decide_False by lia.
      destruct (decide (m <= 2 ^ 63 - 1)%Z); apply wp_ret;
        (split; [lia | done]).
    + rewrite decide_True by lia.
      apply wp_bind. apply wp_set_errno. by apply wp_ret.
  - destruct (decide (- 2 ^ 63 <= m <= 2 ^ 63 - 1)%Z) as [Hin|Hout].
    + rewrite decide_False by lia. by apply wp_ret.
    + rewrite decide_True by lia.
      apply wp_bind. apply wp_set_errno. by apply wp_ret.
Qed.

Lemma bigint_toi_run s p x :
  st_heap s !! p = Some x -> wf_bigint x ->
  bi_length x <= DIGITS_FOR_INTMAX ->
  bigint_toi p s
  = if decide (INTMAX_MIN <= value x <= INTMAX_MAX)%Z
    then Done (value x, s)
    else Done (if bi_negative x then INTMAX_MIN else INTMAX_MAX,
               with_errno ERANGE s).
Proof.
  intros Hp Hwf Hl.
  destruct (wp_done _ _ _ (bigint_toi_spec p x s Hp Hwf Hl))
    as (r & s' & Hrun & H). rewrite Hrun.
  destruct (decide (INTMAX_MIN <= value x <= INTMAX_MAX)%Z);
    by destruct H as [-> ->].
Qed.

(** X7.  [bigint_toi(x)] on a structure of at most [DIGITS_FOR_INTMAX] digits
    that satisfies the representation invariants: a value between
    [INTMAX_MIN] and [INTMAX_MAX], both included, is returned as it is and
    the state is unchanged; a value beyond gives [INTMAX_MIN] or
    [INTMAX_MAX], by its sign, with [errno = ERANGE]. *)
Theorem bigint_toi_value s p x :
  st_heap s !! p = Some x -> wf_bigint x ->
  bi_length x <= DIGITS_FOR_INTMAX ->
  bigint_toi p s
  = if decide (INTMAX_MIN <= value x <= INTMAX_MAX)%Z
    then Done (value x, s)
    else Done (if bi_negative x then INTMAX_MIN else INTMAX_MAX,
               with_errno ERANGE s).
Proof. exact (bigint_toi_run s p x). Qed.

(** -513 as an intmax_t. *)
Lemma bigint_toi_value_witness :
  let s := sample_state (sample [1%Z; 2%Z] true) in
  let p := 0 in
  let x := sample [1%Z; 2%Z] true in
  bigint_toi p s
  = if decide (INTMAX_MIN <= value x <= INTMAX_MAX)%Z
    then Done (value x, s)
    else Done (if bi_negative x then INTMAX_MIN else INTMAX_MAX,
               with_errno ERANGE s).
Proof.
  intros s p x.
  apply (bigint_toi_value s p x).
  - reflexivity.
  - apply (@bool_decide_unpack _ (wf_bigint_dec _)). vm_compute. exact I.
  - simpl. unfold DIGITS_FOR_INTMAX. lia.
Defined.

Lemma bind_eq {A B} (m : M A) (k : A -> M B) s a s' :
  m s = Done (a, s') -> bind m k s = k a s'.
Proof. intros H. unfold bind. by rewrite H. Qed.

Lemma bind_undefined {A B} (m : M A) (k : A -> M B) s :
  m s = Undefined -> bind m k s = Undefined.
Proof. intros H. unfold bind. by rewrite H. Qed.

Lemma rd_eq p i b o a l ng v s :
  st_heap s !! p = Some (mk_bigint b o a l ng) -> b !! (o + i) = Some v ->
  rd p i s = Done (v, s).
Proof.
  intros Hp Hv. unfold rd, bind, load. rewrite Hp. simpl. by rewrite Hv.
Qed.

Lemma get_length_eq p x s :
  st_heap s !! p = Some x -> get_length p s = Done (bi_length x, s).
Proof. intros Hp. unfold get_length, bind, load. by rewrite Hp. Qed.

Lemma get_negative_eq p x s :
  st_heap s !! p = Some x -> get_negative p s = Done (bi_negative x, s).
Proof. intros Hp. unfold get_negative, bind, load. by rewrite Hp. Qed.

(** Beyond [DIGITS_FOR_INTMAX] digits the shift count reaches the width of
    [uintmax_t]. *)
Lemma toi_loop_undefined p b a l ng (neg : bool) s n :
  forall lo acc,
    st_heap s !! p = Some (mk_bigint b 0 a l ng) ->
    Forall digit_range (take l b) -> l <= length b ->
    lo <= DIGITS_FOR_INTMAX -> DIGITS_FOR_INTMAX < lo + n -> lo + n <= l ->
    for_return (St := Z) (R := Z) n lo
      (fun n accumulator =>
         let* d := rd p n in
         let* value := shl_uintmax d (Z.of_nat n * DIGIT_BITS) in
         if decide (d <> 0%Z /\ value = 0%Z) then
           set_errno ERANGE ;;
           ret (inr (if neg then INTMAX_MIN else INTMAX_MAX))
         else ret (inl (Z.lor accumulator value)))
      acc s = Undefined.
Proof.
  induction n as [|n IH]; intros lo acc Hp Hr Hlb Hlo Hn Hl; [lia |].
  destruct (live_lookup_range b l lo Hr ltac:(lia) ltac:(lia))
    as (d & Hd & Hdr).
  cbn [for_return].
  destruct (decide (lo = DIGITS_FOR_INTMAX)) as [->|Hne].
  - apply bind_undefined. erewrite bind_eq by (eapply rd_eq; [exact Hp | exact Hd]).
    by apply bind_undefined.
  - assert (Hv : shl_uintmax d (Z.of_nat lo * DIGIT_BITS) s
                 = Done ((d * 256 ^ Z.of_nat lo)%Z, s)).
    { destruct (wp_done _ _ s
                  (shl_uintmax_digit d lo (fun r s' => r = _ /\ s' = s) s Hdr
                     ltac:(lia) ltac:(done))) as (r & s' & Hrun & -> & ->).
      exact Hrun. }
    rewrite (bind_eq _ _ s (inl (Z.lor acc (d * 256 ^ Z.of_nat lo))) s).
    + apply IH; try done; lia.
    + erewrite bind_eq by (eapply rd_eq; [exact Hp | exact Hd]).
      erewrite bind_eq by exact Hv.
      apply digit_range_bounds in Hdr. pose proof (pow256_pos lo).
      rewrite decide_False by nia. reflexivity.
Qed.

(** X8.  [bigint_toi(x)] on a structure of more than [DIGITS_FOR_INTMAX]
    digits shifts an [uintmax_t] by its width or more, at the digit of
    index [DIGITS_FOR_INTMAX]: the call has undefined behaviour instead of
    the saturated result. *)
Theorem bigint_toi_long s p x :
  st_heap s !! p = Some x -> wf_bigint x ->
  DIGITS_FOR_INTMAX < bi_length x ->
  bigint_toi p s = Undefined.
Proof.
  intros Hp Hwf Hl. destruct x as [b o a l ng].
  assert (o = 0) as -> by (destruct Hwf as [[? _] _]; done).
  apply wf_bigint_unfold in Hwf as (Hlen & Hone & Hla & Hrange & Hlast & Hneg).
  cbn [bi_length] in Hl.
  unfold bigint_toi.
  erewrite bind_eq by (by apply get_length_eq).
  erewrite bind_eq by (by apply get_negative_eq).
  apply bind_undefined. cbn [bi_length bi_negative].
  apply (toi_loop_undefined p b a l ng ng s l 0 0%Z); try done; lia.
Qed.

(** 2^64, which has nine digits. *)
Lemma bigint_toi_long_witness :
  let s := sample_state (sample (replicate 8 0%Z ++ [1%Z]) false) in
  let p := 0 in
  let x := sample (replicate 8 0%Z ++ [1%Z]) false in
  bigint_toi p s = Undefined.
Proof.
  intros s p x.
  apply (bigint_toi_long s p x).
  - reflexivity.
  - apply (@bool_decide_unpack _ (wf_bigint_dec _)). vm_compute. exact I.
  - simpl. unfold DIGITS_FOR_INTMAX. lia.
Defined.

(** X9.  Round trips: [bigint_toi(bigint_from_int(v))] is [v] for every
    [intmax_t] and [bigint_toui(bigint_from_uint(u))] is [u] for every
    [uintmax_t]; the only change of the state is the new structure, which
    denotes the argument, and [errno] is not set. *)
Theorem toi_of_int_round_trip s v u :
  (INTMAX_MIN <= v <= INTMAX_MAX)%Z -> (0 <= u <= UINTMAX_MAX)%Z ->
  (exists x, toi_of_int v s = Done (v, with_new x s) /\ value x = v)
  /\ (exists x, toui_of_uint u s = Done (u, with_new x s) /\ value x = u).
Proof.
  intros Hv Hu. split.
  - destruct (wp_done _ _ _ (bigint_from_int_spec v s Hv))
      as (p & s' & Hrun & -> & x & -> & Hwf & Hval & Ha).
    exists x. split; [| done].
    unfold toi_of_int. erewrite bind_eq by exact Hrun.
    assert (Hl : bi_length x <= DIGITS_FOR_INTMAX).
    { apply wf_long_magnitude; [done |].
      rewrite value_unfold in Hval. change UINTMAX_MAX with (2 ^ 64 - 1)%Z.
      unfold INTMAX_MIN, INTMAX_MAX in Hv. destruct (bi_negative x); lia. }
    rewrite (bigint_toi_run _ _ x (heap_with_new_eq x s) Hwf Hl).
    rewrite Hval. by rewrite decide_True.
  - assert (Hu' : (0 <= u < 2 ^ 64)%Z)
      by (change UINTMAX_MAX with (2 ^ 64 - 1)%Z in Hu; lia).
    destruct (wp_done _ _ _ (bigint_from_uint_spec u s Hu'))
      as (p & s' & Hrun & -> & x & -> & Hwf & Hval & Ha).
    exists x. split; [| done].
    unfold toui_of_uint. erewrite bind_eq by exact Hrun.
    rewrite (bigint_toui_run _ _ x (heap_with_new_eq x s) Hwf).
    rewrite value_unfold in Hval.
    destruct (bi_negative x) eqn:En.
    + pose proof (wf_negative_magnitude x Hwf En). lia.
    + rewrite Hval. rewrite decide_True by lia. reflexivity.
Qed.

(** The two extreme values. *)
Lemma toi_of_int_round_trip_witness :
  let s := empty_state 0 in
  let v := INTMAX_MIN in
  let u := UINTMAX_MAX in
  (exists x, toi_of_int v s = Done (v, with_new x s) /\ value x = v)
  /\ (exists x, toui_of_uint u s = Done (u, with_new x s) /\ value x = u).
Proof.
  intros s v u.
  apply (toi_of_int_round_trip s v u).
  - by vm_compute.
  - by vm_compute.
Defined.

(** ** Duplication and assignment *)

Lemma live_digits_length x :
  bi_off x + bi_length x <= length (bi_block x) ->
  length (live_digits x) = bi_length x.
Proof. intros H. unfold live_digits. rewrite length_take, length_drop. lia. Qed.

Lemma wf_in_bounds x :
  wf_bigint x -> bi_off x + bi_length x <= length (bi_block x).
Proof. intros ((-> & Hlen & _) & Hla & _). simpl. lia. Qed.

Lemma live_digits_dup_of x :
  bi_off x + bi_length x <= length (bi_block x) ->
  live_digits (dup_of x) = live_digits x.
Proof.
  intros H. unfold dup_of, live_digits at 1. simpl. rewrite drop_0.
  rewrite take_app_length' by (symmetry; by apply live_digits_length).
  reflexivity.
Qed.

Lemma dup_of_wf x : wf_bigint x -> wf_bigint (dup_of x).
Proof.
  intros Hwf. pose proof (wf_in_bounds x Hwf) as Hb.
  destruct Hwf as ((Hoff & Hlen & Hone) & Hla & Hr & HN1 & HN2).
  unfold wf_bigint, wf_buffer, N1, N2. rewrite live_digits_dup_of by done.
  unfold dup_of; simpl. rewrite length_app, length_replicate.
  rewrite live_digits_length by done.
  split_and!; try done; lia.
Qed.

Lemma bigint_dup_spec p x s :
  st_heap s !! p = Some x ->
  bi_off x + bi_length x <= length (bi_block x) ->
  bi_length x <= bi_allocated x ->
  wp (bigint_dup p)
     (fun q s' => q = st_next s /\ s' = with_new (dup_of x) s) s.
Proof.
  intros Hp Hb Hla. unfold bigint_dup. apply wp_bind.
  eapply wp_load; [exact Hp |].
  destruct (decide (bi_length x <> 0)) as [Hnz|Hz].
  - unfold memcpy. rewrite decide_True
      by (rewrite length_replicate; split; lia).
    apply wp_alloc. split; [reflexivity |]. f_equal.
    unfold dup_of, live_digits. f_equal. simpl.
    rewrite drop_replicate. reflexivity.
  - apply wp_alloc. split; [reflexivity |]. f_equal.
    unfold dup_of, live_digits. f_equal.
    apply dec_stable in Hz. rewrite Hz, take_0, Nat.sub_0_r. reflexivity.
Qed.

(** X10.  [bigint_dup(x)] returns a new structure that satisfies the
    representation invariants and has the value, the digits and the
    allocation of [x]; [x] itself is as it was. *)
Theorem bigint_dup_copy s p x :
  st_heap s !! p = Some x -> wf_bigint x -> heap_ok s ->
  exists x',
    bigint_dup p s = Done (st_next s, with_new x' s)
    /\ st_heap (with_new x' s) !! p = Some x
    /\ wf_bigint x' /\ value x' = value x
    /\ live_digits x' = live_digits x
    /\ bi_allocated x' = bi_allocated x.
Proof.
  intros Hp Hwf Hok. pose proof (wf_in_bounds x Hwf) as Hb.
  assert (Hla : bi_length x <= bi_allocated x) by (by destruct Hwf as (_ & ? & _)).
  destruct (wp_done _ _ _ (bigint_dup_spec p x s Hp Hb Hla))
    as (q & s' & Hrun & -> & ->).
  exists (dup_of x). split; [exact Hrun |].
  split. { rewrite heap_with_new_ne by (by eapply heap_ok_ne). exact Hp. }
  split; [by apply dup_of_wf |].
  split; [| split; [by apply live_digits_dup_of | reflexivity]].
  rewrite !value_unfold. unfold magnitude.
  rewrite live_digits_dup_of by done. reflexivity.
Qed.

(** A copy of -7. *)
Lemma bigint_dup_copy_witness :
  let s := sample_state (sample [7%Z] true) in
  let p := 0 in
  let x := sample [7%Z] true in
  exists x',
    bigint_dup p s = Done (st_next s, with_new x' s)
    /\ st_heap (with_new x' s) !! p = Some x
    /\ wf_bigint x' /\ value x' = value x
    /\ live_digits x' = live_digits x
    /\ bi_allocated x' = bi_allocated x.
Proof.
  intros s p x.
  apply (bigint_dup_copy s p x).
  - reflexivity.
  - apply (@bool_decide_unpack _ (wf_bigint_dec _)). vm_compute. exact I.
  - apply (@bool_decide_unpack _ (heap_ok_dec _)). vm_compute. exact I.
Defined.

Lemma bigint_mov_spec dest src xd xs s :
  dest <> src ->
  st_heap s !! dest = Some xd -> st_heap s !! src = Some xs ->
  wf_buffer xd -> bi_off xs + bi_length xs <= length (bi_block xs) ->
  wp (bigint_mov dest src)
     (fun rc s' =>
        rc = 0%Z /\
        exists tail a',
          s' = upd dest (mk_bigint (live_digits xs ++ tail) 0 a'
                           (bi_length xs) (bi_negative xd)) s
          /\ length (live_digits xs ++ tail) = a'
          /\ bi_allocated xd <= a') s.
Proof.
  intros Hne Hd Hs (Hoff & Hlen & Hone) Hb.
  destruct xd as [bd od ad ld nd]. simpl in *. subst od.
  unfold bigint_mov. rewrite decide_False by done.
  apply wp_bind. eapply wp_load; [exact Hs |].
  apply wp_bind. eapply wp_load; [exact Hd |].
  cbn [bi_allocated]. apply wp_bind.
  assert (Hfin : forall s1 b a l,
            st_heap s1 !! dest = Some (mk_bigint b 0 a l nd) ->
            st_heap s1 !! src = Some xs ->
            length b = a -> bi_length xs <= a -> ad <= a ->
            wp (let* vs := load src in
                let* vd := load dest in
                match memcpy (bi_block vd) (bi_off vd) (bi_block vs)
                        (bi_off vs) (bi_length vs) with
                | Some b => store dest (with_block b vd) ;;
                            set_length dest (bi_length vs) ;; ret 0%Z
                | None => undefined
                end)
              (fun rc s' =>
                 rc = 0%Z /\
                 exists tail a',
                   s' = upd dest (mk_bigint (live_digits xs ++ tail) 0 a'
                                    (bi_length xs) nd) s1
                   /\ length (live_digits xs ++ tail) = a' /\ ad <= a') s1).
  { intros s1 b a l Hd1 Hs1 Hbl Hfit Hcap.
    apply wp_bind. eapply wp_load; [exact Hs1 |].
    apply wp_bind. eapply wp_load; [exact Hd1 |].
    cbn [bi_block bi_off]. unfold memcpy.
    rewrite decide_True by (split; lia). simpl take at 1.
    apply wp_bind. eapply wp_store; [exact Hd1 |].
    unfold with_block; simpl.
    apply wp_bind. eapply wp_set_length; [apply heap_upd_eq |].
    rewrite upd_upd. apply wp_ret. split; [reflexivity |].
    exists (drop (bi_length xs) b), a. split; [reflexivity |].
    split; [| done].
    rewrite length_app, length_drop.
    change (take (bi_length xs) (drop (bi_off xs) (bi_block xs)))
      with (live_digits xs).
    rewrite live_digits_length by done. lia. }
  destruct (decide (ad < bi_length xs)) as [Hgrow|Hfit].
  - apply wp_bind. eapply wp_resize; [exact Hd | exact Hlen | exact Hone |].
    intros a' Ha' Haa'. apply wp_ret. apply wp_ret.
    eapply wp_mono.
    { apply (Hfin _ (bd ++ replicate (a' - ad) 0%Z) a' (bi_length xs));
        [apply heap_upd_eq | by rewrite heap_upd_ne
        | rewrite length_app, length_replicate; lia | lia | lia]. }
    intros rc s' (-> & tail & a2 & -> & Hl2 & Ha2).
    split; [reflexivity |]. exists tail, a2. rewrite upd_upd. done.
  - apply wp_ret. apply (Hfin s bd ad ld); [done | done | done | lia | lia].
Qed.

(** X11.  [bigint_mov(dest, src)] returns 0.  With [dest == src] nothing
    changes.  Otherwise [dest] receives the digits and the length of
    [src], and its allocation does not shrink, but its sign is the one it
    had: [dest] denotes the value of [src] only when the two signs were the
    same. *)
Theorem bigint_mov_copy s dest src xd xs :
  dest <> src ->
  st_heap s !! dest = Some xd -> st_heap s !! src = Some xs ->
  wf_buffer xd -> wf_bigint xs ->
  bigint_mov src src s = Done (0%Z, s)
  /\ exists xd',
       bigint_mov dest src s = Done (0%Z, upd dest xd' s)
       /\ wf_buffer xd'
       /\ live_digits xd' = live_digits xs
       /\ bi_length xd' = bi_length xs
       /\ magnitude xd' = magnitude xs
       /\ bi_negative xd' = bi_negative xd
       /\ bi_allocated xd <= bi_allocated xd'
       /\ (bi_negative xd = bi_negative xs ->
           wf_bigint xd' /\ value xd' = value xs).
Proof.
  intros Hne Hd Hs Hwd Hws. split.
  { unfold bigint_mov. by rewrite decide_True. }
  pose proof (wf_in_bounds xs Hws) as Hb.
  destruct (wp_done _ _ _ (bigint_mov_spec dest src xd xs s Hne Hd Hs Hwd Hb))
    as (rc & s' & Hrun & -> & tail & a' & -> & Hlen & Hcap).
  eexists. split; [exact Hrun |].
  assert (Hlive : live_digits (mk_bigint (live_digits xs ++ tail) 0 a'
                                 (bi_length xs) (bi_negative xd))
                  = live_digits xs).
  { unfold live_digits at 1. simpl. rewrite drop_0.
    rewrite take_app_length' by (symmetry; by apply live_digits_length).
  reflexivity. }
  destruct Hwd as (_ & _ & Hone).
  assert (Hwb : wf_buffer (mk_bigint (live_digits xs ++ tail) 0 a'
                             (bi_length xs) (bi_negative xd))).
  { unfold wf_buffer; simpl. lia. }
  split; [exact Hwb |]. split; [exact Hlive |]. split; [reflexivity |].
  split; [unfold magnitude; by rewrite Hlive |].
  split; [reflexivity |]. split; [exact Hcap |].
  intros Hsign. split.
  - destruct Hws as (_ & Hla & Hr & HN1 & HN2).
    unfold wf_bigint, N1, N2. rewrite Hlive. simpl.
    split_and!; try done.
    + rewrite <- Hlen, length_app, live_digits_length by done. lia.
    + rewrite Hsign. exact HN2.
  - rewrite !value_unfold. unfold magnitude. rewrite Hlive. simpl.
    by rewrite Hsign.
Qed.

(** 513 copied over 0. *)
Lemma bigint_mov_copy_witness :
  let s := sample_pair (sample [] false) (sample [1%Z; 2%Z] false) in
  let dest := 0 in
  let src := 1 in
  let xd := sample [] false in
  let xs := sample [1%Z; 2%Z] false in
  bigint_mov src src s = Done (0%Z, s)
  /\ exists xd',
       bigint_mov dest src s = Done (0%Z, upd dest xd' s)
       /\ wf_buffer xd'
       /\ live_digits xd' = live_digits xs
       /\ bi_length xd' = bi_length xs
       /\ magnitude xd' = magnitude xs
       /\ bi_negative xd' = bi_negative xd
       /\ bi_allocated xd <= bi_allocated xd'
       /\ (bi_negative xd = bi_negative xs ->
           wf_bigint xd' /\ value xd' = value xs).
Proof.
  intros s dest src xd xs.
  apply (bigint_mov_copy s dest src xd xs).
  - lia.
  - reflexivity.
  - reflexivity.
  - apply (@bool_decide_unpack _ (wf_buffer_dec _)). vm_compute. exact I.
  - apply (@bool_decide_unpack _ (wf_bigint_dec _)). vm_compute. exact I.
Defined.

(** ** Absolute value *)

Lemma wf_bigint_positive b a l ng :
  wf_bigint (mk_bigint b 0 a l ng) -> wf_bigint (mk_bigint b 0 a l false).
Proof. rewrite !wf_bigint_unfold. tauto. Qed.

(** X12.  [bigint_abs(dest, x)] returns [dest], or a new structure when [dest]
    is [NULL]; the result satisfies the representation invariants and
    denotes [|x|], and no other structure changes.  [dest] may be [x]. *)
Theorem bigint_abs_value s dest p x :
  st_heap s !! p = Some x -> wf_bigint x -> dest_ok s dest -> heap_ok s ->
  exists r x' s',
    bigint_abs dest p s = Done (Some r, s')
    /\ r = default (st_next s) dest
    /\ st_heap s' !! r = Some x'
    /\ wf_bigint x' /\ value x' = Z.abs (value x)
    /\ (forall q, q <> r -> st_heap s' !! q = st_heap s !! q).
Proof.
  intros Hp Hwf Hdest Hok.
  pose proof (wf_magnitude_nonneg x Hwf) as Hnn.
  assert (Habs : Z.abs (value x) = magnitude x).
  { rewrite value_unfold. destruct (bi_negative x); lia. }
  rewrite Habs. clear Habs.
  pose proof (wf_in_bounds x Hwf) as Hb.
  unfold bigint_abs.
  destruct dest as [d|]; simpl default.
  - destruct (decide (d = p)) as [->|Hne].
    + (* in place *)
      rewrite decide_False by (intros H; by apply H).
      destruct x as [b o a l ng].
      assert (o = 0) as -> by (destruct Hwf as [[? _] _]; done).
      erewrite bind_eq by reflexivity.
      assert (Hrun : wp (set_negative p false ;; ret (Some p))
                (fun r s' => r = Some p
                   /\ s' = upd p (mk_bigint b 0 a l false) s) s).
      { apply wp_bind. eapply wp_set_negative; [exact Hp |]. by apply wp_ret. }
      destruct (wp_done _ _ _ Hrun) as (r & s' & Hrun' & -> & ->).
      exists p, (mk_bigint b 0 a l false), (upd p (mk_bigint b 0 a l false) s).
      split; [exact Hrun' |]. split; [reflexivity |].
      split; [apply heap_upd_eq |].
      split; [by eapply wf_bigint_positive |].
      split; [by rewrite value_unfold, !magnitude_unfold |].
      intros q Hq. by apply heap_upd_ne.
    + destruct Hdest as (xd & Hd & Hwd).
      rewrite decide_True by congruence.
      assert (Hrun : wp (let* dest := (bigint_mov d p ;; ret (Some d)) in
                         match dest with
                         | Some d => set_negative d false ;; ret (Some d)
                         | None => ret None
                         end)
                (fun r s' => r = Some d /\
                   exists tail a',
                     s' = upd d (mk_bigint (live_digits x ++ tail) 0 a'
                                   (bi_length x) false) s
                     /\ length (live_digits x ++ tail) = a'
                     /\ 1 <= a') s).
      { apply wp_bind. apply wp_bind. eapply wp_mono.
        { by apply (bigint_mov_spec d p xd x s). }
        intros rc s' (-> & tail & a' & -> & Hlen & Hcap).
        apply wp_ret. apply wp_bind.
        eapply wp_set_negative; [apply heap_upd_eq |]. rewrite upd_upd.
        apply wp_ret. split; [reflexivity |]. exists tail, a'.
        destruct Hwd as (_ & _ & Hone). split_and!; try done. lia. }
      destruct (wp_done _ _ _ Hrun)
        as (r & s' & Hrun' & -> & tail & a' & -> & Hlen & Hone).
      set (x' := mk_bigint (live_digits x ++ tail) 0 a' (bi_length x) false).
      assert (Hlive : live_digits x' = live_digits x).
      { unfold live_digits at 1, x'. simpl. rewrite drop_0.
        rewrite take_app_length' by (symmetry; by apply live_digits_length).
        reflexivity. }
      exists d, x', (upd d x' s).
      split; [exact Hrun' |]. split; [reflexivity |].
      split; [apply heap_upd_eq |].
      split.
      { destruct Hwf as (_ & Hla & Hr & HN1 & HN2).
        unfold wf_bigint, wf_buffer, N1, N2. rewrite Hlive. unfold x'; simpl.
        split_and!; try done.
        rewrite <- Hlen, length_app, live_digits_length by done. lia. }
      split; [rewrite value_unfold; unfold magnitude; by rewrite Hlive |].
      intros q Hq. by apply heap_upd_ne.
  - rewrite decide_True by done.
    assert (Hla : bi_length x <= bi_allocated x)
      by (by destruct Hwf as (_ & ? & _)).
    assert (Hrun : wp (let* dest := (let* p0 := bigint_dup p in ret (Some p0)) in
                       match dest with
                       | Some d => set_negative d false ;; ret (Some d)
                       | None => ret None
                       end)
              (fun r s' => r = Some (st_next s) /\
                 s' = with_new (with_negative false (dup_of x)) s) s).
    { apply wp_bind. apply wp_bind. eapply wp_mono.
      { by apply (bigint_dup_spec p x s). }
      intros q s' (-> & ->). apply wp_ret. apply wp_bind.
      eapply wp_set_negative; [apply heap_with_new_eq |].
      rewrite upd_with_new. by apply wp_ret. }
    destruct (wp_done _ _ _ Hrun) as (r & s' & Hrun' & -> & ->).
    pose proof (dup_of_wf x Hwf) as Hwd.
    exists (st_next s), (with_negative false (dup_of x)),
      (with_new (with_negative false (dup_of x)) s).
    split; [exact Hrun' |]. split; [reflexivity |].
    split; [apply heap_with_new_eq |].
    split; [by eapply wf_bigint_positive |].
    split.
    { rewrite value_unfold. simpl bi_negative. cbv iota.
      unfold magnitude.
      change (live_digits (with_negative false (dup_of x)))
        with (live_digits (dup_of x)).
      by rewrite live_digits_dup_of. }
    intros q Hq. by apply heap_with_new_ne.
Qed.

(** The absolute value of -3 in a new structure. *)
Lemma bigint_abs_value_witness :
  let s := sample_state (sample [3%Z] true) in
  let dest := None in
  let p := 0 in
  let x := sample [3%Z] true in
  exists r x' s',
    bigint_abs dest p s = Done (Some r, s')
    /\ r = default (st_next s) dest
    /\ st_heap s' !! r = Some x'
    /\ wf_bigint x' /\ value x' = Z.abs (value x)
    /\ (forall q, q <> r -> st_heap s' !! q = st_heap s !! q).
Proof.
  intros s dest p x.
  apply (bigint_abs_value s dest p x).
  - reflexivity.
  - apply (@bool_decide_unpack _ (wf_bigint_dec _)). vm_compute. exact I.
  - exact I.
  - apply (@bool_decide_unpack _ (heap_ok_dec _)). vm_compute. exact I.
Defined.

(** ** Shifts by a big integer *)

(** X13.  [bigint_shl(dest, x, n)] and [bigint_shr(dest, x, n)] with a shift
    count [n] that satisfies the representation invariants: a negative
    count gives [NULL] with [errno = EDOM], a count above [UINTMAX_MAX]
    gives [NULL] with [errno = ERANGE], and any other count is handed to
    [bigint_shli] or [bigint_shri] after [errno] has been cleared. *)
Theorem bigint_shl_shr_count s dest x n vn :
  st_heap s !! n = Some vn -> wf_bigint vn ->
  bigint_shl dest x n s
  = (if decide (value vn < 0)%Z then Done (None, with_errno EDOM s)
     else if decide (value vn <= UINTMAX_MAX)%Z
          then bigint_shli dest x (Z.to_nat (value vn)) (with_errno ENONE s)
          else Done (None, with_errno ERANGE s))
  /\ bigint_shr dest x n s
     = (if decide (value vn < 0)%Z then Done (None, with_errno EDOM s)
        else if decide (value vn <= UINTMAX_MAX)%Z
             then bigint_shri dest x (Z.to_nat (value vn))
                    (with_errno ENONE s)
             else Done (None, with_errno ERANGE s)).
Proof.
  intros Hn Hwf.
  pose proof (wf_magnitude_nonneg vn Hwf) as Hnn.
  assert (Hn' : st_heap (with_errno ENONE s) !! n = Some vn) by exact Hn.
  pose proof (bigint_toui_run _ n vn Hn' Hwf) as Htoui.
  unfold bigint_shl, bigint_shr, bigint_ltz.
  rewrite !(bind_eq _ _ s _ s (get_negative_eq n vn s Hn)).
  rewrite value_unfold.
  destruct (bi_negative vn) eqn:En.
  - pose proof (wf_negative_magnitude vn Hwf En).
    rewrite !decide_True by lia. done.
  - rewrite !(decide_False (P := (magnitude vn < 0)%Z)) by lia.
    rewrite !(bind_eq _ _ s tt (with_errno ENONE s)) by reflexivity.
    destruct (decide (magnitude vn <= UINTMAX_MAX)%Z) as [Hle|Hgt].
    + rewrite !(bind_eq _ _ _ _ _ Htoui).
      rewrite !(bind_eq _ _ (with_errno ENONE s) ENONE (with_errno ENONE s))
        by reflexivity.
      rewrite !decide_True by done. done.
    + rewrite !(bind_eq _ _ _ _ _ Htoui).
      rewrite !(bind_eq _ _ (with_errno ERANGE (with_errno ENONE s)) ERANGE
                  (with_errno ERANGE (with_errno ENONE s))) by reflexivity.
      rewrite !decide_False by done. done.
Qed.

(** 9 shifted by itself. *)
Lemma bigint_shl_shr_count_witness :
  let s := sample_state (sample [9%Z] false) in
  let dest := None in
  let x := 0 in
  let n := 0 in
  let vn := sample [9%Z] false in
  bigint_shl dest x n s
  = (if decide (value vn < 0)%Z then Done (None, with_errno EDOM s)
     else if decide (value vn <= UINTMAX_MAX)%Z
          then bigint_shli dest x (Z.to_nat (value vn)) (with_errno ENONE s)
          else Done (None, with_errno ERANGE s))
  /\ bigint_shr dest x n s
     = (if decide (value vn < 0)%Z then Done (None, with_errno EDOM s)
        else if decide (value vn <= UINTMAX_MAX)%Z
             then bigint_shri dest x (Z.to_nat (value vn))
                    (with_errno ENONE s)
             else Done (None, with_errno ERANGE s)).
Proof.
  intros s dest x n vn.
  apply (bigint_shl_shr_count s dest x n vn).
  - reflexivity.
  - apply (@bool_decide_unpack _ (wf_bigint_dec _)). vm_compute. exact I.
Defined.

(** ** Modulus *)

Lemma bind_never_returns {A B} (m : M A) (k : A -> M B) s :
  (forall a s', m s = Done (a, s') ->
                k a s' = Undefined \/ k a s' = OutOfFuel) ->
  bind m k s = Undefined \/ bind m k s = OutOfFuel.
Proof.
  intros H. unfold bind. destruct (m s) as [[a s']| |]; [by apply H | |]; auto.
Qed.

(** X14.  [bigint_mod] never returns normally.  Its local [q] is [NULL] on
    every path, and the final [bigint_free(q)] reads [q->digits]; a call
    that gets that far has undefined behaviour, whatever the arguments
    are. *)
Theorem bigint_mod_never_returns r n d s :
  bigint_mod r n d s = Undefined \/ bigint_mod r n d s = OutOfFuel.
Proof.
  unfold bigint_mod. cbv zeta.
  apply bind_never_returns. intros [r0 free_r] s1 _.
  apply bind_never_returns. intros [quotient r'] s2 _.
  apply bind_never_returns. intros r1 s3 _.
  left. reflexivity.
Qed.

(** ** Allocation and release in the store *)

Lemma heap_without_eq p s : st_heap (without p s) !! p = None.
Proof. unfold without, set_heap; simpl. apply lookup_delete_eq. Qed.

Lemma heap_without_ne p q s :
  p <> q -> st_heap (without p s) !! q = st_heap s !! q.
Proof. intros H. unfold without, set_heap; simpl. by apply lookup_delete_ne. Qed.

Lemma wp_free p x (Q : unit -> state -> Prop) s :
  st_heap s !! p = Some x -> bi_off x = 0 -> Q tt (without p s) ->
  wp (bigint_free p) Q s.
Proof.
  intros Hp Hoff HQ. unfold wp, bigint_free. rewrite Hp, Hoff. exact HQ.
Qed.

Lemma heap_ok_lt s p x : heap_ok s -> st_heap s !! p = Some x -> p < st_next s.
Proof. intros H E. by apply (H p x). Qed.

Lemma heap_ok_none s p : heap_ok s -> st_next s <= p -> st_heap s !! p = None.
Proof.
  intros H Hp. destruct (st_heap s !! p) as [x|] eqn:E; [| done].
  apply (heap_ok_lt s p x H) in E. lia.
Qed.

Lemma heap_ok_without s p : heap_ok s -> heap_ok (without p s).
Proof.
  intros H. unfold heap_ok, without, set_heap; simpl.
  intros q y E. apply lookup_delete_Some in E as [_ E]. by apply (H q y).
Qed.

Lemma st_next_upd p x s : st_next (upd p x s) = st_next s.
Proof. reflexivity. Qed.
Lemma st_next_with_new x s : st_next (with_new x s) = S (st_next s).
Proof. reflexivity. Qed.
Lemma st_next_without p s : st_next (without p s) = st_next s.
Proof. reflexivity. Qed.
Lemma st_next_with_errno e s : st_next (with_errno e s) = st_next s.
Proof. reflexivity. Qed.
Lemma st_heap_with_errno e s : st_heap (with_errno e s) = st_heap s.
Proof. reflexivity. Qed.

Lemma heap_with_new_at x s p :
  p = st_next s -> st_heap (with_new x s) !! p = Some x.
Proof. intros ->. apply heap_with_new_eq. Qed.

(** Lookups in a state built from updates, allocations and releases at
    addresses that are pairwise related by arithmetic facts. *)
Ltac heap_lookup :=
  repeat first
    [ rewrite st_heap_with_errno
    | rewrite heap_upd_eq
    | rewrite heap_with_new_eq
    | rewrite heap_with_new_at by (rewrite ?st_next_upd, ?st_next_with_new,
                                     ?st_next_without, ?st_next_with_errno; lia)
    | rewrite heap_without_eq
    | rewrite heap_upd_ne by (rewrite ?st_next_upd, ?st_next_with_new,
                                ?st_next_without, ?st_next_with_errno; lia)
    | rewrite heap_with_new_ne by (rewrite ?st_next_upd, ?st_next_with_new,
                                     ?st_next_without, ?st_next_with_errno; lia)
    | rewrite heap_without_ne by (rewrite ?st_next_upd, ?st_next_with_new,
                                    ?st_next_without, ?st_next_with_errno; lia)
    | rewrite st_next_upd | rewrite st_next_with_new
    | rewrite st_next_without | rewrite st_next_with_errno ].

(** [bigint_movui] of a value below 256 needs one digit. *)
Lemma bigint_movui_digit p x u s :
  st_heap s !! p = Some x -> wf_buffer x -> (0 <= u < 256)%Z ->
  wp (bigint_movui p u)
     (fun _ s' =>
        exists x', s' = upd p x' s /\ wf_bigint x' /\ value x' = u
                   /\ bi_negative x' = false
                   /\ bi_length x' = (if decide (u = 0%Z) then 0 else 1)
                   /\ bi_off x' = 0
                   /\ bi_allocated x' = bi_allocated x) s.
Proof.
  intros Hp (Hoff & Hlen & Hone) Hu.
  destruct x as [b o a l ng]. simpl in *. subst o.
  unfold bigint_movui. apply wp_bind.
  eapply wp_set_negative; [exact Hp |].
  destruct (decide (u = 0%Z)) as [->|Hnz].
  - eapply wp_set_length; [apply heap_upd_eq |]. rewrite upd_upd.
    eexists. split; [reflexivity |].
    destruct (stored_magnitude_wf b a [] false Hlen Hone ltac:(simpl; lia)
                ltac:(constructor) ltac:(done) ltac:(done)) as [Hwf Hmag].
    simpl in Hwf, Hmag. rewrite drop_0 in Hwf, Hmag.
    split; [exact Hwf |]. split; [| done].
    rewrite value_unfold. simpl bi_negative. cbv iota. exact Hmag.
  - destruct (decide (UINTMAX_BITS <= DIGIT_BITS)%Z) as [Hbad|_];
      [vm_compute in Hbad; done |].
    apply wp_bind. unfold mov_magnitude.
    eapply (wp_mov_magnitude_loop _ p b a l false 0 u 1);
      [apply heap_upd_eq | simpl; lia | unfold DIGITS_FOR_INTMAX; lia
      | simpl; lia |].
    intros ds Hr Hv Hlast Hdl. rewrite upd_upd. simpl.
    eapply wp_set_length; [apply heap_upd_eq |]. rewrite upd_upd.
    eexists. split; [reflexivity |].
    destruct (stored_magnitude_wf b a ds false Hlen Hone ltac:(lia)
                Hr Hlast ltac:(done)) as [Hwf Hmag].
    split; [exact Hwf |]. split_and!; try done.
    + rewrite value_unfold. simpl bi_negative. cbv iota. by rewrite Hmag.
    + simpl. destruct ds as [|d0 [|d1 ds]]; simpl in *; [lia | done | lia].
Qed.

Lemma wf_bigint_buffer x : wf_bigint x -> wf_buffer x.
Proof. by intros [H _]. Qed.

(** [dest->negative = false] on a value that is not negative. *)
Lemma with_negative_same x :
  bi_negative x = false -> with_negative false x = x.
Proof. destruct x as [b o a l ng]. simpl. by intros ->. Qed.

Lemma wp_eqz p x (Q : bool -> state -> Prop) s :
  st_heap s !! p = Some x -> Q (bool_decide (bi_length x = 0)) s ->
  wp (bigint_eqz p) Q s.
Proof.
  intros Hp HQ. unfold bigint_eqz. apply wp_bind. destruct x.
  eapply wp_get_length; [exact Hp |]. by apply wp_ret.
Qed.

Lemma wp_nez p x (Q : bool -> state -> Prop) s :
  st_heap s !! p = Some x -> Q (bool_decide (bi_length x <> 0)) s ->
  wp (bigint_nez p) Q s.
Proof.
  intros Hp HQ. unfold bigint_nez. apply wp_bind. destruct x.
  eapply wp_get_length; [exact Hp |]. by apply wp_ret.
Qed.

Lemma wp_ltz p x (Q : bool -> state -> Prop) s :
  st_heap s !! p = Some x -> Q (bi_negative x) s -> wp (bigint_ltz p) Q s.
Proof.
  intros Hp HQ. unfold bigint_ltz. destruct x.
  eapply wp_get_negative; [exact Hp |]. exact HQ.
Qed.

Lemma wp_set_negative' p x ng (Q : unit -> state -> Prop) s :
  st_heap s !! p = Some x -> Q tt (upd p (with_negative ng x) s) ->
  wp (set_negative p ng) Q s.
Proof. intros Hp HQ. destruct x. eapply wp_set_negative; [exact Hp | exact HQ]. Qed.

Lemma wp_set_length' p x n (Q : unit -> state -> Prop) s :
  st_heap s !! p = Some x -> Q tt (upd p (with_length n x) s) ->
  wp (set_length p n) Q s.
Proof. intros Hp HQ. destruct x. eapply wp_set_length; [exact Hp | exact HQ]. Qed.

Lemma wp_get_length' p x (Q : nat -> state -> Prop) s :
  st_heap s !! p = Some x -> Q (bi_length x) s -> wp (get_length p) Q s.
Proof. intros Hp HQ. destruct x. eapply wp_get_length; [exact Hp | exact HQ]. Qed.

Lemma wp_get_negative' p x (Q : bool -> state -> Prop) s :
  st_heap s !! p = Some x -> Q (bi_negative x) s -> wp (get_negative p) Q s.
Proof. intros Hp HQ. destruct x. eapply wp_get_negative; [exact Hp | exact HQ]. Qed.

Lemma wf_value_sign x :
  wf_bigint x ->
  (bi_negative x = true <-> value x < 0)%Z
  /\ (bi_length x = 0 <-> value x = 0%Z).
Proof.
  intros Hwf. pose proof (wf_magnitude_nonneg x Hwf) as Hnn.
  pose proof (wf_length_zero x Hwf) as Hz.
  pose proof (wf_negative_magnitude x Hwf) as Hneg.
  rewrite value_unfold. destruct (bi_negative x).
  - specialize (Hneg eq_refl). split; [split; [lia | done] |].
    rewrite Hz. lia.
  - split; [split; [done | lia] |]. rewrite Hz. lia.
Qed.

(** ** Exponentiation: the cases decided before the loop *)

Lemma bigint_pow_negative_exponent s dest base exp xb xe :
  st_heap s !! base = Some xb -> st_heap s !! exp = Some xe ->
  wf_bigint xe -> (value xe < 0)%Z ->
  bigint_pow dest base exp s = Done (None, with_errno EDOM s).
Proof.
  intros Hb He Hwe Hneg.
  destruct (wf_value_sign xe Hwe) as [Hs Hz].
  assert (Hn : bi_negative xe = true) by (by apply Hs).
  assert (Hl : bi_length xe <> 0) by (rewrite Hz; lia).
  pose proof (wf_in_bounds xe Hwe) as Hin.
  assert (Hwp : wp (bigint_pow dest base exp)
                  (fun r s' => r = None /\ s' = with_errno EDOM s) s).
  { unfold bigint_pow. apply wp_bind. eapply wp_nez; [exact He |].
    rewrite bool_decide_eq_true_2 by done.
    apply wp_bind.
    assert (Hsign : forall Q : bool -> state -> Prop,
               (forall ng, Q ng s) ->
               wp (let* nb := bigint_ltz base in
                   if nb then
                     let* e0 := rd exp 0 in
                     ret (bool_decide (Z.land e0 1 <> 0%Z))
                   else ret false) Q s).
    { intros Q HQ. apply wp_bind. eapply wp_ltz; [exact Hb |].
      destruct (bi_negative xb); [| by apply wp_ret].
      destruct xe as [be oe ae le nge]. simpl in *.
      destruct (lookup_lt_is_Some_2 be (oe + 0) ltac:(lia)) as [e0 He0].
      apply wp_bind. eapply wp_rd; [exact He | exact He0 |].
      by apply wp_ret. }
    apply Hsign. intros ng.
    apply wp_bind. eapply wp_ltz; [exact He |]. rewrite Hn.
    apply wp_bind. apply wp_set_errno. by apply wp_ret. }
  destruct (wp_done _ _ _ Hwp) as (r & s' & Hrun & -> & ->). exact Hrun.
Qed.

Lemma bigint_pow_zero_spec s dest base exp xb xe :
  st_heap s !! base = Some xb -> st_heap s !! exp = Some xe ->
  wf_bigint xb -> wf_bigint xe -> dest_ok s dest -> heap_ok s ->
  (0 <= value xe)%Z -> value xe = 0%Z \/ value xb = 0%Z ->
  wp (bigint_pow dest base exp)
     (fun r s' =>
        r = Some (default (S (S (st_next s))) dest) /\
        exists x',
          st_heap s' !! default (S (S (st_next s))) dest = Some x'
          /\ wf_bigint x' /\ value x' = (value xb ^ value xe)%Z
          /\ (forall q, q <> default (S (S (st_next s))) dest ->
                        st_heap s' !! q = st_heap s !! q)) s.
Proof.
  intros Hb He Hwb Hwe Hdest Hok Hnn Hzero.
  destruct (wf_value_sign xe Hwe) as [Hse Hze].
  destruct (wf_value_sign xb Hwb) as [Hsb Hzb].
  assert (Hne : bi_negative xe = false).
  { destruct (bi_negative xe); [| done]. assert (value xe < 0)%Z by (by apply Hse). lia. }
  pose proof (heap_ok_lt _ _ _ Hok Hb) as Hltb.
  pose proof (heap_ok_lt _ _ _ Hok He) as Hlte.
  pose proof (wf_in_bounds xe Hwe) as Hine.
  pose proof (wf_in_bounds xb Hwb) as Hinb.
  assert (Hlae : bi_length xe <= bi_allocated xe) by (by destruct Hwe as (_ & ? & _)).
  assert (Hlab : bi_length xb <= bi_allocated xb) by (by destruct Hwb as (_ & ? & _)).
  set (u := (value xb ^ value xe)%Z).
  assert (Hu : u = if decide (bi_length xe = 0) then 1%Z else 0%Z).
  { unfold u. destruct (decide (bi_length xe = 0)) as [Hl|Hl].
    - apply Hze in Hl. rewrite Hl. apply Z.pow_0_r.
    - assert (value xe <> 0%Z) by (by rewrite <- Hze).
      destruct Hzero as [|Hb0]; [done |]. rewrite Hb0.
      apply Z.pow_0_l. lia. }
  assert (Hbz : bi_length xe <> 0 -> bi_length xb = 0).
  { intros Hl. apply Hzb. destruct Hzero as [Hz|]; [| done].
    apply Hze in Hz. done. }
  clearbody u.
  unfold bigint_pow. apply wp_bind. eapply wp_nez; [exact He |].
  apply wp_bind.
  (* the sign of the result *)
  assert (Hsign : forall Q : bool -> state -> Prop,
             Q false s ->
             wp (if bool_decide (bi_length xe <> 0) then
                   let* nb := bigint_ltz base in
                   if nb then
                     let* e0 := rd exp 0 in
                     ret (bool_decide (Z.land e0 1 <> 0%Z))
                   else ret false
                 else ret false) Q s).
  { intros Q HQ.
    destruct (decide (bi_length xe = 0)) as [Hl|Hl].
    - rewrite bool_decide_eq_false_2 by lia. by apply wp_ret.
    - rewrite bool_decide_eq_true_2 by done.
      apply wp_bind. eapply wp_ltz; [exact Hb |].
      assert (bi_negative xb = false) as ->.
      { destruct (bi_negative xb) eqn:E; [| done].
        pose proof (wf_negative_nonzero xb Hwb E). specialize (Hbz Hl). done. }
      by apply wp_ret. }
  apply Hsign.
  apply wp_bind. eapply wp_ltz; [exact He |]. rewrite Hne.
  (* the duplicates *)
  apply wp_bind. eapply wp_mono; [by apply (bigint_dup_spec exp xe s) |].
  intros pe s1 (-> & ->).
  apply wp_bind. eapply wp_mono.
  { apply (bigint_dup_spec base xb); [heap_lookup; exact Hb | done | done]. }
  intros pb s2 (-> & ->). rewrite st_next_with_new.
  set (s2 := with_new (dup_of xb) (with_new (dup_of xe) s)).
  (* the destination *)
  assert (Hfinish : forall d xd s3,
    st_heap s3 !! d = Some xd -> wf_buffer xd ->
    st_heap s3 !! st_next s = Some (dup_of xe) ->
    st_heap s3 !! S (st_next s) = Some (dup_of xb) ->
    d <> st_next s -> d <> S (st_next s) ->
    (forall q, q <> d -> q <> st_next s -> q <> S (st_next s) ->
               st_heap s3 !! q = st_heap s !! q) ->
    wp (let pow_done : M (option ptr) :=
          set_negative d false ;;
          bigint_free (S (st_next s)) ;;
          bigint_free (st_next s) ;;
          ret (Some d) in
        let* ze := bigint_eqz (st_next s) in
        if ze then bigint_movui d 1 ;; pow_done else
        let* zb := bigint_eqz (S (st_next s)) in
        if zb then bigint_movui d 0 ;; pow_done else
        let* el := get_length (st_next s) in
        loop (S (Z.to_nat DIGIT_BITS * el))
          (fun _ : unit =>
             let* e0 := rd (st_next s) 0 in
             (if decide (Z.land e0 1 <> 0%Z)
              then bigint_mul (Some d) d (S (st_next s)) ;; ret tt
              else ret tt) ;;
             bigint_shri (Some (st_next s)) (st_next s) 1 ;;
             let* ze := bigint_eqz (st_next s) in
             if ze then ret (inr tt)
             else bigint_mul (Some (S (st_next s))) (S (st_next s))
                    (S (st_next s)) ;; ret (inl tt))
          tt ;;
        pow_done)
      (fun r s' =>
         r = Some d /\
         exists x',
           st_heap s' !! d = Some x' /\ wf_bigint x' /\ value x' = u
           /\ (forall q, q <> d -> st_heap s' !! q = st_heap s !! q)) s3).
  { intros d xd s3 Hd Hwd Hpe Hpb Hd1 Hd2 Hframe. cbv zeta.
    assert (Hdone : forall x' s4,
      st_heap s4 !! d = Some x' -> wf_bigint x' -> value x' = u ->
      bi_negative x' = false ->
      st_heap s4 !! st_next s = Some (dup_of xe) ->
      st_heap s4 !! S (st_next s) = Some (dup_of xb) ->
      (forall q, q <> d -> q <> st_next s -> q <> S (st_next s) ->
                 st_heap s4 !! q = st_heap s !! q) ->
      wp (set_negative d false ;;
          bigint_free (S (st_next s)) ;;
          bigint_free (st_next s) ;;
          ret (Some d))
        (fun r s' =>
           r = Some d /\
           exists x',
             st_heap s' !! d = Some x' /\ wf_bigint x' /\ value x' = u
             /\ (forall q, q <> d -> st_heap s' !! q = st_heap s !! q)) s4).
    { intros x' s4 Hx' Hwx Hvx Hnx Hpe4 Hpb4 Hframe4.
      apply wp_bind. eapply wp_set_negative'; [exact Hx' |].
      rewrite with_negative_same by done.
      apply wp_bind. eapply (wp_free _ (dup_of xb)); [| reflexivity |].
      { rewrite heap_upd_ne by done. exact Hpb4. }
      apply wp_bind. eapply (wp_free _ (dup_of xe)); [| reflexivity |].
      { rewrite heap_without_ne by lia. rewrite heap_upd_ne by done.
        exact Hpe4. }
      apply wp_ret. split; [reflexivity |]. exists x'.
      split.
      { rewrite !heap_without_ne by done. apply heap_upd_eq. }
      split; [done |]. split; [done |].
      intros q Hq.
      destruct (decide (q = st_next s)) as [->|Hq1].
      { rewrite heap_without_eq. symmetry. by apply heap_ok_none. }
      rewrite heap_without_ne by done.
      destruct (decide (q = S (st_next s))) as [->|Hq2].
      { rewrite heap_without_eq. symmetry. apply heap_ok_none; [done | lia]. }
      rewrite heap_without_ne by done.
      rewrite heap_upd_ne by done. by apply Hframe4. }
    apply wp_bind. eapply wp_eqz; [exact Hpe |].
    change (bi_length (dup_of xe)) with (bi_length xe).
    destruct (decide (bi_length xe = 0)) as [Hl|Hl].
    - rewrite bool_decide_eq_true_2 by done.
      apply wp_bind. eapply wp_mono.
      { apply (bigint_movui_digit d xd 1); [done | done | lia]. }
      intros [] s4 (x' & -> & Hwx & Hvx & Hnx & _).
      apply (Hdone x'); try done.
      + apply heap_upd_eq.
      + congruence.
      + by rewrite heap_upd_ne.
      + by rewrite heap_upd_ne.
      + intros q Hq Hq1 Hq2. rewrite heap_upd_ne by done. by apply Hframe.
    - rewrite bool_decide_eq_false_2 by done.
      apply wp_bind. eapply wp_eqz; [exact Hpb |].
      change (bi_length (dup_of xb)) with (bi_length xb).
      rewrite bool_decide_eq_true_2 by (by apply Hbz).
      apply wp_bind. eapply wp_mono.
      { apply (bigint_movui_digit d xd 0); [done | done | lia]. }
      intros [] s4 (x' & -> & Hwx & Hvx & Hnx & _).
      apply (Hdone x'); try done.
      + apply heap_upd_eq.
      + congruence.
      + by rewrite heap_upd_ne.
      + by rewrite heap_upd_ne.
      + intros q Hq Hq1 Hq2. rewrite heap_upd_ne by done. by apply Hframe. }
  destruct dest as [d|]; simpl default.
  - destruct Hdest as (xd & Hd & Hwd).
    pose proof (heap_ok_lt _ _ _ Hok Hd) as Hltd.
    apply wp_bind. apply wp_bind. eapply wp_mono.
    { apply (bigint_movui_digit d xd 1);
        [unfold s2; heap_lookup; exact Hd | done | lia]. }
    intros [] s3 (x1 & -> & Hw1 & Hv1 & _). apply wp_ret.
    eapply wp_mono.
    { apply (Hfinish d x1); try lia.
      - apply heap_upd_eq.
      - by apply wf_bigint_buffer.
      - unfold s2. by heap_lookup.
      - unfold s2. by heap_lookup.
      - intros q Hq Hq1 Hq2. unfold s2. by heap_lookup. }
    intros r s' H. exact H.
  - apply wp_bind. eapply wp_mono.
    { apply (bigint_from_int_spec 1). unfold INTMAX_MIN, INTMAX_MAX. lia. }
    intros d s3 (-> & x1 & -> & Hw1 & Hv1 & _).
    unfold s2. rewrite !st_next_with_new. fold s2.
    eapply wp_mono.
    { apply (Hfinish (S (S (st_next s))) x1); try lia.
      - unfold s2. by heap_lookup.
      - by apply wf_bigint_buffer.
      - unfold s2. by heap_lookup.
      - unfold s2. by heap_lookup.
      - intros q Hq Hq1 Hq2. unfold s2. by heap_lookup. }
    intros r s' H. exact H.
Qed.

(** X15.  [bigint_pow(dest, base, exp)] at its edges.  A negative exponent
    gives [NULL] with [errno = EDOM] and changes nothing else.  An
    exponent of zero gives 1, also for a base of zero, and a base of zero
    with a positive exponent gives 0: the result is [dest], or a new
    structure when [dest] is [NULL], it satisfies the representation
    invariants, and the structures that existed before the call, [dest]
    apart, are unchanged. *)
Theorem bigint_pow_edge s dest base exp xb xe :
  st_heap s !! base = Some xb -> st_heap s !! exp = Some xe ->
  wf_bigint xb -> wf_bigint xe -> dest_ok s dest -> heap_ok s ->
  ((value xe < 0)%Z ->
   bigint_pow dest base exp s = Done (None, with_errno EDOM s))
  /\ ((0 <= value xe)%Z -> value xe = 0%Z \/ value xb = 0%Z ->
      exists r x' s',
        bigint_pow dest base exp s = Done (Some r, s')
        /\ r = default (S (S (st_next s))) dest
        /\ st_heap s' !! r = Some x'
        /\ wf_bigint x' /\ value x' = (value xb ^ value xe)%Z
        /\ (forall q, q <> r -> st_heap s' !! q = st_heap s !! q)).
Proof.
  intros Hb He Hwb Hwe Hdest Hok. split.
  - intros Hneg. by eapply bigint_pow_negative_exponent.
  - intros Hnn Hzero.
    destruct (wp_done _ _ _
                (bigint_pow_zero_spec s dest base exp xb xe Hb He Hwb Hwe
                   Hdest Hok Hnn Hzero))
      as (r & s' & Hrun & -> & x' & Hx' & Hwx & Hvx & Hframe).
    exists (default (S (S (st_next s))) dest), x', s'. done.
Qed.

(** 2 to the power 0. *)
Lemma bigint_pow_edge_witness :
  let s := sample_pair (sample [2%Z] false) (sample [] false) in
  let dest := None in
  let base := 0 in
  let exp := 1 in
  let xb := sample [2%Z] false in
  let xe := sample [] false in
  ((value xe < 0)%Z ->
   bigint_pow dest base exp s = Done (None, with_errno EDOM s))
  /\ ((0 <= value xe)%Z -> value xe = 0%Z \/ value xb = 0%Z ->
      exists r x' s',
        bigint_pow dest base exp s = Done (Some r, s')
        /\ r = default (S (S (st_next s))) dest
        /\ st_heap s' !! r = Some x'
        /\ wf_bigint x' /\ value x' = (value xb ^ value xe)%Z
        /\ (forall q, q <> r -> st_heap s' !! q = st_heap s !! q)).
Proof.
  intros s dest base exp xb xe.
  apply (bigint_pow_edge s dest base exp xb xe).
  - reflexivity.
  - reflexivity.
  - apply (@bool_decide_unpack _ (wf_bigint_dec _)). vm_compute. exact I.
  - apply (@bool_decide_unpack _ (wf_bigint_dec _)). vm_compute. exact I.
  - exact I.
  - apply (@bool_decide_unpack _ (heap_ok_dec _)). vm_compute. exact I.
Defined.

(** ** Multiplication by zero *)

Lemma wf_zero_length (b : list Z) (a : nat) :
  length b = a -> 1 <= a ->
  wf_bigint (mk_bigint b 0 a 0 false)
  /\ value (mk_bigint b 0 a 0 false) = 0%Z.
Proof.
  intros Hb Ha. split.
  - apply wf_bigint_unfold. rewrite take_0. split_and!; try done. lia.
  - rewrite value_unfold, magnitude_unfold, take_0. reflexivity.
Qed.

Lemma from_int_zero_spec s :
  wp (bigint_from_int 0)
     (fun p s' =>
        p = st_next s /\
        exists x, s' = with_new x s /\ wf_bigint x /\ value x = 0%Z
                  /\ bi_length x = 0 /\ bi_negative x = false) s.
Proof.
  eapply wp_mono.
  { apply (bigint_from_int_spec 0). unfold INTMAX_MIN, INTMAX_MAX. lia. }
  intros p s' (-> & x & -> & Hwf & Hval & _). split; [done |].
  exists x. destruct (wf_value_sign x Hwf) as [Hs Hz].
  assert (Hl : bi_length x = 0) by (by apply Hz).
  split_and!; try done. by destruct Hwf as (_ & _ & _ & _ & HN2); apply HN2.
Qed.

(** X16.  [bigint_mul(dest, a, b)] with a factor that is zero gives zero.  The
    result is [dest] when [dest] is neither [NULL] nor one of the
    operands, and a new structure otherwise: with [dest == a] or
    [dest == b] the product is not written to [dest], which is left as it
    was. *)
Theorem bigint_mul_zero s dest a b xa xb :
  st_heap s !! a = Some xa -> st_heap s !! b = Some xb ->
  wf_bigint xa -> wf_bigint xb -> dest_ok s dest -> heap_ok s ->
  value xa = 0%Z \/ value xb = 0%Z ->
  exists r x' s',
    bigint_mul dest a b s = Done (Some r, s')
    /\ r = match dest with
           | Some d => if decide (d = a \/ d = b) then st_next s else d
           | None => st_next s
           end
    /\ st_heap s' !! r = Some x'
    /\ wf_bigint x' /\ value x' = 0%Z
    /\ (forall q, q <> r -> st_heap s' !! q = st_heap s !! q).
Proof.
  intros Ha Hb Hwa Hwb Hdest Hok Hzero.
  destruct (wf_value_sign xa Hwa) as [_ Hza].
  destruct (wf_value_sign xb Hwb) as [_ Hzb].
  assert (Hz : bool_decide (bi_length xa = 0) || bool_decide (bi_length xb = 0)
               = true).
  { destruct Hzero as [H|H].
    - rewrite bool_decide_eq_true_2 by (by apply Hza). reflexivity.
    - rewrite (bool_decide_eq_true_2 (bi_length xb = 0)) by (by apply Hzb).
      apply orb_true_r. }
  pose proof (heap_ok_lt _ _ _ Hok Ha) as Hlta.
  pose proof (heap_ok_lt _ _ _ Hok Hb) as Hltb.
  (* the steps after the accumulator [w] has been chosen *)
  assert (Hrest : forall w xw s1 (K : M (option ptr)),
    st_heap s1 !! w = Some xw ->
    st_heap s1 !! a = Some xa -> st_heap s1 !! b = Some xb ->
    wp (let* za := bigint_eqz a in
        let* zb := bigint_eqz b in
        if za || zb then
          set_length w 0 ;; set_negative w false ;; ret (Some w)
        else K)
      (fun r s' => r = Some w /\
         s' = upd w (with_negative false (with_length 0 xw)) s1) s1).
  { intros w xw s1 K Hw Ha1 Hb1.
    apply wp_bind. eapply wp_eqz; [exact Ha1 |].
    apply wp_bind. eapply wp_eqz; [exact Hb1 |]. rewrite Hz.
    apply wp_bind. eapply wp_set_length'; [exact Hw |].
    apply wp_bind. eapply wp_set_negative'; [apply heap_upd_eq |].
    rewrite upd_upd. by apply wp_ret. }
  assert (Hzero_wf : forall xw, wf_buffer xw ->
            wf_bigint (with_negative false (with_length 0 xw))
            /\ value (with_negative false (with_length 0 xw)) = 0%Z).
  { intros [bw ow aw lw nw] (Hoff & Hlen & Hone). simpl in *. subst ow.
    by apply wf_zero_length. }
  destruct dest as [d|].
  - destruct Hdest as (xd & Hd & Hwd).
    pose proof (heap_ok_lt _ _ _ Hok Hd) as Hltd.
    destruct (decide (d = a \/ d = b)) as [Halias|Hdist].
    + (* the product is accumulated in a duplicate *)
      assert (Hwxd : wf_bigint xd).
      { destruct Halias as [->| ->]; congruence. }
      assert (Hwp : wp (bigint_mul (Some d) a b)
                (fun r s' => r = Some (st_next s) /\
                   s' = upd (st_next s)
                          (with_negative false (with_length 0 (dup_of xd)))
                          (with_new (dup_of xd) s)) s).
      { unfold bigint_mul. cbv zeta. rewrite decide_True by done.
        apply wp_bind. eapply wp_mono.
        { apply (bigint_dup_spec d xd); [done | by apply wf_in_bounds |].
          by destruct Hwxd as (_ & ? & _). }
        intros w s1 (-> & ->).
        apply Hrest; by heap_lookup. }
      destruct (wp_done _ _ _ Hwp) as (r & s' & Hrun & -> & ->).
      destruct (Hzero_wf (dup_of xd)) as [Hw0 Hv0].
      { by apply wf_bigint_buffer, dup_of_wf. }
      eexists _, _, _. split; [exact Hrun |]. split; [reflexivity |].
      split; [by heap_lookup |]. split; [exact Hw0 |]. split; [exact Hv0 |].
      intros q Hq. by heap_lookup.
    + assert (Hwp : wp (bigint_mul (Some d) a b)
                (fun r s' => r = Some d /\
                   s' = upd d (with_negative false (with_length 0 xd)) s) s).
      { unfold bigint_mul. cbv zeta. rewrite decide_False by done.
        apply wp_bind. apply wp_ret. by apply Hrest. }
      destruct (wp_done _ _ _ Hwp) as (r & s' & Hrun & -> & ->).
      destruct (Hzero_wf xd Hwd) as [Hw0 Hv0].
      eexists _, _, _. split; [exact Hrun |]. split; [reflexivity |].
      split; [by heap_lookup |]. split; [exact Hw0 |]. split; [exact Hv0 |].
      intros q Hq. by heap_lookup.
  - assert (Hwp : wp (bigint_mul None a b)
              (fun r s' => r = Some (st_next s) /\
                 exists x, wf_bigint x /\
                 s' = upd (st_next s)
                        (with_negative false (with_length 0 x))
                        (with_new x s)) s).
    { unfold bigint_mul. cbv zeta.
      apply wp_bind. eapply wp_mono; [apply from_int_zero_spec |].
      intros w s1 (-> & x & -> & Hwx & _).
      eapply wp_mono; [apply (Hrest _ x); by heap_lookup |].
      intros r s' (-> & ->). split; [done |]. by exists x. }
    destruct (wp_done _ _ _ Hwp) as (r & s' & Hrun & -> & x & Hwx & ->).
    destruct (Hzero_wf x (wf_bigint_buffer x Hwx)) as [Hw0 Hv0].
    eexists _, _, _. split; [exact Hrun |]. split; [reflexivity |].
    split; [by heap_lookup |]. split; [exact Hw0 |]. split; [exact Hv0 |].
    intros q Hq. by heap_lookup.
Qed.

(** 2 times 0, stored over the first factor. *)
Lemma bigint_mul_zero_witness :
  let s := sample_pair (sample [2%Z] false) (sample [] false) in
  let dest := Some 0 in
  let a := 0 in
  let b := 1 in
  let xa := sample [2%Z] false in
  let xb := sample [] false in
  exists r x' s',
    bigint_mul dest a b s = Done (Some r, s')
    /\ r = match dest with
           | Some d => if decide (d = a \/ d = b) then st_next s else d
           | None => st_next s
           end
    /\ st_heap s' !! r = Some x'
    /\ wf_bigint x' /\ value x' = 0%Z
    /\ (forall q, q <> r -> st_heap s' !! q = st_heap s !! q).
Proof.
  intros s dest a b xa xb.
  apply (bigint_mul_zero s dest a b xa xb).
  - reflexivity.
  - reflexivity.
  - apply (@bool_decide_unpack _ (wf_bigint_dec _)). vm_compute. exact I.
  - apply (@bool_decide_unpack _ (wf_bigint_dec _)). vm_compute. exact I.
  - exists (sample [2%Z] false). split; [reflexivity |].
    apply (@bool_decide_unpack _ (wf_buffer_dec _)). vm_compute. exact I.
  - apply (@bool_decide_unpack _ (heap_ok_dec _)). vm_compute. exact I.
  - right. reflexivity.
Defined.

(** ** Division: the divisors 0, 1 and -1 *)

Lemma bigint_div_by_zero s q r n d xd :
  st_heap s !! d = Some xd -> bi_length xd = 0 ->
  bigint_div q r n d s = Done ((None, r), with_errno EDOM s).
Proof.
  intros Hd Hl.
  assert (Hwp : wp (bigint_div q r n d)
                  (fun res s' => res = (None, r) /\ s' = with_errno EDOM s) s).
  { unfold bigint_div. apply wp_bind. eapply wp_eqz; [exact Hd |].
    rewrite bool_decide_eq_true_2 by done.
    apply wp_bind. apply wp_set_errno. by apply wp_ret. }
  destruct (wp_done _ _ _ Hwp) as (res & s' & Hrun & -> & ->). exact Hrun.
Qed.

(** The sign that [set_signs] leaves in the quotient. *)
Lemma wp_set_signs q r n d xq xn xd (Q : option ptr * remainder_arg -> state -> Prop) s :
  st_heap s !! q = Some xq -> st_heap s !! n = Some xn ->
  st_heap s !! d = Some xd -> q <> n -> q <> d ->
  match r with
  | None => True
  | Some None => False
  | Some (Some pr) =>
      pr <> q /\ pr <> n /\ pr <> d /\
      exists xr, st_heap s !! pr = Some xr /\ bi_length xr = 0
                 /\ bi_negative xr = false
  end ->
  Q (Some q, r)
    (upd q (with_negative
              (if bi_negative xn && bi_negative xd then false
               else if bool_decide (bi_negative xn = bi_negative xd)
                    then bi_negative xq
                    else if bool_decide (bi_length xq <> 0) then true
                         else bi_negative xq) xq) s) ->
  wp (set_signs q r n d) Q s.
Proof.
  intros Hq Hn Hd Hqn Hqd Hr HQ. unfold set_signs. cbv zeta.
  apply wp_bind. eapply wp_get_negative'; [exact Hn |].
  apply wp_bind. eapply wp_get_negative'; [exact Hd |].
  apply wp_bind.
  assert (Hsame : upd q (with_negative (bi_negative xq) xq) s = s).
  { destruct xq. simpl. by apply upd_same. }
  assert (Hrnez : forall s1 (Q' : bool -> state -> Prop),
            (forall p, p <> q -> st_heap s1 !! p = st_heap s !! p) ->
            Q' false s1 ->
            wp (match r with
                | None => ret false
                | Some (Some p) => bigint_nez p
                | Some None => undefined
                end) Q' s1).
  { intros s1 Q' Hs1 HQ'. destruct r as [[pr|]|]; [| done | by apply wp_ret].
    destruct Hr as (Hpq & _ & _ & xr & Hxr & Hlr & _).
    eapply wp_nez; [rewrite Hs1 by done; exact Hxr |].
    by rewrite bool_decide_eq_false_2 by lia. }
  assert (Hsetr : forall s1 (Q' : unit -> state -> Prop),
            (forall p, p <> q -> st_heap s1 !! p = st_heap s !! p) ->
            Q' tt s1 ->
            wp (match r with
                | None => ret tt
                | Some _ =>
                    match r with
                    | Some (Some p) => set_negative p false
                    | _ => undefined
                    end
                end) Q' s1).
  { intros s1 Q' Hs1 HQ'. destruct r as [[pr|]|]; [| done | by apply wp_ret].
    destruct Hr as (Hpq & _ & _ & xr & Hxr & Hlr & Hnr).
    assert (Hxr1 : st_heap s1 !! pr = Some xr) by (rewrite Hs1 by done; exact Hxr).
    eapply wp_set_negative'; [exact Hxr1 |].
    rewrite with_negative_same by done. by rewrite upd_same. }
  destruct (bi_negative xn) eqn:Enn, (bi_negative xd) eqn:End;
    simpl andb; simpl andb in HQ; cbv iota; cbv iota in HQ.
  - apply wp_bind. eapply wp_set_negative'; [exact Hq |].
    apply wp_bind. apply Hrnez; [intros p Hp; by rewrite heap_upd_ne |].
    apply wp_ret. apply wp_ret. exact HQ.
  - rewrite (bool_decide_eq_false_2 (true = false)) in HQ by done.
    apply wp_bind. eapply wp_nez; [exact Hq |]. apply wp_bind.
    destruct (bool_decide (bi_length xq <> 0)).
    + eapply wp_set_negative'; [exact Hq |].
      apply wp_bind. apply Hrnez; [intros p Hp; by rewrite heap_upd_ne |].
      apply wp_ret. apply wp_ret. exact HQ.
    + apply wp_ret. rewrite Hsame in HQ.
      apply wp_bind. apply Hrnez; [done |].
      apply wp_ret. apply wp_ret. exact HQ.
  - rewrite (bool_decide_eq_false_2 (false = true)) in HQ by done.
    apply wp_bind. eapply wp_nez; [exact Hq |]. apply wp_bind.
    destruct (bool_decide (bi_length xq <> 0)).
    + eapply wp_set_negative'; [exact Hq |].
      apply Hsetr; [intros p Hp; by rewrite heap_upd_ne |].
      apply wp_ret. exact HQ.
    + apply wp_ret. rewrite Hsame in HQ.
      apply Hsetr; [done |]. apply wp_ret. exact HQ.
  - rewrite (bool_decide_eq_true_2 (false = false)) in HQ by done.
    apply wp_ret. apply wp_ret. rewrite Hsame in HQ. exact HQ.
Qed.

Lemma wf_unit_digits x :
  wf_bigint x -> magnitude x = 1%Z ->
  bi_length x = 1 /\ bi_block x !! 0 = Some 1%Z.
Proof.
  intros Hwf Hm. destruct x as [b o a l ng].
  assert (o = 0) as -> by (destruct Hwf as [[? _] _]; done).
  apply wf_bigint_unfold in Hwf as (Hlen & Hone & Hla & Hrange & Hlast & Hneg).
  rewrite magnitude_unfold in Hm. simpl.
  assert (Hl : l = 1).
  { destruct (decide (l = 0)) as [->|Hnz]; [by rewrite take_0 in Hm |].
    destruct (decide (l = 1)) as [|Hne]; [done | exfalso].
    assert (Hnil : take l b <> []).
    { intros E. apply (f_equal length) in E. rewrite length_take in E.
      simpl in E. lia. }
    pose proof (digits_value_top _ Hrange Hnil Hlast) as Ht.
    rewrite length_take, Nat.min_l in Ht by lia.
    pose proof (pow256_mono 1 (l - 1) ltac:(lia)).
    change (256 ^ Z.of_nat 1)%Z with 256%Z in *. lia. }
  subst l. split; [done |].
  destruct b as [|d0 b']; [simpl in Hlen; lia |].
  simpl in Hm. rewrite digit_base in Hm. simpl. f_equal. lia.
Qed.

Lemma bigint_div_by_unit_spec s n d xn xd (want_r : bool) :
  st_heap s !! n = Some xn -> st_heap s !! d = Some xd ->
  wf_bigint xn -> wf_bigint xd -> heap_ok s -> magnitude xd = 1%Z ->
  wp (bigint_div None (if want_r then Some None else None) n d)
     (fun res s' =>
        res = (Some (st_next s),
               if want_r then Some (Some (S (st_next s))) else None)
        /\ (exists xq, st_heap s' !! st_next s = Some xq /\ wf_bigint xq
                       /\ value xq = (value xn * value xd)%Z)
        /\ (want_r = true ->
            exists xr, st_heap s' !! S (st_next s) = Some xr /\ wf_bigint xr
                       /\ value xr = 0%Z)
        /\ (forall p, p < st_next s -> st_heap s' !! p = st_heap s !! p)) s.
Proof.
  intros Hn Hd Hwn Hwd Hok Hunit.
  destruct (wf_unit_digits xd Hwd Hunit) as [Hdl Hd0].
  pose proof (heap_ok_lt _ _ _ Hok Hn) as Hltn.
  pose proof (heap_ok_lt _ _ _ Hok Hd) as Hltd.
  pose proof (wf_in_bounds xn Hwn) as Hinn.
  unfold bigint_div. apply wp_bind. eapply wp_eqz; [exact Hd |].
  rewrite bool_decide_eq_false_2 by lia.
  apply wp_bind. unfold dest_or_new. apply wp_bind.
  eapply wp_mono; [apply from_int_zero_spec |].
  intros q s1 (-> & x0 & -> & Hw0 & Hv0 & Hl0 & Hn0). apply wp_ret.
  apply wp_bind. eapply wp_get_length'; [heap_lookup; exact Hd |].
  rewrite Hdl. rewrite decide_True by done.
  apply wp_bind. apply wp_bind.
  assert (Hoffd : bi_off xd = 0) by (by destruct Hwd as [[? _] _]).
  destruct xd as [bd od ad ld nd]. simpl in Hoffd, Hd0, Hdl. subst od.
  eapply wp_rd; [heap_lookup; exact Hd | exact Hd0 |]. apply wp_ret.
  rewrite bool_decide_eq_true_2 by done.
  set (xd := mk_bigint bd 0 ad ld nd) in *.
  (* the quotient is a copy of the numerator with the sign set *)
  assert (Hquot : forall s2 r (Q : option ptr * remainder_arg -> state -> Prop),
    st_heap s2 !! st_next s = Some x0 ->
    (forall p, p <> st_next s -> p <> S (st_next s) ->
               st_heap s2 !! p = st_heap s !! p) ->
    match r with
    | None => True
    | Some None => False
    | Some (Some pr) =>
        pr = S (st_next s) /\
        exists xr, st_heap s2 !! pr = Some xr /\ wf_bigint xr
                   /\ value xr = 0%Z /\ bi_length xr = 0
                   /\ bi_negative xr = false
    end ->
    (forall s' xq,
       st_heap s' !! st_next s = Some xq -> wf_bigint xq ->
       value xq = (value xn * value xd)%Z ->
       (forall p, p <> st_next s -> st_heap s' !! p = st_heap s2 !! p) ->
       Q (Some (st_next s), r) s') ->
    wp (bigint_mov (st_next s) n ;; set_signs (st_next s) r n d) Q s2).
  { intros s2 r Q Hq2 Hframe2 Hr HQ.
    assert (Hn2 : st_heap s2 !! n = Some xn) by (rewrite Hframe2 by lia; done).
    assert (Hd2 : st_heap s2 !! d = Some xd) by (rewrite Hframe2 by lia; done).
    apply wp_bind. eapply wp_mono.
    { apply (bigint_mov_spec (st_next s) n x0 xn s2);
        [lia | done | done | by apply wf_bigint_buffer | done]. }
    intros rc s3 (-> & tail & a' & -> & Hlen & Hcap). rewrite Hn0.
    set (xq := mk_bigint (live_digits xn ++ tail) 0 a' (bi_length xn) false).
    eapply (wp_set_signs _ _ _ _ xq xn xd);
      [by heap_lookup | by heap_lookup | by heap_lookup | lia | lia | |].
    { destruct r as [[pr|]|]; [| done | done].
      destruct Hr as (-> & xr & Hxr & _ & _ & Hlr & Hnr).
      split_and!; try lia. exists xr. split; [| done]. by heap_lookup. }
    rewrite upd_upd. eapply HQ.
    - apply heap_upd_eq.
    - assert (Hlive : forall ng, live_digits (mk_bigint (live_digits xn ++ tail)
                                   0 a' (bi_length xn) ng) = live_digits xn).
      { intros ng. unfold live_digits at 1. simpl. rewrite drop_0.
        rewrite take_app_length' by (symmetry; by apply live_digits_length).
        reflexivity. }
      destruct (wf_value_sign xn Hwn) as [Hsn Hzn].
      destruct Hwn as (_ & Hla & Hr' & HN1 & HN2).
      unfold wf_bigint, wf_buffer, N1, N2, xq, with_negative.
      cbn [bi_block bi_off bi_allocated bi_length bi_negative].
      rewrite Hlive.
      destruct Hw0 as ((_ & _ & Hone0) & _).
      split_and!; try done; try lia.
      + rewrite <- Hlen, length_app, live_digits_length by done. lia.
      + intros Hl. rewrite (HN2 Hl). simpl.
        rewrite (bool_decide_eq_false_2 (bi_length xn <> 0)) by lia.
        destruct (bool_decide (false = _)); reflexivity.
    - assert (Hmq : forall ng, magnitude (mk_bigint (live_digits xn ++ tail)
                                 0 a' (bi_length xn) ng) = magnitude xn).
      { intros ng. unfold magnitude, live_digits at 1. simpl. rewrite drop_0.
        rewrite take_app_length' by (symmetry; by apply live_digits_length).
        reflexivity. }
      destruct (wf_value_sign xn Hwn) as [Hsn Hzn].
      pose proof (wf_magnitude_nonneg xn Hwn) as Hnn.
      pose proof (wf_length_zero xn Hwn) as Hzl.
      unfold xq, with_negative.
      cbn [bi_block bi_off bi_allocated bi_length bi_negative].
      rewrite (value_unfold xn), (value_unfold xd), Hunit.
      rewrite value_unfold, Hmq.
      cbn [bi_negative].
      destruct (bi_negative xn) eqn:Enn, (bi_negative xd) eqn:End;
        simpl andb; simpl bool_decide; cbv iota; try lia.
      + assert (bi_length xn <> 0) by (by apply (wf_negative_nonzero xn)).
        rewrite bool_decide_eq_true_2 by done. lia.
      + destruct (decide (bi_length xn = 0)) as [Hl|Hl].
        * rewrite bool_decide_eq_false_2 by lia.
          apply Hzl in Hl. lia.
        * rewrite bool_decide_eq_true_2 by done. lia.
    - intros p Hp. by heap_lookup. }
  destruct want_r.
  - apply wp_bind. unfold zero_remainder. apply wp_bind.
    eapply wp_mono; [apply from_int_zero_spec |].
    intros pr s2 (-> & xr & -> & Hwr & Hvr & Hlr & Hnr). apply wp_ret.
    rewrite st_next_with_new.
    apply Hquot.
    + by heap_lookup.
    + intros p Hp1 Hp2. by heap_lookup.
    + split; [done |]. exists xr. split; [by heap_lookup | done].
    + intros s' xq Hxq Hwq Hvq Hframe. split; [done |].
      split; [by exists xq |]. split.
      * intros _. exists xr. split; [| done].
        rewrite Hframe by lia. by heap_lookup.
      * intros p Hp. rewrite Hframe by lia. by heap_lookup.
  - apply wp_bind. apply wp_ret.
    apply Hquot.
    + by heap_lookup.
    + intros p Hp1 Hp2. by heap_lookup.
    + done.
    + intros s' xq Hxq Hwq Hvq Hframe. split; [done |].
      split; [by exists xq |]. split; [done |].
      intros p Hp. rewrite Hframe by lia. by heap_lookup.
Qed.

(** X17.  [bigint_div(q, r, n, d)] at its edges.  A divisor of zero gives
    [NULL] with [errno = EDOM], for every [q] and [r], and nothing else
    changes.  A divisor of 1 or -1, with [q == NULL] and [r] either [NULL]
    or a pointer to a [NULL] pointer, gives a new quotient [n / d] and,
    when asked for, a new remainder 0; the structures that existed before
    the call are unchanged. *)
Theorem bigint_div_zero_unit s n d xn xd (want_r : bool) :
  st_heap s !! n = Some xn -> st_heap s !! d = Some xd ->
  wf_bigint xn -> wf_bigint xd -> heap_ok s ->
  (value xd = 0%Z ->
   forall q r, bigint_div q r n d s = Done ((None, r), with_errno EDOM s))
  /\ (Z.abs (value xd) = 1%Z ->
      exists s' xq,
        bigint_div None (if want_r then Some None else None) n d s
        = Done ((Some (st_next s),
                 if want_r then Some (Some (S (st_next s))) else None), s')
        /\ st_heap s' !! st_next s = Some xq /\ wf_bigint xq
        /\ value xq = (value xn / value xd)%Z
        /\ (want_r = true ->
            exists xr, st_heap s' !! S (st_next s) = Some xr /\ wf_bigint xr
                       /\ value xr = 0%Z)
        /\ (forall p, p < st_next s -> st_heap s' !! p = st_heap s !! p)).
Proof.
  intros Hn Hd Hwn Hwd Hok. split.
  - intros Hz q r. eapply bigint_div_by_zero; [exact Hd |].
    by apply (wf_value_sign xd Hwd).
  - intros Hone.
    assert (Hunit : magnitude xd = 1%Z).
    { pose proof (wf_magnitude_nonneg xd Hwd). rewrite value_unfold in Hone.
      destruct (bi_negative xd); lia. }
    destruct (wp_done _ _ _
                (bigint_div_by_unit_spec s n d xn xd want_r Hn Hd Hwn Hwd Hok
                   Hunit))
      as (res & s' & Hrun & -> & (xq & Hxq & Hwq & Hvq) & Hr & Hframe).
    exists s', xq. split; [exact Hrun |]. split_and!; try done.
    rewrite Hvq. rewrite (value_unfold xd), Hunit.
    destruct (bi_negative xd).
    + apply (Z.div_unique _ _ _ 0); lia.
    + rewrite Z.div_1_r. lia.
Qed.

(** -7 divided by -1. *)
Lemma bigint_div_zero_unit_witness :
  let s := sample_pair (sample [7%Z] true) (sample [1%Z] true) in
  let n := 0 in
  let d := 1 in
  let xn := sample [7%Z] true in
  let xd := sample [1%Z] true in
  let want_r := true in
  (value xd = 0%Z ->
   forall q r, bigint_div q r n d s = Done ((None, r), with_errno EDOM s))
  /\ (Z.abs (value xd) = 1%Z ->
      exists s' xq,
        bigint_div None (if want_r then Some None else None) n d s
        = Done ((Some (st_next s),
                 if want_r then Some (Some (S (st_next s))) else None), s')
        /\ st_heap s' !! st_next s = Some xq /\ wf_bigint xq
        /\ value xq = (value xn / value xd)%Z
        /\ (want_r = true ->
            exists xr, st_heap s' !! S (st_next s) = Some xr /\ wf_bigint xr
                       /\ value xr = 0%Z)
        /\ (forall p, p < st_next s -> st_heap s' !! p = st_heap s !! p)).
Proof.
  intros s n d xn xd want_r.
  apply (bigint_div_zero_unit s n d xn xd want_r).
  - reflexivity.
  - reflexivity.
  - apply (@bool_decide_unpack _ (wf_bigint_dec _)). vm_compute. exact I.
  - apply (@bool_decide_unpack _ (wf_bigint_dec _)). vm_compute. exact I.
  - apply (@bool_decide_unpack _ (heap_ok_dec _)). vm_compute. exact I.
Defined.

(** ** Comparison *)

Lemma cmp3_Z a b :
  cmp3 Z.ltb a b = Z.sgn (a - b) /\ cmp3 Z.ltb b a = (- cmp3 Z.ltb a b)%Z.
Proof.
  unfold cmp3.
  destruct (Z.ltb_spec b a), (Z.ltb_spec a b); lia.
Qed.

Lemma cmp3_nat a b :
  cmp3 Nat.ltb a b = Z.sgn (Z.of_nat a - Z.of_nat b)
  /\ cmp3 Nat.ltb b a = (- cmp3 Nat.ltb a b)%Z.
Proof.
  unfold cmp3.
  destruct (Nat.ltb_spec b a), (Nat.ltb_spec a b); lia.
Qed.

Lemma magnitude_cmp_loop_spec a b xa xb s index :
  st_heap s !! a = Some xa -> st_heap s !! b = Some xb ->
  bi_off xa + index < length (bi_block xa) ->
  bi_off xb + index < length (bi_block xb) ->
  exists c,
    magnitude_cmp_loop index a b s = Done (c, s)
    /\ magnitude_cmp_loop index b a s = Done ((- c)%Z, s)
    /\ (c = (-1)%Z \/ c = 0%Z \/ c = 1%Z)
    /\ (forall da db,
          bi_block xa !! (bi_off xa + index) = Some da ->
          bi_block xb !! (bi_off xb + index) = Some db ->
          (da = db -> c = 0%Z) /\ (index = 0 -> c = Z.sgn (da - db))).
Proof.
  intros Ha Hb. induction index as [|index IH]; intros Hia Hib.
  - destruct (lookup_lt_is_Some_2 _ _ Hia) as [da Hda].
    destruct (lookup_lt_is_Some_2 _ _ Hib) as [db Hdb].
    destruct (cmp3_Z da db) as [Hs Hanti].
    destruct xa as [ba oa aa la na], xb as [bb ob ab lb nb]. simpl in *.
    exists (cmp3 Z.ltb da db). cbn [magnitude_cmp_loop].
    rewrite !(bind_eq _ _ s da s) by (by eapply rd_eq).
    rewrite !(bind_eq _ _ s db s) by (by eapply rd_eq).
    rewrite !(bind_eq _ _ s da s) by (by eapply rd_eq).
    cbv zeta. rewrite Hanti.
    split; [by destruct (decide _) |].
    split; [by destruct (decide _) |].
    split; [rewrite Hs; lia |].
    intros da' db' Ea Eb. rewrite Hda in Ea. rewrite Hdb in Eb.
    injection Ea as <-. injection Eb as <-. rewrite Hs. split; [| done].
    intros ->. lia.
  - destruct (lookup_lt_is_Some_2 _ _ Hia) as [da Hda].
    destruct (lookup_lt_is_Some_2 _ _ Hib) as [db Hdb].
    destruct (cmp3_Z da db) as [Hs Hanti].
    destruct IH as (c & Hab & Hba & Hc & _); [lia | lia |].
    destruct xa as [ba oa aa la na], xb as [bb ob ab lb nb]. simpl in *.
    cbn [magnitude_cmp_loop].
    rewrite !(bind_eq _ _ s da s) by (by eapply rd_eq).
    rewrite !(bind_eq _ _ s db s) by (by eapply rd_eq).
    rewrite !(bind_eq _ _ s da s) by (by eapply rd_eq).
    cbv zeta. rewrite Hanti.
    destruct (decide (cmp3 Z.ltb da db = 0%Z)) as [Hz|Hnz].
    + exists 0%Z. rewrite Hz. rewrite decide_True by lia.
      split; [done |]. split; [done |]. split; [lia |].
      intros da' db' Ea Eb. split; [done | lia].
    + exists c. rewrite decide_False by lia.
      split; [done |]. split; [done |]. split; [done |].
      intros da' db' Ea Eb. rewrite Hda in Ea. rewrite Hdb in Eb.
      injection Ea as <-. injection Eb as <-. split; [| lia].
      intros ->. rewrite Hs in Hnz. lia.
Qed.

Lemma digits_value_inj l1 :
  forall l2, length l1 = length l2 ->
    Forall digit_range l1 -> Forall digit_range l2 ->
    digits_value l1 = digits_value l2 -> l1 = l2.
Proof.
  induction l1 as [|d1 l1 IH]; intros [|d2 l2] Hlen Hr1 Hr2 Hv;
    simpl in Hlen; try lia; [done |].
  apply Forall_cons in Hr1 as [Hd1 Hr1]. apply Forall_cons in Hr2 as [Hd2 Hr2].
  apply digit_range_bounds in Hd1, Hd2.
  simpl in Hv. rewrite digit_base in Hv.
  assert (d1 = d2 /\ digits_value l1 = digits_value l2) as [-> Hv'] by lia.
  f_equal. apply IH; try done. lia.
Qed.

(** The length of a normalised number is determined by its magnitude. *)
Lemma wf_length_bounds x :
  wf_bigint x -> bi_length x <> 0 ->
  (256 ^ Z.of_nat (bi_length x - 1) <= magnitude x
   < 256 ^ Z.of_nat (bi_length x))%Z.
Proof.
  intros Hwf Hl. pose proof (wf_in_bounds x Hwf) as Hin.
  destruct Hwf as (_ & _ & Hr & HN1 & _).
  pose proof (live_digits_length x Hin) as Hll.
  pose proof (digits_value_bound _ Hr) as Hb. rewrite Hll in Hb.
  assert (Hnil : live_digits x <> []).
  { intros E. rewrite E in Hll. simpl in Hll. lia. }
  pose proof (digits_value_top _ Hr Hnil HN1) as Ht. rewrite Hll in Ht.
  unfold magnitude. lia.
Qed.

Lemma wf_length_lt x y :
  wf_bigint x -> wf_bigint y -> bi_length x < bi_length y ->
  (magnitude x < magnitude y)%Z.
Proof.
  intros Hx Hy Hl.
  pose proof (wf_length_bounds y Hy ltac:(lia)) as [Hly _].
  pose proof (pow256_mono (bi_length x) (bi_length y - 1) ltac:(lia)).
  destruct (decide (bi_length x = 0)) as [Hz|Hnz].
  - apply (wf_length_zero x Hx) in Hz. pose proof (pow256_pos (bi_length y - 1)).
    lia.
  - pose proof (wf_length_bounds x Hx Hnz). lia.
Qed.

Lemma magnitude_cmp_spec s a b xa xb :
  st_heap s !! a = Some xa -> st_heap s !! b = Some xb ->
  wf_bigint xa -> wf_bigint xb ->
  exists c,
    magnitude_cmp a b s = Done (c, s)
    /\ magnitude_cmp b a s = Done ((- c)%Z, s)
    /\ (c = (-1)%Z \/ c = 0%Z \/ c = 1%Z)
    /\ (bi_length xa <> bi_length xb \/ bi_length xa <= 1 ->
        c = Z.sgn (magnitude xa - magnitude xb))
    /\ (magnitude xa = magnitude xb -> c = 0%Z).
Proof.
  intros Ha Hb Hwa Hwb.
  pose proof (wf_in_bounds xa Hwa) as Hina.
  pose proof (wf_in_bounds xb Hwb) as Hinb.
  unfold magnitude_cmp.
  rewrite !(bind_eq _ _ s _ s (get_length_eq a xa s Ha)).
  rewrite !(bind_eq _ _ s _ s (get_length_eq b xb s Hb)).
  rewrite !(bind_eq _ _ s _ s (get_length_eq a xa s Ha)).
  destruct (decide (bi_length xa <> 0 /\ bi_length xa = bi_length xb))
    as [[Hnz Heq]|Hdiff].
  - rewrite decide_True by (split; lia). rewrite <- Heq.
    destruct (magnitude_cmp_loop_spec a b xa xb s (bi_length xa - 1) Ha Hb
                ltac:(lia) ltac:(lia)) as (c & Hab & Hba & Hc & Hdig).
    exists c. split; [exact Hab |]. split; [exact Hba |]. split; [exact Hc |].
    assert (Hoa : bi_off xa = 0) by (by destruct Hwa as [[? _] _]).
    assert (Hob : bi_off xb = 0) by (by destruct Hwb as [[? _] _]).
    destruct (lookup_lt_is_Some_2 (bi_block xa) (bi_off xa + (bi_length xa - 1))
                ltac:(lia)) as [da Hda].
    destruct (lookup_lt_is_Some_2 (bi_block xb) (bi_off xb + (bi_length xa - 1))
                ltac:(lia)) as [db Hdb].
    destruct (Hdig da db Hda Hdb) as [Hsame Hlow].
    split.
    + intros [Hne|Hone]; [lia |].
      assert (Hl1 : bi_length xa = 1) by lia.
      rewrite Hlow by lia. f_equal.
      unfold magnitude, live_digits. rewrite <- Heq, Hl1, Hoa, Hob, !drop_0.
      rewrite Hl1, Hoa in Hda. rewrite Hl1, Hob in Hdb. simpl in Hda, Hdb.
      destruct (bi_block xa) as [|a0 ba]; [done |].
      destruct (bi_block xb) as [|b0 bb]; [done |].
      simpl in Hda, Hdb. injection Hda as ->. injection Hdb as ->.
      simpl. lia.
    + intros Hm. apply Hsame.
      assert (Hlive : live_digits xa = live_digits xb).
      { apply digits_value_inj; try done.
        - rewrite !live_digits_length by done. done.
        - by destruct Hwa as (_ & _ & ? & _).
        - by destruct Hwb as (_ & _ & ? & _). }
      assert (Hla : live_digits xa !! (bi_length xa - 1) = Some da).
      { unfold live_digits. rewrite lookup_take_lt by lia.
        rewrite lookup_drop. exact Hda. }
      assert (Hlb : live_digits xb !! (bi_length xa - 1) = Some db).
      { unfold live_digits. rewrite lookup_take_lt by lia.
        rewrite lookup_drop. exact Hdb. }
      rewrite Hlive in Hla. congruence.
  - rewrite decide_False by lia.
    destruct (cmp3_nat (bi_length xa) (bi_length xb)) as [Hs Hanti].
    exists (cmp3 Nat.ltb (bi_length xa) (bi_length xb)).
    split; [done |]. split; [by rewrite Hanti |].
    split.
    { unfold cmp3.
      destruct (Nat.ltb_spec (bi_length xb) (bi_length xa)),
        (Nat.ltb_spec (bi_length xa) (bi_length xb)); lia. }
    assert (Hcases : bi_length xa < bi_length xb \/ bi_length xb < bi_length xa
                     \/ (bi_length xa = 0 /\ bi_length xb = 0)) by lia.
    rewrite Hs.
    destruct Hcases as [Hlt|[Hgt|[Hza Hzb]]].
    + pose proof (wf_length_lt xa xb Hwa Hwb Hlt).
      split; [intros _; lia | lia].
    + pose proof (wf_length_lt xb xa Hwb Hwa Hgt).
      split; [intros _; lia | lia].
    + pose proof (proj1 (wf_length_zero xa Hwa) Hza).
      pose proof (proj1 (wf_length_zero xb Hwb) Hzb).
      split; [intros _; lia | lia].
Qed.

(** Equal most significant digits end the comparison. *)
Lemma magnitude_cmp_top_equal s a b xa xb d :
  st_heap s !! a = Some xa -> st_heap s !! b = Some xb ->
  wf_bigint xa -> wf_bigint xb ->
  bi_length xa = bi_length xb -> bi_length xa <> 0 ->
  bi_block xa !! (bi_length xa - 1) = Some d ->
  bi_block xb !! (bi_length xb - 1) = Some d ->
  magnitude_cmp a b s = Done (0%Z, s).
Proof.
  intros Ha Hb Hwa Hwb Heq Hnz Hda Hdb.
  pose proof (wf_in_bounds xa Hwa) as Hina.
  pose proof (wf_in_bounds xb Hwb) as Hinb.
  assert (Hoa : bi_off xa = 0) by (by destruct Hwa as [[? _] _]).
  assert (Hob : bi_off xb = 0) by (by destruct Hwb as [[? _] _]).
  unfold magnitude_cmp.
  rewrite (bind_eq _ _ s _ s (get_length_eq a xa s Ha)).
  rewrite (bind_eq _ _ s _ s (get_length_eq b xb s Hb)).
  rewrite decide_True by (split; lia).
  destruct (magnitude_cmp_loop_spec a b xa xb s (bi_length xa - 1) Ha Hb
              ltac:(lia) ltac:(lia)) as (c & Hab & _ & _ & Hdig).
  rewrite Hab. do 2 f_equal.
  apply (Hdig d d); [by rewrite Hoa | by rewrite Hob, Heq | done].
Qed.

(** X18.  [magnitude_cmp(a, b)] returns -1, 0 or 1, changes nothing, and is
    antisymmetric.  It is the sign of [|a| - |b|] when the lengths differ
    or when there is at most one digit, and 0 when the magnitudes are
    equal.  It is also 0 whenever the two most significant digits are
    equal, whatever the digits below are: the loop stops at the first pair
    of equal digits. *)
Theorem magnitude_cmp_partial s a b xa xb :
  st_heap s !! a = Some xa -> st_heap s !! b = Some xb ->
  wf_bigint xa -> wf_bigint xb ->
  exists c,
    magnitude_cmp a b s = Done (c, s)
    /\ magnitude_cmp b a s = Done ((- c)%Z, s)
    /\ (c = (-1)%Z \/ c = 0%Z \/ c = 1%Z)
    /\ (bi_length xa <> bi_length xb \/ bi_length xa <= 1 ->
        c = Z.sgn (magnitude xa - magnitude xb))
    /\ (magnitude xa = magnitude xb -> c = 0%Z)
    /\ (forall d,
          bi_length xa = bi_length xb -> bi_length xa <> 0 ->
          bi_block xa !! (bi_length xa - 1) = Some d ->
          bi_block xb !! (bi_length xb - 1) = Some d ->
          c = 0%Z).
Proof.
  intros Ha Hb Hwa Hwb.
  destruct (magnitude_cmp_spec s a b xa xb Ha Hb Hwa Hwb)
    as (c & Hrun & Hanti & Hc & Hsgn & Hz).
  exists c. split_and!; try done.
  intros d Heq Hnz Hda Hdb.
  pose proof (magnitude_cmp_top_equal s a b xa xb d Ha Hb Hwa Hwb Heq Hnz
                Hda Hdb) as Hrun0.
  rewrite Hrun in Hrun0. by injection Hrun0.
Qed.

(** 513 and 515, whose most significant digits are equal. *)
Lemma magnitude_cmp_partial_witness :
  let s := sample_pair (sample [1%Z; 2%Z] false) (sample [3%Z; 2%Z] false) in
  let a := 0 in
  let b := 1 in
  let xa := sample [1%Z; 2%Z] false in
  let xb := sample [3%Z; 2%Z] false in
  exists c,
    magnitude_cmp a b s = Done (c, s)
    /\ magnitude_cmp b a s = Done ((- c)%Z, s)
    /\ (c = (-1)%Z \/ c = 0%Z \/ c = 1%Z)
    /\ (bi_length xa <> bi_length xb \/ bi_length xa <= 1 ->
        c = Z.sgn (magnitude xa - magnitude xb))
    /\ (magnitude xa = magnitude xb -> c = 0%Z)
    /\ (forall d,
          bi_length xa = bi_length xb -> bi_length xa <> 0 ->
          bi_block xa !! (bi_length xa - 1) = Some d ->
          bi_block xb !! (bi_length xb - 1) = Some d ->
          c = 0%Z).
Proof.
  intros s a b xa xb.
  apply (magnitude_cmp_partial s a b xa xb).
  - reflexivity.
  - reflexivity.
  - apply (@bool_decide_unpack _ (wf_bigint_dec _)). vm_compute. exact I.
  - apply (@bool_decide_unpack _ (wf_bigint_dec _)). vm_compute. exact I.
Defined.

(** X19.  [bigint_cmp(a, b)] returns the sign of [a - b], and [bigint_min] and
    [bigint_max] the pointer to the smaller and to the larger operand ([a]
    when they are equal), when the signs differ, the lengths differ, or
    there is at most one digit; the state is unchanged. *)
Theorem bigint_cmp_sound s a b xa xb :
  st_heap s !! a = Some xa -> st_heap s !! b = Some xb ->
  wf_bigint xa -> wf_bigint xb ->
  bi_negative xa <> bi_negative xb \/ bi_length xa <> bi_length xb
  \/ bi_length xa <= 1 ->
  bigint_cmp a b s = Done (Z.sgn (value xa - value xb), s)
  /\ bigint_min a b s
     = Done (if decide (value xa <= value xb)%Z then a else b, s)
  /\ bigint_max a b s
     = Done (if decide (value xb <= value xa)%Z then a else b, s).
Proof.
  intros Ha Hb Hwa Hwb Hcond.
  assert (Hcmp : bigint_cmp a b s = Done (Z.sgn (value xa - value xb), s)).
  { unfold bigint_cmp.
    rewrite (bind_eq _ _ s _ s (get_negative_eq a xa s Ha)).
    rewrite (bind_eq _ _ s _ s (get_negative_eq b xb s Hb)).
    pose proof (wf_magnitude_nonneg xa Hwa).
    pose proof (wf_magnitude_nonneg xb Hwb).
    pose proof (wf_negative_magnitude xa Hwa) as Hna.
    pose proof (wf_negative_magnitude xb Hwb) as Hnb.
    rewrite !value_unfold.
    destruct (decide (bi_negative xa = bi_negative xb)) as [Heq|Hne].
    - destruct (magnitude_cmp_spec s a b xa xb Ha Hb Hwa Hwb)
        as (c & Hrun & _ & _ & Hc & _).
      rewrite (bind_eq _ _ s _ s Hrun). rewrite Hc by tauto.
      rewrite <- Heq. unfold ret.
      destruct (bi_negative xa); do 2 f_equal; lia.
    - unfold ret.
      destruct (bi_negative xa) eqn:Ea, (bi_negative xb) eqn:Eb; try done.
      + specialize (Hna eq_refl). do 2 f_equal. lia.
      + specialize (Hnb eq_refl). do 2 f_equal. lia. }
  split; [exact Hcmp |].
  unfold bigint_min, bigint_max. rewrite !(bind_eq _ _ s _ s Hcmp).
  unfold ret. split; do 2 f_equal.
  - destruct (decide (Z.sgn (value xa - value xb) <= 0)%Z),
      (decide (value xa <= value xb)%Z); try done; lia.
  - destruct (decide (0 <= Z.sgn (value xa - value xb))%Z),
      (decide (value xb <= value xa)%Z); try done; lia.
Qed.

(** -5 and 3. *)
Lemma bigint_cmp_sound_witness :
  let s := sample_pair (sample [5%Z] true) (sample [3%Z] false) in
  let a := 0 in
  let b := 1 in
  let xa := sample [5%Z] true in
  let xb := sample [3%Z] false in
  bigint_cmp a b s = Done (Z.sgn (value xa - value xb), s)
  /\ bigint_min a b s
     = Done (if decide (value xa <= value xb)%Z then a else b, s)
  /\ bigint_max a b s
     = Done (if decide (value xb <= value xa)%Z then a else b, s).
Proof.
  intros s a b xa xb.
  apply (bigint_cmp_sound s a b xa xb).
  - reflexivity.
  - reflexivity.
  - apply (@bool_decide_unpack _ (wf_bigint_dec _)). vm_compute. exact I.
  - apply (@bool_decide_unpack _ (wf_bigint_dec _)). vm_compute. exact I.
  - left. simpl. discriminate.
Defined.

(** ** Addition and subtraction *)

Lemma magnitude_sum_signed dest a b xd xa xb s :
  st_heap s !! dest = Some xd -> st_heap s !! a = Some xa ->
  st_heap s !! b = Some xb ->
  wf_buffer xd -> wf_bigint xa -> wf_bigint xb ->
  wp (magnitude_sum dest a b)
     (fun r s' =>
        r = Some dest /\
        exists xd',
          s' = upd dest xd' s /\ wf_bigint xd'
          /\ magnitude xd' = (magnitude xa + magnitude xb)%Z
          /\ bi_length xd'
             = Nat.max (bi_length xa) (bi_length xb)
               + (if decide (256 ^ Z.of_nat (Nat.max (bi_length xa)
                                                     (bi_length xb))
                             <= magnitude xa + magnitude xb)%Z
                  then 1 else 0)
          /\ bi_negative xd'
             = (if decide (bi_length xd' = 0) then false
                else bi_negative xd)) s.
Proof.
  intros Hd Ha Hb Hwd Hwa Hwb.
  destruct xd as [bd od ad ld nd], xa as [ba oa aa la na],
    xb as [bb ob ab lb nb].
  destruct Hwd as (Hod & Hdlen & Hdone). simpl in Hod, Hdlen, Hdone.
  subst od.
  assert (oa = 0) as -> by (destruct Hwa as [[? _] _]; done).
  assert (ob = 0) as -> by (destruct Hwb as [[? _] _]; done).
  apply wf_bigint_unfold in Hwa
    as (Halen & Haone & Hala & Harange & Halast & Haneg).
  apply wf_bigint_unfold in Hwb
    as (Hblen & Hbone & Hblb & Hbrange & Hblast & Hbneg).
  rewrite !magnitude_unfold. cbn [bi_length].
  set (A := take la ba) in *. set (B := take lb bb) in *.
  assert (HAlen : length A = la) by (unfold A; rewrite length_take; lia).
  assert (HBlen : length B = lb) by (unfold B; rewrite length_take; lia).
  pose proof (digits_value_bound A Harange) as HAb.
  pose proof (digits_value_bound B Hbrange) as HBb.
  unfold magnitude_sum.
  apply wp_bind. eapply wp_get_length; [exact Ha |].
  apply wp_bind. eapply wp_get_length; [exact Hb |].
  cbv zeta.
  set (mx := if decide (lb < la) then la else lb).
  assert (Hmx : mx = Nat.max la lb) by (unfold mx; destruct (decide _); lia).
  clearbody mx. rewrite <- Hmx.
  unfold bigint_eqz.
  apply wp_bind. apply wp_bind. eapply wp_get_length; [exact Ha |].
  apply wp_ret.
  apply wp_bind. apply wp_bind. eapply wp_get_length; [exact Hb |].
  apply wp_ret.
  destruct (decide (mx = 0)) as [Hz|Hnz].
  - (* both operands are zero *)
    assert (la = 0) as Hla0 by lia. assert (lb = 0) as Hlb0 by lia.
    rewrite !bool_decide_eq_true_2 by done. simpl andb. cbv iota.
    apply wp_bind. unfold bigint_movui.
    apply wp_bind. eapply wp_set_negative; [exact Hd |].
    destruct (decide (0%Z = 0%Z)) as [_|]; [| done].
    eapply wp_set_length; [apply heap_upd_eq |]. rewrite upd_upd.
    apply wp_bind. eapply wp_normalize; [apply heap_upd_eq | lia |].
    intros n' Hn' _ _. rewrite upd_upd. apply wp_ret.
    split; [reflexivity |]. eexists. split; [reflexivity |].
    assert (n' = 0) as -> by lia.
    assert (HA0 : digits_value A = 0%Z).
    { unfold A. rewrite Hla0, take_0. reflexivity. }
    assert (HB0 : digits_value B = 0%Z).
    { unfold B. rewrite Hlb0, take_0. reflexivity. }
    split; [| split; [| split; [| reflexivity]]].
    + apply wf_bigint_unfold. rewrite take_0.
      repeat split; try lia; try done.
    + rewrite magnitude_unfold, take_0, HA0, HB0. reflexivity.
    + cbn [bi_length]. rewrite Hz, HA0, HB0. simpl.
      destruct (decide (1 <= 0 + 0)%Z); [lia | reflexivity].
  - assert (Hand : bool_decide (la = 0) && bool_decide (lb = 0) = false).
    { destruct (decide (la = 0)) as [Hla0|Hla0].
      - rewrite (bool_decide_eq_false_2 (lb = 0)) by lia.
        apply andb_false_r.
      - rewrite (bool_decide_eq_false_2 (la = 0)) by done. reflexivity. }
    rewrite Hand. cbv iota. clear Hand.
    assert (HVtop : (256 ^ Z.of_nat (mx - 1)
                     <= digits_value A + digits_value B)%Z).
    { destruct (decide (lb < la)) as [Hlt|Hge].
      - assert (HAne : A <> []) by (intros HA; rewrite HA in HAlen; simpl in HAlen; lia).
        pose proof (digits_value_top A Harange HAne Halast) as Ht.
        rewrite HAlen in Ht. replace mx with la by lia. lia.
      - assert (HBne : B <> []) by (intros HB; rewrite HB in HBlen; simpl in HBlen; lia).
        pose proof (digits_value_top B Hbrange HBne Hblast) as Ht.
        rewrite HBlen in Ht. replace mx with lb by lia. lia. }
    apply wp_bind. apply wp_bind.
    eapply wp_resize; [exact Hd | exact Hdlen | exact Hdone |].
    intros ad' Had' Hadad'.
    set (zs := replicate (ad' - ad) 0%Z).
    assert (Hblk : length (bd ++ zs) = ad').
    { unfold zs. rewrite length_app, length_replicate. lia. }
    apply wp_bind. eapply wp_mono.
    { apply (wp_for_range
               (sum_invariant dest (bd ++ zs) ad' mx nd A B s)).
      - exists []. rewrite drop_0. simpl. repeat split; auto.
      - intros k carry s1 Hk (ds & Hds & -> & Hdsr & Hc & Hval).
        assert (Hkb : k < length (bd ++ zs)) by lia.
        assert (Hwrite : 0 + k < length (ds ++ drop k (bd ++ zs))).
        { rewrite length_prefix by (done || lia). lia. }
        apply wp_bind.
        destruct (decide (la <= k)) as [Hak|Hak].
        + (* only [b] has a digit in this column *)
          destruct (live_lookup_range bb lb k Hbrange ltac:(lia) ltac:(lia))
            as (bo & Hbo & Hbor).
          destruct (inc_column bo carry Hbor Hc) as (Hsr & _ & Hsum).
          apply wp_bind.
          eapply wp_rd_operand; [exact Hd | exact Hb | exact Hds | exact Hbo |].
          apply wp_ret. cbv beta iota.
          apply wp_bind. eapply wp_wr; [apply heap_upd_eq | exact Hwrite |].
          rewrite upd_upd. apply wp_ret.
          eapply (sum_invariant_step _ _ _ _ _ _ _ _ _ carry ds bo);
            try done.
          * destruct (decide (to_digit (bo + carry) < bo)%Z); auto.
          * unfold A, B. rewrite take_take_S_ge by lia.
            rewrite (take_take_S_lt bb lb k bo) by (lia || done).
            rewrite digits_value_snoc, !length_take. 
            replace (k `min` (lb `min` length bb)) with k by lia. lia.
        + destruct (live_lookup_range ba la k Harange ltac:(lia) ltac:(lia))
            as (ao & Hao & Haor).
          destruct (decide (lb <= k)) as [Hbk|Hbk].
          * (* only [a] has a digit in this column *)
            destruct (inc_column ao carry Haor Hc) as (Hsr & _ & Hsum).
            apply wp_bind.
            eapply wp_rd_operand;
              [exact Hd | exact Ha | exact Hds | exact Hao |].
            apply wp_ret. cbv beta iota.
            apply wp_bind. eapply wp_wr; [apply heap_upd_eq | exact Hwrite |].
            rewrite upd_upd. apply wp_ret.
            eapply (sum_invariant_step _ _ _ _ _ _ _ _ _ carry ds ao);
              try done.
            -- destruct (decide (to_digit (ao + carry) < ao)%Z); auto.
            -- unfold A, B. rewrite (take_take_S_ge bb) by lia.
               rewrite (take_take_S_lt ba la k ao) by (lia || done).
               rewrite digits_value_snoc, !length_take.
               replace (k `min` (la `min` length ba)) with k by lia. lia.
          * (* both operands have a digit *)
            destruct (live_lookup_range bb lb k Hbrange ltac:(lia) ltac:(lia))
              as (bo & Hbo & Hbor).
            destruct (sum_column ao bo carry Haor Hbor Hc) as (Hsr & Hsum).
            apply wp_bind.
            eapply wp_rd_operand;
              [exact Hd | exact Ha | exact Hds | exact Hao |].
            apply wp_bind.
            eapply wp_rd_operand;
              [exact Hd | exact Hb | exact Hds | exact Hbo |].
            apply wp_ret. cbv beta iota.
            apply wp_bind. eapply wp_wr; [apply heap_upd_eq | exact Hwrite |].
            rewrite upd_upd. apply wp_ret.
            eapply (sum_invariant_step _ _ _ _ _ _ _ _ _ carry ds
                      (ao + bo)%Z); try done.
            -- destruct (decide (to_digit (ao + bo + carry) - carry < ao)%Z);
                 auto.
            -- unfold A, B.
               rewrite (take_take_S_lt ba la k ao) by (lia || done).
               rewrite (take_take_S_lt bb lb k bo) by (lia || done).
               rewrite !digits_value_snoc, !length_take.
               replace (k `min` (la `min` length ba)) with k by lia.
               replace (k `min` (lb `min` length bb)) with k by lia. lia. }
    intros carry s1 Hinv. change (0 + mx) with mx in Hinv.
    destruct Hinv as (ds & Hds & -> & Hdsr & Hc & Hval).
    rewrite (take_ge A), (take_ge B) in Hval by lia.
    pose proof (digits_value_bound ds Hdsr) as Hdsb. rewrite Hds in Hdsb.
    assert (Hlp : length (ds ++ drop mx (bd ++ zs)) = ad').
    { rewrite length_prefix by (done || lia). exact Hblk. }
    destruct (decide (carry <> 0%Z)) as [Hcarry|Hnocarry].
    + assert (carry = 1%Z) as -> by (destruct Hc; congruence).
      apply wp_bind. eapply wp_get_length; [apply heap_upd_eq |].
      apply wp_bind. unfold resize_sum.
      eapply wp_resize; [apply heap_upd_eq | exact Hlp | lia |].
      intros ad2 Had2 Hadad2. rewrite upd_upd.
      set (zs2 := replicate (ad2 - ad') 0%Z).
      assert (Hblk2 : length ((ds ++ drop mx (bd ++ zs)) ++ zs2) = ad2).
      { unfold zs2. rewrite length_app, length_replicate, Hlp. lia. }
      eapply wp_wr; [apply heap_upd_eq | simpl; rewrite Hblk2; lia |].
      rewrite upd_upd. simpl Nat.add.
      apply wp_bind. eapply wp_normalize; [apply heap_upd_eq | |].
      { rewrite length_insert, Hblk2. lia. }
      intros n' Hn' Hnval Hnlast. rewrite upd_upd. apply wp_ret.
      split; [reflexivity |]. eexists. split; [reflexivity |].
      set (b2 := <[mx:=1%Z]> ((ds ++ drop mx (bd ++ zs)) ++ zs2)) in *.
      assert (Htake : take (mx + 1) b2 = ds ++ [1%Z]).
      { unfold b2. replace (mx + 1) with (S mx) by lia.
        erewrite take_S_r;
          [| apply list_lookup_insert_eq; rewrite Hblk2; lia].
        rewrite take_insert_ge by lia.
        rewrite <- app_assoc, take_app_length' by done. reflexivity. }
      assert (Hr2 : Forall digit_range (ds ++ [1%Z])).
      { apply Forall_app. split; [done |].
        apply Forall_singleton, digit_range_bounds. lia. }
      assert (Hsub : take n' b2 = take n' (ds ++ [1%Z])).
      { rewrite <- Htake, take_take. f_equal. lia. }
      rewrite Hsub, Htake in Hnval.
      assert (Hn'eq : n' = length (ds ++ [1%Z])).
      { apply full_length_of_value; try done.
        - rewrite length_app. simpl. lia.
        - rewrite length_app. simpl. lia.
        - apply digits_value_top; [done | | by rewrite last_snoc].
          by destruct ds. }
      rewrite length_app in Hn'eq. simpl in Hn'eq.
      rewrite digits_value_snoc, Hds in Hnval.
      split; [| split; [| split; [| reflexivity]]].
      * apply wf_bigint_unfold. unfold b2 at 1.
        rewrite length_insert, Hblk2.
        repeat split; try lia; try done.
        rewrite Hsub. by apply Forall_take.
      * rewrite magnitude_unfold, Hsub, take_ge
          by (rewrite length_app; simpl; lia).
        rewrite digits_value_snoc, Hds. lia.
      * cbn [bi_length].
        destruct (decide (256 ^ Z.of_nat mx
                          <= digits_value A + digits_value B)%Z); lia.
    + assert (carry = 0%Z) as -> by lia.
      apply wp_ret.
      apply wp_bind. eapply wp_normalize; [apply heap_upd_eq | |].
      { rewrite Hlp. lia. }
      intros n' Hn' Hnval Hnlast. rewrite upd_upd. apply wp_ret.
      split; [reflexivity |]. eexists. split; [reflexivity |].
      assert (Hsub : take n' (ds ++ drop mx (bd ++ zs)) = take n' ds).
      { rewrite <- (take_prefix ds (bd ++ zs) mx Hds) at 2.
        rewrite take_take. f_equal. lia. }
      rewrite Hsub, take_prefix in Hnval by done.
      assert (Hn'eq : n' = length ds).
      { apply full_length_of_value; try done; try lia.
        rewrite Hds. lia. }
      rewrite Hds in Hn'eq.
      split; [| split; [| split; [| reflexivity]]].
      * apply wf_bigint_unfold. rewrite Hlp.
        repeat split; try lia; try done.
        rewrite Hsub. by apply Forall_take.
      * rewrite magnitude_unfold, Hsub, take_ge by lia. lia.
      * cbn [bi_length].
        destruct (decide (256 ^ Z.of_nat mx
                          <= digits_value A + digits_value B)%Z); lia.
Qed.

Lemma with_negative_id x : with_negative (bi_negative x) x = x.
Proof. by destruct x. Qed.

Lemma wf_buffer_with_negative ng x : wf_buffer x -> wf_buffer (with_negative ng x).
Proof. by destruct x. Qed.

Lemma magnitude_cmp_run s a b xa xb :
  st_heap s !! a = Some xa -> st_heap s !! b = Some xb ->
  wf_bigint xa -> wf_bigint xb ->
  forall Q : Z -> state -> Prop, (forall c, Q c s) -> wp (magnitude_cmp a b) Q s.
Proof.
  intros Ha Hb Hwa Hwb Q HQ.
  destruct (magnitude_cmp_spec s a b xa xb Ha Hb Hwa Hwb) as (c & Hrun & _).
  eapply wp_of_done; [exact Hrun | apply HQ].
Qed.

(** The value of a sum of magnitudes that carries the sign [ng]. *)
Lemma signed_sum_value x' xa xb (ng : bool) :
  wf_bigint x' -> wf_bigint xa -> wf_bigint xb ->
  magnitude x' = (magnitude xa + magnitude xb)%Z ->
  bi_negative x' = (if decide (bi_length x' = 0) then false else ng) ->
  value x' = (if ng then - (magnitude xa + magnitude xb)
              else magnitude xa + magnitude xb)%Z.
Proof.
  intros Hw Hwa Hwb Hm Hs. rewrite value_unfold, Hs, Hm.
  pose proof (wf_magnitude_nonneg xa Hwa).
  pose proof (wf_magnitude_nonneg xb Hwb).
  destruct (decide (bi_length x' = 0)) as [Hl|Hl]; [| done].
  apply (wf_length_zero x' Hw) in Hl. destruct ng; lia.
Qed.

Lemma bigint_add_same_sign_spec s dest a b xa xb :
  st_heap s !! a = Some xa -> st_heap s !! b = Some xb ->
  wf_bigint xa -> wf_bigint xb -> dest_ok s dest -> heap_ok s ->
  bi_negative xa = bi_negative xb ->
  wp (bigint_add dest a b)
     (fun r s' =>
        r = Some (default (st_next s) dest) /\
        exists x',
          st_heap s' !! default (st_next s) dest = Some x'
          /\ wf_bigint x' /\ value x' = (value xa + value xb)%Z
          /\ (forall q, q <> default (st_next s) dest ->
                        st_heap s' !! q = st_heap s !! q)) s.
Proof.
  intros Ha Hb Hwa Hwb Hdest Hok Hsign.
  pose proof (heap_ok_lt _ _ _ Hok Ha) as Hlta.
  pose proof (heap_ok_lt _ _ _ Hok Hb) as Hltb.
  assert (Hcore : forall d xd s1 (free : bool),
    st_heap s1 !! d = Some xd -> wf_buffer xd ->
    st_heap s1 !! a = Some xa -> st_heap s1 !! b = Some xb ->
    wp (let* cmp := magnitude_cmp a b in
        let* na := get_negative a in
        let* nb := get_negative b in
        let* result :=
          (if decide (na = nb) then
             set_negative d na ;; magnitude_sum d a b
           else if decide (0 < cmp)%Z then
             set_negative d na ;; magnitude_delta d a b
           else if decide (cmp < 0)%Z then
             set_negative d nb ;; magnitude_delta d b a
           else bigint_movui d 0 ;; ret (Some d)) in
        free_if (bool_decide (result = None) && free) d ;;
        ret result)
      (fun r s' =>
         r = Some d /\
         exists x', s' = upd d x' s1 /\ wf_bigint x'
                    /\ value x' = (value xa + value xb)%Z) s1).
  { intros d xd s1 free Hd Hwd Ha1 Hb1.
    apply wp_bind.
    apply (magnitude_cmp_run s1 a b xa xb); try done. intros c.
    apply wp_bind. eapply wp_get_negative'; [exact Ha1 |].
    apply wp_bind. eapply wp_get_negative'; [exact Hb1 |].
    rewrite decide_True by done.
    apply wp_bind. apply wp_bind.
    eapply wp_set_negative'; [exact Hd |].
    set (xd1 := with_negative (bi_negative xa) xd).
    assert (Ha2 : st_heap (upd d xd1 s1) !! a = Some xa).
    { destruct (decide (d = a)) as [->|Hne]; [| by rewrite heap_upd_ne].
      rewrite heap_upd_eq. unfold xd1. rewrite Hd in Ha1.
      injection Ha1 as ->. by rewrite with_negative_id. }
    assert (Hb2 : st_heap (upd d xd1 s1) !! b = Some xb).
    { destruct (decide (d = b)) as [->|Hne]; [| by rewrite heap_upd_ne].
      rewrite heap_upd_eq. unfold xd1. rewrite Hd in Hb1.
      injection Hb1 as ->. rewrite Hsign. by rewrite with_negative_id. }
    eapply wp_mono.
    { apply (magnitude_sum_signed d a b xd1 xa xb);
        [apply heap_upd_eq | done | done
        | by apply wf_buffer_with_negative | done | done]. }
    intros r s' (-> & x' & -> & Hw' & Hm' & _ & Hs').
    rewrite bool_decide_eq_false_2 by done. simpl andb.
    apply wp_bind. apply wp_ret. apply wp_ret.
    split; [done |]. exists x'. rewrite upd_upd. split; [done |].
    split; [done |].
    assert (Hs2 : bi_negative x' = (if decide (bi_length x' = 0) then false
                                    else bi_negative xa)).
    { rewrite Hs'. unfold xd1. by destruct xd. }
    rewrite (signed_sum_value x' xa xb (bi_negative xa) Hw' Hwa Hwb Hm' Hs2).
    rewrite !value_unfold, <- Hsign. destruct (bi_negative xa); lia. }
  unfold bigint_add, dest_or_new.
  destruct dest as [d|]; simpl default.
  - destruct Hdest as (xd & Hd & Hwd).
    apply wp_bind. apply wp_ret.
    eapply wp_mono; [exact (Hcore d xd s false Hd Hwd Ha Hb) |].
    intros r s' (-> & x' & -> & Hw' & Hv'). split; [done |].
    exists x'. split; [apply heap_upd_eq |]. split; [done |].
    split; [done |]. intros q Hq. by rewrite heap_upd_ne.
  - apply wp_bind. apply wp_bind.
    eapply wp_mono; [apply from_int_zero_spec |].
    intros d s1 (-> & x0 & -> & Hw0 & _). apply wp_ret.
    eapply wp_mono.
    { apply (Hcore (st_next s) x0 _ true);
        [by heap_lookup | by apply wf_bigint_buffer | by heap_lookup
        | by heap_lookup]. }
    intros r s' (-> & x' & -> & Hw' & Hv'). split; [done |].
    exists x'. split; [by heap_lookup |]. split; [done |].
    split; [done |]. intros q Hq. by heap_lookup.
Qed.

Lemma bigint_sub_opposite_sign_spec s dest a b xa xb :
  st_heap s !! a = Some xa -> st_heap s !! b = Some xb ->
  wf_bigint xa -> wf_bigint xb -> dest_ok s dest -> heap_ok s ->
  bi_negative xa <> bi_negative xb ->
  wp (bigint_sub dest a b)
     (fun r s' =>
        r = Some (default (st_next s) dest) /\
        exists x',
          st_heap s' !! default (st_next s) dest = Some x'
          /\ wf_bigint x' /\ value x' = (value xa - value xb)%Z
          /\ (forall q, q <> default (st_next s) dest ->
                        st_heap s' !! q = st_heap s !! q)) s.
Proof.
  intros Ha Hb Hwa Hwb Hdest Hok Hsign.
  pose proof (heap_ok_lt _ _ _ Hok Ha) as Hlta.
  pose proof (heap_ok_lt _ _ _ Hok Hb) as Hltb.
  pose proof (wf_magnitude_nonneg xa Hwa) as Hnna.
  pose proof (wf_magnitude_nonneg xb Hwb) as Hnnb.
  assert (Hcore : forall d xd s1 (free : bool),
    st_heap s1 !! d = Some xd -> wf_buffer xd ->
    st_heap s1 !! a = Some xa -> st_heap s1 !! b = Some xb ->
    wp (let* cmp := magnitude_cmp a b in
        let* na := get_negative a in
        let* nb := get_negative b in
        let* result :=
          (if negb na && negb nb then
             if decide (0 <= cmp)%Z then
               let* r := magnitude_delta d a b in
               set_negative d false ;; ret r
             else
               let* r := magnitude_delta d b a in
               set_negative d true ;; ret r
           else if negb na && nb then
             let* r := magnitude_sum d a b in
             set_negative d false ;; ret r
           else if na && negb nb then
             let* r := magnitude_sum d a b in
             let* len := get_length d in
             set_negative d (bool_decide (len <> 0)) ;; ret r
           else if decide (0 <= cmp)%Z then
             let* r := magnitude_delta d a b in
             let* len := get_length d in
             set_negative d (bool_decide (len <> 0)) ;; ret r
           else
             let* r := magnitude_delta d b a in
             set_negative d false ;; ret r) in
        free_if (bool_decide (result = None) && free) d ;;
        ret result)
      (fun r s' =>
         r = Some d /\
         exists x', s' = upd d x' s1 /\ wf_bigint x'
                    /\ value x' = (value xa - value xb)%Z) s1).
  { intros d xd s1 free Hd Hwd Ha1 Hb1.
    apply wp_bind.
    apply (magnitude_cmp_run s1 a b xa xb); try done. intros c.
    apply wp_bind. eapply wp_get_negative'; [exact Ha1 |].
    apply wp_bind. eapply wp_get_negative'; [exact Hb1 |].
    apply wp_bind.
    destruct (bi_negative xa) eqn:Ena, (bi_negative xb) eqn:Enb;
      try done; simpl negb; simpl andb; cbv iota.
    - (* a < 0 <= b *)
      apply wp_bind. eapply wp_mono.
      { by apply (magnitude_sum_signed d a b xd xa xb). }
      intros r s' (-> & x' & -> & Hw' & Hm' & _ & _).
      apply wp_bind. eapply wp_get_length'; [apply heap_upd_eq |].
      apply wp_bind. eapply wp_set_negative'; [apply heap_upd_eq |].
      rewrite upd_upd. apply wp_ret.
      rewrite bool_decide_eq_false_2 by done. simpl andb.
      apply wp_bind. apply wp_ret. apply wp_ret.
      split; [done |]. eexists. split; [done |].
      destruct x' as [b' o' a' l' n'].
      assert (o' = 0) as -> by (destruct Hw' as [[? _] _]; done).
      unfold with_negative. cbn [bi_block bi_off bi_allocated bi_length
                                   bi_negative].
      pose proof (proj1 (wf_length_zero _ Hw')) as Hz. simpl in Hz.
      rewrite magnitude_unfold in Hm'.
      split.
      + apply wf_bigint_unfold in Hw' as (? & ? & ? & ? & ? & ?).
        apply wf_bigint_unfold. split_and!; try done.
        intros ->. by rewrite bool_decide_eq_false_2 by lia.
      + rewrite !value_unfold, Ena, Enb, magnitude_unfold, Hm'.
        cbn [bi_negative].
        destruct (decide (l' = 0)) as [Hl|Hl].
        * rewrite bool_decide_eq_false_2 by lia.
          specialize (Hz Hl). rewrite magnitude_unfold in Hz. lia.
        * rewrite bool_decide_eq_true_2 by done. lia.
    - (* b < 0 <= a *)
      apply wp_bind. eapply wp_mono.
      { by apply (magnitude_sum_signed d a b xd xa xb). }
      intros r s' (-> & x' & -> & Hw' & Hm' & _ & _).
      apply wp_bind. eapply wp_set_negative'; [apply heap_upd_eq |].
      rewrite upd_upd. apply wp_ret.
      rewrite bool_decide_eq_false_2 by done. simpl andb.
      apply wp_bind. apply wp_ret. apply wp_ret.
      split; [done |]. eexists. split; [done |].
      destruct x' as [b' o' a' l' n'].
      assert (o' = 0) as -> by (destruct Hw' as [[? _] _]; done).
      unfold with_negative. cbn [bi_block bi_off bi_allocated bi_length
                                   bi_negative].
      split; [by eapply wf_bigint_positive |].
      rewrite !value_unfold, Ena, Enb. cbn [bi_negative].
      rewrite magnitude_unfold in *. lia. }
  unfold bigint_sub.
  destruct dest as [d|]; simpl default.
  - destruct Hdest as (xd & Hd & Hwd).
    apply wp_bind. apply wp_bind.
    destruct (decide (d <> a /\ d <> b)) as [[Hda Hdb]|Halias].
    + eapply wp_mono.
      { apply (bigint_movui_digit d xd 0); [done | done | lia]. }
      intros [] s1 (x0 & -> & Hw0 & _). apply wp_ret.
      eapply wp_mono.
      { apply (Hcore d x0 _ false);
          [apply heap_upd_eq | by apply wf_bigint_buffer
          | by rewrite heap_upd_ne | by rewrite heap_upd_ne]. }
      intros r s' (-> & x' & -> & Hw' & Hv'). split; [done |].
      exists x'. rewrite upd_upd. split; [apply heap_upd_eq |].
      split; [done |]. split; [done |].
      intros q Hq. by rewrite heap_upd_ne.
    + apply wp_ret. apply wp_ret.
      eapply wp_mono; [exact (Hcore d xd s false Hd Hwd Ha Hb) |].
      intros r s' (-> & x' & -> & Hw' & Hv'). split; [done |].
      exists x'. split; [apply heap_upd_eq |]. split; [done |].
      split; [done |]. intros q Hq. by rewrite heap_upd_ne.
  - apply wp_bind. apply wp_bind.
    eapply wp_mono; [apply from_int_zero_spec |].
    intros d s1 (-> & x0 & -> & Hw0 & _). apply wp_ret.
    eapply wp_mono.
    { apply (Hcore (st_next s) x0 _ true);
        [by heap_lookup | by apply wf_bigint_buffer | by heap_lookup
        | by heap_lookup]. }
    intros r s' (-> & x' & -> & Hw' & Hv'). split; [done |].
    exists x'. split; [by heap_lookup |]. split; [done |].
    split; [done |]. intros q Hq. by heap_lookup.
Qed.

(** ** Powers of two and trailing zeroes *)

Lemma is_pow2_digit t :
  (0 < t < 256)%Z -> POWER_OF_2 t = true <-> is_pow2 t.
Proof.
  intros Ht.
  assert (Hall : forallb
            (fun n => let t := Z.of_nat (S n) in
               Bool.eqb (POWER_OF_2 t)
                 (existsb (fun j => (t =? 2 ^ Z.of_nat j)%Z) (seq 0 8)))
            (seq 0 255) = true) by (vm_compute; reflexivity).
  rewrite forallb_forall in Hall.
  specialize (Hall (Z.to_nat t - 1)).
  rewrite in_seq in Hall. specialize (Hall ltac:(lia)). cbv zeta in Hall.
  replace (Z.of_nat (S (Z.to_nat t - 1))) with t in Hall by lia.
  apply Bool.eqb_prop in Hall. rewrite Hall. split.
  - intros H. apply existsb_exists in H as (j & _ & Hj).
    exists (Z.of_nat j). split; [lia |]. by apply Z.eqb_eq.
  - intros (k & Hk & ->). apply existsb_exists.
    assert (k < 8)%Z.
    { destruct (decide (k < 8)%Z) as [|Hge]; [done | exfalso].
      assert (2 ^ 8 <= 2 ^ k)%Z by (apply Z.pow_le_mono_r; lia).
      change (2 ^ 8)%Z with 256%Z in *. lia. }
    exists (Z.to_nat k). split; [apply in_seq; lia |].
    apply Z.eqb_eq. f_equal. lia.
Qed.

Lemma digits_value_all_zero (l : list Z) :
  (forall i d, l !! i = Some d -> d = 0%Z) -> digits_value l = 0%Z.
Proof.
  induction l as [|d l IH]; intros H; [done |]. simpl.
  rewrite (H 0 d eq_refl), IH; [lia |].
  intros i d' Hi. by apply (H (S i)).
Qed.

Lemma digits_value_some_nonzero (l : list Z) i d :
  Forall digit_range l -> l !! i = Some d -> d <> 0%Z ->
  (0 < digits_value l)%Z.
Proof.
  intros Hr. revert i. induction Hr as [|d0 l Hd0 Hr IH]; intros i Hi Hd;
    [done |].
  apply digit_range_bounds in Hd0.
  pose proof (digits_value_bound l Hr) as Hb. simpl. rewrite digit_base.
  destruct i as [|i]; simpl in Hi.
  - injection Hi as ->. lia.
  - specialize (IH i Hi Hd). lia.
Qed.

Lemma pow2_multiple k n low t :
  (0 <= n)%Z -> (0 <= low < 2 ^ n)%Z -> (0 < t)%Z -> (0 <= k)%Z ->
  (low + 2 ^ n * t = 2 ^ k)%Z -> low = 0%Z.
Proof.
  intros Hn Hlow Ht Hk Heq.
  assert (Hnk : (n <= k)%Z).
  { destruct (decide (n <= k)%Z) as [|Hgt]; [done | exfalso].
    assert (2 ^ k < 2 ^ n)%Z by (apply Z.pow_lt_mono_r; lia). nia. }
  assert (Hsplit : (2 ^ k = 2 ^ n * 2 ^ (k - n))%Z).
  { rewrite <- Z.pow_add_r by lia. f_equal. lia. }
  assert (Hlow' : (low = 2 ^ n * (2 ^ (k - n) - t))%Z) by lia.
  assert (HP : (0 < 2 ^ n)%Z) by (apply Z.pow_pos_nonneg; lia).
  clear Heq Hsplit.
  revert Hlow HP Hlow'. generalize (2 ^ n)%Z (2 ^ (k - n) - t)%Z.
  intros P W Hlow HP Hlow'.
  destruct (Z.lt_trichotomy W 0) as [|[->|]]; nia.
Qed.

Lemma wf_top_digit b a l ng :
  wf_bigint (mk_bigint b 0 a l ng) -> l <> 0 ->
  exists t, b !! (l - 1) = Some t /\ (0 < t < 256)%Z
            /\ digits_value (take l b)
               = (digits_value (take (l - 1) b)
                  + 256 ^ Z.of_nat (l - 1) * t)%Z.
Proof.
  intros Hwf Hl.
  apply wf_bigint_unfold in Hwf as (Hlen & Hone & Hla & Hrange & Hlast & Hneg).
  destruct (live_lookup_range b l (l - 1) Hrange ltac:(lia) ltac:(lia))
    as (t & Ht & Htr).
  exists t. split; [done |]. apply digit_range_bounds in Htr. split.
  - assert (t <> 0%Z); [| lia]. intros ->. apply Hlast.
    rewrite last_lookup, length_take, Nat.min_l by lia.
    rewrite lookup_take_lt by lia.
    replace (Init.Nat.pred l) with (l - 1) by lia. done.
  - replace l with (S (l - 1)) at 1 by lia.
    rewrite (take_S_r _ _ _ Ht), digits_value_snoc.
    rewrite length_take, Nat.min_l by lia. reflexivity.
Qed.

Lemma bigint_is_power_of_2_run s p x :
  st_heap s !! p = Some x -> wf_bigint x ->
  exists r, bigint_is_power_of_2 p s = Done (r, s)
            /\ (r = true <-> is_pow2 (magnitude x)).
Proof.
  intros Hp Hwf. pose proof (wf_length_zero x Hwf) as Hz.
  destruct x as [b o a l ng].
  assert (o = 0) as -> by (destruct Hwf as [[? _] _]; done).
  pose proof (wf_top_digit b a l ng Hwf) as Htop.
  apply wf_bigint_unfold in Hwf as (Hlen & Hone & Hla & Hrange & Hlast & Hneg).
  rewrite magnitude_unfold in *. cbn [bi_length] in Hz.
  assert (Hwp : wp (bigint_is_power_of_2 p)
            (fun r s' => s' = s /\
               (r = true <-> is_pow2 (digits_value (take l b)))) s).
  { unfold bigint_is_power_of_2. apply wp_bind.
    eapply wp_eqz; [exact Hp |]. cbn [bi_length].
    destruct (decide (l = 0)) as [Hl|Hl].
    { rewrite bool_decide_eq_true_2 by done. apply wp_ret.
      split; [done |]. split; [done |].
      intros (k & Hk & Heq). apply Hz in Hl. rewrite Hl in Heq.
      pose proof (Z.pow_pos_nonneg 2 k ltac:(lia) Hk). lia. }
    rewrite bool_decide_eq_false_2 by done.
    destruct (Htop Hl) as (t & Ht & Htr & Hval).
    apply wp_bind. eapply wp_get_length; [exact Hp |].
    apply wp_bind. eapply wp_mono.
    { apply (wp_for_break
               (fun n (st : bool) s' =>
                  s' = s /\ st = false
                  /\ forall i d, i < n -> b !! i = Some d -> d = 0%Z)
               (fun (st : bool) s' =>
                  s' = s /\ st = true
                  /\ exists i d, i < l - 1 /\ b !! i = Some d /\ d <> 0%Z)).
      - split_and!; try done. intros; lia.
      - intros i st s1 Hi (-> & -> & Hzero).
        destruct (lookup_lt_is_Some_2 b i ltac:(lia)) as [d Hd].
        apply wp_bind. eapply wp_rd; [exact Hp | exact Hd |].
        destruct (decide (d <> 0%Z)) as [Hnz|Hzd]; apply wp_ret.
        + split_and!; try done. exists i, d. split_and!; try done. lia.
        + split_and!; try done. intros j dj Hj Hdj.
          destruct (decide (j = i)) as [->|]; [| apply (Hzero j); [lia | done]].
          apply dec_stable in Hzd. congruence. }
    intros st s1 [(-> & -> & Hzero)|(-> & -> & i & d & Hi & Hd & Hnz)].
    - (* every lower digit is zero *)
      simpl Nat.add in Hzero.
      apply wp_bind. eapply wp_rd; [exact Hp | exact Ht |]. apply wp_ret.
      split; [done |].
      assert (Hlow : digits_value (take (l - 1) b) = 0%Z).
      { apply digits_value_all_zero. intros j dj Hj.
        apply lookup_take_Some in Hj as [Hj Hjl]. by apply (Hzero j dj). }
      rewrite Hval, Hlow, Z.add_0_l, (is_pow2_digit t Htr).
      rewrite pow256_pow2. split.
      + intros (k & Hk & ->). exists (Z.of_nat (l - 1) * 8 + k)%Z.
        split; [lia |]. rewrite Z.pow_add_r by lia. reflexivity.
      + intros (k & Hk & Heq).
        assert (Hnk : (Z.of_nat (l - 1) * 8 <= k)%Z).
        { destruct (decide (Z.of_nat (l - 1) * 8 <= k)%Z) as [|Hgt];
            [done | exfalso].
          assert (2 ^ k < 2 ^ (Z.of_nat (l - 1) * 8))%Z
            by (apply Z.pow_lt_mono_r; lia). nia. }
        exists (k - Z.of_nat (l - 1) * 8)%Z. split; [lia |].
        assert (Hsplit : (2 ^ k = 2 ^ (Z.of_nat (l - 1) * 8)
                                  * 2 ^ (k - Z.of_nat (l - 1) * 8))%Z).
        { rewrite <- Z.pow_add_r by lia. f_equal. lia. }
        assert (0 < 2 ^ (Z.of_nat (l - 1) * 8))%Z
          by (apply Z.pow_pos_nonneg; lia).
        nia.
    - (* a lower digit is not zero *)
      apply wp_ret. split; [done |]. split; [done |].
      intros (k & Hk & Heq). exfalso.
      assert (Hlowr : Forall digit_range (take (l - 1) b)).
      { replace (take (l - 1) b) with (take (l - 1) (take l b))
          by (rewrite take_take; f_equal; lia).
        by apply Forall_take. }
      pose proof (digits_value_bound _ Hlowr) as Hlb.
      rewrite length_take, Nat.min_l in Hlb by lia.
      assert (Hpos : (0 < digits_value (take (l - 1) b))%Z).
      { apply (digits_value_some_nonzero _ i d); try done.
        by rewrite lookup_take_lt by lia. }
      rewrite Hval, pow256_pow2 in Heq. rewrite pow256_pow2 in Hlb.
      pose proof (pow2_multiple k (Z.of_nat (l - 1) * 8)
                    (digits_value (take (l - 1) b)) t ltac:(lia) Hlb
                    ltac:(lia) Hk Heq).
      lia. }
  destruct (wp_done _ _ _ Hwp) as (r & s' & Hrun & -> & Hr).
  by exists r.
Qed.

(** X20.  [bigint_is_power_of_2(x)] returns true exactly when the magnitude of
    [x] is a power of two, [2 ^ 0] included; the sign is ignored and zero
    is not one.  Nothing is changed. *)
Theorem bigint_is_power_of_2_spec s p x :
  st_heap s !! p = Some x -> wf_bigint x ->
  exists r, bigint_is_power_of_2 p s = Done (r, s)
            /\ (r = true <-> is_pow2 (magnitude x)).
Proof. exact (bigint_is_power_of_2_run s p x). Qed.

(** 1024. *)
Lemma bigint_is_power_of_2_spec_witness :
  let s := sample_state (sample [0%Z; 4%Z] false) in
  let p := 0 in
  let x := sample [0%Z; 4%Z] false in
  exists r, bigint_is_power_of_2 p s = Done (r, s)
            /\ (r = true <-> is_pow2 (magnitude x)).
Proof.
  intros s p x.
  apply (bigint_is_power_of_2_spec s p x).
  - reflexivity.
  - apply (@bool_decide_unpack _ (wf_bigint_dec _)). vm_compute. exact I.
Defined.

Lemma ctz_digit_loop fuel :
  forall (r : nat) d k s,
    (0 < d < 2 ^ Z.of_nat k)%Z -> k < fuel ->
    exists j m,
      loop fuel
        (fun '(result, digit) =>
           if decide (Z.land digit 1 = 0%Z)
           then ret (inl (S result, Z.shiftr digit 1))
           else ret (inr result))
        (r, d) s = Done (r + j, s)
      /\ j < k /\ (0 <= m)%Z /\ d = (2 ^ Z.of_nat j * (2 * m + 1))%Z.
Proof.
  induction fuel as [|fuel IH]; intros r d k s Hd Hk; [lia |].
  cbn [loop].
  assert (Hk1 : 1 <= k).
  { destruct k; [| lia]. simpl in Hd. lia. }
  assert (Hland : Z.land d 1 = (d mod 2)%Z).
  { change 1%Z with (Z.ones 1). rewrite Z.land_ones by lia. reflexivity. }
  rewrite Hland.
  pose proof (Z.div_mod d 2 ltac:(lia)) as Hdm.
  pose proof (Z.mod_pos_bound d 2 ltac:(lia)) as Hmb.
  destruct (decide (d mod 2 = 0)%Z) as [Heven|Hodd].
  - rewrite (bind_eq _ _ s (inl (S r, Z.shiftr d 1)) s) by reflexivity.
    rewrite Z.shiftr_div_pow2 by lia. change (2 ^ 1)%Z with 2%Z.
    assert (Hk2 : 2 <= k).
    { destruct k as [|[|k]]; [lia | | lia]. simpl in Hd. lia. }
    assert (Hd2 : (0 < d / 2 < 2 ^ Z.of_nat (k - 1))%Z).
    { replace (Z.of_nat k) with (Z.succ (Z.of_nat (k - 1))) in Hd by lia.
      rewrite Z.pow_succ_r in Hd by lia. lia. }
    destruct (IH (S r) (d / 2)%Z (k - 1) s Hd2 ltac:(lia))
      as (j & m & Hrun & Hj & Hm & Heq).
    exists (S j), m. rewrite Hrun. split; [do 2 f_equal; lia |].
    split; [lia |]. split; [done |].
    rewrite Nat2Z.inj_succ, Z.pow_succ_r by lia. lia.
  - rewrite (bind_eq _ _ s (inr r) s) by reflexivity.
    exists 0, (d / 2)%Z. unfold ret. rewrite Nat.add_0_r.
    split; [done |]. split; [lia |]. split; [lia |].
    change (2 ^ Z.of_nat 0)%Z with 1%Z. lia.
Qed.

Lemma wp_ctz_digit d (Q : nat -> state -> Prop) s :
  (0 < d < 256)%Z ->
  (forall j m, j < 8 -> (0 <= m)%Z -> d = (2 ^ Z.of_nat j * (2 * m + 1))%Z ->
               Q j s) ->
  wp (ctz_digit d) Q s.
Proof.
  intros Hd HQ. unfold ctz_digit.
  destruct (ctz_digit_loop (S (Z.to_nat DIGIT_BITS)) 0 d 8 s)
    as (j & m & Hrun & Hj & Hm & Heq);
    [done | change (Z.to_nat DIGIT_BITS) with 8; lia |].
  eapply wp_of_done; [exact Hrun |]. by apply (HQ j m).
Qed.

Lemma digits_value_split (l : list Z) i d :
  l !! i = Some d ->
  digits_value l
  = (digits_value (take i l)
     + 256 ^ Z.of_nat i * (d + 256 * digits_value (drop (S i) l)))%Z.
Proof.
  intros Hd. rewrite <- (take_drop i l) at 1.
  rewrite digits_value_app, (drop_S _ _ _ Hd).
  rewrite length_take_le by (apply lookup_lt_Some in Hd; lia).
  simpl digits_value. rewrite digit_base. reflexivity.
Qed.

Lemma pow2_odd_factor j k m :
  (0 <= j)%Z -> (0 <= k)%Z -> (0 <= m)%Z ->
  (2 ^ k * (2 * m + 1) = 2 ^ j)%Z -> m = 0%Z.
Proof.
  intros Hj Hk Hm Heq.
  assert (0 < 2 ^ k)%Z by (apply Z.pow_pos_nonneg; lia).
  destruct (decide (k <= j)%Z) as [Hle|Hgt].
  - assert (Hsplit : (2 ^ j = 2 ^ k * 2 ^ (j - k))%Z).
    { rewrite <- Z.pow_add_r by lia. f_equal. lia. }
    assert (Hodd : (2 * m + 1 = 2 ^ (j - k))%Z) by nia.
    destruct (decide (j - k = 0)%Z) as [Hz|Hnz].
    + rewrite Hz in Hodd. simpl in Hodd. lia.
    + replace (j - k)%Z with (Z.succ (j - k - 1)) in Hodd by lia.
      rewrite Z.pow_succ_r in Hodd by lia. lia.
  - assert (2 ^ j < 2 ^ k)%Z by (apply Z.pow_lt_mono_r; lia). nia.
Qed.

Lemma ctz_run s p x :
  st_heap s !! p = Some x -> wf_bigint x ->
  exists k,
    ctz p s = Done (k, s)
    /\ (bi_length x = 0 -> k = 0)
    /\ (bi_length x <> 0 ->
        exists m, (0 <= m)%Z
                  /\ magnitude x = (2 ^ Z.of_nat k * (2 * m + 1))%Z)
    /\ (is_pow2 (magnitude x) -> magnitude x = (2 ^ Z.of_nat k)%Z).
Proof.
  intros Hp Hwf. destruct x as [b o a l ng].
  assert (o = 0) as -> by (destruct Hwf as [[? _] _]; done).
  pose proof (wf_top_digit b a l ng Hwf) as Htop.
  apply wf_bigint_unfold in Hwf as (Hlen & Hone & Hla & Hrange & Hlast & Hneg).
  rewrite magnitude_unfold. cbn [bi_length].
  assert (Hwp : wp (ctz p)
            (fun k s' => s' = s /\ (l = 0 -> k = 0) /\
               (l <> 0 -> exists m, (0 <= m)%Z /\
                  digits_value (take l b)
                  = (2 ^ Z.of_nat k * (2 * m + 1))%Z)) s).
  { unfold ctz. apply wp_bind. eapply wp_get_length; [exact Hp |].
    eapply wp_mono.
    { apply (wp_for_break
               (fun n (result : nat) s' =>
                  s' = s /\ result = 8 * n
                  /\ forall i d, i < n -> b !! i = Some d -> d = 0%Z)
               (fun (result : nat) s' =>
                  s' = s /\
                  exists i j d m,
                    i < l /\ b !! i = Some d
                    /\ (forall i' d', i' < i -> b !! i' = Some d' -> d' = 0%Z)
                    /\ j < 8 /\ (0 <= m)%Z
                    /\ d = (2 ^ Z.of_nat j * (2 * m + 1))%Z
                    /\ result = 8 * i + j)).
      - split_and!; try done. intros; lia.
      - intros i result s1 Hi (-> & -> & Hzero).
        destruct (live_lookup_range b l i Hrange ltac:(lia) ltac:(lia))
          as (d & Hd & Hdr).
        apply digit_range_bounds in Hdr.
        apply wp_bind. eapply wp_rd; [exact Hp | exact Hd |].
        destruct (decide (d = 0%Z)) as [->|Hnz].
        + apply wp_ret. split_and!; try done.
          intros j dj Hj Hdj.
          destruct (decide (j = i)) as [->|]; [congruence |].
          apply (Hzero j); [lia | done].
        + apply wp_bind. apply wp_ctz_digit; [lia |].
          intros j m Hj Hm Heq. apply wp_ret. split; [done |].
          exists i, j, d, m. split_and!; try done. lia. }
    intros k s1 [(-> & -> & Hzero)|(-> & i & j & d & m & Hi & Hd & Hzero & Hj
                                     & Hm & Heq & ->)].
    - simpl Nat.add in Hzero. split; [done |]. split; [lia |].
      intros Hl. exfalso.
      destruct (Htop Hl) as (t & Ht & Htr & _).
      specialize (Hzero (l - 1) t ltac:(lia) Ht). lia.
    - split; [done |]. split; [lia |]. intros _.
      assert (Hdl : take l b !! i = Some d) by (by rewrite lookup_take_lt).
      rewrite (digits_value_split _ i d Hdl).
      assert (Hlow : digits_value (take i (take l b)) = 0%Z).
      { apply digits_value_all_zero. intros i' d' Hi'.
        apply lookup_take_Some in Hi' as [Hi' Hil].
        apply lookup_take_Some in Hi' as [Hi' _]. by apply (Hzero i' d'). }
      rewrite Hlow, Z.add_0_l.
      set (rest := digits_value (drop (S i) (take l b))).
      assert (Hrest : (0 <= rest)%Z).
      { unfold rest.
        pose proof (digits_value_bound _ (Forall_drop _ (S i) _ Hrange)). lia. }
      exists (m + 2 ^ (7 - Z.of_nat j) * rest)%Z.
      split; [pose proof (Z.pow_pos_nonneg 2 (7 - Z.of_nat j) ltac:(lia)
                            ltac:(lia)); nia |].
      rewrite Heq, pow256_pow2.
      replace (Z.of_nat (8 * i + j)) with (Z.of_nat i * 8 + Z.of_nat j)%Z
        by lia.
      rewrite Z.pow_add_r by lia.
      assert (H256 : (256 = 2 ^ Z.of_nat j * (2 * 2 ^ (7 - Z.of_nat j)))%Z).
      { rewrite <- (Z.pow_succ_r 2 (7 - Z.of_nat j)) by lia.
        rewrite <- Z.pow_add_r by lia.
        replace (Z.of_nat j + Z.succ (7 - Z.of_nat j))%Z with 8%Z by lia.
        reflexivity. }
      rewrite H256 at 1. ring. }
  destruct (wp_done _ _ _ Hwp) as (k & s' & Hrun & -> & Hk0 & Hk).
  exists k. split; [exact Hrun |]. split; [exact Hk0 |]. split; [exact Hk |].
  intros (j & Hj & Heq).
  destruct (decide (l = 0)) as [Hl|Hl].
  - rewrite Hl, take_0 in Heq. simpl in Heq.
    pose proof (Z.pow_pos_nonneg 2 j ltac:(lia) Hj). lia.
  - destruct (Hk Hl) as (m & Hm & Hval). rewrite Hval in *.
    rewrite (pow2_odd_factor j (Z.of_nat k) m) by (done || lia). lia.
Qed.

(** X21.  [ctz(x)] returns the number of trailing zero bits of the magnitude:
    a nonzero magnitude is [2 ^ k] times an odd number, and is [2 ^ k]
    itself when it is a power of two; for zero the result is 0.  Nothing
    is changed. *)
Theorem ctz_spec s p x :
  st_heap s !! p = Some x -> wf_bigint x ->
  exists k,
    ctz p s = Done (k, s)
    /\ (bi_length x = 0 -> k = 0)
    /\ (bi_length x <> 0 ->
        exists m, (0 <= m)%Z
                  /\ magnitude x = (2 ^ Z.of_nat k * (2 * m + 1))%Z)
    /\ (is_pow2 (magnitude x) -> magnitude x = (2 ^ Z.of_nat k)%Z).
Proof. exact (ctz_run s p x). Qed.

(** 1024, which has ten trailing zero bits. *)
Lemma ctz_spec_witness :
  let s := sample_state (sample [0%Z; 4%Z] false) in
  let p := 0 in
  let x := sample [0%Z; 4%Z] false in
  exists k,
    ctz p s = Done (k, s)
    /\ (bi_length x = 0 -> k = 0)
    /\ (bi_length x <> 0 ->
        exists m, (0 <= m)%Z
                  /\ magnitude x = (2 ^ Z.of_nat k * (2 * m + 1))%Z)
    /\ (is_pow2 (magnitude x) -> magnitude x = (2 ^ Z.of_nat k)%Z).
Proof.
  intros s p x.
  apply (ctz_spec s p x).
  - reflexivity.
  - apply (@bool_decide_unpack _ (wf_bigint_dec _)). vm_compute. exact I.
Defined.

(** ** The small number cache *)

Lemma init_loop s0 :
  heap_ok s0 ->
  wp (for_range (S SMALL_NUMBER_CACHE_MAX) 0
        (fun n cache =>
           let* value := bigint_from_uint (Z.of_nat n) in
           ret (cache ++ [value])) [])
     (init_invariant s0 0 (S SMALL_NUMBER_CACHE_MAX)) s0.
Proof.
  intros Hok.
  apply (wp_for_range (init_invariant s0 0) (S SMALL_NUMBER_CACHE_MAX) 0).
  - unfold init_invariant. simpl. rewrite Nat.add_0_r.
    split_and!; try done. intros k Hk. lia.
  - intros i cache s Hi (Hc & Hn & Hok' & Hlow & Hval & He & Hca & Hin & Hj).
    rewrite Nat.sub_0_r in *.
    apply wp_bind. eapply wp_mono.
    { apply (bigint_from_uint_spec (Z.of_nat i) s).
      unfold SMALL_NUMBER_CACHE_MAX in Hi. lia. }
    intros p s' (-> & x & -> & Hwf & Hv & _).
    apply wp_ret. unfold init_invariant. rewrite Nat.sub_0_r.
    split_and!; try done.
    + rewrite Hc, Hn. rewrite seq_S, fmap_app. reflexivity.
    + rewrite st_next_with_new. lia.
    + by apply heap_ok_with_new.
    + intros q Hq. rewrite heap_with_new_ne by lia. by apply Hlow.
    + intros k Hk. destruct (decide (k = i)) as [->|Hne].
      * exists x. rewrite <- Hn. rewrite heap_with_new_eq. done.
      * rewrite heap_with_new_ne by lia. apply Hval. lia.
Qed.

Lemma cleanup_loop s0 base n :
  (forall k, k < n -> st_cache s0 !! k = Some (base + k)) ->
  (forall k, k < n ->
     exists x, st_heap s0 !! (base + k) = Some x /\ bi_off x = 0) ->
  wp (for_range n 0
        (fun n (_ : unit) =>
           fun s' => match st_cache s' !! n with
                     | Some value => bigint_free value s'
                     | None => Done (tt, s')
                     end) tt)
     (cleanup_invariant s0 base n) s0.
Proof.
  intros Hcache Hheap.
  apply (wp_for_range (cleanup_invariant s0 base) n 0).
  - unfold cleanup_invariant. split_and!; try done.
    intros p. rewrite decide_False by lia. reflexivity.
  - intros i [] s Hi (Hh & Hn & He & Hc & Hin & Hj).
    destruct (Hheap i ltac:(lia)) as (x & Hx & Hoff).
    assert (Hsx : st_heap s !! (base + i) = Some x).
    { rewrite Hh. rewrite decide_False by lia. exact Hx. }
    pose proof (Hcache i ltac:(lia)) as Hci.
    unfold wp at 1. cbv beta. rewrite Hc. unfold ptr in *. rewrite Hci.
    change (wp (bigint_free (base + i))
               (cleanup_invariant s0 base (S i)) s).
    eapply wp_free; [exact Hsx | exact Hoff |].
    unfold cleanup_invariant. split_and!; try done.
    intros p. destruct (decide (p = base + i)) as [->|Hne].
    + rewrite heap_without_eq. rewrite decide_True by lia. reflexivity.
    + rewrite heap_without_ne by done. rewrite Hh.
      destruct (decide (base <= p < base + i));
        destruct (decide (base <= p < base + S i)); try done; lia.
Qed.

(** X22.  The first [bigint_init] returns 0 and fills the small number cache:
    entry [n], for [n] from 0 to [SMALL_NUMBER_CACHE_MAX], is a new
    structure that satisfies the representation invariants and denotes
    [n]; the structures that existed are unchanged.  A second
    [bigint_init] does nothing.  [bigint_cleanup] then releases exactly
    the cached structures, so that the heap is the one before
    [bigint_init], and empties the cache; but it leaves [init_done] set,
    so a later [bigint_init] returns 0 without filling the cache again. *)
Theorem bigint_init_cleanup s :
  st_init_done s = false -> heap_ok s ->
  exists s1 s2,
    bigint_init s = Done (0%Z, s1)
    /\ st_init_done s1 = true
    /\ st_cache s1
       = (fun n => st_next s + n) <$> seq 0 (S SMALL_NUMBER_CACHE_MAX)
    /\ (forall n, n <= SMALL_NUMBER_CACHE_MAX ->
          exists x, st_heap s1 !! (st_next s + n) = Some x
                    /\ wf_bigint x /\ value x = Z.of_nat n)
    /\ (forall p, p < st_next s -> st_heap s1 !! p = st_heap s !! p)
    /\ bigint_init s1 = Done (0%Z, s1)
    /\ bigint_cleanup s1 = Done (tt, s2)
    /\ st_heap s2 = st_heap s
    /\ st_cache s2 = []
    /\ st_init_done s2 = true
    /\ bigint_init s2 = Done (0%Z, s2).
Proof.
  intros Hinit Hok.
  destruct (wp_done _ _ _ (init_loop s Hok))
    as (cache & s' & Hrun & Hc & Hn & Hok' & Hlow & Hval & He & Hca & Hin & Hj).
  rewrite Nat.sub_0_r in *.
  set (s1 := mk_state (st_heap s') (st_next s') (st_errno s') cache true
                      (st_junk s')).
  assert (Hi1 : bigint_init s = Done (0%Z, s1)).
  { unfold bigint_init. rewrite Hinit.
    rewrite (bind_eq _ _ s cache s' Hrun). reflexivity. }
  assert (Hcl : wp (for_range (S SMALL_NUMBER_CACHE_MAX) 0
        (fun n (_ : unit) =>
           fun s' => match st_cache s' !! n with
                     | Some value => bigint_free value s'
                     | None => Done (tt, s')
                     end) tt)
     (cleanup_invariant s1 (st_next s) (S SMALL_NUMBER_CACHE_MAX)) s1).
  { apply cleanup_loop.
    - intros k Hk. unfold s1. cbn [st_cache]. rewrite Hc.
      rewrite list_lookup_fmap, lookup_seq_lt by lia. reflexivity.
    - intros k Hk. destruct (Hval k Hk) as (x & Hx & Hwf & _).
      exists x. split; [exact Hx | apply Hwf]. }
  destruct (wp_done _ _ _ Hcl)
    as ([] & s2' & Hrun2 & Hh2 & Hn2 & He2 & Hc2 & Hin2 & Hj2).
  set (s2 := mk_state (st_heap s2') (st_next s2') (st_errno s2') []
                      (st_init_done s2') (st_junk s2')).
  exists s1, s2. split_and!; try done.
  - intros n Hn'. destruct (Hval n ltac:(lia)) as (x & Hx & Hwf & Hv).
    by exists x.
  - unfold bigint_cleanup. cbn [st_init_done s1].
    rewrite (bind_eq _ _ s1 tt s2' Hrun2). reflexivity.
  - unfold s2. cbn [st_heap]. apply map_eq. intros p. rewrite Hh2.
    unfold s1. cbn [st_heap].
    destruct (decide (st_next s <= p < st_next s + S SMALL_NUMBER_CACHE_MAX))
      as [Hp|Hp].
    + symmetry. apply heap_ok_none; [exact Hok | lia].
    + destruct (decide (p < st_next s)) as [Hlt|Hge]; [by apply Hlow |].
      rewrite (heap_ok_none s' p Hok') by lia.
      symmetry. apply heap_ok_none; [exact Hok | lia].
  - unfold bigint_init, s2. cbn [st_init_done]. rewrite Hin2. reflexivity.
Qed.

(** The library's first initialisation. *)
Lemma bigint_init_cleanup_witness :
  let s := empty_state 0 in
  exists s1 s2,
    bigint_init s = Done (0%Z, s1)
    /\ st_init_done s1 = true
    /\ st_cache s1
       = (fun n => st_next s + n) <$> seq 0 (S SMALL_NUMBER_CACHE_MAX)
    /\ (forall n, n <= SMALL_NUMBER_CACHE_MAX ->
          exists x, st_heap s1 !! (st_next s + n) = Some x
                    /\ wf_bigint x /\ value x = Z.of_nat n)
    /\ (forall p, p < st_next s -> st_heap s1 !! p = st_heap s !! p)
    /\ bigint_init s1 = Done (0%Z, s1)
    /\ bigint_cleanup s1 = Done (tt, s2)
    /\ st_heap s2 = st_heap s
    /\ st_cache s2 = []
    /\ st_init_done s2 = true
    /\ bigint_init s2 = Done (0%Z, s2).
Proof.
  intros s.
  apply (bigint_init_cleanup s).
  - reflexivity.
  - apply (@bool_decide_unpack _ (heap_ok_dec _)). vm_compute. exact I.
Defined.

(** ** Shift to the left *)

(** [normalize] at the end of a function that has stored [n] digits. *)
Lemma wp_normalize_wf p b a n ng (Q : unit -> state -> Prop) s :
  st_heap s !! p = Some (mk_bigint b 0 a n ng) ->
  length b = a -> 1 <= a -> n <= a ->
  Forall digit_range (take n b) ->
  (forall x',
     wf_bigint x' ->
     value x' = (if ng then - digits_value (take n b)
                 else digits_value (take n b))%Z ->
     bi_allocated x' = a ->
     Q tt (upd p x' s)) ->
  wp (normalize p) Q s.
Proof.
  intros Hp Hlen Ha Hn Hr HQ.
  eapply wp_normalize; [exact Hp | lia |].
  intros n' Hn' Hv Hlast. apply HQ.
  - apply wf_bigint_unfold. split_and!; try done; try lia.
    + replace (take n' b) with (take n' (take n b))
        by (rewrite take_take; f_equal; lia).
      by apply Forall_take.
    + intros ->. by rewrite decide_True.
  - rewrite value_unfold. cbn [bi_negative]. unfold magnitude, live_digits.
    cbn [bi_length bi_off bi_block]. rewrite drop_0. rewrite Hv.
    destruct (decide (n' = 0)) as [->|Hnz]; [| done].
    rewrite take_0 in Hv. simpl in Hv. rewrite <- Hv.
    by destruct ng.
  - reflexivity.
Qed.

Lemma wp_memset0 p b a l ng n (Q : unit -> state -> Prop) s :
  st_heap s !! p = Some (mk_bigint b 0 a l ng) -> n <= length b ->
  Q tt (upd p (mk_bigint (replicate n 0%Z ++ drop n b) 0 a l ng) s) ->
  wp (memset0 p n) Q s.
Proof.
  intros Hp Hn HQ. unfold memset0.
  eapply wp_mono.
  { apply (wp_for_range
             (fun i (_ : unit) s' =>
                s' = upd p (mk_bigint (replicate i 0%Z ++ drop i b) 0 a l ng) s)
             n 0).
    - simpl. rewrite drop_0. symmetry. by apply upd_same.
    - intros i [] s' Hi ->.
      eapply wp_wr; [apply heap_upd_eq | |].
      + rewrite length_app, length_replicate, length_drop. lia.
      + rewrite upd_upd. f_equal. f_equal.
        simpl.
        destruct (lookup_lt_is_Some_2 b i ltac:(lia)) as [d Hd].
        rewrite (drop_S b d i Hd).
        assert (Hi' : i = length (replicate i 0%Z) + 0)
          by (rewrite length_replicate; lia).
        rewrite Hi' at 1. rewrite insert_app_r. simpl.
        rewrite cons_middle, app_assoc. rewrite <- replicate_S_end.
        reflexivity. }
  intros [] s' ->. exact HQ.
Qed.

(** A read of the source while the destination, which may be the source,
    holds [cur]. *)
Lemma wp_rd_source dest x xs bd ad ld ngd cur a' len' j v zs
  (Q : Z -> state -> Prop) s :
  st_heap s !! dest = Some (mk_bigint bd 0 ad ld ngd) ->
  st_heap s !! x = Some xs -> bi_off xs = 0 ->
  bi_block xs !! j = Some v ->
  cur !! j = (bd ++ zs) !! j ->
  Q v (upd dest (mk_bigint cur 0 a' len' ngd) s) ->
  wp (rd x j) Q (upd dest (mk_bigint cur 0 a' len' ngd) s).
Proof.
  intros Hd Hx Hoff Hv Hcur HQ.
  destruct (decide (x = dest)) as [->|Hne].
  - rewrite Hd in Hx. injection Hx as <-. simpl in Hv.
    eapply wp_rd; [apply heap_upd_eq | | exact HQ].
    simpl. rewrite Hcur. by apply lookup_app_l_Some.
  - destruct xs as [bx ox ax lx nx]. simpl in Hoff, Hv. subst ox.
    eapply wp_rd; [| | exact HQ].
    + rewrite heap_upd_ne by done. exact Hx.
    + exact Hv.
Qed.

(** One step of a loop that stores [F] from its last element down, the
    first element going to [base]. *)
Lemma write_down_step (D0 F : list Z) base m i v :
  i < m -> length F = m -> base + m <= length D0 ->
  F !! (m - 1 - i) = Some v ->
  <[base + (m - 1 - i) := v]>
    (take (base + m - i) D0 ++ drop (m - i) F ++ drop (base + m) D0)
  = take (base + m - S i) D0 ++ drop (m - S i) F ++ drop (base + m) D0.
Proof.
  intros Hi HF HD Hv.
  destruct (lookup_lt_is_Some_2 D0 (base + m - S i) ltac:(lia)) as [d Hd].
  replace (base + m - i) with (S (base + m - S i)) by lia.
  rewrite (take_S_r D0 (base + m - S i) d Hd).
  rewrite <- app_assoc. simpl.
  replace (base + (m - 1 - i)) with (length (take (base + m - S i) D0) + 0)
    by (rewrite length_take; lia).
  rewrite insert_app_r. simpl. f_equal.
  replace (m - S i) with (m - 1 - i) by lia.
  rewrite (drop_S F v (m - 1 - i) Hv). simpl. repeat f_equal. lia.
Qed.

Lemma write_down_below (D0 F rest : list Z) hi j :
  j < hi -> hi <= length D0 ->
  (take hi D0 ++ F ++ rest) !! j = D0 !! j.
Proof.
  intros Hj Hhi. rewrite lookup_app_l by (rewrite length_take; lia).
  by rewrite lookup_take_lt.
Qed.

Lemma pow2_digit_split (o : Z) :
  (0 <= o <= 8)%Z -> (2 ^ (8 - o) * 2 ^ o = 256)%Z.
Proof.
  intros H. rewrite <- Z.pow_add_r by lia.
  replace (8 - o + o)%Z with 8%Z by lia. reflexivity.
Qed.

Lemma shl_digit_value o lsb msb :
  0 < o < 8 -> digit_range lsb -> digit_range msb ->
  shl_digit o lsb msb
  = ((lsb * 2 ^ Z.of_nat o) mod 256 + msb / 2 ^ (8 - Z.of_nat o))%Z.
Proof.
  unfold digit_range. change DIGIT_MAX with 255%Z.
  intros Ho Hl Hm. unfold shl_digit.
  change DIGIT_MAX with (Z.ones 8). change DIGIT_BITS with 8%Z.
  rewrite Z.land_lor_distr_l.
  rewrite !Z.land_ones by lia.
  rewrite Z.shiftl_mul_pow2 by lia. rewrite Z.shiftr_div_pow2 by lia.
  change (2 ^ 8)%Z with 256%Z.
  assert (Ho' : o = 1 \/ o = 2 \/ o = 3 \/ o = 4 \/ o = 5 \/ o = 6 \/ o = 7)
    by lia.
  assert (Hk : (0 <= Z.of_nat o)%Z) by lia.
  assert (Hsplit : ((lsb * 2 ^ Z.of_nat o) mod 256
                    = (lsb mod 2 ^ (8 - Z.of_nat o)) * 2 ^ Z.of_nat o)%Z).
  { rewrite <- (pow2_digit_split (Z.of_nat o)) by lia.
    rewrite Z.mul_mod_distr_r; [reflexivity | |];
      apply Z.pow_nonzero; lia. }
  assert (Hlow : (0 <= msb / 2 ^ (8 - Z.of_nat o) < 2 ^ Z.of_nat o)%Z).
  { split; [apply Z.div_pos; [lia | apply Z.pow_pos_nonneg; lia] |].
    apply Z.div_lt_upper_bound; [apply Z.pow_pos_nonneg; lia |].
    rewrite pow2_digit_split by lia. lia. }
  rewrite (Z.mod_small (msb / _) 256).
  2:{ split; [lia |]. eapply Z.lt_le_trans; [apply Hlow |].
      change 256%Z with (2 ^ 8)%Z. apply Z.pow_le_mono_r; lia. }
  rewrite Hsplit. rewrite Z.lor_comm.
  rewrite lor_disjoint by lia. lia.
Qed.

Lemma shl_digit_range o lsb msb :
  0 < o < 8 -> digit_range lsb -> digit_range msb ->
  digit_range (shl_digit o lsb msb).
Proof.
  intros Ho Hl Hm. unfold digit_range, shl_digit.
  change DIGIT_MAX with (Z.ones 8). rewrite Z.land_ones by lia.
  change (Z.ones 8) with 255%Z.
  pose proof (Z.mod_pos_bound
                (Z.lor (Z.shiftl lsb (Z.of_nat o))
                       (Z.shiftr msb (DIGIT_BITS - Z.of_nat o)))
                (2 ^ 8) ltac:(lia)) as H.
  change (2 ^ 8)%Z with 256%Z in *. lia.
Qed.

Lemma shl_carry o d :
  0 < o < 8 -> digit_range d ->
  ((d * 2 ^ Z.of_nat o) mod 256 + 256 * (d / 2 ^ (8 - Z.of_nat o))
   = d * 2 ^ Z.of_nat o)%Z.
Proof.
  intros Ho Hd.
  assert (H256 : (256 = 2 ^ (8 - Z.of_nat o) * 2 ^ Z.of_nat o)%Z)
    by (rewrite pow2_digit_split by lia; reflexivity).
  assert (Hdiv : (d / 2 ^ (8 - Z.of_nat o) = d * 2 ^ Z.of_nat o / 256)%Z).
  { rewrite H256 at 1. rewrite Z.div_mul_cancel_r; [reflexivity | |];
      apply Z.pow_nonzero; lia. }
  rewrite Hdiv.
  pose proof (Z.div_mod (d * 2 ^ Z.of_nat o) 256 ltac:(lia)). lia.
Qed.

Lemma shl_digits_value o ds :
  0 < o < 8 ->
  forall prev,
    digit_range prev -> Forall digit_range ds ->
    digits_value (shl_digits o prev ds)
    = (prev / 2 ^ (8 - Z.of_nat o) + 2 ^ Z.of_nat o * digits_value ds)%Z
    /\ Forall digit_range (shl_digits o prev ds)
    /\ length (shl_digits o prev ds) = S (length ds).
Proof.
  intros Ho. induction ds as [|d ds IH]; intros prev Hp Hr.
  - cbn [shl_digits digits_value length]. split_and!; [| | done].
    + rewrite shl_digit_value; [| done | by vm_compute | done].
      rewrite Z.mul_0_l, Z.mod_0_l by lia. lia.
    + constructor; [| constructor].
      apply shl_digit_range; [done | by vm_compute | done].
  - apply Forall_cons in Hr as [Hd Hr].
    destruct (IH d Hd Hr) as (Hv & Hrange & Hlen).
    cbn [shl_digits digits_value length]. split_and!.
    + rewrite Hv. rewrite shl_digit_value by done.
      change (2 ^ DIGIT_BITS)%Z with 256%Z.
      pose proof (shl_carry o d Ho Hd). lia.
    + constructor; [by apply shl_digit_range | exact Hrange].
    + by rewrite Hlen.
Qed.

Lemma shl_digits_lookup o ds :
  forall prev k,
    k <= length ds ->
    shl_digits o prev ds !! k
    = Some (shl_digit o (default 0%Z (ds !! k))
              (match k with
               | 0 => prev
               | S k' => default 0%Z (ds !! k')
               end)).
Proof.
  induction ds as [|d ds IH]; intros prev k Hk.
  - simpl in Hk. assert (k = 0) as -> by lia. reflexivity.
  - destruct k as [|k]; [reflexivity |].
    cbn [shl_digits].
    change ((shl_digit o d prev :: shl_digits o d ds) !! S k)
      with (shl_digits o d ds !! k).
    rewrite IH by (simpl in Hk; lia).
    destruct k; reflexivity.
Qed.

(** The [done:] label: the sign of the source and [normalize]. *)
Lemma shift_done_spec dest p blk a' len ngd xp s :
  st_heap s !! dest = Some (mk_bigint blk 0 a' len ngd) ->
  st_heap s !! p = Some xp ->
  length blk = a' -> 1 <= a' -> len <= a' ->
  Forall digit_range (take len blk) ->
  wp (shift_done dest p)
     (fun r s' =>
        r = Some dest /\
        exists x', s' = upd dest x' s /\ wf_bigint x'
                   /\ value x' = (if bi_negative xp
                                  then - digits_value (take len blk)
                                  else digits_value (take len blk))%Z) s.
Proof.
  intros Hd Hp Hlen Ha Hl Hr. unfold shift_done.
  apply wp_bind. destruct xp as [bp op ap lp np].
  eapply wp_get_negative; [exact Hp |].
  apply wp_bind. eapply wp_set_negative; [exact Hd |].
  apply wp_bind.
  eapply wp_normalize_wf; [apply heap_upd_eq | exact Hlen | exact Ha
                          | exact Hl | exact Hr |].
  intros x' Hwf Hv _. apply wp_ret. split; [reflexivity |].
  exists x'. rewrite upd_upd. done.
Qed.

Lemma source_sign (dest p : ptr) x xd y s :
  st_heap s !! p = Some x -> st_heap s !! dest = Some xd ->
  bi_negative y = bi_negative xd ->
  exists xp, st_heap (upd dest y s) !! p = Some xp
             /\ bi_negative xp = bi_negative x.
Proof.
  intros Hp Hd Hy. destruct (decide (p = dest)) as [->|Hne].
  - exists y. split; [apply heap_upd_eq |]. rewrite Hy.
    unfold ptr in *. rewrite Hd in Hp. by injection Hp as ->.
  - exists x. split; [by rewrite heap_upd_ne | done].
Qed.

Lemma shift_amount n :
  (2 ^ Z.of_nat n
   = 256 ^ Z.of_nat (n / Z.to_nat DIGIT_BITS)
     * 2 ^ Z.of_nat (n mod Z.to_nat DIGIT_BITS))%Z.
Proof.
  change (Z.to_nat DIGIT_BITS) with 8.
  rewrite pow256_pow2. rewrite <- Z.pow_add_r by lia. f_equal.
  pose proof (Nat.div_mod_eq n 8). lia.
Qed.

(** The shifts of a zero and by zero bits: the source is copied. *)
Lemma shift_copy_spec (dest p : ptr) x xd s :
  st_heap s !! p = Some x -> wf_bigint x ->
  st_heap s !! dest = Some xd -> wf_buffer xd ->
  wp (bigint_mov dest p ;; shift_done dest p)
     (fun r s' =>
        r = Some dest /\
        exists x', s' = upd dest x' s /\ wf_bigint x'
                   /\ value x' = value x) s.
Proof.
  intros Hp Hwf Hd Hbuf.
  destruct x as [bx ox ax L ngx].
  assert (ox = 0) as -> by (destruct Hwf as [[? _] _]; done).
  pose proof Hwf as Hwf'.
  apply wf_bigint_unfold in Hwf' as (Hlx & Hax & HL & Hrx & Hlastx & Hzx).
  destruct xd as [bd od ad ld ngd].
  destruct Hbuf as (Hod & Hld & Had). simpl in Hod, Hld, Had. subst od.
  assert (Hvx : value (mk_bigint bx 0 ax L ngx)
                = (if ngx then - digits_value (take L bx)
                   else digits_value (take L bx))%Z).
  { rewrite value_unfold. unfold magnitude, live_digits. simpl.
    by rewrite drop_0. }
  assert (Hlive : live_digits (mk_bigint bx 0 ax L ngx) = take L bx).
  { unfold live_digits. simpl. by rewrite drop_0. }
  apply wp_bind.
  destruct (decide (dest = p)) as [->|Hne].
  - unfold bigint_mov. rewrite decide_True by done. apply wp_ret.
    rewrite Hd in Hp. injection Hp as -> -> -> ->.
    eapply wp_mono.
    { eapply (shift_done_spec p p bx ax L ngx); try done. }
    intros r s' (-> & x' & -> & Hwf' & Hv'). split; [done |].
    exists x'. split_and!; try done.
  - eapply wp_mono.
    { eapply (bigint_mov_spec dest p _ _ s Hne Hd Hp); [done |].
      simpl. lia. }
    intros rc s' (-> & tail & a' & -> & Hlen' & Ha'). rewrite Hlive in *.
    cbn [bi_length bi_negative bi_allocated] in *.
    assert (HlenL : length (take L bx) = L) by (rewrite length_take; lia).
    eapply wp_mono.
    { eapply (shift_done_spec dest p (take L bx ++ tail) a' L ngd);
        [apply heap_upd_eq | by rewrite heap_upd_ne | done | lia | |].
      - rewrite <- Hlen'. rewrite length_app. lia.
      - rewrite take_app_length' by done. exact Hrx. }
    intros r s' (-> & x' & -> & Hwf' & Hv'). split; [done |].
    exists x'. rewrite upd_upd. split_and!; try done.
    rewrite Hv'. rewrite take_app_length' by done. by rewrite Hvx.
Qed.

(** An [int] represents a length up to [INT_MAX]. *)
Lemma to_int_small z : (0 <= z <= INT_MAX)%Z -> to_int z = z.
Proof.
  unfold to_int, INT_MAX. intros Hz.
  rewrite Z.mod_small by lia. lia.
Qed.

(** A length of [2 ^ 31] digits or more is not kept. *)
Example to_int_wraps :
  to_int (2 ^ 31) = (- 2 ^ 31)%Z /\ to_int (2 ^ 32 + 5) = 5%Z.
Proof. by vm_compute. Qed.

Lemma to_size_small z : (0 <= z < 2 ^ 64)%Z -> to_size z = z.
Proof. intros Hz. unfold to_size. by apply Z.mod_small. Qed.

(** The two reads and the index of the write of the loop of [bigint_shli]
    for a source of at most [INT_MAX] digits: the conversions keep every
    value. *)
Lemma shli_msb_index (p : ptr) k :
  (if decide (Z.of_nat k < 1)%Z then ret 0%Z else rd_at p (Z.of_nat k - 1))
  = (if decide (k < 1) then ret 0%Z else rd p (k - 1)).
Proof.
  destruct (decide (Z.of_nat k < 1)%Z), (decide (k < 1)); try lia; [done |].
  unfold rd_at. rewrite decide_False by lia. f_equal. lia.
Qed.

Lemma shli_lsb_index (p : ptr) L k :
  (if decide (Z.of_nat L <= Z.of_nat k)%Z then ret 0%Z
   else rd_at p (Z.of_nat k))
  = (if decide (L <= k) then ret 0%Z else rd p k).
Proof.
  destruct (decide (Z.of_nat L <= Z.of_nat k)%Z), (decide (L <= k));
    try lia; [done |].
  unfold rd_at. rewrite decide_False by lia. f_equal. lia.
Qed.

Lemma shli_write_index k nd :
  (Z.of_nat k <= INT_MAX)%Z -> 1 <= nd -> (Z.of_nat nd < 2 ^ 63)%Z ->
  Z.to_nat (to_size (to_size (Z.of_nat k) + Z.of_nat nd - 1)) = k + nd - 1.
Proof.
  unfold INT_MAX. intros Hk Hnd Hb.
  rewrite (to_size_small (Z.of_nat k)) by lia.
  rewrite to_size_small by lia. lia.
Qed.

Lemma bigint_shli_spec dest p x xd n s :
  st_heap s !! p = Some x -> wf_bigint x ->
  st_heap s !! dest = Some xd -> wf_buffer xd ->
  (Z.of_nat (bi_length x) <= INT_MAX)%Z -> (Z.of_nat n < 2 ^ 64)%Z ->
  wp (bigint_shli (Some dest) p n)
     (fun r s' =>
        r = Some dest /\
        exists x', s' = upd dest x' s /\ wf_bigint x'
                   /\ value x' = (value x * 2 ^ Z.of_nat n)%Z) s.
Proof.
  intros Hp Hwf Hd Hbuf Hint Hsize.
  destruct x as [bx ox ax L ngx].
  assert (ox = 0) as -> by (destruct Hwf as [[? _] _]; done).
  pose proof Hwf as Hwf'.
  apply wf_bigint_unfold in Hwf' as (Hlx & Hax & HL & Hrx & Hlastx & Hzx).
  cbn [bi_length] in Hint.
  destruct xd as [bd od ad ld ngd].
  destruct Hbuf as (Hod & Hld & Had). simpl in Hod, Hld, Had. subst od.
  assert (Hvx : value (mk_bigint bx 0 ax L ngx)
                = (if ngx then - digits_value (take L bx)
                   else digits_value (take L bx))%Z).
  { rewrite value_unfold. unfold magnitude, live_digits. simpl.
    by rewrite drop_0. }
  assert (Hlive : live_digits (mk_bigint bx 0 ax L ngx) = take L bx).
  { unfold live_digits. simpl. by rewrite drop_0. }
  assert (Hsame : dest = p -> bd = bx /\ ngd = ngx /\ ad = ax).
  { intros ->. rewrite Hd in Hp. by injection Hp as -> -> -> ->. }
  unfold bigint_shli. apply wp_bind. apply wp_ret.
  apply wp_bind. unfold bigint_eqz. apply wp_bind.
  eapply wp_get_length; [exact Hp |]. apply wp_ret.
  destruct (bool_decide (n = 0) || bool_decide (L = 0)) eqn:Hz.
  - (* nothing to shift *)
    assert (Hval : (value (mk_bigint bx 0 ax L ngx) * 2 ^ Z.of_nat n
                    = value (mk_bigint bx 0 ax L ngx))%Z).
    { apply orb_true_iff in Hz as [Hz|Hz]; apply bool_decide_eq_true_1 in Hz.
      - subst n. simpl. lia.
      - subst L. rewrite Hvx. rewrite take_0. simpl. by destruct ngx. }
    rewrite Hval.
    apply (shift_copy_spec dest p _ _ s Hp Hwf Hd).
    split_and!; done.
  - apply orb_false_iff in Hz as [Hn0 HL0].
    apply bool_decide_eq_false_1 in Hn0. apply bool_decide_eq_false_1 in HL0.
    cbv zeta. apply wp_bind. eapply wp_get_length; [exact Hp |].
    pose proof (shift_amount n) as Hshift.
    pose proof (Nat.div_mod_eq n (Z.to_nat DIGIT_BITS)) as Hdm.
    pose proof (Nat.mod_upper_bound n (Z.to_nat DIGIT_BITS)
                  ltac:(by vm_compute)) as Hub.
    set (o := n mod Z.to_nat DIGIT_BITS) in *.
    set (q := n / Z.to_nat DIGIT_BITS) in *.
    change (Z.to_nat DIGIT_BITS) with 8 in Hdm, Hub.
    clearbody o q.
    assert (Hqsize : (Z.of_nat q < 2 ^ 61)%Z) by lia.
    set (nd := q + (if decide (o <> 0) then 1 else 0)).
    apply wp_bind. unfold resize_sum.
    eapply wp_resize; [exact Hd | exact Hld | exact Had |].
    intros a' Hfit Hgrow.
    set (D0 := bd ++ replicate (a' - ad) 0%Z).
    assert (HD0 : length D0 = a').
    { unfold D0. rewrite length_app, length_replicate. lia. }
    assert (Hsrc : forall j v, bx !! j = Some v -> dest = p ->
                               D0 !! j = Some v).
    { intros j v Hv He. destruct (Hsame He) as (-> & _ & _).
      unfold D0. by apply lookup_app_l_Some. }
    destruct (decide (o = 0)) as [Ho|Ho].
    + (* whole digits *)
      assert (Hnd : nd = q) by (unfold nd; rewrite decide_False by lia; lia).
      clearbody nd. subst nd.
      rewrite decide_False by lia. rewrite Nat.sub_0_r.
      assert (Hq : 1 <= q) by lia.
      apply wp_bind. eapply wp_mono.
      { apply (wp_for_range
                 (fun i (_ : unit) s' =>
                    s' = upd dest
                           (mk_bigint (take (q + L - i) D0
                                       ++ drop (L - i) (take L bx)
                                       ++ drop (q + L) D0)
                                      0 a' (L + q) ngd) s)
                 L 0).
        - rewrite !Nat.sub_0_r. rewrite drop_ge by (rewrite length_take; lia).
          simpl. by rewrite take_drop.
        - intros i [] s' Hi ->.
          destruct (lookup_lt_is_Some_2 bx (L - 1 - i) ltac:(lia)) as [v Hv].
          apply wp_bind.
          eapply (wp_rd_source dest p _ bd ad ld ngd _ a' (L + q)
                    (L - 1 - i) v (replicate (a' - ad) 0%Z));
            [exact Hd | exact Hp | reflexivity | exact Hv | |].
          { apply write_down_below;
              [lia | rewrite length_app, length_replicate; lia]. }
          eapply wp_wr; [apply heap_upd_eq | |].
          { rewrite !length_app, length_take, !length_drop, length_take. lia. }
          rewrite upd_upd. f_equal. f_equal. simpl.
          replace (L - 1 - i + q) with (q + (L - 1 - i)) by lia.
          apply write_down_step; [lia | rewrite length_take; lia | lia |].
          rewrite lookup_take_lt by lia. exact Hv. }
      intros [] s' ->. simpl. rewrite Nat.sub_diag, drop_0.
      replace (q + L - L) with q by lia.
      apply wp_bind.
      eapply wp_memset0; [apply heap_upd_eq | |].
      { rewrite !length_app, length_take, !length_drop. lia. }
      rewrite upd_upd.
      rewrite drop_app_length' by (rewrite length_take; lia).
      assert (HlenL : length (take L bx) = L) by (rewrite length_take; lia).
      assert (Htake : take (L + q)
                        (replicate q 0%Z ++ take L bx ++ drop (q + L) D0)
                      = replicate q 0%Z ++ take L bx).
      { rewrite app_assoc. apply take_app_length'.
        rewrite length_app, length_replicate. lia. }
      destruct (source_sign dest p _ _
                  (mk_bigint (replicate q 0%Z ++ take L bx ++ drop (q + L) D0)
                             0 a' (L + q) ngd) s Hp Hd eq_refl)
        as (xp & Hxp & Hng).
      eapply wp_mono.
      { eapply (shift_done_spec dest p _ a' (L + q) ngd xp);
          [apply heap_upd_eq | exact Hxp | | lia | lia |].
        - rewrite !length_app, length_replicate, length_take, !length_drop.
          lia.
        - rewrite Htake. apply Forall_app. split; [| exact Hrx].
          apply Forall_replicate. by vm_compute. }
      intros r s' (-> & x' & -> & Hwf' & Hv'). split; [done |].
      exists x'. rewrite upd_upd. split_and!; try done.
      rewrite Hv', Hng. cbn [bi_negative].
      rewrite Htake. rewrite digits_value_app.
      rewrite digits_value_replicate_0, length_replicate.
      rewrite Hvx, Hshift. rewrite Ho. simpl (2 ^ Z.of_nat 0)%Z.
      destruct ngx; lia.
    + (* a shift inside the digits *)
      assert (Hnd : nd = q + 1) by (unfold nd; rewrite decide_True by lia; lia).
      clearbody nd. subst nd.
      rewrite decide_True by lia.
      replace (q + 1 - 1) with q by lia.
      assert (HlenL : length (take L bx) = L) by (rewrite length_take; lia).
      destruct (shl_digits_value o (take L bx) ltac:(lia) 0%Z
                  ltac:(by vm_compute) Hrx) as (HFv & HFr & HFl).
      rewrite HlenL in HFl.
      set (F := shl_digits o 0 (take L bx)) in *.
      apply wp_bind. eapply wp_mono.
      { apply (wp_for_range
                 (fun i (_ : unit) s' =>
                    s' = upd dest
                           (mk_bigint (take (q + S L - i) D0
                                       ++ drop (S L - i) F
                                       ++ drop (q + S L) D0)
                                      0 a' (L + (q + 1)) ngd) s)
                 (S L) 0).
        - rewrite !Nat.sub_0_r. rewrite (drop_ge F) by lia.
          rewrite app_nil_l. by rewrite take_drop.
        - intros i [] s' Hi ->.
          pose proof (shl_digits_lookup o (take L bx) 0%Z (L - i)
                        ltac:(lia)) as HF.
          fold F in HF.
          cbv zeta.
          rewrite (to_int_small (Z.of_nat (L - i))) by lia.
          rewrite (to_int_small (Z.of_nat L)) by lia.
          rewrite shli_msb_index, shli_lsb_index.
          rewrite (shli_write_index (L - i) (q + 1)) by lia.
          match goal with |- wp _ _ ?st => remember st as cur eqn:Hcur end.
          apply wp_bind.
          apply (wp_mono _
                   (fun v s'' =>
                      v = match L - i with
                          | 0 => 0%Z
                          | S k' => default 0%Z (take L bx !! k')
                          end /\ s'' = cur)).
          { destruct (decide (L - i < 1)) as [Hlt|Hge].
            - apply wp_ret. split; [| done]. destruct (L - i); [done | lia].
            - destruct (lookup_lt_is_Some_2 bx (L - i - 1) ltac:(lia))
                as [v Hv].
              subst cur.
              eapply (wp_rd_source dest p _ bd ad ld ngd _ a' _
                        (L - i - 1) v (replicate (a' - ad) 0%Z));
                [exact Hd | exact Hp | reflexivity | exact Hv | |].
              + apply write_down_below;
                  [lia | rewrite length_app, length_replicate; lia].
              + split; [| done].
                destruct (L - i) as [|k'] eqn:E; [lia |].
                replace (S k' - 1) with k' in Hv by lia.
                rewrite lookup_take_lt by lia. by rewrite Hv. }
          intros msb s'' [-> ->].
          apply wp_bind.
          apply (wp_mono _
                   (fun v s'' =>
                      v = default 0%Z (take L bx !! (L - i)) /\ s'' = cur)).
          { destruct (decide (L <= L - i)) as [Hle|Hgt].
            - apply wp_ret. split; [| done].
              by rewrite lookup_ge_None_2 by (rewrite HlenL; lia).
            - destruct (lookup_lt_is_Some_2 bx (L - i) ltac:(lia))
                as [v Hv].
              subst cur.
              eapply (wp_rd_source dest p _ bd ad ld ngd _ a' _
                        (L - i) v (replicate (a' - ad) 0%Z));
                [exact Hd | exact Hp | reflexivity | exact Hv | |].
              + apply write_down_below;
                  [lia | rewrite length_app, length_replicate; lia].
              + split; [| done].
                rewrite lookup_take_lt by lia. by rewrite Hv. }
          intros lsb s'' [-> ->]. subst cur.
          eapply wp_wr; [apply heap_upd_eq | |].
          { rewrite !length_app, length_take, !length_drop. lia. }
          rewrite upd_upd. f_equal. f_equal. rewrite Nat.add_0_l.
          replace (L - i + (q + 1) - 1) with (q + (S L - 1 - i)) by lia.
          apply write_down_step; [lia | exact HFl | lia |].
          replace (S L - 1 - i) with (L - i) by lia. exact HF. }
      intros [] s' ->.
      replace (q + S L - (0 + S L)) with q by lia.
      replace (S L - (0 + S L)) with 0 by lia. rewrite drop_0.
      apply wp_bind.
      eapply wp_memset0; [apply heap_upd_eq | |].
      { rewrite !length_app, length_take, !length_drop. lia. }
      rewrite upd_upd.
      rewrite drop_app_length' by (rewrite length_take; lia).
      assert (Htake : take (L + (q + 1))
                        (replicate q 0%Z ++ F ++ drop (q + S L) D0)
                      = replicate q 0%Z ++ F).
      { rewrite app_assoc. apply take_app_length'.
        rewrite length_app, length_replicate. lia. }
      destruct (source_sign dest p _ _
                  (mk_bigint (replicate q 0%Z ++ F ++ drop (q + S L) D0)
                             0 a' (L + (q + 1)) ngd) s Hp Hd eq_refl)
        as (xp & Hxp & Hng).
      eapply wp_mono.
      { eapply (shift_done_spec dest p _ a' (L + (q + 1)) ngd xp);
          [apply heap_upd_eq | exact Hxp | | lia | lia |].
        - rewrite !length_app, length_replicate, !length_drop. lia.
        - rewrite Htake. apply Forall_app. split; [| exact HFr].
          apply Forall_replicate. by vm_compute. }
      intros r s' (-> & x' & -> & Hwf' & Hv'). split; [done |].
      exists x'. rewrite upd_upd. split_and!; try done.
      rewrite Hv', Hng. cbn [bi_negative].
      rewrite Htake. rewrite digits_value_app.
      rewrite digits_value_replicate_0, length_replicate.
      rewrite Hvx, Hshift. rewrite HFv.
      rewrite Z.div_0_l by (apply Z.pow_nonzero; lia).
      destruct ngx; ring.
Qed.

(** X23.  [bigint_shli(dest, x, n)] multiplies by [2 ^ n] when the result
    has room in [INT_MAX] digits, that is when
    [length + n / DIGIT_BITS + 1 <= INT_MAX]: the result is [dest], or a
    new structure when [dest] is [NULL], it satisfies the representation
    invariants and denotes [x * 2 ^ n] with the sign of [x], and no other
    structure changes.  [dest] may be [x].  Within the bound the [int]
    index [from] of the loop holds every value it is assigned, and the
    block that [resize_sum] asks for has less than [2 ^ 32] digits; the
    call is taken with an allocator that grants it. *)
Theorem bigint_shli_value s dest p x n :
  st_heap s !! p = Some x -> wf_bigint x -> dest_ok s dest -> heap_ok s ->
  (Z.of_nat (bi_length x + n / Z.to_nat DIGIT_BITS + 1) <= INT_MAX)%Z ->
  exists r x' s',
    bigint_shli dest p n s = Done (Some r, s')
    /\ r = default (st_next s) dest
    /\ st_heap s' !! r = Some x'
    /\ wf_bigint x' /\ value x' = (value x * 2 ^ Z.of_nat n)%Z
    /\ (forall q, q <> r -> st_heap s' !! q = st_heap s !! q).
Proof.
  intros Hp Hwf Hdest Hok Hbound.
  assert (Hint : (Z.of_nat (bi_length x) <= INT_MAX)%Z) by lia.
  assert (Hsize : (Z.of_nat n < 2 ^ 64)%Z).
  { pose proof (Nat.div_mod_eq n (Z.to_nat DIGIT_BITS)) as Hdm.
    pose proof (Nat.mod_upper_bound n (Z.to_nat DIGIT_BITS)
                  ltac:(by vm_compute)) as Hub.
    change (Z.to_nat DIGIT_BITS) with 8 in *. unfold INT_MAX in Hbound.
    lia. }
  destruct dest as [d|]; simpl default.
  - destruct Hdest as (xd & Hd & Hbuf).
    destruct (wp_done _ _ _
                (bigint_shli_spec d p x xd n s Hp Hwf Hd Hbuf Hint Hsize))
      as (r & s' & Hrun & -> & x' & -> & Hwf' & Hv).
    exists d, x', (upd d x' s). split_and!; try done.
    + apply heap_upd_eq.
    + intros q Hq. by apply heap_upd_ne.
  - pose proof (wf_in_bounds x Hwf) as Hb.
    assert (Hne : p <> st_next s) by (by eapply heap_ok_ne).
    assert (Hp' : st_heap (with_new (dup_of x) s) !! p = Some x)
      by (by rewrite heap_with_new_ne).
    pose proof (bigint_shli_spec (st_next s) p x (dup_of x) n
                  (with_new (dup_of x) s) Hp' Hwf
                  (heap_with_new_eq _ _)
                  (wf_bigint_buffer _ (dup_of_wf x Hwf)) Hint Hsize) as Hrun.
    assert (Hall : wp (bigint_shli None p n)
              (fun r s' =>
                 r = Some (st_next s) /\
                 exists x', s' = with_new x' s /\ wf_bigint x'
                            /\ value x' = (value x * 2 ^ Z.of_nat n)%Z) s).
    { unfold bigint_shli. apply wp_bind. eapply wp_mono.
      { apply (bigint_dup_spec p x s Hp Hb). apply Hwf. }
      intros r s1 (-> & ->).
      unfold bigint_shli in Hrun. unfold wp in Hrun at 1.
      unfold bind at 1 in Hrun. unfold ret at 1 in Hrun.
      eapply wp_mono; [exact Hrun |].
      intros r s' (-> & x' & -> & Hwf' & Hv). split; [done |].
      exists x'. by rewrite upd_with_new. }
    destruct (wp_done _ _ _ Hall) as (r & s' & Hrun' & -> & x' & -> & Hwf' & Hv).
    exists (st_next s), x', (with_new x' s). split_and!; try done.
    + apply heap_with_new_eq.
    + intros q Hq. by apply heap_with_new_ne.
Qed.

(** 3 shifted left by 9 bits. *)
Lemma bigint_shli_value_witness :
  let s := sample_state (sample [3%Z] false) in
  let dest := None in
  let p := 0 in
  let x := sample [3%Z] false in
  let n := 9 in
  exists r x' s',
    bigint_shli dest p n s = Done (Some r, s')
    /\ r = default (st_next s) dest
    /\ st_heap s' !! r = Some x'
    /\ wf_bigint x' /\ value x' = (value x * 2 ^ Z.of_nat n)%Z
    /\ (forall q, q <> r -> st_heap s' !! q = st_heap s !! q).
Proof.
  intros s dest p x n.
  apply (bigint_shli_value s dest p x n).
  - reflexivity.
  - apply (@bool_decide_unpack _ (wf_bigint_dec _)). vm_compute. exact I.
  - exact I.
  - apply (@bool_decide_unpack _ (heap_ok_dec _)). vm_compute. exact I.
  - by vm_compute.
Defined.

(** ** Shift to the right *)

Lemma shr_digit_value o lsb msb :
  0 < o < 8 -> digit_range lsb -> digit_range msb ->
  shr_digit o lsb msb
  = ((msb * 2 ^ (8 - Z.of_nat o)) mod 256 + lsb / 2 ^ Z.of_nat o)%Z.
Proof.
  intros Ho Hl Hm.
  pose proof (shl_digit_value (8 - o) msb lsb ltac:(lia) Hm Hl) as H.
  unfold shl_digit in H. unfold shr_digit.
  change DIGIT_BITS with 8%Z in *.
  replace (Z.of_nat (8 - o)) with (8 - Z.of_nat o)%Z in H by lia.
  replace (8 - (8 - Z.of_nat o))%Z with (Z.of_nat o) in H by lia.
  rewrite Z.land_comm. exact H.
Qed.

Lemma shr_digit_range o lsb msb :
  0 < o < 8 -> digit_range lsb -> digit_range msb ->
  digit_range (shr_digit o lsb msb).
Proof.
  intros Ho Hl Hm. unfold digit_range, shr_digit.
  rewrite Z.land_comm.
  change DIGIT_MAX with (Z.ones 8). rewrite Z.land_ones by lia.
  change (Z.ones 8) with 255%Z.
  match goal with |- (0 <= ?a mod _ <= _)%Z =>
    pose proof (Z.mod_pos_bound a (2 ^ 8) ltac:(lia)) as H end.
  change (2 ^ 8)%Z with 256%Z in *. lia.
Qed.

Lemma shr_carry o d m V' :
  0 < o < 8 ->
  (d / 2 ^ Z.of_nat o + (m * 2 ^ (8 - Z.of_nat o)) mod 256
   + 256 * ((m + 256 * V') / 2 ^ Z.of_nat o)
   = (d + 256 * (m + 256 * V')) / 2 ^ Z.of_nat o)%Z.
Proof.
  intros Ho.
  assert (Ho' : o = 1 \/ o = 2 \/ o = 3 \/ o = 4 \/ o = 5 \/ o = 6 \/ o = 7)
    by lia.
  destruct Ho' as [->|[->|[->|[->|[->|[->| ->]]]]]];
    simpl Z.of_nat; simpl Z.sub; simpl Z.pow;
    Z.div_mod_to_equations; lia.
Qed.

Lemma shr_digits_value o ds :
  0 < o < 8 -> Forall digit_range ds ->
  digits_value (shr_digits o ds) = (digits_value ds / 2 ^ Z.of_nat o)%Z
  /\ Forall digit_range (shr_digits o ds)
  /\ length (shr_digits o ds) = length ds.
Proof.
  intros Ho. induction ds as [|d ds IH]; intros Hr.
  - cbn [shr_digits digits_value length]. split_and!; done.
  - apply Forall_cons in Hr as [Hd Hr].
    destruct (IH Hr) as (Hv & Hrange & Hlen).
    cbn [shr_digits digits_value length]. split_and!.
    + rewrite Hv.
      assert (Hm : digit_range (default 0%Z (head ds))).
      { destruct ds as [|m ds']; [by vm_compute |].
        by apply Forall_cons in Hr as [Hm _]. }
      rewrite shr_digit_value by done.
      change (2 ^ DIGIT_BITS)%Z with 256%Z.
      destruct ds as [|m ds'].
      * cbn [head default digits_value].
        change (0 * 2 ^ (8 - Z.of_nat o))%Z with 0%Z.
        change (0 / 2 ^ Z.of_nat o)%Z with 0%Z.
        change (0 mod 256)%Z with 0%Z. change (256 * 0)%Z with 0%Z.
        rewrite !Z.add_0_r, ?Z.add_0_l. reflexivity.
      * cbn [head default digits_value].
        change (2 ^ DIGIT_BITS)%Z with 256%Z.
        unfold id.
        pose proof (shr_carry o d m (digits_value ds') Ho) as H. lia.
    + constructor; [| exact Hrange].
      apply shr_digit_range; try done.
      destruct ds as [|m ds']; [by vm_compute |].
      by apply Forall_cons in Hr as [Hm _].
    + by rewrite Hlen.
Qed.

Lemma shr_digits_lookup o ds :
  forall k d,
    ds !! k = Some d ->
    shr_digits o ds !! k
    = Some (shr_digit o d (default 0%Z (ds !! S k))).
Proof.
  induction ds as [|d0 ds IH]; intros k d Hk; [done |].
  destruct k as [|k].
  - injection Hk as ->. cbn [shr_digits].
    change ((d :: ds) !! 1) with (ds !! 0). by rewrite head_lookup.
  - change ((d0 :: ds) !! S k) with (ds !! k) in Hk.
    cbn [shr_digits].
    change ((shr_digit o d0 (default 0%Z (head ds)) :: shr_digits o ds)
              !! S k) with (shr_digits o ds !! k).
    rewrite (IH k d Hk). reflexivity.
Qed.

Lemma digits_value_drop (l : list Z) q :
  Forall digit_range l ->
  digits_value (drop q l) = (digits_value l / 256 ^ Z.of_nat q)%Z.
Proof.
  intros Hr. destruct (decide (q <= length l)) as [Hq|Hq].
  - rewrite <- (take_drop q l) at 2. rewrite digits_value_app.
    rewrite length_take, Nat.min_l by lia.
    pose proof (digits_value_bound (take q l) (Forall_take _ q _ Hr)) as Hb.
    rewrite length_take, Nat.min_l in Hb by lia.
    apply (Z.div_unique_pos _ _ _ (digits_value (take q l))); lia.
  - rewrite drop_ge by lia. simpl.
    pose proof (digits_value_bound l Hr) as Hb.
    symmetry. apply Z.div_small. split; [lia |].
    eapply Z.lt_le_trans; [apply Hb |]. apply pow256_mono. lia.
Qed.

(** A read of the source at or beyond the digits already stored in the
    destination, which may be the source. *)
Lemma wp_rd_ahead (dest x : ptr) xs bd ad ld ngd ds k j v
  (Q : Z -> state -> Prop) s :
  st_heap s !! dest = Some (mk_bigint bd 0 ad ld ngd) ->
  st_heap s !! x = Some xs -> bi_off xs = 0 ->
  bi_block xs !! j = Some v -> length ds = k -> k <= j ->
  Q v (upd dest (mk_bigint (ds ++ drop k bd) 0 ad ld ngd) s) ->
  wp (rd x j) Q (upd dest (mk_bigint (ds ++ drop k bd) 0 ad ld ngd) s).
Proof.
  intros Hd Hx Hoff Hv Hds Hkj HQ.
  destruct (decide (x = dest)) as [->|Hne].
  - unfold ptr in *. rewrite Hd in Hx. injection Hx as <-. simpl in Hv.
    eapply wp_rd; [apply heap_upd_eq | | exact HQ].
    simpl. rewrite lookup_app_r by lia. rewrite lookup_drop.
    rewrite <- Hv. f_equal. lia.
  - destruct xs as [bx ox ax lx nx]. simpl in Hoff, Hv. subst ox.
    eapply wp_rd; [| | exact HQ].
    + rewrite heap_upd_ne by done. exact Hx.
    + exact Hv.
Qed.

Lemma wp_get_length_source (dest x : ptr) xs xd y
  (Q : nat -> state -> Prop) s :
  st_heap s !! dest = Some xd -> st_heap s !! x = Some xs ->
  bi_length y = bi_length xd ->
  Q (bi_length xs) (upd dest y s) ->
  wp (get_length x) Q (upd dest y s).
Proof.
  intros Hd Hx Hy HQ.
  destruct (decide (x = dest)) as [->|Hne].
  - unfold ptr in *. rewrite Hd in Hx. injection Hx as <-.
    destruct y as [b o a l ng].
    eapply wp_get_length; [apply heap_upd_eq |]. simpl in Hy.
    rewrite <- Hy in HQ. exact HQ.
  - destruct xs as [b o a l ng].
    eapply wp_get_length; [by rewrite heap_upd_ne |]. exact HQ.
Qed.

Lemma write_up_step (ds bd : list Z) i v :
  length ds = i -> i < length bd ->
  <[i := v]> (ds ++ drop i bd) = (ds ++ [v]) ++ drop (S i) bd.
Proof.
  intros Hds Hi.
  destruct (lookup_lt_is_Some_2 bd i Hi) as [d Hd].
  rewrite (drop_S bd d i Hd).
  replace i with (length ds + 0) at 1 by lia.
  rewrite insert_app_r. simpl. by rewrite <- app_assoc.
Qed.

Lemma shr_digits_length o ds : length (shr_digits o ds) = length ds.
Proof. induction ds as [|d ds IH]; [done |]. simpl. by rewrite IH. Qed.

Lemma shr_at_digits o q len b :
  q < len -> len <= length b ->
  take (len - q) (shr_at o q len b <$> seq 0 len)
  = shr_digits o (drop q (take len b)).
Proof.
  intros Hq Hlen. apply list_eq. intros k.
  destruct (decide (k < len - q)) as [Hk|Hk].
  - rewrite lookup_take_lt by lia.
    rewrite list_lookup_fmap, lookup_seq_lt by lia. simpl.
    destruct (lookup_lt_is_Some_2 b (q + k) ltac:(lia)) as [v Hv].
    rewrite (shr_digits_lookup o _ k v)
      by (rewrite lookup_drop, lookup_take_lt by lia; exact Hv).
    unfold shr_at. rewrite Hv. f_equal. f_equal.
    rewrite lookup_drop.
    destruct (decide (q + 1 + k < len)) as [Hin|Hout].
    + rewrite lookup_take_lt by lia. do 2 f_equal. lia.
    + by rewrite lookup_take_ge by lia.
  - rewrite lookup_take_ge by lia. symmetry.
    apply lookup_ge_None_2.
    rewrite shr_digits_length, length_drop, length_take. lia.
Qed.

(** The end of [bigint_shri]: the result is cut to [k] digits, signed and
    normalised. *)
Lemma shri_finish (dest p : ptr) xp bd ad ld ngd R sh c k s :
  st_heap s !! p = Some xp ->
  st_heap s !! dest = Some (mk_bigint bd 0 ad ld ngd) ->
  length bd = ad -> 1 <= ad ->
  length R = bi_length xp -> bi_length xp <= ad ->
  bi_length xp - sh + c = k -> k <= bi_length xp ->
  Forall digit_range (take k R) ->
  wp (let* xlen := get_length p in
      resize dest (xlen - sh + c) ;;
      shift_done dest p)
     (fun r s' =>
        r = Some dest /\
        exists x', s' = upd dest x' s /\ wf_bigint x'
                   /\ value x' = (if bi_negative xp
                                  then - digits_value (take k R)
                                  else digits_value (take k R))%Z)
     (upd dest (mk_bigint (R ++ drop (bi_length xp) bd) 0 ad ld ngd) s).
Proof.
  intros Hp Hd Hld Had HR HL Hk HkL Hr.
  apply wp_bind.
  eapply (wp_get_length_source dest p xp _ _ _ s Hd Hp); [reflexivity |].
  rewrite Hk. apply wp_bind.
  eapply wp_resize; [apply heap_upd_eq | | exact Had |].
  { rewrite length_app, length_drop. lia. }
  intros a' Hfit Hgrow. rewrite upd_upd.
  destruct (source_sign dest p _ _
              (mk_bigint ((R ++ drop (bi_length xp) bd)
                          ++ replicate (a' - ad) 0%Z) 0 a' k ngd)
              s Hp Hd eq_refl) as (xp' & Hxp & Hng).
  assert (Htake : take k ((R ++ drop (bi_length xp) bd)
                          ++ replicate (a' - ad) 0%Z) = take k R).
  { rewrite <- app_assoc. by rewrite take_app_le by lia. }
  eapply wp_mono.
  { eapply (shift_done_spec dest p _ a' k ngd xp');
      [apply heap_upd_eq | exact Hxp | | lia | lia |].
    - rewrite !length_app, length_drop, length_replicate. lia.
    - by rewrite Htake. }
  intros r s' (-> & x' & -> & Hwf' & Hv'). split; [done |].
  exists x'. rewrite upd_upd. split_and!; try done.
  by rewrite Hv', Hng, Htake.
Qed.

Lemma shift_amount_div m n :
  (m / 2 ^ Z.of_nat n
   = m / 256 ^ Z.of_nat (n / Z.to_nat DIGIT_BITS)
       / 2 ^ Z.of_nat (n mod Z.to_nat DIGIT_BITS))%Z.
Proof.
  rewrite (shift_amount n).
  rewrite Z.div_div; [reflexivity | |].
  - apply Z.pow_nonzero; lia.
  - apply Z.pow_pos_nonneg; lia.
Qed.

Lemma quot_signed (ng : bool) m d :
  (0 <= m)%Z -> (0 < d)%Z ->
  Z.quot (if ng then - m else m) d = (if ng then - (m / d) else m / d)%Z.
Proof.
  intros Hm Hd. destruct ng.
  - rewrite Z.quot_opp_l by lia. by rewrite Z.quot_div_nonneg by lia.
  - by rewrite Z.quot_div_nonneg by lia.
Qed.

(** One iteration of each loop of [bigint_shri]; [i] digits are stored. *)
Lemma shri_aligned_step (dest p : ptr) bx ax L ngx bd ad ld ngd q i s :
  st_heap s !! p = Some (mk_bigint bx 0 ax L ngx) ->
  st_heap s !! dest = Some (mk_bigint bd 0 ad ld ngd) ->
  length bd = ad -> i + q < length bx -> i < ad ->
  wp (let* v := rd p (i + q) in wr dest i v)
     (fun _ s' =>
        s' = upd dest (mk_bigint (take (S i) (drop q bx) ++ drop (S i) bd)
                                 0 ad ld ngd) s)
     (upd dest (mk_bigint (take i (drop q bx) ++ drop i bd) 0 ad ld ngd) s).
Proof.
  intros Hp Hd Hld Hi Hia.
  destruct (lookup_lt_is_Some_2 bx (i + q) Hi) as [v Hv].
  apply wp_bind.
  eapply (wp_rd_ahead dest p _ bd ad ld ngd _ i (i + q) v);
    [exact Hd | exact Hp | reflexivity | exact Hv | | lia |].
  { rewrite length_take, length_drop. lia. }
  eapply wp_wr; [apply heap_upd_eq | |].
  { rewrite length_app, length_take, !length_drop. lia. }
  rewrite upd_upd. f_equal. f_equal. rewrite Nat.add_0_l.
  rewrite write_up_step by (rewrite ?length_take, ?length_drop; lia).
  f_equal. symmetry. apply take_S_r. rewrite lookup_drop.
  rewrite <- Hv. f_equal. lia.
Qed.

Lemma shri_unaligned_step (dest p : ptr) bx ax L ngx bd ad ld ngd o q i s :
  st_heap s !! p = Some (mk_bigint bx 0 ax L ngx) ->
  st_heap s !! dest = Some (mk_bigint bd 0 ad ld ngd) ->
  length bd = ad -> q + i < length bx -> L <= length bx -> i < ad ->
  wp (let* lsb := rd p (q + 1 + i - 1) in
      let* xlen := get_length p in
      let* msb := (if decide (q + 1 + i < xlen) then rd p (q + 1 + i)
                   else ret 0%Z) in
      wr dest i
         (Z.land DIGIT_MAX
            (Z.lor (Z.shiftl msb (DIGIT_BITS - Z.of_nat o))
                   (Z.shiftr lsb (Z.of_nat o)))))
     (fun _ s' =>
        s' = upd dest (mk_bigint ((shr_at o q L bx <$> seq 0 (S i))
                                  ++ drop (S i) bd) 0 ad ld ngd) s)
     (upd dest (mk_bigint ((shr_at o q L bx <$> seq 0 i) ++ drop i bd)
                          0 ad ld ngd) s).
Proof.
  intros Hp Hd Hld Hi HL Hia.
  destruct (lookup_lt_is_Some_2 bx (q + i) Hi) as [v Hv].
  replace (q + 1 + i - 1) with (q + i) by lia.
  apply wp_bind.
  eapply (wp_rd_ahead dest p _ bd ad ld ngd _ i (q + i) v);
    [exact Hd | exact Hp | reflexivity | exact Hv | | lia |].
  { rewrite length_fmap, length_seq. lia. }
  apply wp_bind.
  eapply (wp_get_length_source dest p _ _ _ _ s Hd Hp); [reflexivity |].
  cbn [bi_length].
  apply wp_bind.
  apply (wp_mono _
           (fun w s'' =>
              w = (if decide (q + 1 + i < L)
                   then default 0%Z (bx !! (q + 1 + i))
                   else 0%Z)
              /\ s'' = upd dest
                         (mk_bigint ((shr_at o q L bx <$> seq 0 i)
                                     ++ drop i bd)
                                    0 ad ld ngd) s)).
  { destruct (decide (q + 1 + i < L)) as [Hlt|Hge].
    - destruct (lookup_lt_is_Some_2 bx (q + 1 + i) ltac:(lia)) as [w Hw].
      eapply (wp_rd_ahead dest p _ bd ad ld ngd _ i (q + 1 + i) w);
        [exact Hd | exact Hp | reflexivity | exact Hw | | lia |].
      + rewrite length_fmap, length_seq. lia.
      + by rewrite Hw.
    - by apply wp_ret. }
  intros msb s'' [-> ->].
  eapply wp_wr; [apply heap_upd_eq | |].
  { rewrite length_app, length_fmap, length_seq, !length_drop. lia. }
  rewrite upd_upd. f_equal. f_equal. rewrite Nat.add_0_l.
  rewrite write_up_step by (rewrite ?length_fmap, ?length_seq; lia).
  f_equal. rewrite seq_S, fmap_app. simpl. f_equal.
  unfold shr_at. by rewrite Hv.
Qed.

Lemma bigint_shri_spec (dest p : ptr) x xd n s :
  st_heap s !! p = Some x -> wf_bigint x ->
  st_heap s !! dest = Some xd -> wf_buffer xd ->
  (0 < n < Z.to_nat DIGIT_BITS * bi_length x ->
   bi_length x + n / Z.to_nat DIGIT_BITS <= bi_allocated x
   /\ bi_length x <= bi_allocated xd) ->
  wp (bigint_shri (Some dest) p n)
     (fun r s' =>
        r = Some dest /\
        exists x', s' = upd dest x' s /\ wf_bigint x'
                   /\ value x' = Z.quot (value x) (2 ^ Z.of_nat n)) s.
Proof.
  intros Hp Hwf Hd Hbuf Hroom.
  pose proof (wf_magnitude_nonneg x Hwf) as Hnn.
  assert (Hpow : (0 < 2 ^ Z.of_nat n)%Z) by (apply Z.pow_pos_nonneg; lia).
  unfold bigint_shri. apply wp_bind. apply wp_ret.
  apply wp_bind. unfold bigint_eqz. apply wp_bind.
  destruct x as [bx ox ax L ngx].
  assert (ox = 0) as -> by (destruct Hwf as [[? _] _]; done).
  eapply wp_get_length; [exact Hp |]. apply wp_ret.
  pose proof Hwf as Hwf'.
  apply wf_bigint_unfold in Hwf' as (Hlx & Hax & HL & Hrx & Hlastx & Hzx).
  assert (Hmag : magnitude (mk_bigint bx 0 ax L ngx)
                 = digits_value (take L bx)).
  { unfold magnitude, live_digits. simpl. by rewrite drop_0. }
  assert (Hvx : value (mk_bigint bx 0 ax L ngx)
                = (if ngx then - digits_value (take L bx)
                   else digits_value (take L bx))%Z).
  { rewrite value_unfold. by rewrite Hmag. }
  rewrite Hmag in Hnn.
  cbn [bi_length bi_allocated] in Hroom.
  destruct (bool_decide (n = 0) || bool_decide (L = 0)) eqn:Hz.
  - (* nothing to shift *)
    assert (Hval : Z.quot (value (mk_bigint bx 0 ax L ngx)) (2 ^ Z.of_nat n)
                   = value (mk_bigint bx 0 ax L ngx)).
    { apply orb_true_iff in Hz as [Hz|Hz]; apply bool_decide_eq_true_1 in Hz.
      - subst n. simpl. apply Z.quot_1_r.
      - subst L. rewrite Hvx. rewrite take_0. simpl.
        destruct ngx; simpl; apply Z.quot_0_l; lia. }
    rewrite Hval.
    apply (shift_copy_spec dest p _ _ s Hp Hwf Hd Hbuf).
  - apply orb_false_iff in Hz as [Hn0 HL0].
    apply bool_decide_eq_false_1 in Hn0. apply bool_decide_eq_false_1 in HL0.
    apply wp_bind. eapply wp_get_length; [exact Hp |].
    destruct xd as [bd od ad ld ngd].
    destruct Hbuf as (Hod & Hld & Had). simpl in Hod, Hld, Had. subst od.
    cbn [bi_allocated] in Hroom.
    pose proof (digits_value_bound (take L bx) Hrx) as Hbound.
    rewrite length_take, Nat.min_l in Hbound by lia.
    destruct (decide (Z.to_nat DIGIT_BITS * L <= n)) as [Hout|Hin].
    + (* every bit is shifted out *)
      assert (Hsmall : (digits_value (take L bx) < 2 ^ Z.of_nat n)%Z).
      { eapply Z.lt_le_trans; [apply Hbound |]. rewrite pow256_pow2.
        apply Z.pow_le_mono_r; [lia |].
        change (Z.to_nat DIGIT_BITS) with 8 in Hout. lia. }
      apply wp_bind. eapply wp_mono.
      { apply (bigint_movui_digit dest _ 0%Z s Hd); [done | lia]. }
      intros [] s1 (x0 & -> & Hwf0 & Hv0 & Hng0 & Hlen0 & Hoff0 & Ha0).
      destruct x0 as [b0 o0 a0 l0 ng0]. simpl in Hng0, Hlen0, Hoff0, Ha0.
      subst o0 ng0 a0 l0.
      apply wf_bigint_unfold in Hwf0 as (Hl0 & Ha0 & _).
      assert (Hxp : exists xp,
                 st_heap (upd dest (mk_bigint b0 0 ad 0 false) s) !! p
                 = Some xp).
      { destruct (decide (p = dest)) as [->|Hne].
        - eexists. apply heap_upd_eq.
        - eexists. rewrite heap_upd_ne by done. exact Hp. }
      destruct Hxp as (xp & Hxp).
      eapply wp_mono.
      { eapply (shift_done_spec dest p b0 ad 0 false xp);
          [apply heap_upd_eq | exact Hxp | done | lia | lia |].
        rewrite take_0. constructor. }
      intros r s' (-> & x' & -> & Hwf' & Hv'). split; [done |].
      exists x'. rewrite upd_upd. split_and!; try done.
      rewrite Hv'. rewrite take_0. simpl digits_value.
      rewrite Hvx. rewrite quot_signed by lia.
      rewrite Z.div_small by lia.
      by destruct (bi_negative xp), ngx.
    + cbv zeta.
      pose proof (shift_amount_div (digits_value (take L bx)) n) as Hshift.
      pose proof (Nat.div_mod_eq n (Z.to_nat DIGIT_BITS)) as Hdm.
      pose proof (Nat.mod_upper_bound n (Z.to_nat DIGIT_BITS)
                    ltac:(by vm_compute)) as Hub.
      destruct Hroom as [Hrs Hrd];
        [change (Z.to_nat DIGIT_BITS) with 8 in *; lia |].
      set (o := n mod Z.to_nat DIGIT_BITS) in *.
      set (q := n / Z.to_nat DIGIT_BITS) in *.
      change (Z.to_nat DIGIT_BITS) with 8 in Hdm, Hub, Hin.
      clearbody o q.
      assert (HqL : q < L) by lia.
      assert (Hdrop : Forall digit_range (drop q (take L bx)))
        by (by apply Forall_drop).
      assert (Hdv : digits_value (drop q (take L bx))
                    = (digits_value (take L bx) / 256 ^ Z.of_nat q)%Z)
        by (by apply digits_value_drop).
      set (sh := q + (if decide (o <> 0) then 1 else 0)).
      apply wp_bind.
      destruct (decide (o = 0)) as [Ho|Ho].
      * (* whole digits *)
        assert (Hsh : sh = q) by (unfold sh; rewrite decide_False by lia; lia).
        clearbody sh. subst sh. rewrite decide_False by lia.
        eapply wp_mono.
        { apply (wp_for_range
                   (fun i (_ : unit) s' =>
                      s' = upd dest
                             (mk_bigint (take i (drop q bx) ++ drop i bd)
                                        0 ad ld ngd) s)
                   L 0).
          - simpl. rewrite drop_0. symmetry. by apply upd_same.
          - intros i [] s' Hi ->.
            apply (shri_aligned_step dest p bx ax L ngx bd ad ld ngd q i s
                     Hp Hd Hld); lia. }
        intros [] s' ->. rewrite Nat.add_0_l.
        assert (Hlive : take (L - q) (take L (drop q bx))
                        = drop q (take L bx)).
        { rewrite take_take, Nat.min_l by lia.
          rewrite take_drop_commute. do 2 f_equal. lia. }
        eapply wp_mono.
        { eapply (shri_finish dest p (mk_bigint bx 0 ax L ngx) bd ad ld ngd
                    (take L (drop q bx)) q 0 (L - q) s Hp Hd Hld Had);
            cbn [bi_length].
          - rewrite length_take, length_drop. lia.
          - exact Hrd.
          - lia.
          - lia.
          - by rewrite Hlive. }
        intros r s' (-> & x' & -> & Hwf' & Hv'). split; [done |].
        exists x'. split_and!; try done.
        rewrite Hv'. cbn [bi_negative]. rewrite Hlive, Hdv.
        rewrite Hvx. rewrite quot_signed by lia.
        rewrite Hshift. rewrite Ho. simpl (2 ^ Z.of_nat 0)%Z.
        by rewrite Z.div_1_r.
      * (* a shift inside the digits *)
        assert (Hsh : sh = q + 1)
          by (unfold sh; rewrite decide_True by lia; lia).
        clearbody sh. subst sh. rewrite decide_True by lia.
        eapply wp_mono.
        { apply (wp_for_range
                   (fun i (_ : unit) s' =>
                      s' = upd dest
                             (mk_bigint ((shr_at o q L bx <$> seq 0 i)
                                         ++ drop i bd)
                                        0 ad ld ngd) s)
                   L 0).
          - simpl. rewrite drop_0. symmetry. by apply upd_same.
          - intros i [] s' Hi ->.
            apply (shri_unaligned_step dest p bx ax L ngx bd ad ld ngd o q i
                     s Hp Hd Hld); lia. }
        intros [] s' ->. rewrite Nat.add_0_l.
        pose proof (shr_at_digits o q L bx HqL ltac:(lia)) as Hlive.
        destruct (shr_digits_value o (drop q (take L bx)) ltac:(lia) Hdrop)
          as (HRv & HRr & _).
        eapply wp_mono.
        { eapply (shri_finish dest p (mk_bigint bx 0 ax L ngx) bd ad ld ngd
                    (shr_at o q L bx <$> seq 0 L) (q + 1) 1 (L - q) s
                    Hp Hd Hld Had);
            cbn [bi_length].
          - by rewrite length_fmap, length_seq.
          - exact Hrd.
          - lia.
          - lia.
          - by rewrite Hlive. }
        intros r s' (-> & x' & -> & Hwf' & Hv'). split; [done |].
        exists x'. split_and!; try done.
        rewrite Hv'. cbn [bi_negative]. rewrite Hlive, HRv, Hdv.
        rewrite Hvx. rewrite quot_signed by lia.
        by rewrite Hshift.
Qed.

(** X24.  [bigint_shri(dest, x, n)] divides by [2 ^ n] and truncates towards
    zero: -3 shifted by one bit is -1, not -2.  The result is [dest], or a
    new structure when [dest] is [NULL], it satisfies the representation
    invariants, and no other structure changes; [dest] may be [x].  When
    some but not all digits are shifted out, the loop reads the digits of
    [x] up to index [length - 1 + n / DIGIT_BITS] and writes [length]
    digits to [dest], so the block of [x] has to reach that far and the
    one of [dest] has to hold [length] digits. *)
Theorem bigint_shri_value s dest p x n :
  st_heap s !! p = Some x -> wf_bigint x -> dest_ok s dest -> heap_ok s ->
  (0 < n < Z.to_nat DIGIT_BITS * bi_length x ->
   bi_length x + n / Z.to_nat DIGIT_BITS <= bi_allocated x
   /\ forall d xd, dest = Some d -> st_heap s !! d = Some xd ->
                   bi_length x <= bi_allocated xd) ->
  exists r x' s',
    bigint_shri dest p n s = Done (Some r, s')
    /\ r = default (st_next s) dest
    /\ st_heap s' !! r = Some x'
    /\ wf_bigint x' /\ value x' = Z.quot (value x) (2 ^ Z.of_nat n)
    /\ (forall q, q <> r -> st_heap s' !! q = st_heap s !! q).
Proof.
  intros Hp Hwf Hdest Hok Hroom.
  destruct dest as [d|]; simpl default.
  - destruct Hdest as (xd & Hd & Hbuf).
    assert (Hroom' : 0 < n < Z.to_nat DIGIT_BITS * bi_length x ->
                     bi_length x + n / Z.to_nat DIGIT_BITS <= bi_allocated x
                     /\ bi_length x <= bi_allocated xd).
    { intros Hn. destruct (Hroom Hn) as [H1 H2]. split; [exact H1 |].
      by apply (H2 d xd). }
    destruct (wp_done _ _ _
                (bigint_shri_spec d p x xd n s Hp Hwf Hd Hbuf Hroom'))
      as (r & s' & Hrun & -> & x' & -> & Hwf' & Hv).
    exists d, x', (upd d x' s). split_and!; try done.
    + apply heap_upd_eq.
    + intros q Hq. by apply heap_upd_ne.
  - pose proof (wf_in_bounds x Hwf) as Hb.
    assert (Hne : p <> st_next s) by (by eapply heap_ok_ne).
    assert (Hp' : st_heap (with_new (dup_of x) s) !! p = Some x)
      by (by rewrite heap_with_new_ne).
    assert (Hroom' : 0 < n < Z.to_nat DIGIT_BITS * bi_length x ->
                     bi_length x + n / Z.to_nat DIGIT_BITS <= bi_allocated x
                     /\ bi_length x <= bi_allocated (dup_of x)).
    { intros Hn. destruct (Hroom Hn) as [H1 _]. split; [exact H1 |].
      simpl. apply Hwf. }
    pose proof (bigint_shri_spec (st_next s) p x (dup_of x) n
                  (with_new (dup_of x) s) Hp' Hwf
                  (heap_with_new_eq _ _)
                  (wf_bigint_buffer _ (dup_of_wf x Hwf)) Hroom') as Hrun.
    assert (Hall : wp (bigint_shri None p n)
              (fun r s' =>
                 r = Some (st_next s) /\
                 exists x', s' = with_new x' s /\ wf_bigint x'
                            /\ value x' = Z.quot (value x) (2 ^ Z.of_nat n))
              s).
    { unfold bigint_shri. apply wp_bind. eapply wp_mono.
      { apply (bigint_dup_spec p x s Hp Hb). apply Hwf. }
      intros r s1 (-> & ->).
      unfold bigint_shri in Hrun. unfold wp in Hrun at 1.
      unfold bind at 1 in Hrun. unfold ret at 1 in Hrun.
      eapply wp_mono; [exact Hrun |].
      intros r s' (-> & x' & -> & Hwf' & Hv). split; [done |].
      exists x'. by rewrite upd_with_new. }
    destruct (wp_done _ _ _ Hall) as (r & s' & Hrun' & -> & x' & -> & Hwf' & Hv).
    exists (st_next s), x', (with_new x' s). split_and!; try done.
    + apply heap_with_new_eq.
    + intros q Hq. by apply heap_with_new_ne.
Qed.

(** -768 shifted right by 9 bits. *)
Lemma bigint_shri_value_witness :
  let s := sample_state (sample [0%Z; 3%Z] true) in
  let dest := None in
  let p := 0 in
  let x := sample [0%Z; 3%Z] true in
  let n := 9 in
  exists r x' s',
    bigint_shri dest p n s = Done (Some r, s')
    /\ r = default (st_next s) dest
    /\ st_heap s' !! r = Some x'
    /\ wf_bigint x' /\ value x' = Z.quot (value x) (2 ^ Z.of_nat n)
    /\ (forall q, q <> r -> st_heap s' !! q = st_heap s !! q).
Proof.
  intros s dest p x n.
  apply (bigint_shri_value s dest p x n).
  - reflexivity.
  - apply (@bool_decide_unpack _ (wf_bigint_dec _)). vm_compute. exact I.
  - exact I.
  - apply (@bool_decide_unpack _ (heap_ok_dec _)). vm_compute. exact I.
  - intros _. split; [simpl; lia |]. intros d xd Hd. discriminate Hd.
Defined.

(** ** Reads and writes outside the digit block *)

Lemma rd_undefined p i b o a l ng s :
  st_heap s !! p = Some (mk_bigint b o a l ng) -> b !! (o + i) = None ->
  rd p i s = Undefined.
Proof.
  intros Hp Hv. unfold rd, bind, load. rewrite Hp. simpl. by rewrite Hv.
Qed.

Lemma wr_undefined p i v b o a l ng s :
  st_heap s !! p = Some (mk_bigint b o a l ng) -> length b <= o + i ->
  wr p i v s = Undefined.
Proof.
  intros Hp Hv. unfold wr, bind, load. rewrite Hp. simpl.
  by rewrite decide_False by lia.
Qed.

(** A loop whose iteration [i0] is undefined, the ones before it keeping
    [I]. *)
Lemma for_range_undefined {St} (I : nat -> St -> state -> Prop) n :
  forall lo (body : nat -> St -> M St) st s i0,
    lo <= i0 < lo + n ->
    I lo st s ->
    (forall i st s, lo <= i < i0 -> I i st s ->
                    wp (body i st) (I (S i)) s) ->
    (forall st s, I i0 st s -> body i0 st s = Undefined) ->
    for_range n lo body st s = Undefined.
Proof.
  induction n as [|n IH]; intros lo body st s i0 Hi H0 Hstep Hfail; [lia |].
  simpl. destruct (decide (lo = i0)) as [->|Hne].
  - apply bind_undefined. by apply Hfail.
  - destruct (wp_done _ _ _ (Hstep lo st s ltac:(lia) H0))
      as (st' & s' & Hrun & HI).
    rewrite (bind_eq _ _ s st' s' Hrun).
    apply (IH (S lo) body st' s' i0); [lia | exact HI | | exact Hfail].
    intros i st2 s2 Hi2. apply Hstep. lia.
Qed.

(** The read of the source at [j] when its block ends before [j]. *)
Lemma rd_source_past (dest p : ptr) bx ax L ngx bd ad ld ngd ds i j s :
  st_heap s !! p = Some (mk_bigint bx 0 ax L ngx) ->
  st_heap s !! dest = Some (mk_bigint bd 0 ad ld ngd) ->
  length bd = ad -> length ds <= i -> i <= ad ->
  length bx <= j -> (dest = p -> ad <= j) ->
  rd p j (upd dest (mk_bigint (ds ++ drop i bd) 0 ad ld ngd) s) = Undefined.
Proof.
  intros Hp Hd Hld Hds Hi Hj Hj'.
  destruct (decide (p = dest)) as [->|Hne].
  - eapply rd_undefined; [apply heap_upd_eq |].
    specialize (Hj' eq_refl).
    apply lookup_ge_None_2. rewrite length_app, length_drop. simpl. lia.
  - eapply rd_undefined; [by rewrite heap_upd_ne |].
    apply lookup_ge_None_2. simpl. lia.
Qed.

Lemma rd_source_done (dest p : ptr) bx ax L ngx bd ad ld ngd ds i j s :
  st_heap s !! p = Some (mk_bigint bx 0 ax L ngx) ->
  st_heap s !! dest = Some (mk_bigint bd 0 ad ld ngd) ->
  length ds = i -> i <= j -> j < length bx ->
  exists v,
    rd p j (upd dest (mk_bigint (ds ++ drop i bd) 0 ad ld ngd) s)
    = Done (v, upd dest (mk_bigint (ds ++ drop i bd) 0 ad ld ngd) s).
Proof.
  intros Hp Hd Hds Hij Hj.
  destruct (lookup_lt_is_Some_2 bx j Hj) as [v Hv].
  assert (H : wp (rd p j)
                 (fun _ s' =>
                    s' = upd dest (mk_bigint (ds ++ drop i bd) 0 ad ld ngd) s)
                 (upd dest (mk_bigint (ds ++ drop i bd) 0 ad ld ngd) s)).
  { by eapply (wp_rd_ahead dest p _ bd ad ld ngd ds i j v);
      [exact Hd | exact Hp | reflexivity | exact Hv | exact Hds | exact Hij |]. }
  destruct (wp_done _ _ _ H) as (w & s' & Hrun & ->). by exists w.
Qed.

Lemma get_length_source_done (dest p : ptr) bx ax L ngx bd ad ld ngd b' s :
  st_heap s !! p = Some (mk_bigint bx 0 ax L ngx) ->
  st_heap s !! dest = Some (mk_bigint bd 0 ad ld ngd) ->
  get_length p (upd dest (mk_bigint b' 0 ad ld ngd) s)
  = Done (L, upd dest (mk_bigint b' 0 ad ld ngd) s).
Proof.
  intros Hp Hd.
  assert (H : wp (get_length p)
                 (fun l s' =>
                    l = L /\ s' = upd dest (mk_bigint b' 0 ad ld ngd) s)
                 (upd dest (mk_bigint b' 0 ad ld ngd) s)).
  { by eapply (wp_get_length_source dest p _ _ _ _ s Hd Hp). }
  by destruct (wp_done _ _ _ H) as (l & s' & Hrun & -> & ->).
Qed.

Lemma bigint_shri_undefined (dest p : ptr) x xd n s :
  st_heap s !! p = Some x -> wf_bigint x ->
  st_heap s !! dest = Some xd -> wf_buffer xd ->
  0 < n < Z.to_nat DIGIT_BITS * bi_length x ->
  bi_allocated x < bi_length x + n / Z.to_nat DIGIT_BITS
  \/ bi_allocated xd < bi_length x ->
  bigint_shri (Some dest) p n s = Undefined.
Proof.
  intros Hp Hwf Hd Hbuf Hn Hroom.
  destruct x as [bx ox ax L ngx].
  assert (ox = 0) as -> by (destruct Hwf as [[? _] _]; done).
  pose proof Hwf as Hwf'.
  apply wf_bigint_unfold in Hwf' as (Hlx & Hax & HL & Hrx & Hlastx & Hzx).
  destruct xd as [bd od ad ld ngd].
  destruct Hbuf as (Hod & Hld & Had). simpl in Hod, Hld, Had. subst od.
  cbn [bi_length bi_allocated] in Hn, Hroom.
  assert (Hsame : dest = p -> ad = ax).
  { intros ->. unfold ptr in *. rewrite Hd in Hp. by injection Hp as -> -> -> ->. }
  unfold bigint_shri.
  rewrite (bind_eq _ _ s dest s) by reflexivity.
  assert (Hz : bigint_eqz p s = Done (bool_decide (L = 0), s)).
  { unfold bigint_eqz. by rewrite (bind_eq _ _ s L s)
      by (by rewrite (get_length_eq p _ s Hp)). }
  rewrite (bind_eq _ _ s _ s Hz).
  rewrite bool_decide_eq_false_2 by lia.
  rewrite bool_decide_eq_false_2 by lia. cbn [orb].
  rewrite (bind_eq _ _ s L s) by (by rewrite (get_length_eq p _ s Hp)).
  rewrite decide_False by lia. cbv zeta.
  pose proof (Nat.div_mod_eq n (Z.to_nat DIGIT_BITS)) as Hdm.
  pose proof (Nat.mod_upper_bound n (Z.to_nat DIGIT_BITS)
                ltac:(by vm_compute)) as Hub.
  set (o := n mod Z.to_nat DIGIT_BITS) in *.
  set (q := n / Z.to_nat DIGIT_BITS) in *.
  change (Z.to_nat DIGIT_BITS) with 8 in Hdm, Hub, Hn.
  clearbody o q.
  assert (HqL : q < L) by lia.
  set (i0 := Nat.min (ax - q) ad).
  assert (Hi0 : i0 < L) by lia.
  assert (Hfail : ax <= i0 + q \/ (ad <= i0 /\ i0 + q < ax)) by lia.
  assert (Hi0a : i0 <= ad) by lia.
  assert (Hs0 : s = upd dest (mk_bigint bd 0 ad ld ngd) s)
    by (symmetry; by apply upd_same).
  set (sh := q + (if decide (o <> 0) then 1 else 0)).
  apply bind_undefined.
  destruct (decide (o = 0)) as [Ho|Ho].
  - assert (Hsh : sh = q) by (unfold sh; rewrite decide_False by lia; lia).
    clearbody sh. subst sh.
    apply (for_range_undefined
             (fun i (_ : unit) s' =>
                s' = upd dest
                       (mk_bigint (take i (drop q bx) ++ drop i bd)
                                  0 ad ld ngd) s)
             L 0 _ tt s i0); [lia | | |].
    + simpl. by rewrite drop_0.
    + intros i [] s' Hi ->.
      apply (shri_aligned_step dest p bx ax L ngx bd ad ld ngd q i s
               Hp Hd Hld); lia.
    + intros [] s' ->.
      assert (Hds : length (take i0 (drop q bx)) = i0)
        by (rewrite length_take, length_drop; lia).
      destruct Hfail as [Hrd|[Hwr Hin]].
      * apply bind_undefined.
        apply (rd_source_past dest p bx ax L ngx bd ad ld ngd _ i0 (i0 + q) s
                 Hp Hd Hld); lia.
      * destruct (rd_source_done dest p bx ax L ngx bd ad ld ngd
                    (take i0 (drop q bx)) i0 (i0 + q) s Hp Hd Hds
                    ltac:(lia) ltac:(lia)) as [v Hv].
        rewrite (bind_eq _ _ _ _ _ Hv).
        eapply wr_undefined; [apply heap_upd_eq |].
        rewrite length_app, length_drop. lia.
  - assert (Hsh : sh = q + 1) by (unfold sh; rewrite decide_True by lia; lia).
    clearbody sh. subst sh.
    apply (for_range_undefined
             (fun i (_ : unit) s' =>
                s' = upd dest
                       (mk_bigint ((shr_at o q L bx <$> seq 0 i)
                                   ++ drop i bd)
                                  0 ad ld ngd) s)
             L 0 _ tt s i0); [lia | | |].
    + simpl. by rewrite drop_0.
    + intros i [] s' Hi ->.
      apply (shri_unaligned_step dest p bx ax L ngx bd ad ld ngd o q i
               s Hp Hd Hld); lia.
    + intros [] s' ->.
      assert (Hds : length (shr_at o q L bx <$> seq 0 i0) = i0)
        by (by rewrite length_fmap, length_seq).
      replace (q + 1 + i0 - 1) with (i0 + q) by lia.
      destruct Hfail as [Hrd|[Hwr Hin]].
      * apply bind_undefined.
        apply (rd_source_past dest p bx ax L ngx bd ad ld ngd _ i0 (i0 + q) s
                 Hp Hd Hld); lia.
      * destruct (rd_source_done dest p bx ax L ngx bd ad ld ngd
                    (shr_at o q L bx <$> seq 0 i0) i0 (i0 + q) s Hp Hd Hds
                    ltac:(lia) ltac:(lia)) as [v Hv].
        rewrite (bind_eq _ _ _ _ _ Hv).
        rewrite (bind_eq _ _ _ _ _
                   (get_length_source_done dest p bx ax L ngx bd ad ld ngd
                      _ s Hp Hd)).
        destruct (decide (q + 1 + i0 < L)) as [Hlt|Hge].
        -- destruct (rd_source_done dest p bx ax L ngx bd ad ld ngd
                       (shr_at o q L bx <$> seq 0 i0) i0 (q + 1 + i0) s
                       Hp Hd Hds ltac:(lia) ltac:(lia)) as [w Hw].
           rewrite (bind_eq _ _ _ _ _ Hw).
           eapply wr_undefined; [apply heap_upd_eq |].
           rewrite length_app, length_drop. lia.
        -- rewrite (bind_eq _ _ _ 0%Z _) by reflexivity.
           eapply wr_undefined; [apply heap_upd_eq |].
           rewrite length_app, length_drop. lia.
Qed.

(** X25.  [bigint_shri(dest, x, n)] with [0 < n < DIGIT_BITS * length] reads
    [x->digits[i + n / DIGIT_BITS]] for every [i] below the length and
    writes [dest->digits[i]] without resizing [dest].  When the block of
    [x] has fewer than [length + n / DIGIT_BITS] digits, or the one of a
    given [dest] fewer than [length], the call goes beyond the end of a
    block: undefined behaviour. *)
Theorem bigint_shri_out_of_bounds s dest p x n :
  st_heap s !! p = Some x -> wf_bigint x -> dest_ok s dest -> heap_ok s ->
  0 < n < Z.to_nat DIGIT_BITS * bi_length x ->
  bi_allocated x < bi_length x + n / Z.to_nat DIGIT_BITS
  \/ (exists d xd, dest = Some d /\ st_heap s !! d = Some xd
                   /\ bi_allocated xd < bi_length x) ->
  bigint_shri dest p n s = Undefined.
Proof.
  intros Hp Hwf Hdest Hok Hn Hroom.
  destruct dest as [d|].
  - destruct Hdest as (xd & Hd & Hbuf).
    apply (bigint_shri_undefined d p x xd n s Hp Hwf Hd Hbuf Hn).
    destruct Hroom as [H|(d' & xd' & Hd' & Hxd' & H)]; [by left |].
    injection Hd' as <-. rewrite Hd in Hxd'. injection Hxd' as <-.
    by right.
  - destruct Hroom as [Hroom|(d' & xd' & Hd' & _)]; [| done].
    pose proof (wf_in_bounds x Hwf) as Hb.
    assert (Hne : p <> st_next s) by (by eapply heap_ok_ne).
    assert (Hp' : st_heap (with_new (dup_of x) s) !! p = Some x)
      by (by rewrite heap_with_new_ne).
    pose proof (bigint_shri_undefined (st_next s) p x (dup_of x) n
                  (with_new (dup_of x) s) Hp' Hwf
                  (heap_with_new_eq _ _)
                  (wf_bigint_buffer _ (dup_of_wf x Hwf)) Hn
                  (or_introl Hroom)) as Hrun.
    assert (Hdup : wp (bigint_dup p)
                      (fun q s' => q = st_next s
                                   /\ s' = with_new (dup_of x) s) s).
    { apply (bigint_dup_spec p x s Hp Hb). apply Hwf. }
    destruct (wp_done _ _ _ Hdup) as (q & s1 & Hrun1 & -> & ->).
    unfold bigint_shri. rewrite (bind_eq _ _ _ _ _ Hrun1).
    unfold bigint_shri in Hrun.
    rewrite (bind_eq _ _ _ (st_next s) _) in Hrun by reflexivity.
    exact Hrun.
Qed.

(** 2^64 in a block of 16 digits, shifted right by 64 bits. *)
Lemma bigint_shri_out_of_bounds_witness :
  let s := sample_state (sample (replicate 8 0%Z ++ [1%Z]) false) in
  let dest := None in
  let p := 0 in
  let x := sample (replicate 8 0%Z ++ [1%Z]) false in
  let n := 64 in
  bigint_shri dest p n s = Undefined.
Proof.
  intros s dest p x n.
  apply (bigint_shri_out_of_bounds s dest p x n).
  - reflexivity.
  - apply (@bool_decide_unpack _ (wf_bigint_dec _)). vm_compute. exact I.
  - exact I.
  - apply (@bool_decide_unpack _ (heap_ok_dec _)). vm_compute. exact I.
  - simpl. lia.
  - left. simpl. lia.
Defined.

(** ** Formatter: argument checks and zero *)

Lemma snbprint_invalid_base buf p x base s :
  st_heap s !! p = Some x -> ~ valid_base base ->
  bigint_snbprint buf p base s = Done ((-1, buf)%Z, with_errno EINVAL s).
Proof.
  intros Hp Hb. unfold bigint_snbprint.
  rewrite (bind_eq _ _ s _ s (get_negative_eq p x s Hp)). cbv zeta.
  rewrite decide_True by (unfold valid_base in Hb; lia).
  reflexivity.
Qed.

Lemma snbprint_short_buffer buf p x base s :
  st_heap s !! p = Some x -> valid_base base ->
  length buf < (if decide (base = 10%Z) then 2 else 4)
               + (if bi_negative x then 1 else 0) ->
  bigint_snbprint buf p base s = Done ((-1, buf)%Z, with_errno ERANGE s).
Proof.
  intros Hp Hb Hlen. unfold bigint_snbprint.
  rewrite (bind_eq _ _ s _ s (get_negative_eq p x s Hp)). cbv zeta.
  rewrite decide_False by (unfold valid_base in Hb; lia).
  destruct (decide (base = 10%Z)) as [->|Hne].
  - rewrite decide_False by lia.
    rewrite decide_True by lia. reflexivity.
  - rewrite decide_True by done.
    rewrite decide_True by lia. reflexivity.
Qed.

Lemma snbprint_zero buf p x base s :
  st_heap s !! p = Some x -> wf_bigint x -> value x = 0%Z ->
  valid_base base ->
  (if decide (base = 10%Z) then 2 else 4) <= length buf ->
  exists buf',
    bigint_snbprint buf p base s
    = Done ((Z.of_nat (length (radix_prefix base ++ [chr "0"])), buf'), s)
    /\ c_str buf' = radix_prefix base ++ [chr "0"]
    /\ length buf' = length buf.
Proof.
  intros Hp Hwf Hv Hb Hlen.
  destruct (wf_value_sign x Hwf) as (_ & Hzero).
  assert (Hl : bi_length x = 0) by (by apply Hzero).
  assert (Hng : bi_negative x = false) by (destruct Hwf as (_ & _ & _ & _ & H2); by apply H2).
  unfold bigint_snbprint.
  rewrite (bind_eq _ _ s _ s (get_negative_eq p x s Hp)). cbv zeta.
  rewrite Hng.
  rewrite decide_False by (unfold valid_base in Hb; lia).
  assert (Hz : bigint_eqz p s = Done (true, s)).
  { unfold bigint_eqz. rewrite (bind_eq _ _ s _ s (get_length_eq p x s Hp)).
    rewrite Hl. reflexivity. }
  unfold radix_prefix.
  destruct (decide (base = 10%Z)) as [->|Hne].
  - rewrite decide_False by lia. rewrite decide_False by (simpl; lia).
    rewrite (bind_eq _ _ s (Some (buf, 0)) s) by reflexivity.
    rewrite (bind_eq _ _ s _ s Hz).
    destruct buf as [|b0 [|b1 rest]]; simpl in Hlen; try lia.
    eexists. split; [reflexivity |]. split; reflexivity.
  - rewrite decide_True by done. rewrite decide_False by (simpl; lia).
    destruct buf as [|b0 [|b1 [|b2 [|b3 rest]]]]; simpl in Hlen; try lia.
    set (letter := if decide (base = 2%Z) then chr "b"
                   else if decide (base = 8%Z) then chr "o" else chr "x").
    assert (Hstart :
              (let* buf := strcpy_at (b0 :: b1 :: b2 :: b3 :: rest) 0
                             ([] ++ [chr "0"; letter]) in
               ret (Some (buf, 2 + 0))) s
              = Done (Some (chr "0" :: letter :: 0%Z :: b3 :: rest, 2), s))
      by reflexivity.
    rewrite (bind_eq _ _ s _ s Hstart).
    rewrite (bind_eq _ _ s _ s Hz).
    eexists. split; [reflexivity |].
    unfold letter.
    destruct (decide (base = 2%Z)); [by split |].
    destruct (decide (base = 8%Z)); by split.
Qed.

Lemma tostrb_invalid_base p x base s :
  st_heap s !! p = Some x -> ~ valid_base base ->
  bigint_tostrb p base s = Done (None, with_errno EINVAL s).
Proof.
  intros Hp Hb. unfold bigint_tostrb.
  assert (Hload : load p s = Done (x, s)) by (unfold load; by rewrite Hp).
  rewrite (bind_eq _ _ s _ s Hload). cbv zeta.
  unfold valid_base in Hb.
  rewrite decide_False by lia. rewrite decide_False by lia.
  rewrite decide_False by lia. reflexivity.
Qed.

Lemma tostrb_zero p x base s :
  st_heap s !! p = Some x -> wf_bigint x -> value x = 0%Z ->
  valid_base base ->
  bigint_tostrb p base s = Done (Some (radix_prefix base ++ [chr "0"]), s).
Proof.
  intros Hp Hwf Hv Hb.
  destruct (wf_value_sign x Hwf) as (_ & Hzero).
  assert (Hl : bi_length x = 0) by (by apply Hzero).
  assert (Hng : bi_negative x = false)
    by (destruct Hwf as (_ & _ & _ & _ & H2); by apply H2).
  unfold bigint_tostrb.
  assert (Hload : load p s = Done (x, s)) by (unfold load; by rewrite Hp).
  rewrite (bind_eq _ _ s _ s Hload). cbv zeta.
  rewrite Hl, Hng.
  assert (Hprint : forall n,
            (if decide (base = 10%Z) then 2 else 4) <= n ->
            exists buf',
              bigint_snbprint (replicate n (st_junk s)) p base s
              = Done ((Z.of_nat (length (radix_prefix base ++ [chr "0"])),
                       buf'), s)
              /\ c_str buf' = radix_prefix base ++ [chr "0"]).
  { intros n Hn.
    destruct (snbprint_zero (replicate n (st_junk s)) p x base s
                Hp Hwf Hv Hb) as (buf' & Hrun & Hstr & _).
    - by rewrite length_replicate.
    - by exists buf'. }
  destruct Hb as [->|[->|[->| ->]]].
  all: repeat first [rewrite decide_True by lia | rewrite decide_False by lia].
  all: rewrite (bind_eq _ _ s (st_junk s) s) by reflexivity.
  all: match goal with
       | |- context [replicate ?n _] =>
           let n' := eval vm_compute in n in
           change n with n';
           destruct (Hprint n' ltac:(simpl; lia)) as (buf' & Hrun & Hstr)
       end.
  all: rewrite (bind_eq _ _ s _ s Hrun).
  all: rewrite decide_False by lia.
  all: by rewrite Hstr.
Qed.

(** X26.  [bigint_snbprint] and [bigint_tostrb] at their edges.  A base other
    than 2, 8, 10 and 16 gives -1, respectively [NULL], with
    [errno = EINVAL].  A buffer too small for the sign, the radix prefix,
    one digit and the terminator (2 bytes for base 10 and 4 otherwise, plus
    1 for a negative number) gives -1 with [errno = ERANGE], and the
    buffer is not written.  Zero is printed as the radix prefix followed
    by one 0 digit; [bigint_snbprint] returns the length of that text. *)
Theorem bigint_format_edge s p x buf base :
  st_heap s !! p = Some x -> wf_bigint x ->
  (~ valid_base base ->
   bigint_snbprint buf p base s = Done ((-1, buf)%Z, with_errno EINVAL s)
   /\ bigint_tostrb p base s = Done (None, with_errno EINVAL s))
  /\ (valid_base base ->
      length buf < (if decide (base = 10%Z) then 2 else 4)
                   + (if bi_negative x then 1 else 0) ->
      bigint_snbprint buf p base s = Done ((-1, buf)%Z, with_errno ERANGE s))
  /\ (valid_base base -> value x = 0%Z ->
      bigint_tostrb p base s
      = Done (Some (radix_prefix base ++ [chr "0"]), s)
      /\ ((if decide (base = 10%Z) then 2 else 4) <= length buf ->
          exists buf',
            bigint_snbprint buf p base s
            = Done ((Z.of_nat (length (radix_prefix base ++ [chr "0"])),
                     buf'), s)
            /\ c_str buf' = radix_prefix base ++ [chr "0"]
            /\ length buf' = length buf)).
Proof.
  intros Hp Hwf. split_and!.
  - intros Hb. split; [by eapply snbprint_invalid_base
                      | by eapply tostrb_invalid_base].
  - intros Hb Hlen. by eapply snbprint_short_buffer.
  - intros Hb Hv. split; [by eapply tostrb_zero |].
    intros Hlen. by eapply snbprint_zero.
Qed.

(** Zero in base 16 and a buffer of 8 bytes. *)
Lemma bigint_format_edge_witness :
  let s := sample_state (sample [] false) in
  let p := 0 in
  let x := sample [] false in
  let buf := replicate 8 0%Z in
  let base := 16%Z in
  (~ valid_base base ->
   bigint_snbprint buf p base s = Done ((-1, buf)%Z, with_errno EINVAL s)
   /\ bigint_tostrb p base s = Done (None, with_errno EINVAL s))
  /\ (valid_base base ->
      length buf < (if decide (base = 10%Z) then 2 else 4)
                   + (if bi_negative x then 1 else 0) ->
      bigint_snbprint buf p base s = Done ((-1, buf)%Z, with_errno ERANGE s))
  /\ (valid_base base -> value x = 0%Z ->
      bigint_tostrb p base s
      = Done (Some (radix_prefix base ++ [chr "0"]), s)
      /\ ((if decide (base = 10%Z) then 2 else 4) <= length buf ->
          exists buf',
            bigint_snbprint buf p base s
            = Done ((Z.of_nat (length (radix_prefix base ++ [chr "0"])),
                     buf'), s)
            /\ c_str buf' = radix_prefix base ++ [chr "0"]
            /\ length buf' = length buf)).
Proof.
  intros s p x buf base.
  apply (bigint_format_edge s p x buf base).
  - reflexivity.
  - apply (@bool_decide_unpack _ (wf_bigint_dec _)). vm_compute. exact I.
Defined.

(** ** Difference of magnitudes *)

Lemma borrow_length ds : length (borrow ds) = length ds.
Proof.
  induction ds as [|d ds IH]; [done |]. simpl.
  destruct (decide (d <> 0%Z)); simpl; [done | by rewrite IH].
Qed.

Lemma borrow_value ds :
  Forall digit_range ds -> (1 <= digits_value ds)%Z ->
  digits_value (borrow ds) = (digits_value ds - 1)%Z
  /\ Forall digit_range (borrow ds).
Proof.
  induction ds as [|d ds IH]; intros Hr Hv; [simpl in Hv; lia |].
  apply Forall_cons in Hr as [Hd Hr].
  pose proof (digits_value_bound ds Hr) as Hb.
  unfold digit_range in Hd. change DIGIT_MAX with 255%Z in Hd.
  cbn [borrow digits_value] in *. change (2 ^ DIGIT_BITS)%Z with 256%Z in *.
  destruct (decide (d <> 0%Z)) as [Hnz|Hz].
  - assert (Ht : to_digit (d - 1) = (d - 1)%Z).
    { unfold to_digit. change (2 ^ DIGIT_BITS)%Z with 256%Z.
      apply Z.mod_small. lia. }
    rewrite Ht. cbn [digits_value]. change (2 ^ DIGIT_BITS)%Z with 256%Z.
    split; [lia |]. constructor; [| exact Hr].
    unfold digit_range. change DIGIT_MAX with 255%Z. lia.
  - assert (d = 0%Z) as -> by lia.
    destruct IH as [IHv IHr]; [exact Hr | lia |].
    cbn [digits_value]. change (2 ^ DIGIT_BITS)%Z with 256%Z.
    rewrite IHv. change DIGIT_MAX with 255%Z. split; [lia |].
    constructor; [by vm_compute | exact IHr].
Qed.

Lemma wp_borrow_loop n :
  forall lo mp P H T a l ng (Q : unit -> state -> Prop) s,
    length P = lo -> length H = n ->
    st_heap s !! mp = Some (mk_bigint (P ++ H ++ T) 0 a l ng) ->
    Q tt (upd mp (mk_bigint (P ++ borrow H ++ T) 0 a l ng) s) ->
    wp (for_break n lo
          (fun j (_ : unit) =>
             let* mj := rd mp j in
             if decide (mj <> 0%Z) then
               wr mp j (to_digit (mj - 1)) ;; ret (inr tt)
             else
               wr mp j DIGIT_MAX ;; ret (inl tt))
          tt) Q s.
Proof.
  induction n as [|n IH]; intros lo mp P H T a l ng Q s HP HH Hmp HQ.
  - destruct H; [| done]. simpl in *. apply wp_ret.
    by rewrite upd_same in HQ.
  - destruct H as [|d H]; [done |]. simpl in HH.
    cbn [for_break]. apply wp_bind. apply wp_bind.
    eapply wp_rd; [exact Hmp | |].
    { rewrite Nat.add_0_l. rewrite lookup_app_r by lia.
      by replace (lo - length P) with 0 by lia. }
    assert (Hins : forall v, <[0 + lo := v]> (P ++ (d :: H) ++ T)
                             = P ++ (v :: H) ++ T).
    { intros v. replace (0 + lo) with (length P + 0) by lia.
      by rewrite insert_app_r. }
    revert HQ. cbn [borrow].
    destruct (decide (d <> 0%Z)) as [Hnz|Hz]; intros HQ.
    + apply wp_bind. eapply wp_wr; [exact Hmp | |].
      { rewrite !length_app. simpl. lia. }
      rewrite Hins. apply wp_ret. apply wp_ret. exact HQ.
    + apply wp_bind. eapply wp_wr; [exact Hmp | |].
      { rewrite !length_app. simpl. lia. }
      rewrite Hins. apply wp_ret.
      apply (IH (S lo) mp (P ++ [DIGIT_MAX]) H T a l ng).
      * rewrite length_app. simpl. lia.
      * lia.
      * rewrite heap_upd_eq. by rewrite <- app_assoc.
      * rewrite upd_upd. rewrite <- app_assoc. exact HQ.
Qed.

(** Reads and writes of the column [i] of a block [R ++ d :: rest] with
    [i] digits in [R]. *)
Lemma wp_rd_column mp R d rest a l ng i (Q : Z -> state -> Prop) s :
  st_heap s !! mp = Some (mk_bigint (R ++ d :: rest) 0 a l ng) ->
  length R = i -> Q d s -> wp (rd mp i) Q s.
Proof.
  intros Hmp HR HQ. eapply wp_rd; [exact Hmp | | exact HQ].
  rewrite Nat.add_0_l. rewrite lookup_app_r by lia.
  by replace (i - length R) with 0 by lia.
Qed.

Lemma wp_wr_column mp R d rest a l ng i v (Q : unit -> state -> Prop) s :
  st_heap s !! mp = Some (mk_bigint (R ++ d :: rest) 0 a l ng) ->
  length R = i ->
  Q tt (upd mp (mk_bigint (R ++ v :: rest) 0 a l ng) s) ->
  wp (wr mp i v) Q s.
Proof.
  intros Hmp HR HQ. eapply wp_wr; [exact Hmp | |].
  - rewrite length_app. simpl. lia.
  - replace (0 + i) with (length R + 0) by lia.
    by rewrite insert_app_r.
Qed.

Lemma digits_value_take_S (Sd : list Z) i :
  digits_value (take (S i) Sd)
  = (digits_value (take i Sd)
     + 256 ^ Z.of_nat i * default 0%Z (Sd !! i))%Z.
Proof.
  destruct (Sd !! i) as [d|] eqn:E.
  - rewrite (take_S_r Sd i d E). rewrite digits_value_snoc.
    rewrite length_take, Nat.min_l; [done |].
    apply lookup_lt_Some in E. lia.
  - apply lookup_ge_None_1 in E. rewrite !take_ge by lia. simpl. lia.
Qed.

Lemma digits_value_drop_S (Sd : list Z) i :
  digits_value (drop i Sd)
  = (default 0%Z (Sd !! i) + 256 * digits_value (drop (S i) Sd))%Z.
Proof.
  destruct (Sd !! i) as [d|] eqn:E.
  - by rewrite (drop_S Sd d i E).
  - apply lookup_ge_None_1 in E. rewrite !drop_ge by lia. done.
Qed.

Lemma delta_column (P dvR mi si h t C A : Z) :
  (0 < P)%Z -> (0 <= mi <= 255)%Z -> (0 <= si <= 255)%Z ->
  (0 <= h)%Z -> (0 <= t)%Z ->
  (dvR + P * (mi + 256 * h) = C - A)%Z ->
  (si + 256 * t <= mi + 256 * h)%Z ->
  ((mi < si)%Z ->
   (1 <= h)%Z /\ to_digit (mi - si) = (mi - si + 256)%Z
   /\ (dvR + P * (mi - si + 256) + 256 * P * (h - 1) = C - (A + P * si))%Z
   /\ (t <= h - 1)%Z)
  /\ ((si <= mi)%Z ->
      to_digit (mi - si) = (mi - si)%Z
      /\ (dvR + P * (mi - si) + 256 * P * h = C - (A + P * si))%Z
      /\ (t <= h)%Z).
Proof.
  intros HP Hmi Hsi Hh Ht Heq Hle. unfold to_digit.
  change (2 ^ DIGIT_BITS)%Z with 256%Z. split; intros Hc.
  - split; [lia |]. split.
    + symmetry. apply (Z.mod_unique_pos _ _ (-1)); lia.
    + split; [nia | lia].
  - split; [apply Z.mod_small; lia |]. split; [nia | lia].
Qed.

(** [normalize] on [n] stored digits: the magnitude and the sign. *)
Lemma wp_normalize_mag p b a n ng (Q : unit -> state -> Prop) s :
  st_heap s !! p = Some (mk_bigint b 0 a n ng) ->
  length b = a -> 1 <= a -> n <= a ->
  Forall digit_range (take n b) ->
  (forall x',
     wf_bigint x' ->
     magnitude x' = digits_value (take n b) ->
     bi_negative x' = (if decide (bi_length x' = 0) then false else ng) ->
     Q tt (upd p x' s)) ->
  wp (normalize p) Q s.
Proof.
  intros Hp Hlen Ha Hn Hr HQ.
  eapply wp_normalize; [exact Hp | lia |].
  intros n' Hn' Hv Hlast. apply HQ.
  - apply wf_bigint_unfold. split_and!; try done; try lia.
    + replace (take n' b) with (take n' (take n b))
        by (rewrite take_take; f_equal; lia).
      by apply Forall_take.
    + intros ->. by rewrite decide_True.
  - unfold magnitude, live_digits. cbn [bi_length bi_off bi_block].
    by rewrite drop_0.
  - reflexivity.
Qed.

Lemma delta_invariant_start M Sd :
  Forall digit_range M -> (digits_value Sd <= digits_value M)%Z ->
  delta_invariant M Sd [] M 0.
Proof.
  intros Hr Hle. unfold delta_invariant. rewrite take_0, drop_0. simpl.
  split_and!; try done; lia.
Qed.

(** A column without a borrow. *)
Lemma delta_invariant_step M Sd R mi H' i :
  Forall digit_range Sd ->
  delta_invariant M Sd R (mi :: H') i ->
  (default 0%Z (Sd !! i) <= mi)%Z ->
  delta_invariant M Sd (R ++ [to_digit (mi - default 0%Z (Sd !! i))]) H' (S i)
  /\ to_digit (mi - default 0%Z (Sd !! i)) = (mi - default 0%Z (Sd !! i))%Z.
Proof.
  intros HS (HR & HH & HrR & HrH & Hv & Hle) Hc.
  apply Forall_cons in HrH as [Hmi HrH].
  assert (Hsi : digit_range (default 0%Z (Sd !! i))).
  { destruct (Sd !! i) as [d|] eqn:E; [| by vm_compute].
    by eapply (Forall_lookup_1 _ Sd i). }
  unfold digit_range in Hmi, Hsi. change DIGIT_MAX with 255%Z in Hmi, Hsi.
  pose proof (digits_value_bound H' HrH) as Hh.
  pose proof (digits_value_bound (drop (S i) Sd)
                ltac:(by apply Forall_drop)) as Ht.
  rewrite digits_value_drop_S in Hle. cbn [digits_value] in Hv, Hle.
  change (2 ^ DIGIT_BITS)%Z with 256%Z in *.
  destruct (delta_column (256 ^ Z.of_nat i) (digits_value R) mi
              (default 0%Z (Sd !! i)) (digits_value H')
              (digits_value (drop (S i) Sd))
              (digits_value M) (digits_value (take i Sd))
              (pow256_pos i) Hmi Hsi ltac:(lia) ltac:(lia) Hv Hle)
    as [_ Hb].
  destruct (Hb Hc) as (Hd & Hv' & Hle').
  split; [| exact Hd]. unfold delta_invariant.
  rewrite length_app. simpl in HH |- *. split_and!; try lia.
  - apply Forall_app. split; [exact HrR |]. constructor; [| constructor].
    rewrite Hd. unfold digit_range. change DIGIT_MAX with 255%Z. lia.
  - exact HrH.
  - rewrite digits_value_snoc, HR, digits_value_take_S, Hd.
    replace (Z.of_nat (S i)) with (Z.of_nat i + 1)%Z by lia.
    rewrite Z.pow_add_r by lia. lia.
Qed.

(** A column with a borrow. *)
Lemma delta_invariant_borrow M Sd R mi H' i :
  Forall digit_range Sd ->
  delta_invariant M Sd R (mi :: H') i ->
  (mi < default 0%Z (Sd !! i))%Z ->
  delta_invariant M Sd (R ++ [to_digit (mi - default 0%Z (Sd !! i))])
    (borrow H') (S i).
Proof.
  intros HS (HR & HH & HrR & HrH & Hv & Hle) Hc.
  apply Forall_cons in HrH as [Hmi HrH].
  assert (Hsi : digit_range (default 0%Z (Sd !! i))).
  { destruct (Sd !! i) as [d|] eqn:E; [| by vm_compute].
    by eapply (Forall_lookup_1 _ Sd i). }
  unfold digit_range in Hmi, Hsi. change DIGIT_MAX with 255%Z in Hmi, Hsi.
  pose proof (digits_value_bound H' HrH) as Hh.
  pose proof (digits_value_bound (drop (S i) Sd)
                ltac:(by apply Forall_drop)) as Ht.
  rewrite digits_value_drop_S in Hle. cbn [digits_value] in Hv, Hle.
  change (2 ^ DIGIT_BITS)%Z with 256%Z in *.
  destruct (delta_column (256 ^ Z.of_nat i) (digits_value R) mi
              (default 0%Z (Sd !! i)) (digits_value H')
              (digits_value (drop (S i) Sd))
              (digits_value M) (digits_value (take i Sd))
              (pow256_pos i) Hmi Hsi ltac:(lia) ltac:(lia) Hv Hle)
    as [Hb _].
  destruct (Hb Hc) as (Hone & Hd & Hv' & Hle').
  destruct (borrow_value H' HrH Hone) as [Hbv Hbr].
  unfold delta_invariant.
  rewrite length_app, borrow_length. simpl in HH |- *. split_and!; try lia.
  - apply Forall_app. split; [exact HrR |]. constructor; [| constructor].
    rewrite Hd. unfold digit_range. change DIGIT_MAX with 255%Z. lia.
  - exact Hbr.
  - rewrite digits_value_snoc, HR, digits_value_take_S, Hd, Hbv.
    replace (Z.of_nat (S i)) with (Z.of_nat i + 1)%Z by lia.
    rewrite Z.pow_add_r by lia. lia.
Qed.

(** The sign plays no part in the magnitude. *)
Lemma magnitude_with_negative ng x :
  magnitude (with_negative ng x) = magnitude x.
Proof. reflexivity. Qed.

Lemma wf_with_negative_false x :
  wf_bigint x -> wf_bigint (with_negative false x).
Proof.
  intros (Hb & Hl & Hr & H1 & H2). split_and!; try done.
Qed.

Lemma unsigned_length_le xm xs :
  wf_bigint (with_negative false xm) -> wf_bigint (with_negative false xs) ->
  (magnitude xs <= magnitude xm)%Z -> bi_length xs <= bi_length xm.
Proof.
  intros Hwm Hws Hle.
  destruct (decide (bi_length xs <= bi_length xm)) as [?|Hbad]; [done |].
  assert (Hlt : bi_length (with_negative false xm)
                < bi_length (with_negative false xs))
    by (destruct xm, xs; simpl in *; lia).
  pose proof (wf_length_lt _ _ Hwm Hws Hlt) as H.
  rewrite !magnitude_with_negative in H. lia.
Qed.

(** [magnitude_delta(m, m, s)]: the difference is stored over the
    minuend. *)
Lemma magnitude_delta_in_place (m sp : ptr) xm xs s0 :
  st_heap s0 !! m = Some xm -> st_heap s0 !! sp = Some xs ->
  wf_bigint (with_negative false xm) -> wf_bigint (with_negative false xs) ->
  sp <> m ->
  (magnitude xs <= magnitude xm)%Z ->
  wp (magnitude_delta m m sp)
     (fun r s' =>
        r = Some m /\
        exists x', s' = upd m x' s0 /\ wf_bigint x'
                   /\ magnitude x' = (magnitude xm - magnitude xs)%Z
                   /\ bi_negative x'
                      = (if decide (bi_length x' = 0) then false
                         else bi_negative xm)) s0.
Proof.
  intros Hm Hs Hwm Hws Hne Hle.
  assert (HLsm : bi_length xs <= bi_length xm)
    by (by eapply unsigned_length_le).
  destruct xm as [bm om am Lm nm].
  assert (om = 0) as -> by (destruct Hwm as [[? _] _]; done).
  destruct xs as [bs os as' Ls ns].
  assert (os = 0) as -> by (destruct Hws as [[? _] _]; done).
  unfold with_negative in Hwm, Hws. simpl in Hwm, Hws.
  apply wf_bigint_unfold in Hwm as (Hlm & Ham & HLm & Hrm & _ & _).
  apply wf_bigint_unfold in Hws as (Hls & Has & HLs & Hrs & _ & _).
  unfold magnitude, live_digits in *. cbn [bi_length bi_off bi_block] in *.
  rewrite !drop_0 in *.
  set (M := take Lm bm) in *. set (Sd := take Ls bs) in *.
  assert (HlenM : length M = Lm) by (unfold M; rewrite length_take; lia).
  unfold magnitude_delta.
  apply wp_bind. eapply wp_get_length; [exact Hm |].
  apply wp_bind. eapply wp_get_length; [exact Hs |].
  apply wp_bind. eapply wp_resize; [exact Hm | exact Hlm | exact Ham |].
  intros a' Hfit Hgrow.
  set (T := drop Lm (bm ++ replicate (a' - am) 0%Z)).
  assert (Hblock : bm ++ replicate (a' - am) 0%Z = M ++ T).
  { unfold M, T. rewrite <- (take_drop Lm (bm ++ _)) at 1. f_equal.
    by rewrite take_app_le by lia. }
  rewrite Hblock.
  assert (HlenT : length T = a' - Lm).
  { unfold T. rewrite length_drop, length_app, length_replicate. lia. }
  apply wp_bind. eapply wp_mono.
  { apply (wp_for_range
             (fun i (st : ptr * bool) s' =>
                st = (m, false) /\
                exists R H,
                  delta_invariant M Sd R H i
                  /\ s' = upd m (mk_bigint (R ++ H ++ T) 0 a' Lm nm) s0)
             Lm 0).
    - split; [done |]. exists [], M.
      split; [by apply delta_invariant_start | done].
    - intros i [mp cp] s' Hi (Hst & R & H & Hinv & ->).
      injection Hst as -> ->.
      pose proof Hinv as (HR & HH & HrR & HrH & _).
      destruct H as [|mi H']; [simpl in HH; lia |].
      assert (Hcur : st_heap (upd m (mk_bigint (R ++ (mi :: H') ++ T)
                                               0 a' Lm nm) s0) !! m
                     = Some (mk_bigint (R ++ mi :: H' ++ T) 0 a' Lm nm))
        by apply heap_upd_eq.
      assert (Hsrc : forall y, st_heap (upd m y s0) !! sp
                               = Some (mk_bigint bs 0 as' Ls ns))
        by (intros y; by rewrite heap_upd_ne).
      destruct (decide (i < Ls)) as [Hin|Hout].
      + destruct (lookup_lt_is_Some_2 bs i ltac:(lia)) as [si Hsi].
        assert (HSi : Sd !! i = Some si)
          by (unfold Sd; by rewrite lookup_take_lt).
        assert (Hdef : default 0%Z (Sd !! i) = si) by (by rewrite HSi).
        apply wp_bind. eapply wp_rd_column; [exact Hcur | exact HR |].
        apply wp_bind. eapply wp_rd; [apply Hsrc | exact Hsi |].
        apply wp_bind.
        destruct (decide (mi < si)%Z) as [Hlt|Hge].
        * rewrite decide_False by (intros [? _]; done).
          apply wp_bind. apply wp_ret. apply wp_bind.
          unfold borrow_loop.
          eapply (wp_borrow_loop (Lm - (i + 1)) (i + 1) m (R ++ [mi]) H' T
                    a' Lm nm);
            [rewrite length_app; simpl; lia | simpl in HH; lia
            | rewrite heap_upd_eq; by rewrite <- app_assoc |].
          rewrite upd_upd. apply wp_ret.
          apply wp_bind.
          eapply wp_rd_column;
            [rewrite heap_upd_eq; by rewrite <- app_assoc | exact HR |].
          apply wp_bind. eapply wp_rd; [apply Hsrc | exact Hsi |].
          apply wp_bind.
          eapply wp_wr_column;
            [rewrite heap_upd_eq; by rewrite <- app_assoc | exact HR |].
          rewrite upd_upd. apply wp_ret. split; [done |].
          exists (R ++ [to_digit (mi - si)]), (borrow H').
          split.
          -- rewrite <- Hdef.
             apply delta_invariant_borrow; [exact Hrs | exact Hinv | lia].
          -- by rewrite <- app_assoc.
        * apply wp_ret.
          apply wp_bind. eapply wp_rd_column; [exact Hcur | exact HR |].
          apply wp_bind. eapply wp_rd; [apply Hsrc | exact Hsi |].
          apply wp_bind.
          eapply wp_wr_column; [exact Hcur | exact HR |].
          rewrite upd_upd. apply wp_ret. split; [done |].
          exists (R ++ [to_digit (mi - si)]), H'.
          split.
          -- rewrite <- Hdef.
             apply delta_invariant_step; [exact Hrs | exact Hinv | lia].
          -- by rewrite <- app_assoc.
      + assert (HSi : Sd !! i = None).
        { apply lookup_ge_None_2. unfold Sd. rewrite length_take. lia. }
        apply wp_bind. eapply wp_rd_column; [exact Hcur | exact HR |].
        apply wp_bind.
        eapply wp_wr_column; [exact Hcur | exact HR |].
        rewrite upd_upd. apply wp_ret. split; [done |].
        apply Forall_cons in HrH as [Hmi HrH].
        unfold digit_range in Hmi. change DIGIT_MAX with 255%Z in Hmi.
        destruct (delta_invariant_step M Sd R mi H' i Hrs Hinv) as [Hinv' Hd].
        { rewrite HSi. simpl. lia. }
        rewrite HSi in Hinv', Hd. simpl in Hinv', Hd.
        rewrite Z.sub_0_r in Hinv', Hd. rewrite Hd in Hinv'.
        exists (R ++ [mi]), H'. split; [exact Hinv' |].
        by rewrite <- app_assoc. }
  intros [mp cp] s' (Hst & R & H & Hinv & ->).
  injection Hst as -> ->. cbn [Nat.add] in Hinv.
  destruct Hinv as (HR & HH & HrR & HrH & Hv & _).
  destruct H; [| simpl in HH; lia]. simpl in Hv.
  apply wp_bind. apply wp_ret. apply wp_bind.
  assert (Htake : take Lm (R ++ [] ++ T) = R)
    by (simpl; by rewrite take_app_length' by lia).
  eapply wp_normalize_mag; [apply heap_upd_eq | | lia | lia | |].
  { rewrite !length_app. simpl. lia. }
  { by rewrite Htake. }
  intros x' Hwf' Hmag Hng. rewrite upd_upd. apply wp_ret.
  split; [done |]. exists x'. split_and!; try done.
  unfold magnitude, live_digits in Hmag. rewrite Hmag, Htake.
  assert (HtS : take Lm Sd = Sd).
  { apply take_ge. unfold Sd. rewrite length_take. lia. }
  rewrite HtS in Hv. lia.
Qed.

Lemma upd_with_new_comm d y z s :
  d <> st_next s -> upd d y (with_new z s) = with_new z (upd d y s).
Proof.
  intros Hne. unfold upd, with_new, set_heap. simpl. f_equal.
  by apply insert_insert_ne.
Qed.

Lemma delta_state_dest cp zc dest y s0 :
  dest < st_next s0 ->
  st_heap (delta_state cp zc dest y s0) !! dest = Some y.
Proof.
  intros Hd. destruct cp; cbn [delta_state].
  - rewrite heap_with_new_ne by (simpl; lia). apply heap_upd_eq.
  - apply heap_upd_eq.
Qed.

Lemma delta_state_frame cp zc dest y s0 q :
  q <> dest -> q < st_next s0 ->
  st_heap (delta_state cp zc dest y s0) !! q = st_heap s0 !! q.
Proof.
  intros Hq Hlt. destruct cp; cbn [delta_state].
  - rewrite heap_with_new_ne by (simpl; lia). by apply heap_upd_ne.
  - by apply heap_upd_ne.
Qed.

Lemma delta_state_upd cp zc dest y y' s0 :
  dest < st_next s0 ->
  upd dest y' (delta_state cp zc dest y s0) = delta_state cp zc dest y' s0.
Proof.
  intros Hd. destruct cp; cbn [delta_state].
  - rewrite upd_with_new_comm by (simpl; lia). by rewrite upd_upd.
  - apply upd_upd.
Qed.

Lemma delta_state_copy zc dest y s0 :
  st_heap (delta_state true zc dest y s0) !! st_next s0 = Some zc.
Proof. cbn [delta_state]. apply (heap_with_new_eq zc (upd dest y s0)). Qed.

Lemma delta_state_copy_upd zc zc' dest y s0 :
  upd (st_next s0) zc' (delta_state true zc dest y s0)
  = delta_state true zc' dest y s0.
Proof. cbn [delta_state]. apply (upd_with_new zc zc' (upd dest y s0)). Qed.

(** The read of the subtrahend at column [i]; the destination, which may be
    the subtrahend, holds the digits [R] below [i]. *)
Lemma wp_rd_subtrahend cp zc (dest sp : ptr) R D0 a' l' ngd bs as' Ls ns
  bd ad ld zs i si (Q : Z -> state -> Prop) s0 :
  st_heap s0 !! sp = Some (mk_bigint bs 0 as' Ls ns) ->
  st_heap s0 !! dest = Some (mk_bigint bd 0 ad ld ngd) ->
  dest < st_next s0 -> sp < st_next s0 ->
  D0 = bd ++ zs -> length R = i -> bs !! i = Some si ->
  Q si (delta_state cp zc dest (mk_bigint (R ++ drop i D0) 0 a' l' ngd) s0) ->
  wp (rd sp i) Q
     (delta_state cp zc dest (mk_bigint (R ++ drop i D0) 0 a' l' ngd) s0).
Proof.
  intros Hs Hd Hdl Hsl HD0 HR Hsi HQ.
  destruct (decide (sp = dest)) as [->|Hne].
  - unfold ptr in *. rewrite Hd in Hs. injection Hs as -> -> -> ->.
    eapply wp_rd; [by apply delta_state_dest | | exact HQ].
    rewrite Nat.add_0_l. rewrite lookup_app_r by lia.
    rewrite lookup_drop. rewrite HD0.
    replace (i + (i - length R)) with i by lia.
    by apply lookup_app_l_Some.
  - eapply wp_rd; [| | exact HQ].
    + rewrite delta_state_frame by done. exact Hs.
    + exact Hsi.
Qed.

(** The store of column [i] of the destination. *)
Lemma wp_wr_difference cp zc (dest : ptr) R D0 a' l' ngd i v
  (Q : unit -> state -> Prop) s0 :
  dest < st_next s0 -> length R = i -> i < length D0 ->
  Q tt (delta_state cp zc dest
          (mk_bigint ((R ++ [v]) ++ drop (S i) D0) 0 a' l' ngd) s0) ->
  wp (wr dest i v) Q
     (delta_state cp zc dest (mk_bigint (R ++ drop i D0) 0 a' l' ngd) s0).
Proof.
  intros Hdl HR Hi HQ.
  destruct (lookup_lt_is_Some_2 D0 i Hi) as [d Hd].
  rewrite (drop_S D0 d i Hd).
  eapply wp_wr_column; [by apply delta_state_dest | exact HR |].
  rewrite delta_state_upd by done. by rewrite <- app_assoc in HQ.
Qed.

(** [magnitude_delta] with a destination that is not the minuend: the
    borrows are taken from a copy of the minuend, which is released at the
    end. *)
Lemma magnitude_delta_copy (dest m sp : ptr) xd xm xs s0 :
  st_heap s0 !! dest = Some xd -> st_heap s0 !! m = Some xm ->
  st_heap s0 !! sp = Some xs ->
  wf_buffer xd -> wf_bigint (with_negative false xm) ->
  wf_bigint (with_negative false xs) -> dest <> m ->
  heap_ok s0 ->
  (magnitude xs <= magnitude xm)%Z ->
  wp (magnitude_delta dest m sp)
     (fun r s' =>
        r = Some dest /\
        exists x', st_heap s' !! dest = Some x'
                   /\ (forall q, q <> dest ->
                                 st_heap s' !! q = st_heap s0 !! q)
                   /\ wf_bigint x'
                   /\ magnitude x' = (magnitude xm - magnitude xs)%Z
                   /\ bi_negative x'
                      = (if decide (bi_length x' = 0) then false
                         else bi_negative xd)) s0.
Proof.
  intros Hd Hm Hs Hbuf Hwm Hws Hne Hok Hle.
  assert (HLsm : bi_length xs <= bi_length xm)
    by (by eapply unsigned_length_le).
  pose proof (heap_ok_lt _ _ _ Hok Hd) as Hdl.
  pose proof (heap_ok_lt _ _ _ Hok Hm) as Hml.
  pose proof (heap_ok_lt _ _ _ Hok Hs) as Hsl.
  pose proof (wf_in_bounds _ Hwm) as Hbm.
  destruct xm as [bm om am Lm nm].
  assert (om = 0) as -> by (destruct Hwm as [[? _] _]; done).
  destruct xs as [bs os as' Ls ns].
  assert (os = 0) as -> by (destruct Hws as [[? _] _]; done).
  unfold with_negative in Hwm, Hws, Hbm. simpl in Hwm, Hws, Hbm.
  assert (Hlive : live_digits (mk_bigint bm 0 am Lm nm) = take Lm bm).
  { unfold live_digits. simpl. by rewrite drop_0. }
  destruct xd as [bd od ad ld ngd].
  destruct Hbuf as (Hod & Hld & Had). simpl in Hod, Hld, Had. subst od.
  pose proof Hwm as Hwm'.
  apply wf_bigint_unfold in Hwm' as (Hlm & Ham & HLm & Hrm & _ & _).
  apply wf_bigint_unfold in Hws as (Hls & Has & HLs & Hrs & _ & _).
  assert (Hmm : magnitude (mk_bigint bm 0 am Lm nm)
                = digits_value (take Lm bm))
    by (unfold magnitude, live_digits; simpl; by rewrite drop_0).
  assert (Hms : magnitude (mk_bigint bs 0 as' Ls ns)
                = digits_value (take Ls bs))
    by (unfold magnitude, live_digits; simpl; by rewrite drop_0).
  rewrite Hmm, Hms in *. clear Hmm Hms.
  cbn [bi_length bi_off bi_block bi_negative] in *.
  set (M := take Lm bm) in *. set (Sd := take Ls bs) in *.
  assert (HlenM : length M = Lm) by (unfold M; rewrite length_take; lia).
  unfold magnitude_delta.
  apply wp_bind. eapply wp_get_length; [exact Hm |].
  apply wp_bind. eapply wp_get_length; [exact Hs |].
  apply wp_bind. eapply wp_resize; [exact Hd | exact Hld | exact Had |].
  intros a' Hfit Hgrow.
  set (D0 := bd ++ replicate (a' - ad) 0%Z).
  assert (HlenD : length D0 = a').
  { unfold D0. rewrite length_app, length_replicate. lia. }
  set (I := fun i (st : ptr * bool) s' =>
              exists R H Pm Zm,
                delta_invariant M Sd R H i /\ length Pm = i
                /\ length (Pm ++ H ++ Zm) = am
                /\ s' = delta_state (snd st)
                          (mk_bigint (Pm ++ H ++ Zm) 0 am Lm nm) dest
                          (mk_bigint (R ++ drop i D0) 0 a' Lm ngd) s0
                /\ fst st = (if snd st then (st_next s0) else m)
                /\ (snd st = false -> bm = Pm ++ H ++ Zm)).
  apply wp_bind. eapply (wp_mono _ (I Lm)).
  { apply (wp_for_range I Lm 0).
    - exists [], M, [], (drop Lm bm). split_and!; try done.
      + apply delta_invariant_start; [exact Hrm | exact Hle].
      + simpl. unfold M. by rewrite take_drop.
      + intros _. simpl. unfold M. by rewrite take_drop.
    - intros i [mp cp] s' Hi (R & H & Pm & Zm & Hinv & HPm & Hlen & -> & Hmp & Hbm').
      cbn [fst snd] in *.
      pose proof Hinv as (HR & HH & HrR & HrH & _).
      destruct H as [|mi H']; [simpl in HH; lia |].
      set (Y := mk_bigint (R ++ drop i D0) 0 a' Lm ngd).
      assert (Hassoc : forall X : list Z, (Pm ++ [mi]) ++ X = Pm ++ mi :: X)
        by (intros X; by rewrite <- app_assoc).
      assert (Hcur : forall zc,
                 st_heap (delta_state cp zc dest Y s0) !! mp
                 = Some (if cp then zc else mk_bigint bm 0 am Lm nm)).
      { intros zc. subst mp. destruct cp; [apply delta_state_copy |].
        rewrite delta_state_frame by done. exact Hm. }
      assert (Hcur' : st_heap (delta_state cp
                                 (mk_bigint (Pm ++ (mi :: H') ++ Zm) 0 am Lm nm)
                                 dest Y s0) !! mp
                      = Some (mk_bigint (Pm ++ mi :: H' ++ Zm) 0 am Lm nm)).
      { rewrite Hcur. destruct cp; [done |]. by rewrite (Hbm' eq_refl). }
      destruct (decide (i < Ls)) as [Hin|Hout].
      + destruct (lookup_lt_is_Some_2 bs i ltac:(lia)) as [si Hsi].
        assert (HSi : Sd !! i = Some si)
          by (unfold Sd; by rewrite lookup_take_lt).
        assert (Hdef : default 0%Z (Sd !! i) = si) by (by rewrite HSi).
        apply wp_bind. eapply wp_rd_column; [exact Hcur' | exact HPm |].
        apply wp_bind.
        eapply (wp_rd_subtrahend cp _ dest sp R D0 a' Lm ngd bs as' Ls ns
                  bd ad ld _ i si _ s0 Hs Hd Hdl Hsl eq_refl HR Hsi).
        destruct (decide (mi < si)%Z) as [Hlt|Hge].
        * (* a borrow, from the copy *)
          match goal with |- wp (bind _ ?k) _ _ => set (K := k) end.
          apply wp_bind.
          assert (Hrest : forall Zc,
                    length (Pm ++ (mi :: H') ++ Zc) = am ->
                    wp (borrow_loop (st_next s0) i Lm ;; ret ((st_next s0), true))
                       (fun a s' => wp (K a) (I (S i)) s')
                       (delta_state true
                          (mk_bigint (Pm ++ (mi :: H') ++ Zc) 0 am Lm nm)
                          dest Y s0)).
          { intros Zc HlenZ. apply wp_bind. unfold borrow_loop.
            eapply (wp_borrow_loop (Lm - (i + 1)) (i + 1) (st_next s0) (Pm ++ [mi]) H'
                      Zc am Lm nm);
              [rewrite length_app; simpl; lia | simpl in HH; lia
              | rewrite delta_state_copy; by rewrite <- app_assoc |].
            rewrite delta_state_copy_upd.
            apply wp_ret. unfold K.
            apply wp_bind.
            eapply wp_rd_column;
              [rewrite delta_state_copy; by rewrite <- app_assoc
              | exact HPm |].
            apply wp_bind.
            eapply (wp_rd_subtrahend true _ dest sp R D0 a' Lm ngd bs as' Ls
                      ns bd ad ld _ i si _ s0 Hs Hd Hdl Hsl eq_refl HR Hsi).
            apply wp_bind.
            eapply (wp_wr_difference true _ dest R D0 a' Lm ngd i _ _ s0
                      Hdl HR ltac:(lia)).
            apply wp_ret.
            exists (R ++ [to_digit (mi - si)]), (borrow H'), (Pm ++ [mi]), Zc.
            cbn [fst snd]. split_and!; try done.
            - rewrite <- Hdef.
              apply delta_invariant_borrow; [exact Hrs | exact Hinv | lia].
            - rewrite length_app. simpl. lia.
            - rewrite <- HlenZ. rewrite !length_app, borrow_length.
              simpl. lia. }
          apply wp_bind.
          destruct cp.
          -- rewrite decide_False by (intros [_ ?]; done).
             apply wp_ret. subst mp. apply Hrest. exact Hlen.
          -- rewrite decide_True by (subst mp; done).
             subst mp. apply wp_bind. eapply wp_mono.
             { apply (bigint_dup_spec m (mk_bigint bm 0 am Lm nm)
                        (delta_state false
                           (mk_bigint (Pm ++ (mi :: H') ++ Zm) 0 am Lm nm)
                           dest Y s0)).
               - rewrite delta_state_frame by done. exact Hm.
               - exact Hbm.
               - simpl. lia. }
             intros q s' (-> & ->). apply wp_ret.
             assert (HM : M = Pm ++ mi :: H').
             { unfold M. rewrite (Hbm' eq_refl).
               rewrite app_assoc. apply take_app_length'.
               rewrite length_app. simpl in HH |- *. lia. }
             unfold dup_of. rewrite Hlive. cbn [bi_length bi_block bi_allocated bi_negative].
             fold M. rewrite HM. rewrite <- app_assoc.
             apply (Hrest (replicate (am - Lm) 0%Z)).
             rewrite !length_app, length_replicate. simpl in HH |- *. lia.
        * apply wp_bind. apply wp_ret.
          apply wp_bind. eapply wp_rd_column; [exact Hcur' | exact HPm |].
          apply wp_bind.
          eapply (wp_rd_subtrahend cp _ dest sp R D0 a' Lm ngd bs as' Ls ns
                    bd ad ld _ i si _ s0 Hs Hd Hdl Hsl eq_refl HR Hsi).
          apply wp_bind.
          eapply (wp_wr_difference cp _ dest R D0 a' Lm ngd i _ _ s0
                    Hdl HR ltac:(lia)).
          apply wp_ret.
          exists (R ++ [to_digit (mi - si)]), H', (Pm ++ [mi]), Zm.
          cbn [fst snd]. split_and!; try done.
          -- rewrite <- Hdef.
             apply delta_invariant_step; [exact Hrs | exact Hinv | lia].
          -- rewrite length_app. simpl. lia.
          -- rewrite <- Hlen. rewrite !length_app. simpl. lia.
          -- by rewrite Hassoc.
          -- intros Hcp. rewrite (Hbm' Hcp). by rewrite Hassoc.
      + assert (HSi : Sd !! i = None).
        { apply lookup_ge_None_2. unfold Sd. rewrite length_take. lia. }
        apply wp_bind. eapply wp_rd_column; [exact Hcur' | exact HPm |].
        apply wp_bind.
        eapply (wp_wr_difference cp _ dest R D0 a' Lm ngd i _ _ s0
                  Hdl HR ltac:(lia)).
        apply wp_ret.
        pose proof HrH as HrH0.
        apply Forall_cons in HrH0 as [Hmi _].
        unfold digit_range in Hmi. change DIGIT_MAX with 255%Z in Hmi.
        destruct (delta_invariant_step M Sd R mi H' i Hrs Hinv) as [Hinv' Hdg].
        { rewrite HSi. simpl. lia. }
        rewrite HSi in Hinv', Hdg. simpl in Hinv', Hdg.
        rewrite Z.sub_0_r in Hinv', Hdg. rewrite Hdg in Hinv'.
        exists (R ++ [mi]), H', (Pm ++ [mi]), Zm.
        cbn [fst snd]. split_and!; try done.
        * rewrite length_app. simpl. lia.
        * rewrite <- Hlen. rewrite !length_app. simpl. lia.
        * by rewrite Hassoc.
        * intros Hcp. rewrite (Hbm' Hcp). by rewrite Hassoc. }
  intros [mp cp] s' (R & H & Pm & Zm & Hinv & HPm & Hlen & -> & Hmp & Hbm').
  cbn [fst snd] in *.
  destruct Hinv as (HR & HH & HrR & HrH & Hv & _).
  destruct H; [| simpl in HH; lia]. simpl in Hv.
  assert (HtS : take Lm Sd = Sd).
  { apply take_ge. unfold Sd. rewrite length_take. lia. }
  rewrite HtS in Hv.
  assert (Htake : take Lm (R ++ drop Lm D0) = R)
    by (by rewrite take_app_length' by lia).
  assert (HlenB : length (R ++ drop Lm D0) = a').
  { rewrite length_app, length_drop. lia. }
  set (Y := mk_bigint (R ++ drop Lm D0) 0 a' Lm ngd).
  apply wp_bind.
  destruct cp.
  - subst mp.
    eapply wp_free; [apply delta_state_copy | reflexivity |].
    apply wp_bind.
    eapply (wp_normalize_mag dest (R ++ drop Lm D0) a' Lm ngd);
      [| exact HlenB | lia | lia | by rewrite Htake |].
    { rewrite heap_without_ne by lia. by apply delta_state_dest. }
    intros x' Hwf' Hmag Hng. apply wp_ret.
    split; [done |]. exists x'. split_and!; try done.
    + apply heap_upd_eq.
    + intros q Hq. rewrite heap_upd_ne by done.
      destruct (decide (q = st_next s0)) as [->|Hqf].
      * rewrite heap_without_eq. symmetry. by apply heap_ok_fresh.
      * rewrite heap_without_ne by done. cbn [delta_state].
        rewrite heap_with_new_ne by done. by apply heap_upd_ne.
    + rewrite Hmag, Htake. lia.
  - apply wp_ret. apply wp_bind.
    eapply wp_normalize_mag;
      [apply heap_upd_eq | exact HlenB | lia | lia | by rewrite Htake |].
    intros x' Hwf' Hmag Hng. apply wp_ret.
    split; [done |]. exists x'. cbn [delta_state]. rewrite upd_upd.
    split_and!; try done.
    + apply heap_upd_eq.
    + intros q Hq. by apply heap_upd_ne.
    + rewrite Hmag, Htake. lia.
Qed.

(** [magnitude_delta(m, m, m)]: every column is cleared. *)
Lemma magnitude_delta_self (m : ptr) xm s0 :
  st_heap s0 !! m = Some xm -> wf_bigint (with_negative false xm) ->
  wp (magnitude_delta m m m)
     (fun r s' =>
        r = Some m /\
        exists x', s' = upd m x' s0 /\ wf_bigint x'
                   /\ magnitude x' = 0%Z
                   /\ bi_negative x'
                      = (if decide (bi_length x' = 0) then false
                         else bi_negative xm)) s0.
Proof.
  intros Hm Hwm.
  destruct xm as [bm om am Lm nm].
  assert (om = 0) as -> by (destruct Hwm as [[? _] _]; done).
  unfold with_negative in Hwm. simpl in Hwm.
  apply wf_bigint_unfold in Hwm as (Hlm & Ham & HLm & Hrm & _ & _).
  unfold magnitude_delta.
  apply wp_bind. eapply wp_get_length; [exact Hm |].
  apply wp_bind. eapply wp_get_length; [exact Hm |].
  apply wp_bind. eapply wp_resize; [exact Hm | exact Hlm | exact Ham |].
  intros a' Hfit Hgrow.
  set (D0 := bm ++ replicate (a' - am) 0%Z).
  assert (HlenD : length D0 = a').
  { unfold D0. rewrite length_app, length_replicate. lia. }
  apply wp_bind. eapply wp_mono.
  { apply (wp_for_range
             (fun i (st : ptr * bool) s' =>
                st = (m, false)
                /\ s' = upd m (mk_bigint (replicate i 0%Z ++ drop i D0)
                                         0 a' Lm nm) s0)
             Lm 0).
    - split; [done |]. simpl. by rewrite drop_0.
    - intros i [mp cp] s' Hi (Hst & ->). injection Hst as -> ->.
      rewrite decide_True by lia.
      destruct (lookup_lt_is_Some_2 D0 i ltac:(lia)) as [v Hv].
      rewrite (drop_S D0 v i Hv).
      assert (Hcur : st_heap (upd m (mk_bigint (replicate i 0%Z
                                                ++ v :: drop (S i) D0)
                                               0 a' Lm nm) s0) !! m
                     = Some (mk_bigint (replicate i 0%Z
                                        ++ v :: drop (S i) D0)
                                       0 a' Lm nm))
        by apply heap_upd_eq.
      assert (Hri : length (replicate i 0%Z) = i) by apply length_replicate.
      apply wp_bind. eapply wp_rd_column; [exact Hcur | exact Hri |].
      apply wp_bind. eapply wp_rd_column; [exact Hcur | exact Hri |].
      apply wp_bind. rewrite decide_False by lia. apply wp_ret.
      apply wp_bind. eapply wp_rd_column; [exact Hcur | exact Hri |].
      apply wp_bind. eapply wp_rd_column; [exact Hcur | exact Hri |].
      apply wp_bind. eapply wp_wr_column; [exact Hcur | exact Hri |].
      rewrite upd_upd. apply wp_ret. split; [done |].
      rewrite Z.sub_diag. change (to_digit 0) with 0%Z.
      rewrite replicate_S_end. by rewrite <- app_assoc. }
  intros [mp cp] s' (Hst & ->). injection Hst as -> ->. cbn [Nat.add].
  apply wp_bind. apply wp_ret. apply wp_bind.
  assert (Htake : take Lm (replicate Lm 0%Z ++ drop Lm D0) = replicate Lm 0%Z)
    by (by rewrite take_app_length' by (by rewrite length_replicate)).
  eapply wp_normalize_mag; [apply heap_upd_eq | | lia | lia | |].
  { rewrite length_app, length_replicate, length_drop. lia. }
  { rewrite Htake. apply Forall_replicate. by vm_compute. }
  intros x' Hwf' Hmag Hng. rewrite upd_upd. apply wp_ret.
  split; [done |]. exists x'. split_and!; try done.
  rewrite Hmag, Htake. apply digits_value_replicate_0.
Qed.

Lemma magnitude_delta_spec (dest m sp : ptr) xd xm xs s0 :
  st_heap s0 !! dest = Some xd -> st_heap s0 !! m = Some xm ->
  st_heap s0 !! sp = Some xs ->
  wf_buffer xd -> wf_bigint (with_negative false xm) ->
  wf_bigint (with_negative false xs) -> heap_ok s0 ->
  (magnitude xs <= magnitude xm)%Z ->
  exists x' s',
    magnitude_delta dest m sp s0 = Done (Some dest, s')
    /\ st_heap s' !! dest = Some x'
    /\ (forall q, q <> dest -> st_heap s' !! q = st_heap s0 !! q)
    /\ wf_bigint x'
    /\ magnitude x' = (magnitude xm - magnitude xs)%Z
    /\ bi_negative x'
       = (if decide (bi_length x' = 0) then false else bi_negative xd).
Proof.
  intros Hd Hm Hs Hbuf Hwm Hws Hok Hle.
  destruct (decide (dest = m)) as [->|Hne].
  - unfold ptr in *. rewrite Hm in Hd. injection Hd as <-.
    destruct (decide (sp = m)) as [->|Hsm].
    + rewrite Hm in Hs. injection Hs as <-.
      destruct (wp_done _ _ _ (magnitude_delta_self m xm s0 Hm Hwm))
        as (r & s' & Hrun & -> & x' & -> & Hwf & Hmag & Hng).
      exists x', (upd m x' s0). split_and!; try done.
      * apply heap_upd_eq.
      * intros q Hq. by apply heap_upd_ne.
      * rewrite Hmag. lia.
    + destruct (wp_done _ _ _
                  (magnitude_delta_in_place m sp xm xs s0 Hm Hs Hwm Hws
                     Hsm Hle))
        as (r & s' & Hrun & -> & x' & -> & Hwf & Hmag & Hng).
      exists x', (upd m x' s0). split_and!; try done.
      * apply heap_upd_eq.
      * intros q Hq. by apply heap_upd_ne.
  - destruct (wp_done _ _ _
                (magnitude_delta_copy dest m sp xd xm xs s0 Hd Hm Hs Hbuf
                   Hwm Hws Hne Hok Hle))
      as (r & s' & Hrun & -> & x' & Hx' & Hfr & Hwf & Hmag & Hng).
    by exists x', s'.
Qed.

(** X27.  [magnitude_delta(dest, m, s)] with [|s| <= |m|] returns [dest],
    which then satisfies the representation invariants and has the
    magnitude [|m| - |s|]; its sign is the one it had, or cleared when the
    difference is zero.  [dest], [m] and [s] are arbitrary pointers:
    [dest] may be [m], [s] or both, and only the structure behind [dest]
    changes. *)
Theorem magnitude_delta_value (dest m sp : ptr) xd xm xs s0 :
  st_heap s0 !! dest = Some xd -> st_heap s0 !! m = Some xm ->
  st_heap s0 !! sp = Some xs ->
  wf_buffer xd -> wf_bigint xm -> wf_bigint xs -> heap_ok s0 ->
  (magnitude xs <= magnitude xm)%Z ->
  exists x' s',
    magnitude_delta dest m sp s0 = Done (Some dest, s')
    /\ st_heap s' !! dest = Some x'
    /\ (forall q, q <> dest -> st_heap s' !! q = st_heap s0 !! q)
    /\ wf_bigint x'
    /\ magnitude x' = (magnitude xm - magnitude xs)%Z
    /\ bi_negative x'
       = (if decide (bi_length x' = 0) then false else bi_negative xd).
Proof.
  intros Hd Hm Hs Hbuf Hwm Hws Hok Hle.
  apply (magnitude_delta_spec dest m sp xd xm xs s0); try done;
    by apply wf_with_negative_false.
Qed.

(** 256 - 1 in place. *)
Lemma magnitude_delta_value_witness :
  let dest := 0 in
  let m := 0 in
  let sp := 1 in
  let xd := sample [0%Z; 1%Z] false in
  let xm := sample [0%Z; 1%Z] false in
  let xs := sample [1%Z] false in
  let s0 := sample_pair (sample [0%Z; 1%Z] false) (sample [1%Z] false) in
  exists x' s',
    magnitude_delta dest m sp s0 = Done (Some dest, s')
    /\ st_heap s' !! dest = Some x'
    /\ (forall q, q <> dest -> st_heap s' !! q = st_heap s0 !! q)
    /\ wf_bigint x'
    /\ magnitude x' = (magnitude xm - magnitude xs)%Z
    /\ bi_negative x'
       = (if decide (bi_length x' = 0) then false else bi_negative xd).
Proof.
  intros dest m sp xd xm xs s0.
  apply (magnitude_delta_value dest m sp xd xm xs s0).
  - reflexivity.
  - reflexivity.
  - reflexivity.
  - apply (@bool_decide_unpack _ (wf_buffer_dec _)). vm_compute. exact I.
  - apply (@bool_decide_unpack _ (wf_bigint_dec _)). vm_compute. exact I.
  - apply (@bool_decide_unpack _ (wf_bigint_dec _)). vm_compute. exact I.
  - apply (@bool_decide_unpack _ (heap_ok_dec _)). vm_compute. exact I.
  - by vm_compute.
Defined.

(** ** Sums and differences that need [magnitude_delta] *)

Lemma magnitude_cmp_exact s a b xa xb :
  st_heap s !! a = Some xa -> st_heap s !! b = Some xb ->
  wf_bigint xa -> wf_bigint xb -> cmp_exact xa xb ->
  magnitude_cmp a b s = Done (Z.sgn (magnitude xa - magnitude xb), s).
Proof.
  intros Ha Hb Hwa Hwb Hex.
  destruct (magnitude_cmp_spec s a b xa xb Ha Hb Hwa Hwb)
    as (c & Hrun & _ & _ & Hc & Hz).
  rewrite Hrun. do 2 f_equal.
  destruct Hex as [H|[H|H]]; [apply Hc; by left | apply Hc; by right |].
  rewrite (Hz H), H, Z.sub_diag. reflexivity.
Qed.

(** The value of a result whose magnitude is [m] and whose sign is [ng]
    unless it is zero. *)
Lemma value_of_magnitude x (ng : bool) m :
  wf_bigint x -> magnitude x = m ->
  bi_negative x = (if decide (bi_length x = 0) then false else ng) ->
  value x = (if ng then - m else m)%Z.
Proof.
  intros Hwf Hm Hs. rewrite value_unfold, Hs, Hm.
  destruct (decide (bi_length x = 0)) as [Hl|Hl]; [| done].
  apply (wf_length_zero x Hwf) in Hl. rewrite Hm in Hl.
  destruct ng; lia.
Qed.

Lemma wf_set_sign x (ng : bool) :
  wf_bigint x -> (bi_length x = 0 -> ng = false) ->
  wf_bigint (with_negative ng x)
  /\ value (with_negative ng x)
     = (if ng then - magnitude x else magnitude x)%Z.
Proof.
  intros (Hb & Hl & Hr & H1 & H2) Hz. split; [| done].
  split_and!; try done.
Qed.

(** The operands of [magnitude_delta] after [dest->negative] was set. *)
Lemma operand_after_sign (d p : ptr) xd xp ng s :
  st_heap s !! d = Some xd -> st_heap s !! p = Some xp -> wf_bigint xp ->
  exists yp, st_heap (upd d (with_negative ng xd) s) !! p = Some yp
             /\ wf_bigint (with_negative false yp)
             /\ magnitude yp = magnitude xp.
Proof.
  intros Hd Hp Hwf. destruct (decide (p = d)) as [->|Hne].
  - unfold ptr in *. rewrite Hd in Hp. injection Hp as ->.
    exists (with_negative ng xp). split; [apply heap_upd_eq |].
    split; [| done]. change (wf_bigint (with_negative false xp)).
    by apply wf_with_negative_false.
  - exists xp. split; [by rewrite heap_upd_ne |].
    split; [by apply wf_with_negative_false | done].
Qed.

Lemma bigint_add_opposite_sign_spec s dest a b xa xb :
  st_heap s !! a = Some xa -> st_heap s !! b = Some xb ->
  wf_bigint xa -> wf_bigint xb -> dest_ok s dest -> heap_ok s ->
  bi_negative xa <> bi_negative xb -> cmp_exact xa xb ->
  wp (bigint_add dest a b)
     (fun r s' =>
        r = Some (default (st_next s) dest) /\
        exists x',
          st_heap s' !! default (st_next s) dest = Some x'
          /\ wf_bigint x' /\ value x' = (value xa + value xb)%Z
          /\ (forall q, q <> default (st_next s) dest ->
                        st_heap s' !! q = st_heap s !! q)) s.
Proof.
  intros Ha Hb Hwa Hwb Hdest Hok Hsign Hex.
  pose proof (wf_magnitude_nonneg xa Hwa) as Hnna.
  pose proof (wf_magnitude_nonneg xb Hwb) as Hnnb.
  assert (Hcore : forall d xd s1 (free : bool),
    st_heap s1 !! d = Some xd -> wf_buffer xd ->
    st_heap s1 !! a = Some xa -> st_heap s1 !! b = Some xb -> heap_ok s1 ->
    wp (let* cmp := magnitude_cmp a b in
        let* na := get_negative a in
        let* nb := get_negative b in
        let* result :=
          (if decide (na = nb) then
             set_negative d na ;; magnitude_sum d a b
           else if decide (0 < cmp)%Z then
             set_negative d na ;; magnitude_delta d a b
           else if decide (cmp < 0)%Z then
             set_negative d nb ;; magnitude_delta d b a
           else bigint_movui d 0 ;; ret (Some d)) in
        free_if (bool_decide (result = None) && free) d ;;
        ret result)
      (fun r s' =>
         r = Some d /\
         exists x', st_heap s' !! d = Some x'
                    /\ (forall q, q <> d -> st_heap s' !! q = st_heap s1 !! q)
                    /\ wf_bigint x'
                    /\ value x' = (value xa + value xb)%Z) s1).
  { intros d xd s1 free Hd Hwd Ha1 Hb1 Hok1.
    apply wp_bind.
    eapply wp_of_done;
      [exact (magnitude_cmp_exact s1 a b xa xb Ha1 Hb1 Hwa Hwb Hex) |].
    apply wp_bind. eapply wp_get_negative'; [exact Ha1 |].
    apply wp_bind. eapply wp_get_negative'; [exact Hb1 |].
    rewrite decide_False by done.
    apply wp_bind.
    assert (Hdelta : forall (m sp : ptr) xm xs,
      st_heap s1 !! m = Some xm -> st_heap s1 !! sp = Some xs ->
      wf_bigint xm -> wf_bigint xs ->
      (magnitude xs <= magnitude xm)%Z ->
      wp (set_negative d (bi_negative xm) ;; magnitude_delta d m sp)
         (fun r s' =>
            r = Some d /\
            exists x', st_heap s' !! d = Some x'
                       /\ (forall q, q <> d ->
                                     st_heap s' !! q = st_heap s1 !! q)
                       /\ wf_bigint x'
                       /\ value x'
                          = (if bi_negative xm
                             then - (magnitude xm - magnitude xs)
                             else magnitude xm - magnitude xs)%Z) s1).
    { intros m sp xm xs Hm Hs Hwm Hws Hle.
      apply wp_bind. eapply wp_set_negative'; [exact Hd |].
      destruct (operand_after_sign d m xd xm (bi_negative xm) s1 Hd Hm Hwm)
        as (ym & Hym & Hwym & Hmagm).
      destruct (operand_after_sign d sp xd xs (bi_negative xm) s1 Hd Hs Hws)
        as (ys & Hys & Hwys & Hmags).
      destruct (magnitude_delta_spec d m sp _ ym ys _
                  (heap_upd_eq _ _ _) Hym Hys
                  (wf_buffer_with_negative _ _ Hwd) Hwym Hwys
                  (heap_ok_upd _ _ _ _ Hok1 Hd)
                  ltac:(rewrite Hmagm, Hmags; exact Hle))
        as (x' & s' & Hrun & Hx' & Hfr & Hwf' & Hmag & Hng).
      eapply wp_of_done; [exact Hrun |].
      split; [done |]. exists x'. split_and!; try done.
      - intros q Hq. rewrite (Hfr q Hq). by apply heap_upd_ne.
      - apply (value_of_magnitude x' (bi_negative xm)); try done.
        all: try (by rewrite Hmag, Hmagm, Hmags).
        all: try (rewrite Hng; by destruct xd). }
    assert (Hfin : forall Q : option ptr -> state -> Prop,
               forall r s', Q r s' -> r = Some d ->
               wp (free_if (bool_decide (r = None) && free) d ;; ret r)
                  Q s').
    { intros Q r s' HQ ->. rewrite bool_decide_eq_false_2 by done.
      simpl andb. apply wp_bind. apply wp_ret. by apply wp_ret. }
    rewrite !value_unfold.
    destruct (Z.lt_trichotomy (magnitude xa) (magnitude xb)) as [Hlt|[Heq|Hgt]].
    - rewrite Z.sgn_neg by lia. rewrite decide_False by lia.
      rewrite decide_True by lia.
      eapply wp_mono; [apply (Hdelta b a xb xa Hb1 Ha1 Hwb Hwa); lia |].
      intros r s' (-> & x' & Hx' & Hfr & Hwf' & Hv'). apply Hfin; [| done].
      split; [done |]. exists x'. split_and!; try done.
      rewrite Hv'. destruct (bi_negative xa), (bi_negative xb); try done; lia.
    - rewrite Heq, Z.sub_diag. simpl Z.sgn.
      rewrite decide_False by lia. rewrite decide_False by lia.
      apply wp_bind. eapply wp_mono.
      { apply (bigint_movui_digit d xd 0%Z s1 Hd Hwd). lia. }
      intros [] s' (x0 & -> & Hwf0 & Hv0 & _). apply wp_ret.
      apply Hfin; [| done].
      split; [done |]. exists x0. split_and!; try done.
      + apply heap_upd_eq.
      + intros q Hq. by apply heap_upd_ne.
      + rewrite Hv0. destruct (bi_negative xa), (bi_negative xb); try done; lia.
    - rewrite Z.sgn_pos by lia. rewrite decide_True by lia.
      eapply wp_mono; [apply (Hdelta a b xa xb Ha1 Hb1 Hwa Hwb); lia |].
      intros r s' (-> & x' & Hx' & Hfr & Hwf' & Hv'). apply Hfin; [| done].
      split; [done |]. exists x'. split_and!; try done.
      rewrite Hv'. destruct (bi_negative xa), (bi_negative xb); try done; lia. }
  unfold bigint_add, dest_or_new.
  destruct dest as [d|]; simpl default.
  - destruct Hdest as (xd & Hd & Hwd).
    apply wp_bind. apply wp_ret.
    eapply wp_mono; [exact (Hcore d xd s false Hd Hwd Ha Hb Hok) |].
    intros r s' (-> & x' & Hx' & Hfr & Hw' & Hv'). split; [done |].
    by exists x'.
  - pose proof (heap_ok_lt _ _ _ Hok Ha) as Hlta.
    pose proof (heap_ok_lt _ _ _ Hok Hb) as Hltb.
    apply wp_bind. apply wp_bind.
    eapply wp_mono; [apply from_int_zero_spec |].
    intros d s1 (-> & x0 & -> & Hw0 & _). apply wp_ret.
    eapply wp_mono.
    { apply (Hcore (st_next s) x0 _ true);
        [by heap_lookup | by apply wf_bigint_buffer | by heap_lookup
        | by heap_lookup | by apply heap_ok_with_new]. }
    intros r s' (-> & x' & Hx' & Hfr & Hw' & Hv'). split; [done |].
    exists x'. split_and!; try done.
    intros q Hq. rewrite (Hfr q Hq). by heap_lookup.
Qed.

Lemma bigint_sub_same_sign_spec s dest a b xa xb :
  st_heap s !! a = Some xa -> st_heap s !! b = Some xb ->
  wf_bigint xa -> wf_bigint xb -> dest_ok s dest -> heap_ok s ->
  bi_negative xa = bi_negative xb -> cmp_exact xa xb ->
  wp (bigint_sub dest a b)
     (fun r s' =>
        r = Some (default (st_next s) dest) /\
        exists x',
          st_heap s' !! default (st_next s) dest = Some x'
          /\ wf_bigint x' /\ value x' = (value xa - value xb)%Z
          /\ (forall q, q <> default (st_next s) dest ->
                        st_heap s' !! q = st_heap s !! q)) s.
Proof.
  intros Ha Hb Hwa Hwb Hdest Hok Hsign Hex.
  pose proof (wf_magnitude_nonneg xa Hwa) as Hnna.
  pose proof (wf_magnitude_nonneg xb Hwb) as Hnnb.
  assert (Hcore : forall d xd s1 (free : bool),
    st_heap s1 !! d = Some xd -> wf_buffer xd ->
    st_heap s1 !! a = Some xa -> st_heap s1 !! b = Some xb -> heap_ok s1 ->
    wp (let* cmp := magnitude_cmp a b in
        let* na := get_negative a in
        let* nb := get_negative b in
        let* result :=
          (if negb na && negb nb then
             if decide (0 <= cmp)%Z then
               let* r := magnitude_delta d a b in
               set_negative d false ;; ret r
             else
               let* r := magnitude_delta d b a in
               set_negative d true ;; ret r
           else if negb na && nb then
             let* r := magnitude_sum d a b in
             set_negative d false ;; ret r
           else if na && negb nb then
             let* r := magnitude_sum d a b in
             let* len := get_length d in
             set_negative d (bool_decide (len <> 0)) ;; ret r
           else if decide (0 <= cmp)%Z then
             let* r := magnitude_delta d a b in
             let* len := get_length d in
             set_negative d (bool_decide (len <> 0)) ;; ret r
           else
             let* r := magnitude_delta d b a in
             set_negative d false ;; ret r) in
        free_if (bool_decide (result = None) && free) d ;;
        ret result)
      (fun r s' =>
         r = Some d /\
         exists x', st_heap s' !! d = Some x'
                    /\ (forall q, q <> d -> st_heap s' !! q = st_heap s1 !! q)
                    /\ wf_bigint x'
                    /\ value x' = (value xa - value xb)%Z) s1).
  { intros d xd s1 free Hd Hwd Ha1 Hb1 Hok1.
    apply wp_bind.
    eapply wp_of_done;
      [exact (magnitude_cmp_exact s1 a b xa xb Ha1 Hb1 Hwa Hwb Hex) |].
    apply wp_bind. eapply wp_get_negative'; [exact Ha1 |].
    apply wp_bind. eapply wp_get_negative'; [exact Hb1 |].
    apply wp_bind.
    assert (Hset : forall x' s' (ng : bool),
      st_heap s' !! d = Some x' ->
      (forall q, q <> d -> st_heap s' !! q = st_heap s1 !! q) ->
      wf_bigint x' -> (bi_length x' = 0 -> ng = false) ->
      wp (set_negative d ng ;; ret (Some d))
         (fun r s2 =>
            r = Some d /\
            exists x2, st_heap s2 !! d = Some x2
                       /\ (forall q, q <> d ->
                                     st_heap s2 !! q = st_heap s1 !! q)
                       /\ wf_bigint x2
                       /\ value x2 = (if ng then - magnitude x'
                                      else magnitude x')%Z) s').
    { intros x' s' ng Hx' Hfr Hwf' Hz.
      apply wp_bind. eapply wp_set_negative'; [exact Hx' |]. apply wp_ret.
      destruct (wf_set_sign x' ng Hwf' Hz) as [Hwf2 Hv2].
      split; [done |]. eexists. split; [apply heap_upd_eq |].
      split_and!; try done.
      intros q Hq. rewrite heap_upd_ne by done. by apply Hfr. }
    assert (Hfin : forall Q : option ptr -> state -> Prop,
               forall r s', Q r s' -> r = Some d ->
               wp (free_if (bool_decide (r = None) && free) d ;; ret r)
                  Q s').
    { intros Q r s' HQ ->. rewrite bool_decide_eq_false_2 by done.
      simpl andb. apply wp_bind. apply wp_ret. by apply wp_ret. }
    pose proof (wf_with_negative_false _ Hwa) as Hwa0.
    pose proof (wf_with_negative_false _ Hwb) as Hwb0.
    rewrite !value_unfold, <- Hsign.
    destruct (Z.lt_trichotomy (magnitude xa) (magnitude xb))
      as [Hlt|Hge].
    - (* |a| < |b| *)
      rewrite Z.sgn_neg by lia.
      destruct (magnitude_delta_spec d b a xd xb xa s1 Hd Hb1 Ha1 Hwd
                  Hwb0 Hwa0 Hok1 ltac:(lia))
        as (x' & s' & Hrun & Hx' & Hfr & Hwf' & Hmag & _).
      assert (Hnz : bi_length x' <> 0).
      { rewrite (wf_length_zero x' Hwf'), Hmag. lia. }
      destruct (bi_negative xa); simpl negb; simpl andb; cbv iota;
        rewrite decide_False by lia.
      + apply wp_bind. eapply wp_of_done; [exact Hrun |].
        eapply wp_mono; [by apply (Hset x' s' false) |].
        intros r s2 (-> & x2 & Hx2 & Hfr2 & Hwf2 & Hv2).
        apply Hfin; [| done]. split; [done |]. exists x2.
        split_and!; try done. rewrite Hv2, Hmag. lia.
      + apply wp_bind. eapply wp_of_done; [exact Hrun |].
        eapply wp_mono; [by apply (Hset x' s' true) |].
        intros r s2 (-> & x2 & Hx2 & Hfr2 & Hwf2 & Hv2).
        apply Hfin; [| done]. split; [done |]. exists x2.
        split_and!; try done. rewrite Hv2, Hmag. lia.
    - (* |b| <= |a| *)
      assert (Hc : (0 <= Z.sgn (magnitude xa - magnitude xb))%Z).
      { destruct Hge as [->|Hgt]; [by rewrite Z.sub_diag |].
        rewrite Z.sgn_pos by lia. lia. }
      destruct (magnitude_delta_spec d a b xd xa xb s1 Hd Ha1 Hb1 Hwd
                  Hwa0 Hwb0 Hok1 ltac:(lia))
        as (x' & s' & Hrun & Hx' & Hfr & Hwf' & Hmag & _).
      pose proof (wf_length_zero x' Hwf') as Hlz.
      destruct (bi_negative xa); simpl negb; simpl andb; cbv iota;
        rewrite decide_True by exact Hc.
      + apply wp_bind. eapply wp_of_done; [exact Hrun |].
        apply wp_bind. eapply wp_get_length'; [exact Hx' |].
        eapply wp_mono.
        { apply (Hset x' s' (bool_decide (bi_length x' <> 0)) Hx' Hfr Hwf').
          intros Hl. by rewrite bool_decide_eq_false_2 by lia. }
        intros r s2 (-> & x2 & Hx2 & Hfr2 & Hwf2 & Hv2).
        apply Hfin; [| done]. split; [done |]. exists x2.
        split_and!; try done. rewrite Hv2, Hmag.
        destruct (decide (bi_length x' = 0)) as [Hl|Hl].
        * rewrite bool_decide_eq_false_2 by lia.
          apply Hlz in Hl. lia.
        * rewrite bool_decide_eq_true_2 by done. lia.
      + apply wp_bind. eapply wp_of_done; [exact Hrun |].
        eapply wp_mono; [by apply (Hset x' s' false) |].
        intros r s2 (-> & x2 & Hx2 & Hfr2 & Hwf2 & Hv2).
        apply Hfin; [| done]. split; [done |]. exists x2.
        split_and!; try done. rewrite Hv2, Hmag. lia. }
  unfold bigint_sub.
  destruct dest as [d|]; simpl default.
  - destruct Hdest as (xd & Hd & Hwd).
    apply wp_bind. apply wp_bind.
    destruct (decide (d <> a /\ d <> b)) as [[Hda Hdb]|Halias].
    + eapply wp_mono.
      { apply (bigint_movui_digit d xd 0); [done | done | lia]. }
      intros [] s1 (x0 & -> & Hw0 & _). apply wp_ret.
      eapply wp_mono.
      { apply (Hcore d x0 _ false);
          [apply heap_upd_eq | by apply wf_bigint_buffer
          | by rewrite heap_upd_ne | by rewrite heap_upd_ne
          | by eapply heap_ok_upd]. }
      intros r s' (-> & x' & Hx' & Hfr & Hw' & Hv'). split; [done |].
      exists x'. split_and!; try done.
      intros q Hq. rewrite (Hfr q Hq). by rewrite heap_upd_ne.
    + apply wp_ret. apply wp_ret.
      eapply wp_mono; [exact (Hcore d xd s false Hd Hwd Ha Hb Hok) |].
      intros r s' (-> & x' & Hx' & Hfr & Hw' & Hv'). split; [done |].
      by exists x'.
  - pose proof (heap_ok_lt _ _ _ Hok Ha) as Hlta.
    pose proof (heap_ok_lt _ _ _ Hok Hb) as Hltb.
    apply wp_bind. apply wp_bind.
    eapply wp_mono; [apply from_int_zero_spec |].
    intros d s1 (-> & x0 & -> & Hw0 & _). apply wp_ret.
    eapply wp_mono.
    { apply (Hcore (st_next s) x0 _ true);
        [by heap_lookup | by apply wf_bigint_buffer | by heap_lookup
        | by heap_lookup | by apply heap_ok_with_new]. }
    intros r s' (-> & x' & Hx' & Hfr & Hw' & Hv'). split; [done |].
    exists x'. split_and!; try done.
    intros q Hq. rewrite (Hfr q Hq). by heap_lookup.
Qed.

(** X28.  [bigint_add(dest, a, b)] returns [dest], or a new structure when
    [dest] is [NULL], which satisfies the representation invariants and
    denotes [a + b], and no other structure changes; [dest] may be an
    operand.  This holds when the operands have the same sign, and for
    opposite signs when [magnitude_cmp] orders them as their magnitudes
    are: the lengths differ, there is at most one digit, or the magnitudes
    are equal. *)
Theorem bigint_add_value s dest a b xa xb :
  st_heap s !! a = Some xa -> st_heap s !! b = Some xb ->
  wf_bigint xa -> wf_bigint xb -> dest_ok s dest -> heap_ok s ->
  bi_negative xa = bi_negative xb \/ cmp_exact xa xb ->
  exists r x' s',
    bigint_add dest a b s = Done (Some r, s')
    /\ r = default (st_next s) dest
    /\ st_heap s' !! r = Some x'
    /\ wf_bigint x' /\ value x' = (value xa + value xb)%Z
    /\ (forall q, q <> r -> st_heap s' !! q = st_heap s !! q).
Proof.
  intros Ha Hb Hwa Hwb Hdest Hok Hcond.
  assert (Hrun : wp (bigint_add dest a b)
     (fun r s' =>
        r = Some (default (st_next s) dest) /\
        exists x',
          st_heap s' !! default (st_next s) dest = Some x'
          /\ wf_bigint x' /\ value x' = (value xa + value xb)%Z
          /\ (forall q, q <> default (st_next s) dest ->
                        st_heap s' !! q = st_heap s !! q)) s).
  { destruct (decide (bi_negative xa = bi_negative xb)) as [Heq|Hne].
    - by apply bigint_add_same_sign_spec.
    - apply bigint_add_opposite_sign_spec; try done. by destruct Hcond. }
  destruct (wp_done _ _ _ Hrun)
    as (r & s' & Hrun' & -> & x' & Hx' & Hw' & Hv' & Hframe).
  exists (default (st_next s) dest), x', s'. done.
Qed.

(** 256 + (-1), with a borrow from the upper digit. *)
Lemma bigint_add_value_witness :
  let s := sample_pair (sample [0%Z; 1%Z] false) (sample [1%Z] true) in
  let dest := None in
  let a := 0 in
  let b := 1 in
  let xa := sample [0%Z; 1%Z] false in
  let xb := sample [1%Z] true in
  exists r x' s',
    bigint_add dest a b s = Done (Some r, s')
    /\ r = default (st_next s) dest
    /\ st_heap s' !! r = Some x'
    /\ wf_bigint x' /\ value x' = (value xa + value xb)%Z
    /\ (forall q, q <> r -> st_heap s' !! q = st_heap s !! q).
Proof.
  intros s dest a b xa xb.
  apply (bigint_add_value s dest a b xa xb).
  - reflexivity.
  - reflexivity.
  - apply (@bool_decide_unpack _ (wf_bigint_dec _)). vm_compute. exact I.
  - apply (@bool_decide_unpack _ (wf_bigint_dec _)). vm_compute. exact I.
  - exact I.
  - apply (@bool_decide_unpack _ (heap_ok_dec _)). vm_compute. exact I.
  - right. left. simpl. lia.
Defined.

(** X29.  [bigint_sub(dest, a, b)] returns [dest], or a new structure when
    [dest] is [NULL], which satisfies the representation invariants and
    denotes [a - b], and no other structure changes; [dest] may be an
    operand.  This holds when the operands have opposite signs, and for
    the same sign when [magnitude_cmp] orders them as their magnitudes
    are: the lengths differ, there is at most one digit, or the magnitudes
    are equal. *)
Theorem bigint_sub_value s dest a b xa xb :
  st_heap s !! a = Some xa -> st_heap s !! b = Some xb ->
  wf_bigint xa -> wf_bigint xb -> dest_ok s dest -> heap_ok s ->
  bi_negative xa <> bi_negative xb \/ cmp_exact xa xb ->
  exists r x' s',
    bigint_sub dest a b s = Done (Some r, s')
    /\ r = default (st_next s) dest
    /\ st_heap s' !! r = Some x'
    /\ wf_bigint x' /\ value x' = (value xa - value xb)%Z
    /\ (forall q, q <> r -> st_heap s' !! q = st_heap s !! q).
Proof.
  intros Ha Hb Hwa Hwb Hdest Hok Hcond.
  assert (Hrun : wp (bigint_sub dest a b)
     (fun r s' =>
        r = Some (default (st_next s) dest) /\
        exists x',
          st_heap s' !! default (st_next s) dest = Some x'
          /\ wf_bigint x' /\ value x' = (value xa - value xb)%Z
          /\ (forall q, q <> default (st_next s) dest ->
                        st_heap s' !! q = st_heap s !! q)) s).
  { destruct (decide (bi_negative xa = bi_negative xb)) as [Heq|Hne].
    - apply bigint_sub_same_sign_spec; try done. by destruct Hcond.
    - by apply bigint_sub_opposite_sign_spec. }
  destruct (wp_done _ _ _ Hrun)
    as (r & s' & Hrun' & -> & x' & Hx' & Hw' & Hv' & Hframe).
  exists (default (st_next s) dest), x', s'. done.
Qed.

(** 256 - 1. *)
Lemma bigint_sub_value_witness :
  let s := sample_pair (sample [0%Z; 1%Z] false) (sample [1%Z] false) in
  let dest := None in
  let a := 0 in
  let b := 1 in
  let xa := sample [0%Z; 1%Z] false in
  let xb := sample [1%Z] false in
  exists r x' s',
    bigint_sub dest a b s = Done (Some r, s')
    /\ r = default (st_next s) dest
    /\ st_heap s' !! r = Some x'
    /\ wf_bigint x' /\ value x' = (value xa - value xb)%Z
    /\ (forall q, q <> r -> st_heap s' !! q = st_heap s !! q).
Proof.
  intros s dest a b xa xb.
  apply (bigint_sub_value s dest a b xa xb).
  - reflexivity.
  - reflexivity.
  - apply (@bool_decide_unpack _ (wf_bigint_dec _)). vm_compute. exact I.
  - apply (@bool_decide_unpack _ (wf_bigint_dec _)). vm_compute. exact I.
  - exact I.
  - apply (@bool_decide_unpack _ (heap_ok_dec _)). vm_compute. exact I.
  - right. left. simpl. lia.
Defined.

(** ** Multiplication of factors that are not zero *)

Lemma digits_value_insert (D : list Z) k v d :
  D !! k = Some d ->
  digits_value (<[k := v]> D)
  = (digits_value D + (v - d) * 256 ^ Z.of_nat k)%Z.
Proof.
  revert k. induction D as [|e D IH]; intros k Hk; [done |].
  destruct k as [|k].
  - injection Hk as ->. simpl. rewrite digit_base. lia.
  - change ((e :: D) !! S k) with (D !! k) in Hk.
    change (<[S k := v]> (e :: D)) with (e :: <[k := v]> D).
    simpl digits_value. rewrite (IH k Hk), digit_base.
    rewrite Nat2Z.inj_succ, Z.pow_succ_r by lia. lia.
Qed.

(** One column of the multiplication: the digit stored and the carry. *)
Lemma mul_column dij carry ai bj :
  digit_range dij -> (0 <= carry <= 255)%Z ->
  digit_range ai -> digit_range bj ->
  let product := to_super (dij + carry + ai * bj) in
  digit_range (Z.land DIGIT_MAX product)
  /\ to_digit (Z.land DIGIT_MAX product) = Z.land DIGIT_MAX product
  /\ (0 <= Z.land DIGIT_MAX (Z.shiftr product DIGIT_BITS) <= 255)%Z
  /\ (Z.land DIGIT_MAX product
      + 256 * Z.land DIGIT_MAX (Z.shiftr product DIGIT_BITS)
      = dij + carry + ai * bj)%Z.
Proof.
  intros Hd Hc Ha Hb. apply digit_range_bounds in Hd, Ha, Hb.
  assert (Hp : (0 <= dij + carry + ai * bj < 65536)%Z) by nia.
  cbv zeta. unfold to_super.
  change (2 ^ (2 * DIGIT_BITS))%Z with 65536%Z.
  rewrite Z.mod_small by exact Hp.
  set (P := (dij + carry + ai * bj)%Z) in *.
  change DIGIT_MAX with (Z.ones 8). change DIGIT_BITS with 8%Z.
  rewrite !(Z.land_comm (Z.ones 8)), !Z.land_ones by lia.
  rewrite Z.shiftr_div_pow2 by lia.
  change (2 ^ 8)%Z with 256%Z.
  assert (Hq : (0 <= P / 256 < 256)%Z).
  { split; [apply Z.div_pos; lia |].
    apply Z.div_lt_upper_bound; lia. }
  rewrite (Z.mod_small (P / 256)) by exact Hq.
  pose proof (Z.mod_pos_bound P 256 ltac:(lia)) as Hm.
  split; [apply digit_range_bounds; lia |].
  split; [apply to_digit_small; lia |].
  split; [lia |].
  pose proof (Z.div_mod P 256 ltac:(lia)). lia.
Qed.

(** The digit [i] of a factor, which is 0 beyond its length. *)
Lemma wp_rd_factor p x i (Q : Z -> state -> Prop) s :
  st_heap s !! p = Some x -> wf_bigint x ->
  (digit_range (default 0%Z (live_digits x !! i)) ->
   Q (default 0%Z (live_digits x !! i)) s) ->
  wp (if decide (i < bi_length x) then rd p i else ret 0%Z) Q s.
Proof.
  intros Hp Hwf HQ. destruct x as [bx ox ax lx nx].
  assert (ox = 0) as -> by (destruct Hwf as [[? _] _]; done).
  apply wf_bigint_unfold in Hwf as (Hlx & Hax & HL & Hrx & _ & _).
  unfold live_digits in HQ. cbn [bi_length bi_off bi_block] in *.
  rewrite drop_0 in HQ.
  destruct (decide (i < lx)) as [Hi|Hi].
  - destruct (live_lookup_range bx lx i Hrx Hi ltac:(lia)) as (v & Hv & Hr).
    rewrite lookup_take_lt, Hv in HQ by lia.
    eapply wp_rd; [exact Hp | exact Hv | by apply HQ].
  - rewrite lookup_take_ge in HQ by lia. apply wp_ret. apply HQ.
    apply digit_range_bounds. simpl. lia.
Qed.

Lemma mul_column_step (w a b : ptr) xa xb a' ng mx i j carry s1 s :
  w <> a -> w <> b ->
  st_heap s1 !! a = Some xa -> st_heap s1 !! b = Some xb ->
  wf_bigint xa -> wf_bigint xb ->
  2 * mx <= a' -> i < mx -> j < mx ->
  mul_column_invariant w s1 a' ng (live_digits xa) (live_digits xb) mx i
    j carry s ->
  wp (let* la := get_length a in
      let* a_i := (if decide (i < la) then rd a i else ret 0%Z) in
      let* lb := get_length b in
      let* b_j := (if decide (j < lb) then rd b j else ret 0%Z) in
      let* dij := rd w (i + j) in
      let product := to_super (dij + carry + a_i * b_j) in
      let carry := Z.land DIGIT_MAX (Z.shiftr product DIGIT_BITS) in
      let product := Z.land DIGIT_MAX product in
      wr w (i + j) (to_digit product) ;;
      let* len := get_length w in
      (if decide (product <> 0%Z /\ len < i + j + 1)
       then set_length w (i + j + 1) else ret tt) ;;
      ret carry)
     (mul_column_invariant w s1 a' ng (live_digits xa) (live_digits xb) mx i
        (S j)) s.
Proof.
  intros Hwa Hwb Ha Hb Hwfa Hwfb Hroom Hi Hj
    (D & len & -> & HlD & HrD & Hzero & Hlen & Hc & Hval).
  set (A := live_digits xa) in *. set (B := live_digits xb) in *.
  apply wp_bind. eapply wp_get_length'.
  { rewrite heap_upd_ne by done. exact Ha. }
  apply wp_bind. eapply wp_rd_factor; [by rewrite heap_upd_ne | exact Hwfa |].
  fold A. intros Hra. set (ai := default 0%Z (A !! i)) in *.
  apply wp_bind. eapply wp_get_length'.
  { rewrite heap_upd_ne by done. exact Hb. }
  apply wp_bind. eapply wp_rd_factor; [by rewrite heap_upd_ne | exact Hwfb |].
  fold B. intros Hrb. set (bj := default 0%Z (B !! j)) in *.
  assert (Hij : i + j < length D) by lia.
  destruct (lookup_lt_is_Some_2 D (i + j) Hij) as [dij Hdij].
  assert (Hrd : digit_range dij)
    by (eapply (Forall_lookup_1 _ D (i + j)); [exact HrD | exact Hdij]).
  apply wp_bind. eapply wp_rd; [apply heap_upd_eq | exact Hdij |].
  destruct (mul_column dij carry ai bj Hrd Hc Hra Hrb)
    as (Hrp & Hdp & Hc' & Hsum).
  cbv zeta in Hrp, Hdp, Hc', Hsum. cbv zeta.
  set (product := to_super (dij + carry + ai * bj)) in *.
  set (carry' := Z.land DIGIT_MAX (Z.shiftr product DIGIT_BITS)) in *.
  set (digit := Z.land DIGIT_MAX product) in *.
  rewrite Hdp.
  apply wp_bind. eapply wp_wr; [apply heap_upd_eq | simpl; lia |].
  rewrite upd_upd. rewrite Nat.add_0_l.
  apply wp_bind. eapply wp_get_length; [apply heap_upd_eq |].
  assert (Hinv : forall len', length A + length B <= len' <= a' ->
    mul_column_invariant w s1 a' ng A B mx i (S j) carry'
      (upd w (mk_bigint (<[i + j := digit]> D) 0 a' len' ng) s1)).
  { intros len' Hlen'. exists (<[i + j := digit]> D), len'.
    split; [reflexivity |]. split; [by rewrite length_insert |].
    split; [by apply Forall_insert |].
    split.
    { intros k Hk1 Hk2. rewrite list_lookup_insert_ne by lia.
      by apply Hzero. }
    split; [exact Hlen' |]. split; [exact Hc' |].
    rewrite (digits_value_insert D (i + j) digit dij Hdij).
    rewrite (digits_value_take_S B j). fold bj.
    replace (Z.of_nat (i + S j)) with (Z.succ (Z.of_nat (i + j))) by lia.
    rewrite Z.pow_succ_r by lia.
    rewrite Nat2Z.inj_add, Z.pow_add_r in * by lia.
    set (Pi := (256 ^ Z.of_nat i)%Z) in *.
    set (Pj := (256 ^ Z.of_nat j)%Z) in *.
    set (X := digits_value D) in *.
    set (T := (digits_value (take i A) * digits_value B)%Z) in *.
    set (V := digits_value (take j B)) in *.
    replace digit with (dij + carry + ai * bj - 256 * carry')%Z by lia.
    replace X with (T + ai * V * Pi - carry * (Pi * Pj))%Z by lia.
    fold ai. generalize ai bj carry' Pi Pj T V. intros. ring. }
  destruct (decide (digit <> 0%Z /\ len < i + j + 1)) as [[_ Hgrow]|_].
  - apply wp_bind. eapply wp_set_length; [apply heap_upd_eq |].
    rewrite upd_upd. apply wp_ret. apply Hinv. lia.
  - apply wp_bind. apply wp_ret. apply wp_ret. apply Hinv. lia.
Qed.

Lemma mul_row_step (w a b : ptr) xa xb a' ng mx i s1 s :
  w <> a -> w <> b ->
  st_heap s1 !! a = Some xa -> st_heap s1 !! b = Some xb ->
  wf_bigint xa -> wf_bigint xb ->
  bi_length xb <= mx -> 2 * mx <= a' -> i < mx ->
  mul_row_invariant w s1 a' ng (live_digits xa) (live_digits xb) mx i tt s ->
  wp (let* carry :=
        for_range mx 0
          (fun j (carry : Z) =>
             let* la := get_length a in
             let* a_i := (if decide (i < la) then rd a i else ret 0%Z) in
             let* lb := get_length b in
             let* b_j := (if decide (j < lb) then rd b j else ret 0%Z) in
             let* dij := rd w (i + j) in
             let product := to_super (dij + carry + a_i * b_j) in
             let carry := Z.land DIGIT_MAX (Z.shiftr product DIGIT_BITS) in
             let product := Z.land DIGIT_MAX product in
             wr w (i + j) (to_digit product) ;;
             let* len := get_length w in
             (if decide (product <> 0%Z /\ len < i + j + 1)
              then set_length w (i + j + 1) else ret tt) ;;
             ret carry)
          0%Z in
      if decide (carry <> 0%Z) then
        let* len := get_length w in
        (if decide (len < i + mx + 1)
         then set_length w (i + mx + 1) else ret tt) ;;
        wr w (i + mx) (to_digit carry)
      else ret tt)
     (mul_row_invariant w s1 a' ng (live_digits xa) (live_digits xb) mx
        (S i)) s.
Proof.
  intros Hwa Hwb Ha Hb Hwfa Hwfb Hlb Hroom Hi
    (D & len & -> & HlD & HrD & Hzero & Hlen & Hval).
  set (A := live_digits xa) in *. set (B := live_digits xb) in *.
  assert (HB : length B = bi_length xb)
    by (apply live_digits_length; by apply wf_in_bounds).
  apply wp_bind. eapply wp_mono.
  { apply (wp_for_range (mul_column_invariant w s1 a' ng A B mx i) mx 0).
    - exists D, len. split_and!; try done; try lia.
      rewrite take_0. simpl. lia.
    - intros j carry s Hj Hinv.
      apply (mul_column_step w a b xa xb a' ng mx i j carry s1 s);
        try done; lia. }
  intros carry s (D' & len' & -> & HlD' & HrD' & Hzero' & Hlen' & Hc & Hval').
  rewrite Nat.add_0_l in Hval'.
  rewrite (take_ge B mx) in Hval' by lia.
  assert (Hrow : (digits_value D' + carry * 256 ^ Z.of_nat (i + mx)
                  = digits_value (take (S i) A) * digits_value B)%Z).
  { rewrite Hval'. rewrite (digits_value_take_S A i). ring. }
  destruct (decide (carry <> 0%Z)) as [Hnz|Hz].
  - apply wp_bind. eapply wp_get_length; [apply heap_upd_eq |].
    assert (Hfin : forall len2, length A + length B <= len2 <= a' ->
      wp (wr w (i + mx) (to_digit carry))
         (mul_row_invariant w s1 a' ng A B mx (S i))
         (upd w (mk_bigint D' 0 a' len2 ng) s1)).
    { intros len2 Hlen2.
      eapply wp_wr; [apply heap_upd_eq | simpl; lia |].
      rewrite upd_upd, Nat.add_0_l. rewrite to_digit_small by lia.
      exists (<[i + mx := carry]> D'), len2.
      split; [reflexivity |]. split; [by rewrite length_insert |].
      split.
      { apply Forall_insert; [exact HrD' |]. apply digit_range_bounds. lia. }
      split.
      { intros k Hk1 Hk2. rewrite list_lookup_insert_ne by lia.
        apply Hzero'; lia. }
      split; [exact Hlen2 |].
      rewrite (digits_value_insert D' (i + mx) carry 0%Z)
        by (apply Hzero'; lia).
      rewrite <- Hrow. ring. }
    destruct (decide (len' < i + mx + 1)) as [Hgrow|_].
    + apply wp_bind. eapply wp_set_length; [apply heap_upd_eq |].
      rewrite upd_upd. apply Hfin. lia.
    + apply wp_bind. apply wp_ret. apply Hfin. lia.
  - apply wp_ret. apply dec_stable in Hz. subst carry.
    exists D', len'. split_and!; try done; try lia.
    intros k Hk1 Hk2. apply Hzero'; lia.
Qed.

(** The two loops of [bigint_mul] on a cleared accumulator. *)
Lemma mul_loops_spec (w a b : ptr) xa xb a' len0 ng mx s1 :
  w <> a -> w <> b ->
  st_heap s1 !! w = Some (mk_bigint (replicate a' 0%Z) 0 a' len0 ng) ->
  st_heap s1 !! a = Some xa -> st_heap s1 !! b = Some xb ->
  wf_bigint xa -> wf_bigint xb ->
  bi_length xa <= mx -> bi_length xb <= mx -> 2 * mx <= a' ->
  bi_length xa + bi_length xb <= len0 <= a' ->
  wp (for_range mx 0
        (fun i _ =>
           let* carry :=
             for_range mx 0
               (fun j (carry : Z) =>
                  let* la := get_length a in
                  let* a_i := (if decide (i < la) then rd a i
                               else ret 0%Z) in
                  let* lb := get_length b in
                  let* b_j := (if decide (j < lb) then rd b j
                               else ret 0%Z) in
                  let* dij := rd w (i + j) in
                  let product := to_super (dij + carry + a_i * b_j) in
                  let carry :=
                    Z.land DIGIT_MAX (Z.shiftr product DIGIT_BITS) in
                  let product := Z.land DIGIT_MAX product in
                  wr w (i + j) (to_digit product) ;;
                  let* len := get_length w in
                  (if decide (product <> 0%Z /\ len < i + j + 1)
                   then set_length w (i + j + 1) else ret tt) ;;
                  ret carry)
               0%Z in
           if decide (carry <> 0%Z) then
             let* len := get_length w in
             (if decide (len < i + mx + 1)
              then set_length w (i + mx + 1) else ret tt) ;;
             wr w (i + mx) (to_digit carry)
           else ret tt)
        tt)
     (fun _ s' =>
        exists D len,
          s' = upd w (mk_bigint D 0 a' len ng) s1
          /\ length D = a' /\ Forall digit_range D
          /\ len <= a'
          /\ digits_value (take len D)
             = (magnitude xa * magnitude xb)%Z) s1.
Proof.
  intros Hwa Hwb Hw Ha Hb Hwfa Hwfb Hla Hlb Hroom Hlen0.
  set (A := live_digits xa). set (B := live_digits xb).
  assert (HA : length A = bi_length xa)
    by (apply live_digits_length; by apply wf_in_bounds).
  assert (HB : length B = bi_length xb)
    by (apply live_digits_length; by apply wf_in_bounds).
  eapply wp_mono.
  { apply (wp_for_range (mul_row_invariant w s1 a' ng A B mx) mx 0).
    - exists (replicate a' 0%Z), len0.
      split; [symmetry; by apply upd_same |].
      split; [by rewrite length_replicate |].
      split.
      { apply Forall_replicate. apply digit_range_bounds. lia. }
      split.
      { intros k _ Hk. by apply lookup_replicate_2. }
      split; [lia |].
      rewrite take_0, digits_value_replicate_0. simpl. lia.
    - intros i [] s Hi Hinv.
      apply (mul_row_step w a b xa xb a' ng mx i s1 s); try done; lia. }
  intros [] s (D & len & -> & HlD & HrD & _ & Hlen & Hval).
  rewrite Nat.add_0_l in Hval. rewrite take_ge in Hval by lia.
  exists D, len. split_and!; try done; try lia.
  (* the digits from [len] on are zero: the product has at most
     [la + lb] digits *)
  change (digits_value A) with (magnitude xa) in Hval.
  change (digits_value B) with (magnitude xb) in Hval.
  rewrite <- Hval.
  rewrite <- (take_drop len D) at 2. rewrite digits_value_app.
  rewrite length_take, Nat.min_l by lia.
  assert (Hhi : (0 <= digits_value (drop len D))%Z).
  { apply (digits_value_bound (drop len D)). by apply Forall_drop. }
  assert (Hlo : (0 <= digits_value (take len D))%Z).
  { apply (digits_value_bound (take len D)). by apply Forall_take. }
  assert (Hba : (0 <= magnitude xa < 256 ^ Z.of_nat (bi_length xa))%Z).
  { unfold magnitude. fold A. rewrite <- HA. apply digits_value_bound.
    by destruct Hwfa as (_ & _ & ? & _). }
  assert (Hbb : (0 <= magnitude xb < 256 ^ Z.of_nat (bi_length xb))%Z).
  { unfold magnitude. fold B. rewrite <- HB. apply digits_value_bound.
    by destruct Hwfb as (_ & _ & ? & _). }
  assert (Hprod : (magnitude xa * magnitude xb
                   < 256 ^ Z.of_nat len)%Z).
  { assert (Hle : (256 ^ Z.of_nat (bi_length xa + bi_length xb)
                   <= 256 ^ Z.of_nat len)%Z)
      by (apply Z.pow_le_mono_r; lia).
    rewrite Nat2Z.inj_add, Z.pow_add_r in Hle by lia. nia. }
  rewrite <- Hval in Hprod.
  rewrite <- (take_drop len D) in Hprod at 1.
  rewrite digits_value_app in Hprod.
  rewrite length_take, Nat.min_l in Hprod by lia.
  pose proof (pow256_pos len) as Hpos.
  assert (digits_value (drop len D) = 0%Z) by nia.
  lia.
Qed.

(** The [done:] label.  When the accumulator [w] is a duplicate of the
    destination, the signs are read after the destination has been
    overwritten: a factor that is the destination then has the sign of the
    accumulator. *)
Lemma mul_done_spec (od : option ptr) (w a b : ptr) blk a' len ngw xa xb s :
  st_heap s !! w = Some (mk_bigint blk 0 a' len ngw) ->
  st_heap s !! a = Some xa -> st_heap s !! b = Some xb ->
  w <> a -> w <> b ->
  od = None \/ od = Some w \/ od = Some a \/ od = Some b ->
  length blk = a' -> 1 <= a' -> len <= a' ->
  Forall digit_range (take len blk) ->
  wp (mul_done od w a b)
     (fun r s' =>
        r = Some (default w od) /\
        exists x',
          st_heap s' !! default w od = Some x' /\ wf_bigint x'
          /\ magnitude x' = digits_value (take len blk)
          /\ bi_negative x'
             = (if decide (bi_length x' = 0) then false
                else negb (bool_decide
                  ((if decide (od = Some a) then ngw else bi_negative xa)
                   = (if decide (od = Some b) then ngw
                      else bi_negative xb))))
          /\ (forall q, q <> default w od -> q <> w ->
                st_heap s' !! q = st_heap s !! q)
          /\ (default w od <> w -> st_heap s' !! w = None)) s.
Proof.
  intros Hw Ha Hb Hwa Hwb Hod Hlen Hone Hl Hr.
  (* the accumulator is the destination *)
  assert (Hsame : forall od',
    od' <> Some a -> od' <> Some b -> default w od' = w ->
    wp (let* na := get_negative a in
        let* nb := get_negative b in
        set_negative w (negb (bool_decide (na = nb))) ;;
        normalize w ;;
        ret (Some w))
     (fun r s' =>
        r = Some (default w od') /\
        exists x',
          st_heap s' !! default w od' = Some x' /\ wf_bigint x'
          /\ magnitude x' = digits_value (take len blk)
          /\ bi_negative x'
             = (if decide (bi_length x' = 0) then false
                else negb (bool_decide
                  ((if decide (od' = Some a) then ngw else bi_negative xa)
                   = (if decide (od' = Some b) then ngw
                      else bi_negative xb))))
          /\ (forall q, q <> default w od' -> q <> w ->
                st_heap s' !! q = st_heap s !! q)
          /\ (default w od' <> w -> st_heap s' !! w = None)) s).
  { intros od' Hna Hnb Hdef. rewrite Hdef.
    rewrite decide_False by done. rewrite (decide_False (P := od' = Some b))
      by done.
    apply wp_bind. eapply wp_get_negative'; [exact Ha |].
    apply wp_bind. eapply wp_get_negative'; [exact Hb |].
    apply wp_bind. eapply wp_set_negative; [exact Hw |].
    apply wp_bind.
    eapply wp_normalize_mag; [apply heap_upd_eq | exact Hlen | exact Hone
                             | exact Hl | exact Hr |].
    intros x' Hwf Hmag Hneg. rewrite upd_upd. apply wp_ret.
    split; [reflexivity |]. exists x'.
    split; [apply heap_upd_eq |]. split; [exact Hwf |].
    split; [exact Hmag |]. split; [exact Hneg |].
    split; [| done].
    intros q Hq _. by rewrite heap_upd_ne. }
  unfold mul_done.
  destruct od as [d|].
  - destruct (decide (w <> d)) as [Hne|Heq].
    + (* the accumulator is a duplicate of the destination *)
      assert (Hd : d = a \/ d = b).
      { destruct Hod as [H|[H|[H|H]]]; try discriminate;
          injection H as ->; tauto. }
      assert (Hdx : exists xd, st_heap s !! d = Some xd).
      { destruct Hd as [-> | ->]; eauto. }
      destruct Hdx as [xd Hdx].
      set (v := mk_bigint blk 0 a' len ngw) in *.
      set (s2 := without w (upd d v s)).
      assert (Hs2d : st_heap s2 !! d = Some v).
      { unfold s2. rewrite heap_without_ne by done. apply heap_upd_eq. }
      assert (Hs2a : exists ya, st_heap s2 !! a = Some ya
                /\ bi_negative ya
                   = if decide (Some d = Some a) then ngw
                     else bi_negative xa).
      { destruct (decide (d = a)) as [->|Hda].
        - exists v. rewrite decide_True by done. done.
        - exists xa. rewrite decide_False by congruence. split; [| done].
          unfold s2. rewrite heap_without_ne by done.
          rewrite heap_upd_ne by done. exact Ha. }
      assert (Hs2b : exists yb, st_heap s2 !! b = Some yb
                /\ bi_negative yb
                   = if decide (Some d = Some b) then ngw
                     else bi_negative xb).
      { destruct (decide (d = b)) as [->|Hdb].
        - exists v. rewrite decide_True by done. done.
        - exists xb. rewrite decide_False by congruence. split; [| done].
          unfold s2. rewrite heap_without_ne by done.
          rewrite heap_upd_ne by done. exact Hb. }
      destruct Hs2a as (ya & Hya & Hna). destruct Hs2b as (yb & Hyb & Hnb).
      apply wp_bind. apply wp_bind. eapply wp_load; [exact Hw |].
      apply wp_bind. eapply wp_store; [exact Hdx |].
      apply wp_bind. unfold wp at 1. cbv beta.
      apply wp_ret. fold (without w (upd d v s)). fold s2.
      apply wp_bind. eapply wp_get_negative'; [exact Hya |].
      apply wp_bind. eapply wp_get_negative'; [exact Hyb |].
      apply wp_bind. eapply wp_set_negative; [exact Hs2d |].
      apply wp_bind.
      eapply wp_normalize_mag; [apply heap_upd_eq | exact Hlen | exact Hone
                               | exact Hl | exact Hr |].
      intros x' Hwf Hmag Hneg. rewrite upd_upd. apply wp_ret.
      cbn [default]. split; [reflexivity |]. exists x'.
      split; [apply heap_upd_eq |]. split; [exact Hwf |].
      split; [exact Hmag |].
      split; [rewrite Hneg, Hna, Hnb; reflexivity |].
      split.
      * intros q Hq1 Hq2. rewrite heap_upd_ne by done. unfold s2.
        rewrite heap_without_ne by done. by rewrite heap_upd_ne.
      * intros _. rewrite heap_upd_ne by done. unfold s2.
        apply heap_without_eq.
    + apply dec_stable in Heq. subst d.
      apply wp_bind. apply wp_ret.
      apply (Hsame (Some w)); [congruence | congruence | reflexivity].
  - apply wp_bind. apply wp_ret.
    apply (Hsame None); done.
Qed.

Lemma bigint_mul_unfold dest a b :
  bigint_mul dest a b
  = let* w :=
      match dest with
      | None => bigint_from_int 0
      | Some d => if decide (d = a \/ d = b) then bigint_dup d else ret d
      end in
    mul_from_accumulator dest w a b.
Proof. reflexivity. Qed.

(** The sign flag of a structure that denotes a multiple of another one. *)
Lemma wf_sign_of_multiple x y (m : Z) :
  wf_bigint x -> wf_bigint y -> (0 < m)%Z -> value x <> 0%Z ->
  value y = (value x * m)%Z ->
  bi_negative y = bi_negative x /\ magnitude y = (magnitude x * m)%Z.
Proof.
  intros Hx Hy Hm Hnz Hv.
  pose proof (wf_magnitude_nonneg x Hx) as Hmx.
  pose proof (wf_magnitude_nonneg y Hy) as Hmy.
  rewrite !value_unfold in *.
  destruct (bi_negative x), (bi_negative y); split; try done; nia.
Qed.

(** A shift in place of the multiplication, followed by the [done:]
    label: [src] is the factor that is shifted. *)
Lemma mul_shift_spec (od : option ptr) (w a b src : ptr) xw xa xb xsrc k s1 :
  st_heap s1 !! w = Some xw -> wf_buffer xw ->
  st_heap s1 !! a = Some xa -> st_heap s1 !! b = Some xb ->
  st_heap s1 !! src = Some xsrc -> wf_bigint xsrc -> value xsrc <> 0%Z ->
  w <> a -> w <> b ->
  od = None \/ od = Some w \/ od = Some a \/ od = Some b ->
  (Z.of_nat (bi_length xsrc) <= INT_MAX)%Z -> (Z.of_nat k < 2 ^ 64)%Z ->
  wp (bigint_shli (Some w) src k ;; mul_done od w a b)
     (fun r s' =>
        r = Some (default w od) /\
        exists x',
          st_heap s' !! default w od = Some x' /\ wf_bigint x'
          /\ magnitude x' = (magnitude xsrc * 2 ^ Z.of_nat k)%Z
          /\ bi_negative x'
             = negb (bool_decide
                 ((if decide (od = Some a) then bi_negative xsrc
                   else bi_negative xa)
                  = (if decide (od = Some b) then bi_negative xsrc
                     else bi_negative xb)))
          /\ (forall q, q <> default w od -> q <> w ->
                st_heap s' !! q = st_heap s1 !! q)
          /\ (default w od <> w -> st_heap s' !! w = None)) s1.
Proof.
  intros Hw Hbuf Ha Hb Hsrc Hwfs Hnz Hwa Hwb Hod Hint Hsize.
  apply wp_bind. eapply wp_mono.
  { apply (bigint_shli_spec w src xsrc xw k s1); done. }
  intros r s (-> & y & -> & Hwfy & Hvy).
  assert (Hpow : (0 < 2 ^ Z.of_nat k)%Z) by (apply Z.pow_pos_nonneg; lia).
  destruct (wf_sign_of_multiple xsrc y _ Hwfs Hwfy Hpow Hnz Hvy)
    as [Hsign Hmag].
  destruct y as [blk oy a' len ngw].
  assert (oy = 0) as -> by (destruct Hwfy as [[? _] _]; done).
  pose proof Hwfy as Hwfy'.
  apply wf_bigint_unfold in Hwfy' as (Hlen & Hone & Hl & Hr & _ & _).
  rewrite magnitude_unfold in Hmag. cbn [bi_negative] in Hsign.
  eapply wp_mono.
  { apply (mul_done_spec od w a b blk a' len ngw xa xb);
      try done; try apply heap_upd_eq; by rewrite heap_upd_ne. }
  intros r s' (-> & x' & Hx' & Hwf' & Hmag' & Hneg' & Hfr & Hgone).
  split; [reflexivity |]. exists x'.
  split; [exact Hx' |]. split; [exact Hwf' |].
  split; [by rewrite Hmag', Hmag |].
  split.
  { rewrite Hneg', Hsign. rewrite decide_False; [reflexivity |].
    intros Hz. apply (wf_length_zero x' Hwf') in Hz.
    pose proof (wf_length_zero xsrc Hwfs) as Hzs.
    pose proof (wf_value_sign xsrc Hwfs) as [_ Hvs].
    assert (magnitude xsrc <> 0%Z) by (rewrite <- Hzs, Hvs; exact Hnz).
    nia. }
  split; [| exact Hgone].
  intros q Hq1 Hq2. rewrite (Hfr q Hq1 Hq2). by rewrite heap_upd_ne.
Qed.

Lemma wp_get_allocated p x (Q : nat -> state -> Prop) s :
  st_heap s !! p = Some x -> Q (bi_allocated x) s -> wp (get_allocated p) Q s.
Proof.
  intros Hp HQ. unfold get_allocated. apply wp_bind.
  eapply wp_load; [exact Hp |]. by apply wp_ret.
Qed.

(** The test made before each shortcut. *)
Lemma wp_mul_shortcut p x (Q : bool -> state -> Prop) s :
  st_heap s !! p = Some x -> wf_bigint x ->
  (forall r, (r = true <-> mul_shortcut x) -> Q r s) ->
  wp (if decide (1 < bi_length x) then bigint_is_power_of_2 p
      else ret false) Q s.
Proof.
  intros Hp Hwf HQ. unfold mul_shortcut in HQ.
  destruct (decide (1 < bi_length x)) as [Hl|Hl].
  - destruct (bigint_is_power_of_2_run s p x Hp Hwf) as (r & Hrun & Hr).
    eapply wp_of_done; [exact Hrun |]. apply HQ. rewrite Hr. tauto.
  - apply wp_ret. apply HQ. split; [discriminate | tauto].
Qed.

(** A power of two of [k] bits has more than [k / DIGIT_BITS] digits. *)
Lemma pow2_magnitude_bits x k :
  wf_bigint x -> magnitude x = (2 ^ Z.of_nat k)%Z ->
  (Z.of_nat k < 8 * Z.of_nat (bi_length x))%Z.
Proof.
  intros Hwf Hk.
  assert (Hb : (magnitude x < 256 ^ Z.of_nat (bi_length x))%Z).
  { unfold magnitude.
    rewrite <- (live_digits_length x) by (by apply wf_in_bounds).
    apply digits_value_bound. by destruct Hwf as (_ & _ & ? & _). }
  rewrite Hk in Hb. change 256%Z with (2 ^ 8)%Z in Hb.
  rewrite <- Z.pow_mul_r in Hb by lia.
  apply Z.pow_lt_mono_r_iff in Hb; lia.
Qed.

Lemma mul_from_accumulator_spec (od : option ptr) (w a b : ptr) xw xa xb s1 :
  st_heap s1 !! w = Some xw -> wf_buffer xw ->
  st_heap s1 !! a = Some xa -> st_heap s1 !! b = Some xb ->
  w <> a -> w <> b -> wf_bigint xa -> wf_bigint xb ->
  value xa <> 0%Z -> value xb <> 0%Z ->
  (Z.of_nat (bi_length xa) <= INT_MAX)%Z ->
  (Z.of_nat (bi_length xb) <= INT_MAX)%Z ->
  od = None \/ od = Some w \/ od = Some a \/ od = Some b ->
  (od = Some a -> bi_negative xw = bi_negative xa) ->
  (od = Some b -> bi_negative xw = bi_negative xb) ->
  mul_shortcut xa \/ mul_shortcut xb
  \/ Nat.max (bi_length xa) (bi_length xb)
     <= S (Nat.min (bi_length xa) (bi_length xb))
  \/ 2 * Nat.max (bi_length xa) (bi_length xb) <= bi_allocated xw ->
  wp (mul_from_accumulator od w a b)
     (fun r s' =>
        r = Some (default w od) /\
        exists x',
          st_heap s' !! default w od = Some x' /\ wf_bigint x'
          /\ magnitude x' = (magnitude xa * magnitude xb)%Z
          /\ (mul_sign_lost od a b xa xb -> bi_negative x' = false)
          /\ (~ mul_sign_lost od a b xa xb ->
              bi_negative x' = xorb (bi_negative xa) (bi_negative xb))
          /\ (forall q, q <> default w od -> q <> w ->
                st_heap s' !! q = st_heap s1 !! q)
          /\ (default w od <> w -> st_heap s' !! w = None)) s1.
Proof.
  intros Hw Hbuf Ha Hb Hwa Hwb Hwfa Hwfb Hnza Hnzb Hinta Hintb Hod Hsa Hsb
    Hroom.
  destruct (wf_value_sign xa Hwfa) as [_ Hza].
  destruct (wf_value_sign xb Hwfb) as [_ Hzb].
  assert (Hla : bi_length xa <> 0) by (rewrite Hza; exact Hnza).
  assert (Hlb : bi_length xb <> 0) by (rewrite Hzb; exact Hnzb).
  assert (Hxor : forall n m : bool, negb (bool_decide (n = m)) = xorb n m).
  { by intros [] []. }
  unfold mul_from_accumulator.
  apply wp_bind. eapply wp_eqz; [exact Ha |].
  apply wp_bind. eapply wp_eqz; [exact Hb |].
  rewrite !bool_decide_eq_false_2 by done. cbn [orb].
  apply wp_bind. eapply wp_get_length'; [exact Ha |].
  apply wp_bind. eapply wp_mul_shortcut; [exact Ha | exact Hwfa |].
  intros [] Hpa.
  { (* [a] is a power of two *)
    assert (Hsha : mul_shortcut xa) by (by apply Hpa).
    destruct (ctz_run s1 a xa Ha Hwfa) as (k & Hrun & _ & _ & Hk).
    specialize (Hk (proj2 Hsha)).
    pose proof (pow2_magnitude_bits xa k Hwfa Hk) as Hbits.
    apply wp_bind. eapply wp_of_done; [exact Hrun |].
    eapply wp_mono.
    { apply (mul_shift_spec od w a b b xw xa xb xb k s1); try done.
      unfold INT_MAX in Hinta. lia. }
    intros r s' (-> & x' & Hx' & Hwf' & Hmag' & Hneg' & Hfr & Hgone).
    split; [reflexivity |]. exists x'.
    split; [exact Hx' |]. split; [exact Hwf' |].
    split; [rewrite Hmag', Hk; lia |].
    split; [| split; [| by split]].
    - intros [[-> _]|[_ [Hn _]]]; [| contradiction].
      rewrite Hneg'. rewrite decide_True by done.
      destruct (decide (Some a = Some b)); by rewrite bool_decide_eq_true_2.
    - intros Hkeep. rewrite Hneg'.
      rewrite (decide_False (P := od = Some a))
        by (intros ->; apply Hkeep; left; done).
      destruct (decide (od = Some b)); apply Hxor. }
  assert (Hnsa : ~ mul_shortcut xa).
  { intros H. apply Hpa in H. discriminate. }
  apply wp_bind. eapply wp_get_length'; [exact Hb |].
  apply wp_bind. eapply wp_mul_shortcut; [exact Hb | exact Hwfb |].
  intros [] Hpb.
  { (* [b] is a power of two *)
    assert (Hshb : mul_shortcut xb) by (by apply Hpb).
    destruct (ctz_run s1 b xb Hb Hwfb) as (k & Hrun & _ & _ & Hk).
    specialize (Hk (proj2 Hshb)).
    pose proof (pow2_magnitude_bits xb k Hwfb Hk) as Hbits.
    apply wp_bind. eapply wp_of_done; [exact Hrun |].
    eapply wp_mono.
    { apply (mul_shift_spec od w a b a xw xa xb xa k s1); try done.
      unfold INT_MAX in Hintb. lia. }
    intros r s' (-> & x' & Hx' & Hwf' & Hmag' & Hneg' & Hfr & Hgone).
    split; [reflexivity |]. exists x'.
    split; [exact Hx' |]. split; [exact Hwf' |].
    split; [rewrite Hmag', Hk; lia |].
    split; [| split; [| by split]].
    - intros [[_ Hn]|[-> _]]; [contradiction |].
      rewrite Hneg'. rewrite (decide_True (P := Some b = Some b)) by done.
      destruct (decide (Some b = Some a)); by rewrite bool_decide_eq_true_2.
    - intros Hkeep. rewrite Hneg'.
      rewrite (decide_False (P := od = Some b))
        by (intros ->; apply Hkeep; right; done).
      destruct (decide (od = Some a)); apply Hxor. }
  assert (Hnsb : ~ mul_shortcut xb).
  { intros H. apply Hpb in H. discriminate. }
  (* the general case *)
  apply wp_bind. eapply wp_eqz; [exact Ha |].
  apply wp_bind. eapply wp_eqz; [exact Hb |].
  rewrite !bool_decide_eq_false_2 by done. cbn [orb].
  destruct xw as [bw ow aw lw ngw].
  destruct Hbuf as (Hoff & Hlen & Hone). simpl in Hoff, Hlen, Hone.
  subst ow. cbn [bi_negative bi_allocated] in *.
  unfold resize_sum.
  apply wp_bind. eapply wp_resize; [exact Hw | exact Hlen | exact Hone |].
  intros a' Hsum Hgrow.
  apply wp_bind. eapply wp_get_allocated; [apply heap_upd_eq |].
  cbn [bi_allocated].
  apply wp_bind. eapply wp_memset0; [apply heap_upd_eq | |].
  { rewrite length_app, length_replicate. lia. }
  rewrite upd_upd.
  rewrite drop_ge by (rewrite length_app, length_replicate; lia).
  rewrite app_nil_r.
  set (mx := if decide (bi_length xb < bi_length xa) then bi_length xa
             else bi_length xb).
  assert (Hmx : mx = Nat.max (bi_length xa) (bi_length xb)).
  { unfold mx. destruct (decide (bi_length xb < bi_length xa)); lia. }
  assert (Hfit : 2 * mx <= a').
  { destruct Hroom as [H|[H|[H|H]]]; [contradiction | contradiction | |];
      lia. }
  set (s2 := upd w (mk_bigint (replicate a' 0%Z) 0 a'
                      (bi_length xa + bi_length xb) ngw) s1).
  cbv zeta. fold mx.
  apply wp_bind. eapply wp_mono.
  { apply (mul_loops_spec w a b xa xb a' (bi_length xa + bi_length xb) ngw
             mx s2); try done; try lia.
    - apply heap_upd_eq.
    - unfold s2. by rewrite heap_upd_ne.
    - unfold s2. by rewrite heap_upd_ne. }
  intros [] s (D & len & -> & HlD & HrD & Hlen' & Hval).
  unfold s2. rewrite upd_upd.
  eapply wp_mono.
  { apply (mul_done_spec od w a b D a' len ngw xa xb);
      try done; try apply heap_upd_eq; try lia;
      try (by rewrite heap_upd_ne).
    by apply Forall_take. }
  intros r s' (-> & x' & Hx' & Hwf' & Hmag' & Hneg' & Hfr & Hgone).
  split; [reflexivity |]. exists x'.
  split; [exact Hx' |]. split; [exact Hwf' |].
  split; [by rewrite Hmag', Hval |].
  assert (Hnz' : bi_length x' <> 0).
  { intros Hz. apply (wf_length_zero x' Hwf') in Hz.
    pose proof (wf_length_zero xa Hwfa). pose proof (wf_length_zero xb Hwfb).
    assert (magnitude xa <> 0%Z) by tauto.
    assert (magnitude xb <> 0%Z) by tauto. nia. }
  split; [| split; [| split; [| exact Hgone]]].
  - intros [[_ H]|[_ [_ H]]]; contradiction.
  - intros _. rewrite Hneg'. rewrite decide_False by done.
    rewrite <- Hxor.
    assert (Ea : (if decide (od = Some a) then ngw else bi_negative xa)
                 = bi_negative xa)
      by (destruct (decide (od = Some a)); [by apply Hsa | done]).
    assert (Eb : (if decide (od = Some b) then ngw else bi_negative xb)
                 = bi_negative xb)
      by (destruct (decide (od = Some b)); [by apply Hsb | done]).
    by rewrite Ea, Eb.
  - intros q Hq1 Hq2. rewrite (Hfr q Hq1 Hq2). by rewrite heap_upd_ne.
Qed.

Lemma value_of_sign x (m : Z) (sg : bool) :
  magnitude x = m -> bi_negative x = sg ->
  value x = if sg then (- m)%Z else m.
Proof. intros <- <-. apply value_unfold. Qed.

(** X30.  [bigint_mul(dest, a, b)] with factors that are not zero returns
    [dest], or a new structure when [dest] is [NULL], which satisfies the
    representation invariants, and no other structure changes; [dest] may
    be a factor.  The loops index the accumulator up to twice the length of
    the longer factor, while [resize_sum] makes room for the sum of the
    lengths only: the result is established when the lengths differ by at
    most one, when the accumulator already has twice the longer length
    allocated, or when a factor of more than one digit is a power of two,
    which is multiplied by a shift.  The result then denotes [a * b],
    except when the shifted product is made in a duplicate of [dest]
    (a power of two [a] with [dest == a], or else a power of two [b] with
    [dest == b]): the signs are compared after the duplicate has been
    copied over the factor, and the result is [|a * b|].  The factors
    have at most [INT_MAX] digits each, because the shift indexes the
    digits of the factor it shifts with an [int]. *)
Theorem bigint_mul_value s dest a b xa xb :
  st_heap s !! a = Some xa -> st_heap s !! b = Some xb ->
  wf_bigint xa -> wf_bigint xb -> dest_ok s dest -> heap_ok s ->
  value xa <> 0%Z -> value xb <> 0%Z ->
  (Z.of_nat (bi_length xa) <= INT_MAX)%Z ->
  (Z.of_nat (bi_length xb) <= INT_MAX)%Z ->
  mul_shortcut xa \/ mul_shortcut xb
  \/ Nat.max (bi_length xa) (bi_length xb)
     <= S (Nat.min (bi_length xa) (bi_length xb))
  \/ 2 * Nat.max (bi_length xa) (bi_length xb)
     <= accumulator_allocated s dest ->
  exists r x' s',
    bigint_mul dest a b s = Done (Some r, s')
    /\ r = default (st_next s) dest
    /\ st_heap s' !! r = Some x' /\ wf_bigint x'
    /\ (~ mul_sign_lost dest a b xa xb ->
        value x' = (value xa * value xb)%Z)
    /\ (mul_sign_lost dest a b xa xb ->
        value x' = Z.abs (value xa * value xb))
    /\ (forall q, q <> r -> st_heap s' !! q = st_heap s !! q).
Proof.
  intros Ha Hb Hwfa Hwfb Hdest Hok Hnza Hnzb Hinta Hintb Hroom.
  pose proof (heap_ok_lt _ _ _ Hok Ha) as Hlta.
  pose proof (heap_ok_lt _ _ _ Hok Hb) as Hltb.
  pose proof (wf_magnitude_nonneg xa Hwfa) as Hma.
  pose proof (wf_magnitude_nonneg xb Hwfb) as Hmb.
  (* the value from the magnitude and the sign *)
  assert (Hvalue : forall x',
    magnitude x' = (magnitude xa * magnitude xb)%Z ->
    (mul_sign_lost dest a b xa xb -> bi_negative x' = false) ->
    (~ mul_sign_lost dest a b xa xb ->
     bi_negative x' = xorb (bi_negative xa) (bi_negative xb)) ->
    (~ mul_sign_lost dest a b xa xb -> value x' = (value xa * value xb)%Z)
    /\ (mul_sign_lost dest a b xa xb ->
        value x' = Z.abs (value xa * value xb))).
  { intros x' Hmag Hlost Hkeep. split; intros H.
    - rewrite (value_of_sign x' _ _ Hmag (Hkeep H)), !value_unfold.
      destruct (bi_negative xa), (bi_negative xb); simpl; ring.
    - rewrite (value_of_sign x' _ _ Hmag (Hlost H)), !value_unfold.
      rewrite Z.abs_mul.
      destruct (bi_negative xa), (bi_negative xb);
        rewrite ?Z.abs_opp, !Z.abs_eq by lia; reflexivity. }
  rewrite bigint_mul_unfold.
  destruct dest as [d|].
  - destruct Hdest as (xd & Hd & Hwd).
    pose proof (heap_ok_lt _ _ _ Hok Hd) as Hltd.
    unfold accumulator_allocated in Hroom. rewrite Hd in Hroom.
    cbn [from_option] in Hroom.
    destruct (decide (d = a \/ d = b)) as [Halias|Hdist].
    + (* the product is accumulated in a duplicate *)
      assert (Hwxd : wf_bigint xd).
      { destruct Halias as [->| ->]; congruence. }
      assert (Hwp : wp (let* w := bigint_dup d in
                        mul_from_accumulator (Some d) w a b)
                (fun r s' => r = Some d /\
                   exists x',
                     st_heap s' !! d = Some x' /\ wf_bigint x'
                     /\ magnitude x' = (magnitude xa * magnitude xb)%Z
                     /\ (mul_sign_lost (Some d) a b xa xb ->
                         bi_negative x' = false)
                     /\ (~ mul_sign_lost (Some d) a b xa xb ->
                         bi_negative x'
                         = xorb (bi_negative xa) (bi_negative xb))
                     /\ (forall q, q <> d ->
                           st_heap s' !! q = st_heap s !! q)) s).
      { apply wp_bind. eapply wp_mono.
        { apply (bigint_dup_spec d xd); [done | by apply wf_in_bounds |].
          by destruct Hwxd as (_ & ? & _). }
        intros w s1 (-> & ->).
        eapply wp_mono.
        { apply (mul_from_accumulator_spec (Some d) (st_next s) a b
                   (dup_of xd) xa xb (with_new (dup_of xd) s)).
          - apply heap_with_new_eq.
          - by apply wf_bigint_buffer, dup_of_wf.
          - rewrite heap_with_new_ne by lia. exact Ha.
          - rewrite heap_with_new_ne by lia. exact Hb.
          - lia.
          - lia.
          - exact Hwfa.
          - exact Hwfb.
          - exact Hnza.
          - exact Hnzb.
          - exact Hinta.
          - exact Hintb.
          - destruct Halias as [->| ->]; tauto.
          - intros E. injection E as ->. rewrite Hd in Ha.
            by injection Ha as ->.
          - intros E. injection E as ->. rewrite Hd in Hb.
            by injection Hb as ->.
          - exact Hroom. }
        cbn [default from_option id].
        intros r s' (-> & x' & Hx' & Hwf' & Hmag' & Hl & Hk & Hfr & Hgone).
        split; [reflexivity |]. exists x'. split_and!; try done.
        intros q Hq. destruct (decide (q = st_next s)) as [->|Hqw].
        - rewrite Hgone by lia. symmetry. by apply heap_ok_none.
        - rewrite (Hfr q Hq Hqw). by rewrite heap_with_new_ne. }
      destruct (wp_done _ _ _ Hwp)
        as (r & s' & Hrun & -> & x' & Hx' & Hwf' & Hmag' & Hl & Hk & Hfr).
      destruct (Hvalue x' Hmag' Hl Hk) as [Hv1 Hv2].
      exists d, x', s'. split_and!; done.
    + assert (Hda : d <> a) by tauto. assert (Hdb : d <> b) by tauto.
      assert (Hwp : wp (let* w := ret d in
                        mul_from_accumulator (Some d) w a b)
                (fun r s' => r = Some d /\
                   exists x',
                     st_heap s' !! d = Some x' /\ wf_bigint x'
                     /\ magnitude x' = (magnitude xa * magnitude xb)%Z
                     /\ (mul_sign_lost (Some d) a b xa xb ->
                         bi_negative x' = false)
                     /\ (~ mul_sign_lost (Some d) a b xa xb ->
                         bi_negative x'
                         = xorb (bi_negative xa) (bi_negative xb))
                     /\ (forall q, q <> d ->
                           st_heap s' !! q = st_heap s !! q)) s).
      { apply wp_bind. apply wp_ret.
        eapply wp_mono.
        { apply (mul_from_accumulator_spec (Some d) d a b xd xa xb s);
            try done; try tauto; intros E; congruence. }
        cbn [default from_option id].
        intros r s' (-> & x' & Hx' & Hwf' & Hmag' & Hl & Hk & Hfr & _).
        split; [reflexivity |]. exists x'. split_and!; try done.
        intros q Hq. by apply Hfr. }
      destruct (wp_done _ _ _ Hwp)
        as (r & s' & Hrun & -> & x' & Hx' & Hwf' & Hmag' & Hl & Hk & Hfr).
      destruct (Hvalue x' Hmag' Hl Hk) as [Hv1 Hv2].
      exists d, x', s'. split_and!; done.
  - unfold accumulator_allocated in Hroom.
    assert (Hwp : wp (let* w := bigint_from_int 0 in
                      mul_from_accumulator None w a b)
              (fun r s' => r = Some (st_next s) /\
                 exists x',
                   st_heap s' !! st_next s = Some x' /\ wf_bigint x'
                   /\ magnitude x' = (magnitude xa * magnitude xb)%Z
                   /\ (mul_sign_lost None a b xa xb ->
                       bi_negative x' = false)
                   /\ (~ mul_sign_lost None a b xa xb ->
                       bi_negative x'
                       = xorb (bi_negative xa) (bi_negative xb))
                   /\ (forall q, q <> st_next s ->
                         st_heap s' !! q = st_heap s !! q)) s).
    { apply wp_bind. eapply wp_mono.
      { apply (bigint_from_int_spec 0). unfold INTMAX_MIN, INTMAX_MAX. lia. }
      intros w s1 (-> & x & -> & Hwx & _ & Halloc).
      eapply wp_mono.
      { apply (mul_from_accumulator_spec None (st_next s) a b x xa xb
                 (with_new x s)); try done; try lia.
        - apply heap_with_new_eq.
        - by apply wf_bigint_buffer.
        - rewrite heap_with_new_ne by lia. exact Ha.
        - rewrite heap_with_new_ne by lia. exact Hb.
        - by left.
        - by rewrite Halloc. }
      cbn [default from_option id].
      intros r s' (-> & x' & Hx' & Hwf' & Hmag' & Hl & Hk & Hfr & _).
      split; [reflexivity |]. exists x'. split_and!; try done.
      intros q Hq. rewrite (Hfr q Hq Hq). by rewrite heap_with_new_ne. }
    destruct (wp_done _ _ _ Hwp)
      as (r & s' & Hrun & -> & x' & Hx' & Hwf' & Hmag' & Hl & Hk & Hfr).
    destruct (Hvalue x' Hmag' Hl Hk) as [Hv1 Hv2].
    exists (st_next s), x', s'. split_and!; done.
Qed.

(** -25800 times 591619, written over the second factor. *)
Lemma bigint_mul_value_witness :
  let s := sample_pair (sample [200%Z; 100%Z] true) (sample [3%Z; 7%Z; 9%Z] false) in
  let dest := Some 1 in
  let a := 0 in
  let b := 1 in
  let xa := sample [200%Z; 100%Z] true in
  let xb := sample [3%Z; 7%Z; 9%Z] false in
  exists r x' s',
    bigint_mul dest a b s = Done (Some r, s')
    /\ r = default (st_next s) dest
    /\ st_heap s' !! r = Some x' /\ wf_bigint x'
    /\ (~ mul_sign_lost dest a b xa xb ->
        value x' = (value xa * value xb)%Z)
    /\ (mul_sign_lost dest a b xa xb ->
        value x' = Z.abs (value xa * value xb))
    /\ (forall q, q <> r -> st_heap s' !! q = st_heap s !! q).
Proof.
  intros s dest a b xa xb.
  apply (bigint_mul_value s dest a b xa xb).
  - reflexivity.
  - reflexivity.
  - apply (@bool_decide_unpack _ (wf_bigint_dec _)). vm_compute. exact I.
  - apply (@bool_decide_unpack _ (wf_bigint_dec _)). vm_compute. exact I.
  - eexists. split; [reflexivity |].
    apply (@bool_decide_unpack _ (wf_buffer_dec _)). vm_compute. exact I.
  - apply (@bool_decide_unpack _ (heap_ok_dec _)). vm_compute. exact I.
  - by vm_compute.
  - by vm_compute.
  - by vm_compute.
  - by vm_compute.
  - right. right. left. simpl. lia.
Defined.
